(* ===== verification/_CoqProject ===== *)
-Q . S2P
Prelude.v
Errors.v
CryptoBuffer.v
ParseBuffer.v
Wire.v
ExtensionData.v
Extensions.v
CryptoSuite.v
KeySchedule.v
KeyScheduleProps.v
ClientHello.v
Handshake.v
Server.v
ServerRecords.v
ServerHandshake.v
ServerSteps.v
ServerSpec.v
ServerRuns.v
Record.v
WriteBuffer.v
ClientOffer.v
RecordReader.v
ReadBuffer.v
Connection.v
ClientRecords.v
Blocking.v
ClientData.v
ClientStream.v
ClientHandshake.v
ClientRun.v
ClientTermination.v
Future.v
Split.v
AsyncHandshake.v
Asynch.v
Interleaving.v
AsyncSplit.v
AsyncCancel.v
ConnectionInvariant.v
OpenInvariant.v
Hostname.v
DerCertificate.v
Pki.v
WebPki.v
Providers.v
ClientVerifier.v
TestClient.v
TestSteps.v
SelfLoop.v
ServerTests.v
PrimitivesLoop.v
BufferTests.v
MessageTests.v
