(* ===== verification/Prelude.v ===== *)
(** * GatoPSKTLS: a verification of a TLS 1.3 client and PSK server

    GatoPSKTLS (src/src) is an embedded TLS 1.3 implementation: buffers and wire
    formats, the RFC 8446 key schedule, handshake messages and their extensions, a
    PSK server driver (server.rs), and an inherited client: record layer, handshake
    state machine (connection.rs), blocking and asynchronous connections, and two
    certificate verifiers (pki.rs, webpki.rs).  This library models them function by
    function and proves them correct against RFC 8446.

    ** How the code is modelled

    A Rust function that returns [Result<A, E>] and mutates a state [S] is a term of
    type [M S E A = S -> result E A * S]; its outcome is [Ok], [Err] (with the
    mutations made before the error), [Panic] (index out of range, [unwrap] of
    [None], checked arithmetic) or [Diverge] (a loop out of fuel).  Panics and
    divergence are values of the model, so that their absence is a theorem.  A [u8]
    is [Byte.byte]; wider integers are [Z] with every truncating cast written out;
    lengths and indices ([usize]) are [nat], bounded by the size of an allocation, so
    that sums of them do not overflow.  A borrowed mutable slice is a byte list in the
    state.  A running hash is the list of bytes absorbed so far.

    Code outside the repository is a parameter.  Hash, HMAC, HKDF, AEAD and X25519 are
    the operations of [CryptoSuite.TlsCipherSuite] and [CryptoSuite.X25519Ops], with
    the documented facts the crate relies on as the class [TlsCipherSuiteLaws]
    (lengths, totality, opening inverts sealing, the in-place interface).  The transport
    of the client is [RecordReader.Socket] with [SocketLaws] (a stream of bytes that is
    delivered in arbitrary pieces), and [Future.AsyncSocket] when it is asynchronous: a call
    is started, polled, and may be pending any number of times.  The user's provider is
    [Connection.CryptoProvider]; the der, signature and webpki crates are [DerCertificate.DerOps], [Pki.SignatureCrates]
    and [WebPki.WebpkiCrate].  Nothing about secrecy or unforgeability is assumed.
    [CryptoSuite.Toy], [RecordReader.Chunked], [Future.Laggy], [Pki.ToyPki] and
    [WebPki.ToyWeb] implement these interfaces, and the concrete runs and witnesses evaluate on them.

    ** The files

    - Prelude: outcomes, the state and error monad, its weakest precondition [wp], its
      partial postcondition [post], termination ([ends], [calm]), big-endian bytes,
      slices, the shared tactics and hint databases.
    - Errors: TlsError and ParseError (lib.rs, parse_buffer.rs), alert codes (alert.rs).
    - CryptoBuffer: buffer.rs, the write cursor of all encoders.  [encodes m xs]: the
      encoder [m] appends exactly [xs] or reports a lack of space.
    - ParseBuffer: parse_buffer.rs, the read cursor of all parsers.  [parses] and
      [psound] are its completeness and soundness specifications; loops get the length
      of their input as fuel, and [wp_loop] proves that it is enough.
    - Wire: content types, handshake types, cipher suites, extension types, signature
      schemes, groups and the other codes, alerts on the wire.
    - ExtensionData: extensions/extension_data/*.rs, a record, a parser and an encoder
      per payload, with the wire format each of them reads or writes.
    - Extensions: the [extension_group!] macro as a type class [ExtensionGroup], its
      generic code, the seven groups of messages.rs as instances, and the interface
      [ExtensionGroupLaws] that the messages are verified against.
    - CryptoSuite: the cryptographic interface (config.rs).
    - KeySchedule, KeyScheduleProps: key_schedule.rs, finished.rs and binder.rs; RFC
      8446 section 7.1 as functions on byte strings and the proof that the schedule
      computes them; nonces and MACs.
    - ClientHello: client_hello.rs, both the client's encoder with its binder patching
      and the server's zero-copy parser, and TlsConfig with its builders.
    - Handshake: the other messages of handshake/*.rs and the dispatch of mod.rs.
    - Server: server.rs; the random generator of a key pair is a parameter.
    - ServerRecords: what the record writers and readers of server.rs produce and
      accept; application data and alerts.
    - ServerHandshake: the exact bytes of HelloRetryRequest, ServerHello and the
      encrypted handshake records, and the transcript they leave.
    - ServerSteps: the outcome of the two handshake steps on every input.
    - ServerSpec: the abstract handshake [hs_step] and the refinement theorems; the
      negotiation table.
    - ServerRuns: whole handshakes and arbitrary sequences of calls on a session.
    - Record, WriteBuffer, RecordReader, ReadBuffer: the client's record layer
      (record.rs, write_buffer.rs, record_reader.rs, read_buffer.rs, common/*.rs).
    - Connection: connection.rs, decryption and dispatch of records, the handlers of the
      handshake states.
    - Blocking: blocking.rs, TlsConnection (open, write, flush, read, close).
    - Split: the two halves of a split connection, which share the opened flag and the
      transport.
    - Future: asynchronous functions as trees of synchronous code and awaited calls of the
      transport, tasks that are polled and dropped, the interface [AsyncSocket].
    - AsyncHandshake, Asynch: the asynchronous functions of record_reader.rs, connection.rs
      and asynch.rs, with their await points.
    - Interleaving, AsyncSplit: schedules of two tasks; the halves of a connection.
    - AsyncCancel: what a call that is dropped while it waits leaves behind.
    - ConnectionInvariant, OpenInvariant: the well-formedness of a connection, from the
      handshake on.
    - ClientOffer, ClientRecords, ClientData, ClientStream, ClientHandshake, ClientRun,
      ClientTermination: what the client offers, what it does with any record, the data it
      sends and receives, its handshake and that it ends.
    - Hostname, DerCertificate, Pki: der_certificate.rs and pki.rs.
    - WebPki: webpki.rs.
    - Providers: the trait TlsVerifier, UnsecureProvider and NoVerify of config.rs, providers
      with the verifier of pki.rs or webpki.rs.
    - ClientVerifier: the contract of a verifier and what a handshake with one establishes.
    - TestClient, TestSteps, SelfLoop, ServerTests: the test module of server.rs; the helpers
      that play the client, the steps of a handshake, the handshake tests and the others.
    - PrimitivesLoop: server_self_loop_test.rs.
    - BufferTests, MessageTests: the unit tests of the other files.

    ** What is proved

    - The server refines the RFC handshake ([hello_refines], [finished_refines]): on
      any input the two steps return, take exactly the transitions of [hs_step], and
      leave the session that represents the new state.  Consequences: a flight or retry
      is sent only for a valid binder ([psk_authentication]), the keys after the
      handshake are the RFC's ([handshake_keys_rfc]); no
      sequence of calls of the session's methods, each ClientHello with any configuration,
      panics ([session_never_panics]) or sends a second HelloRetryRequest
      ([at_most_one_retry]).
    - The tests of the server are theorems: with their constants as parameters, the
      sessions they drive with a simulated client complete and carry data for every PSK,
      identity, random, message and cipher suite ([psk_ke_session_completes]), with X25519
      and through a HelloRetryRequest for every pair of secrets whose shared secret is not
      zero ([x25519_sessions_complete], under [X25519Laws]: results have 32 bytes and both ends compute the same secret).  The alert tests hold for every alert
      ([alerts_round_trip]), the test of the primitives for every PSK ([self_loop_completes]),
      the tests of the key schedule for all keys ([key_schedule_tests]), those of the reader
      for every transport ([read_stream_passes]).  All tests are also evaluated, with
      the constants of the source, on the suite of [CryptoSuite.Toy].
    - Records: application data and alerts round-trip as streams, no nonce is used
      twice under one key, decryption accepts exactly what the AEAD opens.
    - The key schedule is the RFC's, and create and verify of MACs agree.
    - Parsers: the ClientHello parser, the extension vectors, the PSK offer and list
      parsing accept exactly their wire formats and terminate; the client's parser of
      server messages returns on every input; encoders and parsers round-trip.
    - The client's handshake: when it succeeds, over any transport, the peer proved
      knowledge of the handshake secret and the keys are the RFC's
      ([client_open_authentic]); with a server that follows the RFC it succeeds
      ([client_handshake_completes]), and with any peer it ends ([client_terminates]); its
      binders are those the server checks ([client_offer_verifies]), although this
      crate's server refuses every ClientHello that this crate's client writes, for every
      configuration the builders make ([own_client_refused]).  With the verifier
      of pki.rs, every certificate and signature the server sent was checked
      ([client_pki_authentic]).
    - Asynchronous connections: a call that is polled to its end does what the blocking one
      does, on a connection and on its halves ([async_equivalent]); the halves of a connection can be polled in any order
      ([halves_linearizable]); a connection is well formed after every call, also a dropped
      one ([opened_connection_wf]), but a flush dropped while it writes its record makes the
      next record reuse the nonce ([dropped_flush_repeats_nonce]; dropped later, while the
      transport is flushed, it does not) and a dropped read can lose bytes
      ([dropped_read_loses_bytes]).
    - The client's data: what it writes reaches the server ([client_data_reaches_server]),
      what it reads is what the peer sealed ([client_reads_stream]), however the
      transport cuts the stream ([reader_exact]: unless the transport fails, the result of
      reading a record is a function of the unread bytes); a record is decrypted and dispatched
      without panic but for the empty plaintext ([decrypt_record_total]); the halves of a
      split connection behave as the connection ([split_equivalent]).
    - Certificates: host names match label by label, and the common name is tried even where
      the documentation of the function ignores it ([hostname_match_exact]); an accepted
      certificate and signature come with a path from the CA ([pki_authenticates]); the
      panics of the verifier are exactly known ([pki_signature_panics]); the webpki
      verifier cannot verify with SHA-384 ([webpki_message_bound]).

    ** Fuel and bounds

    The "while not empty" loops of the parsers ([ParseBuffer.loop_nonempty],
    [Connection.messages_loop]) get the length of the slice they read as fuel, and since
    every iteration consumes a byte it never runs out.  The loops of the record reader get
    the number of bytes they wait for: every read of the transport gives at least one or is
    an error.  The loop over general names gets the length its reader reports, the loop over
    a certificate chain its length.  [Blocking.open] and [read_buffered] wait for the peer
    and take their fuel as an argument; [client_terminates] shows that six more than the
    number of incoming bytes is enough.  Record counters are 64-bit; the session theorems
    bound the number of calls by 2^64 - 2 instead of assuming that a counter cannot
    overflow.  Messages of the session tests have at most 234 bytes, what fits the arrays
    of 256 bytes the tests use.  The label counters of the
    host name comparison are 32-bit, and names of at most 64 bytes do not overflow them.
    The theorems about writing ask for a write buffer of 133 or 134 to 65535 bytes: a record
    header and the reserve of 128 bytes must fit, and a length must fit its 16 bits.  A task
    may be polled any number of times; what it leaves is stated for every number of polls.

    ** Not modelled

    fmt.rs is logging, and the Debug, Display and Format instances are formatting; the
    examples and the tests under tests/ run the library against sockets and other
    programs; the clock and the client's random and key pair are inputs of the model.
    [RecordReader::read] and [WriteBuffer]
    have forwarding methods for borrowed buffers, which are the functions they forward to.
    The waker of a task is not modelled: a task may be polled at any time.  The decoding of
    DER, the verification of signatures and the path building of webpki are crates. *)

From Stdlib Require Import ZArith Lia.
From Stdlib Require Import Strings.Byte.
From stdpp Require Import base list option numbers tactics sets.

Declare Scope tls_scope.
Delimit Scope tls_scope with tls.

(** ** Outcomes and the state monad of the development

    A Rust function of type [Result<A, E>] that mutates a state [S] ends in one
    of four ways: [Ok], [Err] (the state keeps the mutations made before the
    error), a panic (index out of bounds, [unwrap] of [None], arithmetic
    overflow in a checked build), or it does not return.  [Diverge] is produced
    only by the loop combinator when its fuel runs out. *)
Inductive result (E A : Type) : Type :=
| Ok (a : A)
| Err (e : E)
| Panic
| Diverge.
Arguments Ok {E A} a.
Arguments Err {E A} e.
Arguments Panic {E A}.
Arguments Diverge {E A}.

#[global] Instance result_eq_dec {E A} `{!EqDecision E, !EqDecision A} :
  EqDecision (result E A).
Proof. solve_decision. Defined.

Definition M (S E A : Type) : Type := S -> result E A * S.

#[global] Instance M_ret S E : MRet (M S E) := fun A a s => (Ok a, s).
#[global] Instance M_bind S E : MBind (M S E) := fun A B k m s =>
  match m s with
  | (Ok a, s') => k a s'
  | (Err e, s') => (Err e, s')
  | (Panic, s') => (Panic, s')
  | (Diverge, s') => (Diverge, s')
  end.

Section Monad.
Context {S E : Type}.

Definition err {A} (e : E) : M S E A := fun s => (Err e, s).
Definition panic {A} : M S E A := fun s => (Panic, s).
(** a loop out of fuel *)
Definition diverge {A} : M S E A := fun s => (Diverge, s).
Definition get : M S E S := fun s => (Ok s, s).
Definition put (s : S) : M S E unit := fun _ => (Ok tt, s).
Definition modify (f : S -> S) : M S E unit := fun s => (Ok tt, f s).

(** [Option::ok_or] followed by [?], and [Option::unwrap]. *)
Definition ok_or {A} (o : option A) (e : E) : M S E A :=
  match o with Some a => mret a | None => err e end.
Definition unwrap {A} (o : option A) : M S E A :=
  match o with Some a => mret a | None => panic end.

(** [Result::map_err]. *)
Definition map_err {E' A} (f : E' -> E) (m : M S E' A) : M S E A := fun s =>
  match m s with
  | (Ok a, s') => (Ok a, s')
  | (Err e, s') => (Err (f e), s')
  | (Panic, s') => (Panic, s')
  | (Diverge, s') => (Diverge, s')
  end.

(** A [Result] kept as a value instead of being propagated with [?]. *)
Definition try_ {E' A} (m : M S E' A) : M S E (A + E') := fun s =>
  match m s with
  | (Ok a, s') => (Ok (inl a), s')
  | (Err e, s') => (Ok (inr e), s')
  | (Panic, s') => (Panic, s')
  | (Diverge, s') => (Diverge, s')
  end.

(** Run a computation on a component of the state. *)
Definition zoom {T A} (view : S -> T) (upd : T -> S -> S) (m : M T E A) : M S E A :=
  fun s => let '(r, t) := m (view s) in (r, upd t s).

(** Run a computation on a fresh local state, which is dropped afterwards. *)
Definition run_on {T A} (t : T) (m : M T E A) : M S E A :=
  fun s => let '(r, _) := m t in
  match r with
  | Ok a => (Ok a, s)
  | Err e => (Err e, s)
  | Panic => (Panic, s)
  | Diverge => (Diverge, s)
  end.
End Monad.

Definition on_fst {S T E A} (m : M S E A) : M (S * T) E A :=
  zoom fst (fun s st => (s, snd st)) m.
Definition on_snd {S T E A} (m : M T E A) : M (S * T) E A :=
  zoom snd (fun t st => (fst st, t)) m.

Lemma zoom_run {S T E A} (view : S -> T) (upd : T -> S -> S) (m : M T E A) s r t :
  m (view s) = (r, t) -> zoom view upd m s = (r, upd t s).
Proof. unfold zoom. by intros ->. Qed.
Lemma on_fst_run {S T E A} (m : M S E A) s (t : T) r s' :
  m s = (r, s') -> on_fst m (s, t) = (r, (s', t)).
Proof. unfold on_fst, zoom. simpl. by intros ->. Qed.
Lemma on_snd_run {S T E A} (m : M T E A) (s : S) t r t' :
  m t = (r, t') -> on_snd m (s, t) = (r, (s, t')).
Proof. unfold on_snd, zoom. simpl. by intros ->. Qed.

(** [for x in l { body(x)?; }] *)
Fixpoint for_each {S E A} (l : list A) (body : A -> M S E unit) : M S E unit :=
  match l with
  | [] => mret tt
  | a :: l' => body a;; for_each l' body
  end.

(** ** A weakest precondition

    [wp m s Q R]: from [s], the computation [m] returns (it neither panics nor
    diverges), with [Q] on the value and the final state when it is [Ok], and
    [R] on the error and the final state when it is [Err]. *)
Definition wp {S E A} (m : M S E A) (s : S)
    (Q : A -> S -> Prop) (R : E -> S -> Prop) : Prop :=
  match m s with
  | (Ok a, s') => Q a s'
  | (Err e, s') => R e s'
  | (Panic, _) => False
  | (Diverge, _) => False
  end.

Section WP.
Context {S E : Type}.
Implicit Types s : S.

Lemma wp_ret {A} (a : A) s (Q : A -> S -> Prop) (R : E -> S -> Prop) :
  wp (mret a) s Q R <-> Q a s.
Proof. done. Qed.

Lemma wp_err {A} (e : E) s (Q : A -> S -> Prop) (R : E -> S -> Prop) :
  wp (err e) s Q R <-> R e s.
Proof. done. Qed.

Lemma wp_get s (Q : S -> S -> Prop) (R : E -> S -> Prop) :
  wp get s Q R <-> Q s s.
Proof. done. Qed.

Lemma wp_put s t (Q : unit -> S -> Prop) (R : E -> S -> Prop) :
  wp (put t) s Q R <-> Q tt t.
Proof. done. Qed.

Lemma wp_modify s f (Q : unit -> S -> Prop) (R : E -> S -> Prop) :
  wp (modify f) s Q R <-> Q tt (f s).
Proof. done. Qed.

Lemma wp_bind {A B} (m : M S E A) (k : A -> M S E B) s Q R :
  wp (m ≫= k) s Q R <-> wp m s (fun a s' => wp (k a) s' Q R) R.
Proof. unfold wp, mbind, M_bind. by destruct (m s) as [[] ?]. Qed.

Lemma wp_bind_Ok {A B} (m : M S E A) (k : A -> M S E B) s a s' Q R :
  m s = (Ok a, s') -> wp (k a) s' Q R -> wp (m ≫= k) s Q R.
Proof. unfold wp, mbind, M_bind. by intros ->. Qed.

Lemma wp_mono {A} (m : M S E A) s (Q Q' : A -> S -> Prop) (R R' : E -> S -> Prop) :
  wp m s Q R ->
  (forall a s', Q a s' -> Q' a s') ->
  (forall e s', R e s' -> R' e s') ->
  wp m s Q' R'.
Proof. unfold wp. destruct (m s) as [[] ?]; naive_solver. Qed.

Lemma wp_map_err {E' A} (f : E' -> E) (m : M S E' A) s Q R :
  wp (map_err f m) s Q R <-> wp m s Q (fun e => R (f e)).
Proof. unfold wp, map_err. by destruct (m s) as [[] ?]. Qed.

Lemma wp_try {E' A} (m : M S E' A) s (Q : A + E' -> S -> Prop) (R : E -> S -> Prop) :
  wp (try_ m) s Q R <-> wp m s (fun a => Q (inl a)) (fun e => Q (inr e)).
Proof. unfold wp, try_. by destruct (m s) as [[] ?]. Qed.

Lemma wp_ok_or {A} (o : option A) (e : E) s Q R :
  wp (ok_or o e) s Q R <->
  match o with Some a => Q a s | None => R e s end.
Proof. by destruct o. Qed.

Lemma wp_zoom {T A} (view : S -> T) (upd : T -> S -> S) (m : M T E A) s Q R :
  wp (zoom view upd m) s Q R <->
  wp m (view s) (fun a t => Q a (upd t s)) (fun e t => R e (upd t s)).
Proof. unfold wp, zoom. by destruct (m (view s)) as [[] ?]. Qed.

Lemma wp_run_on {T A} (t : T) (m : M T E A) s Q R :
  wp (run_on t m) s Q R <-> wp m t (fun a _ => Q a s) (fun e _ => R e s).
Proof. unfold wp, run_on. by destruct (m t) as [[] ?]. Qed.

(** What a computation known to meet a [wp] can have returned. *)
Lemma wp_Ok {A} (m : M S E A) s Q R a s' :
  wp m s Q R -> m s = (Ok a, s') -> Q a s'.
Proof. unfold wp. intros H Hm. by rewrite Hm in H. Qed.

Lemma wp_returns {A} (m : M S E A) s Q R :
  wp m s Q R -> exists r s', m s = (r, s') /\ r <> Panic /\ r <> Diverge.
Proof. unfold wp. destruct (m s) as [[] ?]; naive_solver. Qed.

Lemma wp_for_each {A} (l : list A) (body : A -> M S E unit) (I : S -> Prop) s Q R :
  I s ->
  (forall a s', a ∈ l -> I s' -> wp (body a) s' (fun _ => I) R) ->
  (forall s', I s' -> Q tt s') ->
  wp (for_each l body) s Q R.
Proof.
  revert s. induction l as [|a l IH]; intros s Hs Hbody HQ; simpl.
  - by apply HQ.
  - apply wp_bind. eapply wp_mono; [apply Hbody; [set_solver|done]| |done].
    intros [] s' Hs'. apply IH; [done| |done]. intros; apply Hbody; set_solver.
Qed.
End WP.

(** ** A partial postcondition

    [post m s Q]: whatever [m] does from [s], when it is [Ok] then with [Q]. *)
Definition post {S E A} (m : M S E A) (s : S) (Q : A -> S -> Prop) : Prop :=
  forall a s', m s = (Ok a, s') -> Q a s'.

Section Post.
Context {S E : Type}.
Implicit Types s : S.

Lemma post_ret {A} (a : A) s (Q : A -> S -> Prop) : Q a s -> post (E := E) (mret a) s Q.
Proof. by intros HQ ? ? [= <- <-]. Qed.
Lemma post_err {A} (e : E) s (Q : A -> S -> Prop) : post (err e) s Q.
Proof. by intros ? ?. Qed.
Lemma post_panic {A} s (Q : A -> S -> Prop) : post (E := E) panic s Q.
Proof. by intros ? ?. Qed.
Lemma post_get s (Q : S -> S -> Prop) : Q s s -> post (E := E) get s Q.
Proof. by intros HQ ? ? [= <- <-]. Qed.
Lemma post_put s t (Q : unit -> S -> Prop) : Q tt t -> post (E := E) (put t) s Q.
Proof. by intros HQ ? ? [= <- <-]. Qed.
Lemma post_modify s f (Q : unit -> S -> Prop) : Q tt (f s) -> post (E := E) (modify f) s Q.
Proof. by intros HQ ? ? [= <- <-]. Qed.

Lemma post_bind {A B} (m : M S E A) (k : A -> M S E B) s Q :
  post m s (fun a s' => post (k a) s' Q) -> post (m ≫= k) s Q.
Proof.
  intros H b s''. unfold mbind, M_bind. destruct (m s) as [[a|e| |] s'] eqn:Hm; try done. by apply H.
Qed.

Lemma post_mono {A} (m : M S E A) s (Q Q' : A -> S -> Prop) :
  post m s Q -> (forall a s', Q a s' -> Q' a s') -> post m s Q'.
Proof. unfold post. naive_solver. Qed.

Lemma post_wp {A} (m : M S E A) s Q R : wp m s Q R -> post m s Q.
Proof. intros H a s' Hm. by eapply wp_Ok. Qed.

Lemma post_run {A} (m : M S E A) s (Q : A -> S -> Prop) a s' : m s = (Ok a, s') -> Q a s' -> post m s Q.
Proof. intros Hm HQ ? ? Hm'. rewrite Hm in Hm'. by injection Hm' as <- <-. Qed.

Lemma post_map_err {E' A} (f : E' -> E) (m : M S E' A) s Q : post m s Q -> post (map_err f m) s Q.
Proof. intros H a s'. unfold map_err. destruct (m s) as [[]?] eqn:Hm; try done. intros [= <- <-]. by apply H. Qed.

Lemma post_try {E' A} (m : M S E' A) s (Q : A + E' -> S -> Prop) :
  post m s (fun a => Q (inl a)) -> (forall e s', m s = (Err e, s') -> Q (inr e) s') ->
  post (E := E) (try_ m) s Q.
Proof.
  intros H He a s'. unfold try_. destruct (m s) as [[]?] eqn:Hm; try done; intros [= <- <-]; auto.
Qed.

Lemma post_ok_or {A} (o : option A) (e : E) s (Q : A -> S -> Prop) :
  (forall a, o = Some a -> Q a s) -> post (ok_or o e) s Q.
Proof. intros H a s'. destruct o; [|done]. intros [= <- <-]. by apply H. Qed.
Lemma post_unwrap {A} (o : option A) s (Q : A -> S -> Prop) :
  (forall a, o = Some a -> Q a s) -> post (E := E) (unwrap o) s Q.
Proof. intros H a s'. destruct o; [|done]. intros [= <- <-]. by apply H. Qed.

Lemma post_zoom {T A} (view : S -> T) (upd : T -> S -> S) (m : M T E A) s Q :
  post m (view s) (fun a t => Q a (upd t s)) -> post (zoom view upd m) s Q.
Proof. intros H a s'. unfold zoom. destruct (m (view s)) as [r t] eqn:Hm. intros [= -> <-]. by apply H. Qed.

Lemma post_run_on {T A} (t : T) (m : M T E A) s (Q : A -> S -> Prop) :
  post m t (fun a _ => Q a s) -> post (run_on t m) s Q.
Proof.
  intros H a s'. unfold run_on. destruct (m t) as [[]] eqn:Hm; try done. intros [= <- <-]. by eapply H.
Qed.
End Post.

Lemma post_True {S E A} (m : M S E A) s : post m s (fun _ _ => True).
Proof. done. Qed.

Lemma post_on_fst {S T E A} (m : M S E A) s (t : T) (Q : A -> S * T -> Prop) :
  post m s (fun a s' => Q a (s', t)) -> post (on_fst m) (s, t) Q.
Proof. intros H. by apply post_zoom. Qed.

Lemma post_on_snd {S T E A} (m : M T E A) (s : S) t (Q : A -> S * T -> Prop) :
  post m t (fun a t' => Q a (s, t')) -> post (on_snd m) (s, t) Q.
Proof. intros H. by apply post_zoom. Qed.

(** One step through a computation for its partial postcondition. *)
Ltac post_step :=
  lazymatch goal with
  | |- post (mbind _ _) _ _ => apply post_bind
  | |- post (mret _) _ _ => apply post_ret
  | |- post (err _) _ _ => apply post_err
  | |- post panic _ _ => apply post_panic
  | |- post get _ _ => apply post_get
  | |- post (put _) _ _ => apply post_put
  | |- post (modify _) _ _ => apply post_modify
  | |- post (map_err _ _) _ _ => apply post_map_err
  | |- post (on_fst _) _ _ => apply post_on_fst
  | |- post (on_snd _) _ _ => apply post_on_snd
  | |- post (zoom _ _ _) _ _ => apply post_zoom
  | |- post (ok_or _ _) _ _ => apply post_ok_or; intros ? ?
  | |- post (unwrap _) _ _ => apply post_unwrap; intros ? ?
  | |- post (run_on _ _) _ _ => apply post_run_on
  end.

(** ** Termination

    [ends m s]: from [s], [m] does not run for ever; [calm m]: from no state does it. *)
Definition ends {S E A} (m : M S E A) (s : S) : Prop := fst (m s) <> Diverge.
Definition calm {S E A} (m : M S E A) : Prop := forall s, ends m s.

Section Ends.
Context {S E : Type}.

Lemma ends_wp {A} (m : M S E A) s Q R : wp m s Q R -> ends m s.
Proof. unfold wp, ends. by destruct (m s) as [[] ?]. Qed.
Lemma ends_bind {A B} (m : M S E A) (k : A -> M S E B) s :
  ends m s -> post m s (fun a s' => ends (k a) s') -> ends (m ≫= k) s.
Proof.
  unfold ends, post, mbind, M_bind. intros Hm Hk. destruct (m s) as [[a|e| |] s']; try done. by apply Hk.
Qed.
Lemma ends_zoom {T A} (view : S -> T) (upd : T -> S -> S) (m : M T E A) s :
  ends m (view s) -> ends (zoom view upd m) s.
Proof. unfold ends, zoom. by destruct (m (view s)). Qed.

Lemma calm_ret {A} (a : A) : calm (mret a : M S E A).
Proof. done. Qed.
Lemma calm_err {A} (e : E) : calm (err e : M S E A).
Proof. done. Qed.
Lemma calm_panic {A} : calm (panic : M S E A).
Proof. done. Qed.
Lemma calm_get : calm (get : M S E S).
Proof. done. Qed.
Lemma calm_put s : calm (put s : M S E unit).
Proof. done. Qed.
Lemma calm_modify f : calm (modify f : M S E unit).
Proof. done. Qed.
Lemma calm_ok_or {A} (o : option A) (e : E) : calm (ok_or o e : M S E A).
Proof. by destruct o. Qed.
Lemma calm_unwrap {A} (o : option A) : calm (unwrap o : M S E A).
Proof. by destruct o. Qed.
Lemma calm_bind {A B} (m : M S E A) (k : A -> M S E B) : calm m -> (forall a, calm (k a)) -> calm (m ≫= k).
Proof. intros Hm Hk s. apply ends_bind; [apply Hm|]. intros a s' _. apply Hk. Qed.
Lemma calm_map_err {E' A} (f : E' -> E) (m : M S E' A) : calm m -> calm (map_err f m).
Proof. intros Hm s. specialize (Hm s). unfold ends, map_err in *. by destruct (m s) as [[] ?]. Qed.
Lemma calm_try {E' A} (m : M S E' A) : calm m -> calm (try_ m : M S E _).
Proof. intros Hm s. specialize (Hm s). unfold ends, try_ in *. by destruct (m s) as [[] ?]. Qed.
Lemma calm_zoom {T A} (view : S -> T) (upd : T -> S -> S) (m : M T E A) : calm m -> calm (zoom view upd m).
Proof. intros Hm s. apply ends_zoom, Hm. Qed.
Lemma calm_run_on {T A} (t : T) (m : M T E A) : ends m t -> calm (run_on t m : M S E A).
Proof. intros Hm s. unfold ends, run_on in *. by destruct (m t) as [[] ?]. Qed.
Lemma calm_for_each {A} (l : list A) (body : A -> M S E unit) :
  (forall a, calm (body a)) -> calm (for_each l body).
Proof. intros Hb. induction l; simpl; [apply calm_ret|]. by apply calm_bind. Qed.
End Ends.

Create HintDb calm.
#[export] Hint Resolve calm_ret calm_err calm_panic calm_get calm_put calm_modify calm_ok_or calm_unwrap : calm.

(** Termination of code without loops: follow its structure. *)
Ltac calm_step :=
  first
    [ progress intros
    | solve [auto with calm nocore]
    | lazymatch goal with
      | |- calm (mbind _ _) => apply calm_bind
      | |- calm (map_err _ _) => apply calm_map_err
      | |- calm (try_ _) => apply calm_try
      | |- calm (zoom _ _ _) => apply calm_zoom
      | |- calm (on_fst _) => apply calm_zoom
      | |- calm (on_snd _) => apply calm_zoom
      | |- calm (for_each _ _) => apply calm_for_each
      | |- calm (match _ with _ => _ end) => case_match
      end ].
Ltac calm := repeat calm_step.

(** Equations for running a bind whose first part is known. *)
Lemma bind_Ok {S E A B} (m : M S E A) (k : A -> M S E B) s a s' :
  m s = (Ok a, s') -> (m ≫= k) s = k a s'.
Proof. unfold mbind, M_bind. by intros ->. Qed.

Lemma bind_Err {S E A B} (m : M S E A) (k : A -> M S E B) s e s' :
  m s = (Err e, s') -> (m ≫= k) s = (Err e, s').
Proof. unfold mbind, M_bind. by intros ->. Qed.

Lemma bind_assoc {S E A B C} (m : M S E A) (k : A -> M S E B) (k' : B -> M S E C) s :
  ((m ≫= k) ≫= k') s = (m ≫= (fun a => k a ≫= k')) s.
Proof. unfold mbind, M_bind. by destruct (m s) as [[] ?]. Qed.

Lemma bind_ret {S E A B} (a : A) (k : A -> M S E B) s : (mret a ≫= k) s = k a s.
Proof. done. Qed.
Lemma bind_err {S E A B} (e : E) (k : A -> M S E B) s : (err e ≫= k) s = (Err e, s).
Proof. done. Qed.
Lemma bind_get {S E B} (k : S -> M S E B) s : (get ≫= k) s = k s s.
Proof. done. Qed.
Lemma bind_put {S E B} t (k : unit -> M S E B) s : (put t ≫= k) s = k tt t.
Proof. done. Qed.
Lemma bind_modify {S E B} f (k : unit -> M S E B) s : (modify f ≫= k) s = k tt (f s).
Proof. done. Qed.
Lemma bind_ok_or_Some {S E A B} (a : A) e (k : A -> M S E B) s :
  (ok_or (Some a) e ≫= k) s = k a s.
Proof. done. Qed.
Lemma bind_ok_or_None {S E A B} (e : E) (k : A -> M S E B) s :
  (ok_or None e ≫= k) s = (Err e, s).
Proof. done. Qed.
Lemma bind_unwrap_Some {S E A B} (a : A) (k : A -> M S E B) s :
  (unwrap (Some a) ≫= k) s = k a s.
Proof. done. Qed.

Lemma bind_unwrap_Some_wp {S E A B} (a : A) (k : A -> M S E B) s Q R :
  wp (unwrap (Some a) ≫= k) s Q R = wp (k a) s Q R.
Proof. done. Qed.

Lemma bind_inv_Ok {S E A B} (m : M S E A) (k : A -> M S E B) s b s'' :
  (m ≫= k) s = (Ok b, s'') ->
  exists a s', m s = (Ok a, s') /\ k a s' = (Ok b, s'').
Proof. unfold mbind, M_bind. destruct (m s) as [[] ?]; naive_solver. Qed.

Lemma map_err_inv_Ok {S E E' A} (f : E' -> E) (m : M S E' A) s a s' :
  map_err f m s = (Ok a, s') -> m s = (Ok a, s').
Proof. unfold map_err. destruct (m s) as [[] ?]; naive_solver. Qed.

Lemma map_err_Ok {S E E' A} (f : E' -> E) (m : M S E' A) s a s' :
  m s = (Ok a, s') -> map_err f m s = (Ok a, s').
Proof. unfold map_err. by intros ->. Qed.

Lemma map_err_Err {S E E' A} (f : E' -> E) (m : M S E' A) s e s' :
  m s = (Err e, s') -> map_err f m s = (Err (f e), s').
Proof. unfold map_err. by intros ->. Qed.

(** ** Bytes and big-endian integers

    A [u8] is a [Byte.byte]; wider unsigned integers are [Z], truncated where
    the source casts with [as]; [usize] values (lengths and indices) are [nat]. *)
Definition byte_val (b : byte) : Z := Z.of_N (Byte.to_N b).

(** [z as u8] *)
Definition u8 (z : Z) : byte :=
  match Byte.of_N (Z.to_N (z mod 256)) with Some b => b | None => x00 end.

(** [n as u8] for a [usize] *)
Definition u8_of_nat (n : nat) : byte := u8 (Z.of_nat n).

#[global] Instance byte_eq_dec : EqDecision byte := Byte.byte_eq_dec.

Lemma byte_val_range b : (0 <= byte_val b < 256)%Z.
Proof. unfold byte_val. pose proof (Byte.to_N_bounded b). lia. Qed.

Lemma byte_val_u8 z : byte_val (u8 z) = (z mod 256)%Z.
Proof.
  unfold byte_val, u8. pose proof (Z.mod_pos_bound z 256 ltac:(lia)).
  destruct (Byte.of_N _) as [b|] eqn:Hb.
  - apply Byte.to_of_N in Hb. rewrite Hb. lia.
  - apply Byte.of_N_None_iff in Hb. lia.
Qed.

Lemma u8_byte_val b : u8 (byte_val b) = b.
Proof. by destruct b. Qed.

Lemma byte_val_inj b c : byte_val b = byte_val c -> b = c.
Proof. intros H. by rewrite <-(u8_byte_val b), H, u8_byte_val. Qed.

Lemma u8_mod z : u8 (z mod 256) = u8 z.
Proof. apply byte_val_inj. rewrite !byte_val_u8. apply Z.mod_mod. lia. Qed.

(** [x.to_be_bytes()] of an [8 n]-bit integer. *)
Fixpoint be_bytes (n : nat) (z : Z) : list byte :=
  match n with
  | O => []
  | S n' => u8 (z ≫ (8 * Z.of_nat n')) :: be_bytes n' z
  end.

(** [uN::from_be_bytes(l)] *)
Definition from_be (l : list byte) : Z :=
  foldl (fun acc b => (acc * 256 + byte_val b)%Z) 0%Z l.

#[global] Arguments from_be : simpl never.
#[global] Arguments u8 : simpl never.

Lemma length_be_bytes n z : length (be_bytes n z) = n.
Proof. induction n; [done|]. cbn [be_bytes length]. by f_equal. Qed.

Lemma from_be_snoc l b : from_be (l ++ [b]) = (from_be l * 256 + byte_val b)%Z.
Proof. unfold from_be. by rewrite foldl_app. Qed.

Lemma from_be_foldl l acc :
  foldl (fun acc b => (acc * 256 + byte_val b)%Z) acc l
  = (acc * 256 ^ Z.of_nat (length l) + from_be l)%Z.
Proof.
  revert acc. induction l as [|b l IH]; intros acc; unfold from_be; cbn [foldl length].
  - lia.
  - rewrite IH, (IH (0 * 256 + byte_val b)%Z), Nat2Z.inj_succ, Z.pow_succ_r by lia. lia.
Qed.

Lemma from_be_cons b l :
  from_be (b :: l) = (byte_val b * 256 ^ Z.of_nat (length l) + from_be l)%Z.
Proof. unfold from_be at 1. cbn [foldl]. rewrite from_be_foldl. lia. Qed.

Lemma from_be_range l : (0 <= from_be l < 256 ^ Z.of_nat (length l))%Z.
Proof.
  induction l as [|b l IH]; [by cbv|].
  rewrite from_be_cons. pose proof (byte_val_range b). simpl length.
  rewrite Nat2Z.inj_succ, Z.pow_succ_r by lia. nia.
Qed.

Lemma from_be_be_bytes n z : from_be (be_bytes n z) = (z mod 256 ^ Z.of_nat n)%Z.
Proof.
  induction n as [|n IH]; [by rewrite Z.mod_1_r|].
  cbn [be_bytes]. rewrite from_be_cons, IH, length_be_bytes, byte_val_u8.
  rewrite Z.shiftr_div_pow2 by lia.
  assert ((2 ^ (8 * Z.of_nat n) = 256 ^ Z.of_nat n)%Z) as ->.
  { rewrite Z.pow_mul_r by lia. done. }
  rewrite Nat2Z.inj_succ, Z.pow_succ_r by lia.
  rewrite (Z.mul_comm 256).
  rewrite Z.rem_mul_r by (try apply Z.pow_nonzero; lia). lia.
Qed.

Lemma be_bytes_from_be l : be_bytes (length l) (from_be l) = l.
Proof.
  assert (Hinj : forall k l1 l2, length l1 = k -> length l2 = k ->
            from_be l1 = from_be l2 -> l1 = l2).
  { induction k as [|k IH]; intros [|b l1] [|c l2]; simpl; intros H1 H2 Heq; try done.
    rewrite !from_be_cons in Heq.
    pose proof (from_be_range l1). pose proof (from_be_range l2).
    pose proof (byte_val_range b). pose proof (byte_val_range c).
    injection H1 as H1. injection H2 as H2. rewrite H1, H2 in *.
    assert (byte_val b = byte_val c) as Hb by nia.
    rewrite (byte_val_inj _ _ Hb). f_equal. apply IH; [done|done|nia]. }
  eapply Hinj; [apply length_be_bytes|done|].
  rewrite from_be_be_bytes. apply Z.mod_small, from_be_range.
Qed.

(** ** Slices

    [sub l a b] is [&l[a..b]]: it panics ([None]) unless [a <= b <= l.len()].
    [splice l a xs] overwrites [l] from index [a] with [xs] (the caller keeps
    [a + |xs|] in range). *)
Definition sub {A} (l : list A) (a b : nat) : option (list A) :=
  if decide (a <= b <= length l) then Some (take (b - a) (drop a l)) else None.

Definition splice {A} (l : list A) (a : nat) (xs : list A) : list A :=
  take a l ++ xs ++ drop (a + length xs) l.

Lemma sub_Some {A} (l : list A) a b :
  a <= b <= length l -> sub l a b = Some (take (b - a) (drop a l)).
Proof. intros. unfold sub. by rewrite decide_True. Qed.

Lemma sub_app {A} (l1 l2 l3 : list A) :
  sub (l1 ++ l2 ++ l3) (length l1) (length l1 + length l2) = Some l2.
Proof.
  rewrite sub_Some by (rewrite !length_app; lia).
  rewrite drop_app_length. f_equal.
  replace (length l1 + length l2 - length l1) with (length l2) by lia.
  apply take_app_length.
Qed.

Lemma length_splice {A} (l : list A) a xs :
  a + length xs <= length l -> length (splice l a xs) = length l.
Proof. intros. unfold splice. rewrite !length_app, length_take, length_drop. lia. Qed.

Lemma splice_app {A} (l1 l2 l3 xs : list A) :
  length xs = length l2 -> splice (l1 ++ l2 ++ l3) (length l1) xs = l1 ++ xs ++ l3.
Proof.
  intros Hxs. unfold splice. rewrite take_app_length, Hxs.
  do 2 f_equal. rewrite <-drop_drop, drop_app_length. apply drop_app_length.
Qed.

Lemma list_split3 {A} (l : list A) a n :
  a + n <= length l ->
  exists l1 l2 l3, l = l1 ++ l2 ++ l3 /\ length l1 = a /\ length l2 = n.
Proof.
  intros. exists (take a l), (take n (drop a l)), (drop n (drop a l)).
  rewrite !take_drop, !length_take, !length_drop. split_and!; [done|lia|lia].
Qed.

(** Subtraction on [usize]: underflow is [None] (a panic in a checked build). *)
Definition usub (a b : nat) : option nat :=
  if decide (b <= a) then Some (a - b) else None.

Lemma usub_Some a b : b <= a -> usub a b = Some (a - b).
Proof. intros. unfold usub. by rewrite decide_True. Qed.

(** [heapless::Vec::<A, N>::push]: fails when the vector is full. *)
Definition vec_push {A} (N : nat) (v : list A) (a : A) : option (list A) :=
  if decide (length v < N) then Some (v ++ [a]) else None.

(** ** Automation shared by the component files *)
Create HintDb tls discriminated.
Create Rewrite HintDb tls_len.
#[export] Hint Rewrite @length_app @length_take @length_drop @length_be_bytes
  @length_replicate @length_insert : tls_len.

(** Normalise lengths everywhere, then decide the arithmetic. *)
Ltac lens := autorewrite with tls_len in *; simpl length in *.
Ltac len := first [done | lens; first [done | lia]].

Ltac inv_pair :=
  repeat match goal with
  | H : (_, _) = (_, _) |- _ => injection H as H; subst
  | H : Ok _ = Ok _ |- _ => injection H as H; subst
  | H : Err _ = Err _ |- _ => injection H as H; subst
  | H : Some _ = Some _ |- _ => injection H as H; subst
  end.
