(* ===== verification/Errors.v ===== *)
(** Error and alert vocabulary of the crate: [ParseError] (parse_buffer.rs),
    [AlertLevel] and [AlertDescription] with their code points (alert.rs), and
    [TlsError] (lib.rs).  The alert code tables are proved to be inverse to the
    decoding functions. *)

From S2P Require Import Prelude.
From Stdlib Require Import ZArith Lia.
From Stdlib Require Import Strings.Byte.
From stdpp Require Import base list option numbers tactics.

Inductive ParseError : Type :=
| InsufficientBytes
| PInsufficientSpace
| InvalidData.

#[global] Instance ParseError_eq_dec : EqDecision ParseError.
Proof. solve_decision. Defined.

Inductive AlertLevel : Type := Warning | Fatal.

#[global] Instance AlertLevel_eq_dec : EqDecision AlertLevel.
Proof. solve_decision. Defined.

(** [level as u8] *)
Definition AlertLevel_code (l : AlertLevel) : Z :=
  match l with Warning => 1 | Fatal => 2 end.

Definition AlertLevel_of (num : byte) : option AlertLevel :=
  match byte_val num with
  | 1%Z => Some Warning
  | 2%Z => Some Fatal
  | _ => None
  end.

Inductive AlertDescription : Type :=
| CloseNotify
| UnexpectedMessage
| BadRecordMac
| RecordOverflow
| HandshakeFailure
| BadCertificate
| UnsupportedCertificate
| CertificateRevoked
| CertificateExpired
| CertificateUnknown
| IllegalParameter
| UnknownCa
| AccessDenied
| ADecodeError
| DecryptError
| ProtocolVersionAlert
| InsufficientSecurity
| AInternalError
| InappropriateFallback
| UserCanceled
| MissingExtension
| UnsupportedExtension
| UnrecognizedName
| BadCertificateStatusResponse
| UnknownPskIdentity
| CertificateRequired
| NoApplicationProtocol.

#[global] Instance AlertDescription_eq_dec : EqDecision AlertDescription.
Proof. solve_decision. Defined.

(** [description as u8] *)
Definition AlertDescription_code (d : AlertDescription) : Z :=
  match d with
  | CloseNotify => 0
  | UnexpectedMessage => 10
  | BadRecordMac => 20
  | RecordOverflow => 22
  | HandshakeFailure => 40
  | BadCertificate => 42
  | UnsupportedCertificate => 43
  | CertificateRevoked => 44
  | CertificateExpired => 45
  | CertificateUnknown => 46
  | IllegalParameter => 47
  | UnknownCa => 48
  | AccessDenied => 49
  | ADecodeError => 50
  | DecryptError => 51
  | ProtocolVersionAlert => 70
  | InsufficientSecurity => 71
  | AInternalError => 80
  | InappropriateFallback => 86
  | UserCanceled => 90
  | MissingExtension => 109
  | UnsupportedExtension => 110
  | UnrecognizedName => 112
  | BadCertificateStatusResponse => 113
  | UnknownPskIdentity => 115
  | CertificateRequired => 116
  | NoApplicationProtocol => 120
  end.

Definition AlertDescription_of (num : byte) : option AlertDescription :=
  match byte_val num with
  | 0%Z => Some CloseNotify
  | 10%Z => Some UnexpectedMessage
  | 20%Z => Some BadRecordMac
  | 22%Z => Some RecordOverflow
  | 40%Z => Some HandshakeFailure
  | 42%Z => Some BadCertificate
  | 43%Z => Some UnsupportedCertificate
  | 44%Z => Some CertificateRevoked
  | 45%Z => Some CertificateExpired
  | 46%Z => Some CertificateUnknown
  | 47%Z => Some IllegalParameter
  | 48%Z => Some UnknownCa
  | 49%Z => Some AccessDenied
  | 50%Z => Some ADecodeError
  | 51%Z => Some DecryptError
  | 70%Z => Some ProtocolVersionAlert
  | 71%Z => Some InsufficientSecurity
  | 80%Z => Some AInternalError
  | 86%Z => Some InappropriateFallback
  | 90%Z => Some UserCanceled
  | 109%Z => Some MissingExtension
  | 110%Z => Some UnsupportedExtension
  | 112%Z => Some UnrecognizedName
  | 113%Z => Some BadCertificateStatusResponse
  | 115%Z => Some UnknownPskIdentity
  | 116%Z => Some CertificateRequired
  | 120%Z => Some NoApplicationProtocol
  | _ => None
  end.

(** [embedded_io::ErrorKind] is only stored and passed on: an opaque tag. *)
Definition ErrorKind : Type := Z.

Inductive TlsError : Type :=
| ConnectionClosed
| UnimplementedError
| MissingHandshake
| HandshakeAborted (level : AlertLevel) (description : AlertDescription)
| AbortHandshake (level : AlertLevel) (description : AlertDescription)
| IoError
| InternalError
| InvalidRecord
| UnknownContentType
| InvalidNonceLength
| InvalidTicketLength
| UnknownExtensionType
| InsufficientSpace
| InvalidHandshake
| InvalidCipherSuite
| InvalidSignatureScheme
| InvalidSignature
| InvalidExtensionsLength
| InvalidSessionIdLength
| InvalidSupportedVersions
| InvalidApplicationData
| InvalidKeyShare
| InvalidCertificate
| InvalidCertificateEntry
| InvalidCertificateRequest
| InvalidPrivateKey
| UnableToInitializeCryptoEngine
| TlsParseError (e : ParseError)
| OutOfMemory
| CryptoError
| EncodeError
| DecodeError
| Io (kind : ErrorKind).

#[global] Instance TlsError_eq_dec : EqDecision TlsError.
Proof. unfold ErrorKind in *. solve_decision. Defined.

(** [embedded_io::Error::kind], with the tag of [ErrorKind::Other]. *)
Definition TlsError_kind (Other : ErrorKind) (e : TlsError) : ErrorKind :=
  match e with Io k => k | _ => Other end.

(** [AbortHandshake(Fatal, d)], the way the server reports a protocol violation. *)
Definition abort_fatal (d : AlertDescription) : TlsError := AbortHandshake Fatal d.

Lemma AlertLevel_of_code l : AlertLevel_of (u8 (AlertLevel_code l)) = Some l.
Proof. by destruct l. Qed.

Lemma AlertDescription_of_code d :
  AlertDescription_of (u8 (AlertDescription_code d)) = Some d.
Proof. by destruct d. Qed.

Lemma AlertLevel_code_of b l : AlertLevel_of b = Some l -> b = u8 (AlertLevel_code l).
Proof. destruct b; intros H; try discriminate H; by injection H as <-. Qed.

Lemma AlertDescription_code_of b d :
  AlertDescription_of b = Some d -> b = u8 (AlertDescription_code d).
Proof. destruct b; intros H; try discriminate H; by injection H as <-. Qed.
