(* ===== verification/CryptoBuffer.v ===== *)
(** [CryptoBuffer] (buffer.rs): a cursor over a borrowed output buffer.

    State: the borrowed bytes, the [offset] at which the current region starts
    and the number [len] of bytes written in it.  Every operation that indexes
    the buffer panics out of range, as the source does; the invariant [cb_wf]
    is what rules the panics out.  [encodes m xs] is the specification used by
    every encoder of the crate: [m] appends exactly [xs] when it fits and
    reports an error otherwise. *)

From S2P Require Import Prelude Errors.
From Stdlib Require Import ZArith Lia.
From Stdlib Require Import Strings.Byte.
From stdpp Require Import base list option numbers tactics sets.

Record CryptoBuffer : Type := mkCB {
  cb_buf : list byte;
  cb_offset : nat;
  cb_len : nat;
}.

Abbreviation EncM := (M CryptoBuffer TlsError).

Definition cb_empty : CryptoBuffer := mkCB [] 0 0.
Definition wrap (buf : list byte) : CryptoBuffer := mkCB buf 0 0.
Definition wrap_with_pos (buf : list byte) (pos : nat) : CryptoBuffer := mkCB buf 0 pos.

Definition capacity (c : CryptoBuffer) : nat := length (cb_buf c).

(** [self.buf[i] = v] and [self.buf[a..a + xs.len()].clone_from_slice(xs)] *)
Definition buf_set {E} (i : nat) (v : byte) : M CryptoBuffer E unit := fun c =>
  if decide (i < length (cb_buf c))
  then (Ok tt, mkCB (<[i := v]> (cb_buf c)) (cb_offset c) (cb_len c))
  else (Panic, c).

Definition buf_write {E} (a : nat) (xs : list byte) : M CryptoBuffer E unit := fun c =>
  if decide (a + length xs <= length (cb_buf c))
  then (Ok tt, mkCB (splice (cb_buf c) a xs) (cb_offset c) (cb_len c))
  else (Panic, c).

Definition set_len {E} (n : nat) : M CryptoBuffer E unit :=
  modify (fun c => mkCB (cb_buf c) (cb_offset c) n).

Definition space {E} : M CryptoBuffer E nat :=
  c ← get;
  unwrap (usub (capacity c) (cb_offset c + cb_len c)).

Definition push (b : byte) : EncM unit :=
  sp ← space;
  if decide (0 < sp) then
    c ← get;
    buf_set (cb_offset c + cb_len c) b;;
    set_len (cb_len c + 1)
  else err InsufficientSpace.

Definition extend_internal (other : list byte) : EncM unit :=
  sp ← space;
  if decide (sp < length other) then err InsufficientSpace
  else
    c ← get;
    buf_write (cb_offset c + cb_len c) other;;
    set_len (cb_len c + length other).

Definition extend_from_slice (other : list byte) : EncM unit := extend_internal other.

Definition push_u16 (num : Z) : EncM unit := extend_from_slice (be_bytes 2 num).

Definition push_u24 (num : Z) : EncM unit :=
  match be_bytes 4 num with
  | [_; d1; d2; d3] => extend_from_slice [d1; d2; d3]
  | _ => panic
  end.

Definition push_u32 (num : Z) : EncM unit := extend_from_slice (be_bytes 4 num).

Definition set (idx : nat) (val : byte) : EncM unit :=
  c ← get;
  if decide (idx < cb_len c) then buf_set (cb_offset c + idx) val
  else err InsufficientSpace.

Definition set_u16 (idx : nat) (val : Z) : EncM unit :=
  match be_bytes 2 val with
  | [upper; lower] => set idx upper;; set (idx + 1) lower
  | _ => panic
  end.

Definition set_u24 (idx : nat) (val : Z) : EncM unit :=
  match be_bytes 4 val with
  | [_; upper; mid; lower] =>
      set idx upper;; set (idx + 1) mid;; set (idx + 2) lower
  | _ => panic
  end.

Definition as_slice {E} : M CryptoBuffer E (list byte) :=
  c ← get;
  unwrap (sub (cb_buf c) (cb_offset c) (cb_offset c + cb_len c)).

Definition truncate_internal {E} (len : nat) : M CryptoBuffer E unit :=
  c ← get;
  room ← unwrap (usub (capacity c) (cb_offset c));
  if decide (len <= room) then set_len len else mret tt.

Definition truncate {E} (len : nat) : M CryptoBuffer E unit := truncate_internal len.

Definition cb_is_empty (c : CryptoBuffer) : bool := bool_decide (cb_len c = 0).

Definition release (c : CryptoBuffer) : list byte * nat * nat :=
  (cb_buf c, cb_offset c, cb_len c).

(** [self.offset(offset)]: [None] when [len + self.offset - offset] underflows. *)
Definition offset (c : CryptoBuffer) (off : nat) : option CryptoBuffer :=
  new_len ← usub (cb_len c + cb_offset c) off;
  Some (mkCB (cb_buf c) off new_len).

Definition forward (c : CryptoBuffer) : option CryptoBuffer := offset c (cb_len c).
Definition rewind (c : CryptoBuffer) : option CryptoBuffer := offset c 0.

Definition with_u8_length {R} (op : EncM R) : EncM R :=
  c0 ← get;
  push x00;;
  c1 ← get;
  r ← op;
  c2 ← get;
  len ← unwrap (usub (cb_len c2) (cb_len c1));
  set (cb_len c0) (u8_of_nat len);;
  mret r.

Definition with_u16_length {R} (op : EncM R) : EncM R :=
  c0 ← get;
  push_u16 0;;
  c1 ← get;
  r ← op;
  c2 ← get;
  len ← unwrap (usub (cb_len c2) (cb_len c1));
  set_u16 (cb_len c0) (Z.of_nat len mod 2 ^ 16);;
  mret r.

Definition with_u24_length {R} (op : EncM R) : EncM R :=
  c0 ← get;
  push_u24 0;;
  c1 ← get;
  r ← op;
  c2 ← get;
  len ← unwrap (usub (cb_len c2) (cb_len c1));
  set_u24 (cb_len c0) (Z.of_nat len mod 2 ^ 32);;
  mret r.

(** The [aead::Buffer] implementation: errors are erased to [aead::Error]. *)
Definition Buffer_extend_from_slice (other : list byte) : M CryptoBuffer unit unit :=
  map_err (fun _ => tt) (extend_internal other).
Definition Buffer_truncate (len : nat) : M CryptoBuffer unit unit := truncate_internal len.
(** [buffer.as_mut()] overwritten from its start with [xs]. *)
Definition Buffer_overwrite (xs : list byte) : M CryptoBuffer unit unit :=
  c ← get;
  buf_write (cb_offset c) xs.

(** ** Termination: no operation loops *)

Lemma calm_buf_set {E} i v : calm (buf_set (E := E) i v).
Proof. intros c. unfold ends, buf_set. by case_decide. Qed.
Lemma calm_buf_write {E} a xs : calm (buf_write (E := E) a xs).
Proof. intros c. unfold ends, buf_write. by case_decide. Qed.
#[export] Hint Resolve calm_buf_set calm_buf_write : calm.
Lemma calm_as_slice {E} : calm (as_slice (E := E)).
Proof. unfold as_slice. calm. Qed.
Lemma calm_push b : calm (push b).
Proof. unfold push, space, set_len. calm. Qed.
Lemma calm_extend xs : calm (extend_from_slice xs).
Proof. unfold extend_from_slice, extend_internal, space, set_len. calm. Qed.
#[export] Hint Resolve calm_as_slice calm_push calm_extend : calm.
Lemma calm_push_u16 z : calm (push_u16 z).
Proof. unfold push_u16. calm. Qed.
Lemma calm_push_u24 z : calm (push_u24 z).
Proof. unfold push_u24. calm. Qed.
Lemma calm_push_u32 z : calm (push_u32 z).
Proof. unfold push_u32. calm. Qed.
Lemma calm_set i v : calm (set i v).
Proof. unfold set. calm. Qed.
#[export] Hint Resolve calm_push_u16 calm_push_u24 calm_push_u32 calm_set : calm.
Lemma calm_with_u8_length {R} (op : EncM R) : calm op -> calm (with_u8_length op).
Proof. unfold with_u8_length. calm. Qed.
Lemma calm_with_u16_length {R} (op : EncM R) : calm op -> calm (with_u16_length op).
Proof. unfold with_u16_length, set_u16. calm. Qed.
Lemma calm_with_u24_length {R} (op : EncM R) : calm op -> calm (with_u24_length op).
Proof. unfold with_u24_length, set_u24. calm. Qed.
#[export] Hint Resolve calm_with_u8_length calm_with_u16_length calm_with_u24_length : calm.

(** ** Invariant and abstract view *)

Definition cb_wf (c : CryptoBuffer) : Prop := cb_offset c + cb_len c <= capacity c.

(** The bytes written so far in the current region. *)
Definition contents (c : CryptoBuffer) : list byte :=
  take (cb_len c) (drop (cb_offset c) (cb_buf c)).

Definition room (c : CryptoBuffer) : nat := capacity c - (cb_offset c + cb_len c).

(** The buffer after [xs] has been written at the cursor. *)
Definition cb_append (c : CryptoBuffer) (xs : list byte) : CryptoBuffer :=
  mkCB (splice (cb_buf c) (cb_offset c + cb_len c) xs) (cb_offset c)
       (cb_len c + length xs).

Definition same_frame (c c' : CryptoBuffer) : Prop :=
  capacity c' = capacity c /\ cb_offset c' = cb_offset c.

Definition encode_err (e : TlsError) : Prop := e = InsufficientSpace \/ e = EncodeError.

Definition encodes (m : EncM unit) (xs : list byte) : Prop :=
  forall c, cb_wf c ->
    if decide (length xs <= room c)
    then m c = (Ok tt, cb_append c xs)
    else exists e c', m c = (Err e, c') /\ encode_err e /\ cb_wf c' /\ same_frame c c'.

(** ** Lemmas *)

Lemma capacity_append c xs :
  cb_wf c -> length xs <= room c -> capacity (cb_append c xs) = capacity c.
Proof. unfold cb_wf, room, capacity. intros. simpl. rewrite length_splice; lia. Qed.

Lemma room_append c xs :
  cb_wf c -> length xs <= room c -> room (cb_append c xs) = room c - length xs.
Proof.
  intros Hwf Hx. pose proof (capacity_append c xs Hwf Hx) as Hc.
  unfold room in *. rewrite Hc. simpl. lia.
Qed.

Lemma wf_append c xs : cb_wf c -> length xs <= room c -> cb_wf (cb_append c xs).
Proof.
  intros Hwf Hx. pose proof (capacity_append c xs Hwf Hx) as Hc.
  unfold cb_wf, room in *. rewrite Hc. simpl. lia.
Qed.

Lemma cb_append_nil c : cb_wf c -> cb_append c [] = c.
Proof.
  destruct c as [b o n]. unfold cb_append, splice. simpl. intros _.
  rewrite !Nat.add_0_r, take_drop. done.
Qed.

Lemma cb_append_append c xs ys :
  cb_wf c -> length xs + length ys <= room c ->
  cb_append (cb_append c xs) ys = cb_append c (xs ++ ys).
Proof.
  destruct c as [b o n]. unfold cb_wf, room, capacity, cb_append. simpl. intros Hwf Hr.
  destruct (list_split3 b (o + n) (length xs) ltac:(lia)) as (l1 & l2 & l3 & -> & H1 & H2).
  destruct (list_split3 l3 0 (length ys)) as ([|] & l4 & l5 & -> & H3 & H4);
    [len|simpl in *|done].
  rewrite <-H1, splice_app by done.
  replace (length l1 + length xs) with (length (l1 ++ xs)) by len.
  replace (o + (n + length xs)) with (length (l1 ++ xs)) by len.
  rewrite (assoc_L (++) l1 xs), splice_app by done.
  rewrite (assoc_L (++) l2 l4), splice_app by len.
  rewrite length_app. f_equal; [by rewrite <-!(assoc_L (++))|lia].
Qed.

Lemma contents_append c xs :
  cb_wf c -> length xs <= room c -> contents (cb_append c xs) = contents c ++ xs.
Proof.
  destruct c as [b o n]. unfold cb_wf, room, capacity, contents, cb_append. simpl. intros.
  destruct (list_split3 b o n ltac:(lia)) as (l1 & l2 & l3 & -> & H1 & H2).
  destruct (list_split3 l3 0 (length xs)) as ([|] & l4 & l5 & -> & H3 & H4);
    [len|simpl in *|done].
  replace (o + n) with (length (l1 ++ l2)) by len.
  rewrite (assoc_L (++) l1 l2), splice_app by done.
  rewrite <-H1, <-!(assoc_L (++) l1 l2), !drop_app_length.
  rewrite <-H2, take_app_length, (assoc_L (++) l2 xs l5).
  by rewrite <-length_app, take_app_length.
Qed.

Lemma wrap_wf buf : cb_wf (wrap buf).
Proof. unfold cb_wf, wrap, capacity. simpl. lia. Qed.

Lemma wrap_with_pos_wf buf pos : pos <= length buf -> cb_wf (wrap_with_pos buf pos).
Proof. unfold cb_wf, wrap_with_pos, capacity. simpl. lia. Qed.

Lemma as_slice_spec {E} c : cb_wf c -> as_slice (E := E) c = (Ok (contents c), c).
Proof.
  unfold cb_wf, capacity. intros Hwf. unfold as_slice, mbind, M_bind, get, contents.
  rewrite sub_Some by lia.
  by replace (cb_offset c + cb_len c - cb_offset c) with (cb_len c) by lia.
Qed.

Lemma space_spec {E} c : cb_wf c -> space (E := E) c = (Ok (room c), c).
Proof.
  unfold cb_wf. intros. unfold space, mbind, M_bind, get, usub.
  by rewrite decide_True by lia.
Qed.

(** *** Encoders: closure properties of [encodes] *)

Lemma same_frame_refl c : same_frame c c.
Proof. done. Qed.

Lemma same_frame_append c xs :
  cb_wf c -> length xs <= room c -> same_frame c (cb_append c xs).
Proof. intros. split; [by apply capacity_append|done]. Qed.

Lemma same_frame_trans c1 c2 c3 : same_frame c1 c2 -> same_frame c2 c3 -> same_frame c1 c3.
Proof. unfold same_frame. intuition congruence. Qed.

Lemma encodes_Ok m xs c :
  encodes m xs -> cb_wf c -> length xs <= room c -> m c = (Ok tt, cb_append c xs).
Proof. intros H Hwf Hr. specialize (H c Hwf). by rewrite decide_True in H. Qed.

Lemma encodes_Err m xs c :
  encodes m xs -> cb_wf c -> room c < length xs ->
  exists e c', m c = (Err e, c') /\ encode_err e /\ cb_wf c' /\ same_frame c c'.
Proof. intros H Hwf Hr. specialize (H c Hwf). by rewrite decide_False in H by lia. Qed.

Lemma encodes_inv_Ok m xs c c' :
  encodes m xs -> cb_wf c -> m c = (Ok tt, c') ->
  length xs <= room c /\ c' = cb_append c xs.
Proof.
  intros H Hwf Hm. specialize (H c Hwf). case_decide as Hd.
  - rewrite Hm in H. by injection H.
  - destruct H as (e & c'' & Heq & _). rewrite Hm in Heq. discriminate.
Qed.

(** An encoder returns from every well-formed buffer and keeps it well formed. *)
Lemma encodes_wp m xs c Q R :
  encodes m xs -> cb_wf c ->
  (length xs <= room c -> Q tt (cb_append c xs)) ->
  (forall e c', room c < length xs -> encode_err e -> cb_wf c' -> same_frame c c' -> R e c') ->
  wp m c Q R.
Proof.
  intros H Hwf HQ HR. unfold wp. destruct (decide (length xs <= room c)).
  - rewrite (encodes_Ok m xs c) by done. auto.
  - destruct (encodes_Err m xs c) as (e & c' & -> & ? & ? & ?); [done..|lia|].
    apply HR; auto. lia.
Qed.

Lemma encodes_ret : encodes (mret tt) [].
Proof. intros c Hwf. rewrite decide_True by (simpl; lia). by rewrite cb_append_nil. Qed.

Lemma encodes_bind m1 m2 xs ys :
  encodes m1 xs -> encodes m2 ys -> encodes (m1;; m2) (xs ++ ys).
Proof.
  intros H1 H2 c Hwf. rewrite length_app.
  destruct (decide (length xs <= room c)) as [Hx|Hx].
  - rewrite (bind_Ok _ _ _ tt (cb_append c xs)) by (by apply encodes_Ok).
    pose proof (wf_append c xs Hwf Hx). pose proof (room_append c xs Hwf Hx).
    case_decide.
    + rewrite (encodes_Ok m2 ys) by (auto; lia). by rewrite cb_append_append by (done || lia).
    + destruct (encodes_Err m2 ys (cb_append c xs)) as (e & c' & -> & ? & ? & ?);
        [done..|lia|]. exists e, c'. split_and!; auto.
      eapply same_frame_trans; [by apply same_frame_append|done].
  - rewrite decide_False by lia.
    destruct (encodes_Err m1 xs c) as (e & c' & He & ? & ? & ?); [done..|lia|].
    exists e, c'. split_and!; auto. by apply bind_Err.
Qed.

Lemma encodes_map_err m xs (f : TlsError -> TlsError) :
  encodes m xs -> (forall e, encode_err e -> encode_err (f e)) ->
  encodes (map_err f m) xs.
Proof.
  intros H Hf c Hwf. case_decide.
  - apply map_err_Ok. by apply encodes_Ok.
  - destruct (encodes_Err m xs c) as (e & c' & He & ? & ? & ?); [done..|lia|].
    exists (f e), c'. split_and!; auto. by apply map_err_Err.
Qed.

Lemma encodes_for_each {A} (l : list A) (body : A -> EncM unit) (enc : A -> list byte) :
  (forall a, a ∈ l -> encodes (body a) (enc a)) ->
  encodes (for_each l body) (mjoin (enc <$> l)).
Proof.
  induction l as [|a l IH]; intros H; simpl; [apply encodes_ret|].
  apply encodes_bind; [apply H; set_solver|]. apply IH. intros; apply H; set_solver.
Qed.

Lemma encodes_extend xs : encodes (extend_from_slice xs) xs.
Proof.
  intros c Hwf. unfold extend_from_slice, extend_internal.
  rewrite (bind_Ok _ _ _ _ _ (space_spec c Hwf)).
  case_decide as Hd.
  - rewrite decide_False by lia. unfold mbind, M_bind, get, buf_write, set_len, modify.
    unfold cb_wf, room in *. unfold capacity in *. by rewrite decide_True by lia.
  - rewrite decide_True by lia. exists InsufficientSpace, c. by split_and!; try left.
Qed.

Lemma encodes_push b : encodes (push b) [b].
Proof.
  intros c Hwf. unfold push. rewrite (bind_Ok _ _ _ _ _ (space_spec c Hwf)). simpl length.
  case_decide as Hd.
  - rewrite decide_True by lia. unfold mbind, M_bind, get, buf_set, set_len, modify.
    unfold cb_wf, room, capacity in *. rewrite decide_True by lia.
    unfold cb_append, splice. simpl. do 2 f_equal.
    rewrite insert_take_drop by lia. by rewrite Nat.add_1_r.
  - rewrite decide_False by lia. exists InsufficientSpace, c. by split_and!; try left.
Qed.

Lemma encodes_push_u16 z : encodes (push_u16 z) (be_bytes 2 z).
Proof. apply encodes_extend. Qed.

Lemma encodes_push_u24 z : encodes (push_u24 z) (be_bytes 3 z).
Proof. apply encodes_extend. Qed.

Lemma encodes_push_u32 z : encodes (push_u32 z) (be_bytes 4 z).
Proof. apply encodes_extend. Qed.

(** *** Back-patching a length prefix *)

Lemma set_append c pre b post v :
  cb_wf c -> length pre + S (length post) <= room c ->
  set (cb_len c + length pre) v (cb_append c (pre ++ b :: post))
  = (Ok tt, cb_append c (pre ++ v :: post)).
Proof.
  destruct c as [buf o n]. unfold cb_wf, room, capacity. simpl. intros Hwf Hr.
  unfold set, mbind, M_bind, get, cb_append. simpl.
  rewrite decide_True by len. unfold buf_set. simpl.
  rewrite decide_True by (rewrite length_splice; len).
  do 2 f_equal; [|len].
  destruct (list_split3 buf (o + n) (length (pre ++ b :: post))) as (l1 & l2 & l3 & -> & H1 & H2);
    [len|].
  rewrite <-H1, splice_app, splice_app by len.
  replace (o + (n + length pre)) with (length (l1 ++ pre)) by len.
  rewrite <-!(assoc_L (++)), <-!app_comm_cons, !(assoc_L (++) l1 pre).
  by rewrite insert_app_r_alt, Nat.sub_diag by lia.
Qed.

Lemma set_u16_append c pre b1 b2 post v :
  cb_wf c -> length pre + S (S (length post)) <= room c ->
  set_u16 (cb_len c + length pre) v (cb_append c (pre ++ b1 :: b2 :: post))
  = (Ok tt, cb_append c (pre ++ be_bytes 2 v ++ post)).
Proof.
  intros Hwf Hr. unfold set_u16. cbn [be_bytes].
  rewrite (bind_Ok _ _ _ _ _ (set_append c pre b1 (b2 :: post) _ Hwf ltac:(simpl; lia))).
  rewrite (cons_middle (u8 _) pre (b2 :: post)), (assoc_L (++)).
  replace (cb_len c + length pre + 1) with (cb_len c + length (pre ++ [u8 (v ≫ (8 * Z.of_nat 1))]))
    by len.
  rewrite set_append by len. by rewrite <-(assoc_L (++)).
Qed.

Lemma set_u24_append c pre b1 b2 b3 post v :
  cb_wf c -> length pre + S (S (S (length post))) <= room c ->
  set_u24 (cb_len c + length pre) v (cb_append c (pre ++ b1 :: b2 :: b3 :: post))
  = (Ok tt, cb_append c (pre ++ be_bytes 3 v ++ post)).
Proof.
  intros Hwf Hr. unfold set_u24. cbn [be_bytes].
  set (d1 := u8 (v ≫ (8 * Z.of_nat 2))). set (d2 := u8 (v ≫ (8 * Z.of_nat 1))).
  rewrite (bind_Ok _ _ _ _ _ (set_append c pre b1 (b2 :: b3 :: post) d1 Hwf ltac:(len))).
  rewrite (cons_middle d1 pre), (assoc_L (++)).
  replace (cb_len c + length pre + 1) with (cb_len c + length (pre ++ [d1])) by len.
  rewrite (bind_Ok _ _ _ _ _ (set_append c (pre ++ [d1]) b2 (b3 :: post) d2 Hwf ltac:(len))).
  rewrite (cons_middle d2), (assoc_L (++)).
  replace (cb_len c + length pre + 2) with (cb_len c + length ((pre ++ [d1]) ++ [d2])) by len.
  rewrite set_append by len. by rewrite <-!(assoc_L (++)).
Qed.

(** The shape shared by [with_u8_length], [with_u16_length] and
    [with_u24_length]: reserve a header, run [op], patch the header. *)
Definition with_length (reserve : EncM unit) (patch : nat -> nat -> EncM unit)
    (op : EncM unit) : EncM unit :=
  c0 ← get;
  reserve;;
  c1 ← get;
  r ← op;
  c2 ← get;
  len ← unwrap (usub (cb_len c2) (cb_len c1));
  patch (cb_len c0) len;;
  mret r.

Lemma encodes_with_length reserve patch op z (hdr : nat -> list byte) xs :
  encodes reserve z ->
  length (hdr (length xs)) = length z ->
  (forall c, cb_wf c -> length z + length xs <= room c ->
     patch (cb_len c) (length xs) (cb_append c (z ++ xs))
     = (Ok tt, cb_append c (hdr (length xs) ++ xs))) ->
  encodes op xs ->
  encodes (with_length reserve patch op) (hdr (length xs) ++ xs).
Proof.
  intros Hres Hlen Hpatch Hop c Hwf. rewrite length_app, Hlen. unfold with_length.
  rewrite (bind_Ok get _ c c c) by done.
  destruct (decide (length z <= room c)) as [Hz|Hz].
  2:{ rewrite decide_False by lia.
      destruct (encodes_Err reserve z c) as (e & c' & He & ? & ? & ?); [done..|lia|].
      exists e, c'. split_and!; auto. by apply bind_Err. }
  pose proof (wf_append c z Hwf Hz) as Hwf1. pose proof (room_append c z Hwf Hz) as Hr1.
  rewrite (bind_Ok _ _ _ _ _ (encodes_Ok reserve z c Hres Hwf Hz)).
  rewrite (bind_Ok get _ _ _ _ eq_refl).
  case_decide as Hd.
  - rewrite (bind_Ok _ _ _ _ _ (encodes_Ok op xs _ Hop Hwf1 ltac:(lia))).
    rewrite (bind_Ok get _ _ _ _ eq_refl), cb_append_append by (done || lia).
    rewrite (bind_Ok _ _ _ (length xs) (cb_append c (z ++ xs))).
    + by rewrite (bind_Ok _ _ _ _ _ (Hpatch c Hwf ltac:(lia))).
    + unfold usub. simpl. rewrite decide_True by len. simpl. unfold mret, M_ret.
      do 2 f_equal. len.
  - destruct (encodes_Err op xs (cb_append c z)) as (e & c' & He & ? & ? & ?); [done..|lia|].
    exists e, c'. split_and!; auto; [by apply bind_Err|].
    eapply same_frame_trans; [by apply same_frame_append|done].
Qed.

Lemma be_bytes_mod n z : be_bytes n (z mod 256 ^ Z.of_nat n) = be_bytes n z.
Proof.
  rewrite <-(from_be_be_bytes n z).
  rewrite <-(length_be_bytes n z) at 1. apply be_bytes_from_be.
Qed.

Lemma be_bytes_3_mod z : be_bytes 3 (z mod 2 ^ 32) = be_bytes 3 z.
Proof.
  rewrite <-(be_bytes_mod 3 z), <-(be_bytes_mod 3 (z mod 2 ^ 32)). f_equal.
  replace (2 ^ 32)%Z with (256 ^ Z.of_nat 3 * 256)%Z by done.
  rewrite Z.rem_mul_r by done. rewrite Z.mul_comm, Z.mod_add by done.
  by rewrite Z.mod_mod by done.
Qed.

(** Length-prefixed vectors of the TLS presentation language. *)
Definition vec8 (xs : list byte) : list byte := u8_of_nat (length xs) :: xs.
Definition vec16 (xs : list byte) : list byte := be_bytes 2 (Z.of_nat (length xs)) ++ xs.
Definition vec24 (xs : list byte) : list byte := be_bytes 3 (Z.of_nat (length xs)) ++ xs.

Lemma encodes_with_u8_length op xs :
  encodes op xs -> encodes (with_u8_length op) (vec8 xs).
Proof.
  intros H. unfold vec8. change (with_u8_length op) with
    (with_length (push x00) (fun p n => set p (u8_of_nat n)) op).
  apply (encodes_with_length _ _ op [x00] (fun n => [u8_of_nat n]) xs); auto using encodes_push.
  intros c Hwf Hr. pose proof (set_append c [] x00 xs (u8_of_nat (length xs)) Hwf ltac:(len)) as Hs.
  simpl in Hs. by rewrite Nat.add_0_r in Hs.
Qed.

Lemma encodes_with_u16_length op xs :
  encodes op xs -> encodes (with_u16_length op) (vec16 xs).
Proof.
  intros H. unfold vec16. change (with_u16_length op) with
    (with_length (push_u16 0) (fun p n => set_u16 p (Z.of_nat n mod 2 ^ 16)) op).
  apply (encodes_with_length _ _ op [x00; x00] (fun n => be_bytes 2 (Z.of_nat n)) xs);
    auto using encodes_push_u16.
  intros c Hwf Hr.
  pose proof (set_u16_append c [] x00 x00 xs (Z.of_nat (length xs) mod 2 ^ 16) Hwf ltac:(len)) as Hs.
  rewrite Nat.add_0_r in Hs. by rewrite (be_bytes_mod 2) in Hs.
Qed.

Lemma encodes_with_u24_length op xs :
  encodes op xs -> encodes (with_u24_length op) (vec24 xs).
Proof.
  intros H. unfold vec24. change (with_u24_length op) with
    (with_length (push_u24 0) (fun p n => set_u24 p (Z.of_nat n mod 2 ^ 32)) op).
  apply (encodes_with_length _ _ op [x00; x00; x00] (fun n => be_bytes 3 (Z.of_nat n)) xs);
    auto using encodes_push_u24.
  intros c Hwf Hr.
  pose proof (set_u24_append c [] x00 x00 x00 xs (Z.of_nat (length xs) mod 2 ^ 32) Hwf ltac:(len))
    as Hs.
  rewrite Nat.add_0_r in Hs. by rewrite be_bytes_3_mod in Hs.
Qed.

#[export] Hint Resolve encodes_ret encodes_push encodes_extend encodes_push_u16
  encodes_push_u24 encodes_push_u32 encodes_with_u8_length encodes_with_u16_length
  encodes_with_u24_length : tls.

Lemma encode_err_EncodeError e : encode_err e -> encode_err ((fun _ => EncodeError) e).
Proof. intros _. by right. Qed.

(** [m.map_err(|_| TlsError::EncodeError)] of an encoder is an encoder. *)
Definition encode_error {A} (m : EncM A) : EncM A := map_err (fun _ => EncodeError) m.

Lemma encodes_encode_error m xs : encodes m xs -> encodes (encode_error m) xs.
Proof. intros H. apply encodes_map_err; [done|]. apply encode_err_EncodeError. Qed.
#[export] Hint Resolve encodes_encode_error : tls.

(** *** Cursor moves and truncation *)

Lemma offset_spec c off :
  cb_wf c -> off <= cb_offset c + cb_len c ->
  exists c', offset c off = Some c' /\ cb_wf c' /\ cb_buf c' = cb_buf c
    /\ cb_offset c' = off /\ cb_offset c' + cb_len c' = cb_offset c + cb_len c.
Proof.
  unfold cb_wf, capacity. intros Hwf Hoff. unfold offset, usub. rewrite decide_True by lia.
  eexists. split; [done|]. simpl. split_and!; lia || done.
Qed.

Lemma truncate_spec {E} c n :
  cb_wf c ->
  truncate (E := E) n c =
  (Ok tt, if decide (n <= capacity c - cb_offset c)
          then mkCB (cb_buf c) (cb_offset c) n else c).
Proof.
  unfold cb_wf. intros Hwf. unfold truncate, truncate_internal, mbind, M_bind, get, usub.
  rewrite decide_True by lia. simpl. by case_decide.
Qed.

(** ** Properties *)

(** Length-prefixed encoding.  For any encoder that writes [xs] (or reports a
    lack of space), [with_u8_length], [with_u16_length] and [with_u24_length] append
    to a well-formed buffer the length of [xs] in one, two or three big-endian bytes
    followed by [xs], keep the buffer well formed and keep what was written before;
    when header and content do not fit they return an encoding error with the buffer
    well formed, and they never panic. *)
Theorem length_prefixed_encoding op xs c :
  encodes op xs -> cb_wf c ->
  Forall (fun '(m, out) =>
    if decide (length out <= room c)
    then exists c', m c = (Ok tt, c') /\ contents c' = contents c ++ out /\ cb_wf c' /\ same_frame c c'
    else exists e c', m c = (Err e, c') /\ encode_err e /\ cb_wf c' /\ same_frame c c')
    [(with_u8_length op, u8_of_nat (length xs) :: xs);
     (with_u16_length op, be_bytes 2 (Z.of_nat (length xs)) ++ xs);
     (with_u24_length op, be_bytes 3 (Z.of_nat (length xs)) ++ xs)].
Proof.
  intros Hop Hwf.
  assert (forall m out, encodes m out ->
    if decide (length out <= room c)
    then exists c', m c = (Ok tt, c') /\ contents c' = contents c ++ out /\ cb_wf c' /\ same_frame c c'
    else exists e c', m c = (Err e, c') /\ encode_err e /\ cb_wf c' /\ same_frame c c') as H.
  { intros m out Hm. specialize (Hm c Hwf). case_decide; [|done]. exists (cb_append c out).
    split_and!; [done|by apply contents_append|by apply wf_append|by apply same_frame_append]. }
  repeat constructor; apply H;
    [by apply encodes_with_u8_length|by apply encodes_with_u16_length|by apply encodes_with_u24_length].
Qed.

Lemma length_prefixed_encoding_witness :
  Forall (fun '(m, out) =>
    if decide (length out <= room (wrap (replicate 4 x00)))
    then exists c', m (wrap (replicate 4 x00)) = (Ok tt, c') /\
      contents c' = contents (wrap (replicate 4 x00)) ++ out /\ cb_wf c' /\
      same_frame (wrap (replicate 4 x00)) c'
    else exists e c', m (wrap (replicate 4 x00)) = (Err e, c') /\ encode_err e /\ cb_wf c' /\
      same_frame (wrap (replicate 4 x00)) c')
    [(with_u8_length (extend_from_slice [x61; x62]), [x02; x61; x62]);
     (with_u16_length (extend_from_slice [x61; x62]), [x00; x02; x61; x62]);
     (with_u24_length (extend_from_slice [x61; x62]), [x00; x00; x02; x61; x62])].
Proof.
  apply (length_prefixed_encoding (extend_from_slice [x61; x62]) [x61; x62] (wrap (replicate 4 x00))).
  - apply encodes_extend.
  - apply wrap_wf.
Defined.
