(* ===== verification/ParseBuffer.v ===== *)
(** [ParseBuffer] (parse_buffer.rs): a cursor over a borrowed input.

    Two specifications carry every parser of the crate:
    - [parses p xs a] (completeness): wherever [xs] sits under the cursor, [p]
      reads exactly [xs] and returns [a];
    - [psound p P] (soundness and totality): from every well-formed cursor [p]
      returns (no panic, no divergence); an [Ok a] result consumed some [xs]
      with [P xs a], and in every case the cursor stays well formed on the same
      input. *)

From S2P Require Import Prelude Errors.
From Stdlib Require Import ZArith Lia.
From Stdlib Require Import Strings.Byte.
From stdpp Require Import base list option numbers tactics sets.

Record ParseBuffer : Type := mkPB {
  pb_pos : nat;
  pb_buffer : list byte;
}.

Abbreviation PM := (M ParseBuffer ParseError).
Abbreviation TM := (M ParseBuffer TlsError).

Definition pb_new (buffer : list byte) : ParseBuffer := mkPB 0 buffer.

Definition is_empty (b : ParseBuffer) : bool := bool_decide (pb_pos b = length (pb_buffer b)).

(** [self.buffer.len() - self.pos] *)
Definition remaining {E} : M ParseBuffer E nat :=
  b ← get;
  unwrap (usub (length (pb_buffer b)) (pb_pos b)).

Definition pb_offset {E} : M ParseBuffer E nat := b ← get; mret (pb_pos b).

Definition pb_as_slice (b : ParseBuffer) : list byte := pb_buffer b.

Definition advance_pos (n : nat) : PM unit :=
  modify (fun b => mkPB (pb_pos b + n) (pb_buffer b)).

(** [self.buffer[self.pos + i]] *)
Definition peek_at (i : nat) : PM byte :=
  b ← get;
  unwrap (pb_buffer b !! (pb_pos b + i)).

Definition slice (len : nat) : PM ParseBuffer :=
  b ← get;
  if decide (pb_pos b + len <= length (pb_buffer b)) then
    xs ← unwrap (sub (pb_buffer b) (pb_pos b) (pb_pos b + len));
    advance_pos len;;
    mret (pb_new xs)
  else err InsufficientBytes.

Definition read_u8 : PM byte :=
  b ← get;
  if decide (pb_pos b < length (pb_buffer b)) then
    value ← peek_at 0;
    advance_pos 1;;
    mret value
  else err InsufficientBytes.

Definition read_u16 : PM Z :=
  b ← get;
  if decide (pb_pos b + 2 <= length (pb_buffer b)) then
    b0 ← peek_at 0; b1 ← peek_at 1;
    advance_pos 2;;
    mret (from_be [b0; b1])
  else err InsufficientBytes.

Definition read_u24 : PM Z :=
  b ← get;
  if decide (pb_pos b + 3 <= length (pb_buffer b)) then
    b0 ← peek_at 0; b1 ← peek_at 1; b2 ← peek_at 2;
    advance_pos 3;;
    mret (from_be [x00; b0; b1; b2])
  else err InsufficientBytes.

Definition read_u32 : PM Z :=
  b ← get;
  if decide (pb_pos b + 4 <= length (pb_buffer b)) then
    b0 ← peek_at 0; b1 ← peek_at 1; b2 ← peek_at 2; b3 ← peek_at 3;
    advance_pos 4;;
    mret (from_be [b0; b1; b2; b3])
  else err InsufficientBytes.

(** [fill(&mut dest)] for a destination of [n] bytes; returns what it holds. *)
Definition fill (n : nat) : PM (list byte) :=
  b ← get;
  if decide (pb_pos b + n <= length (pb_buffer b)) then
    xs ← unwrap (sub (pb_buffer b) (pb_pos b) (pb_pos b + n));
    advance_pos n;;
    mret xs
  else err InsufficientBytes.

(** [copy(&mut dest, num_bytes)] for a [Vec] of capacity [N]; returns the
    extended vector. *)
Definition copy (N : nat) (dest : list byte) (num_bytes : nat) : PM (list byte) :=
  sp ← unwrap (usub N (length dest));
  if decide (sp < num_bytes) then err PInsufficientSpace
  else
    b ← get;
    if decide (pb_pos b + num_bytes <= length (pb_buffer b)) then
      xs ← unwrap (sub (pb_buffer b) (pb_pos b) (pb_pos b + num_bytes));
      advance_pos num_bytes;;
      mret (dest ++ xs)
    else err InsufficientBytes.

(** [while !buf.is_empty() { acc = body(acc)?; }] with a bound on the number
    of iterations; running out of it is [Diverge]. *)
Fixpoint while_nonempty {E A} (fuel : nat) (body : A -> M ParseBuffer E A) (acc : A) :
    M ParseBuffer E A := fun b =>
  if is_empty b then (Ok acc, b)
  else match fuel with
       | O => (Diverge, b)
       | S fuel' => (acc' ← body acc; while_nonempty fuel' body acc') b
       end.

(** The loops of the crate consume at least one byte per iteration, so the
    length of the input is enough fuel ([wp_loop] below). *)
Definition loop_nonempty {E A} (body : A -> M ParseBuffer E A) (acc : A) : M ParseBuffer E A :=
  fun b => while_nonempty (length (pb_buffer b)) body acc b.

Definition read_list {T} (N : nat) (data_length : nat) (read : PM T) : PM (list T) :=
  data ← slice data_length;
  run_on data
    (loop_nonempty (fun result =>
       x ← read;
       ok_or (vec_push N result x) PInsufficientSpace) []).

(** [From<ParseError> for TlsError], applied by [?]. *)
Definition into {A} (m : PM A) : TM A := map_err TlsParseError m.

(** ** Specifications *)

Definition pb_wf (b : ParseBuffer) : Prop := pb_pos b <= length (pb_buffer b).

Definition unread (b : ParseBuffer) : list byte := drop (pb_pos b) (pb_buffer b).

(** [b'] is [b] after reading [xs]. *)
Definition consumed (b b' : ParseBuffer) (xs : list byte) : Prop :=
  pb_buffer b' = pb_buffer b /\ pb_pos b' = pb_pos b + length xs /\
  unread b = xs ++ unread b'.

Definition parses {E A} (p : M ParseBuffer E A) (xs : list byte) (a : A) : Prop :=
  forall pre post,
    p (mkPB (length pre) (pre ++ xs ++ post))
    = (Ok a, mkPB (length pre + length xs) (pre ++ xs ++ post)).

Definition psound {E A} (p : M ParseBuffer E A) (P : list byte -> A -> Prop) : Prop :=
  forall b, pb_wf b ->
    wp p b (fun a b' => pb_wf b' /\ exists xs, consumed b b' xs /\ P xs a)
           (fun _ b' => pb_wf b' /\ exists xs, consumed b b' xs).

(** ** Cursor lemmas *)

Lemma pb_new_wf xs : pb_wf (pb_new xs).
Proof. unfold pb_wf. simpl. lia. Qed.

Lemma consumed_refl b : consumed b b [].
Proof. unfold consumed. simpl. split_and!; auto. Qed.

Lemma consumed_trans b1 b2 b3 xs ys :
  consumed b1 b2 xs -> consumed b2 b3 ys -> consumed b1 b3 (xs ++ ys).
Proof.
  unfold consumed. intros (Hb & Hp & Hu) (Hb' & Hp' & Hu').
  split_and!; [congruence|rewrite length_app; lia|].
  by rewrite Hu, Hu', (assoc_L (++)).
Qed.

Lemma consumed_advance b xs post :
  unread b = xs ++ post -> pb_wf b ->
  consumed b (mkPB (pb_pos b + length xs) (pb_buffer b)) xs
  /\ pb_wf (mkPB (pb_pos b + length xs) (pb_buffer b)).
Proof.
  unfold consumed, unread, pb_wf. simpl. intros Hu Hwf.
  assert (length (pb_buffer b) = pb_pos b + (length xs + length post)) as Hl.
  { pose proof (f_equal length Hu) as H. rewrite length_drop, length_app in H. lia. }
  split_and!; [done|done| |lia].
  rewrite <-drop_drop, Hu, drop_app_length. done.
Qed.

Lemma unread_new xs : unread (pb_new xs) = xs.
Proof. done. Qed.

Lemma is_empty_spec b : pb_wf b -> is_empty b = true <-> unread b = [].
Proof.
  unfold pb_wf, is_empty, unread. intros Hwf. rewrite bool_decide_eq_true. split.
  - intros ->. apply drop_ge. lia.
  - intros H%(f_equal length). rewrite length_drop in H. simpl in H. lia.
Qed.

Lemma length_unread b : length (unread b) = length (pb_buffer b) - pb_pos b.
Proof. apply length_drop. Qed.

Lemma lookup_unread b i : pb_buffer b !! (pb_pos b + i) = unread b !! i.
Proof. unfold unread. by rewrite lookup_drop. Qed.

(** Reading [n] bytes off the cursor, the common core of the primitives. *)
Lemma unread_split b n :
  pb_wf b -> pb_pos b + n <= length (pb_buffer b) ->
  exists xs post, unread b = xs ++ post /\ length xs = n.
Proof.
  intros Hwf Hn. exists (take n (unread b)), (drop n (unread b)).
  rewrite take_drop, length_take, length_unread. split; [done|lia].
Qed.

Lemma sub_unread b n xs post :
  unread b = xs ++ post -> length xs = n -> pb_pos b + n <= length (pb_buffer b) ->
  sub (pb_buffer b) (pb_pos b) (pb_pos b + n) = Some xs.
Proof.
  unfold unread. intros Hu Hl Hn. rewrite sub_Some by lia.
  replace (pb_pos b + n - pb_pos b) with n by lia. rewrite Hu, <-Hl. f_equal.
  apply take_app_length.
Qed.

(** A primitive that reads [n] bytes and returns [f] of them. *)
Definition reads {A} (p : PM A) (n : nat) (f : list byte -> A) : Prop :=
  forall b, pb_wf b ->
    match decide (pb_pos b + n <= length (pb_buffer b)) with
    | left _ => exists xs post, unread b = xs ++ post /\ length xs = n /\
        p b = (Ok (f xs), mkPB (pb_pos b + n) (pb_buffer b))
    | right _ => p b = (Err InsufficientBytes, b)
    end.

Ltac reads_start n :=
  let b := fresh "b" in let Hwf := fresh "Hwf" in let Hd := fresh "Hd" in
  intros b Hwf; case_decide as Hd;
  [ destruct (unread_split b n Hwf Hd) as (xs & post & Hu & Hl);
    exists xs, post; split; [done|split; [done|]];
    unfold mbind, M_bind, get; rewrite decide_True by lia
  | unfold mbind, M_bind, get; by rewrite decide_False by lia ].

Lemma reads_slice n : reads (slice n) n pb_new.
Proof. unfold slice. reads_start n. by rewrite (sub_unread b n xs post). Qed.

Lemma reads_fill n : reads (fill n) n id.
Proof. unfold fill. reads_start n. by rewrite (sub_unread b n xs post). Qed.

Lemma peek_at_spec b i x : unread b !! i = Some x -> peek_at i b = (Ok x, b).
Proof. intros H. unfold peek_at, mbind, M_bind, get. by rewrite lookup_unread, H. Qed.

Ltac peeks :=
  match goal with
  | H : unread _ = _, Hl : length ?xs = _ |- _ =>
      destruct xs as [|? [|? [|? [|? [|? ?]]]]]; simpl in Hl; try (exfalso; lia);
      repeat (erewrite peek_at_spec by (rewrite H; reflexivity)); reflexivity
  end.

Lemma reads_u8 : reads read_u8 1 (fun xs => hd x00 xs).
Proof. unfold read_u8. reads_start 1. peeks. Qed.

Lemma reads_u16 : reads read_u16 2 from_be.
Proof. unfold read_u16. reads_start 2. peeks. Qed.

Lemma from_be_0 l : from_be (x00 :: l) = from_be l.
Proof. rewrite from_be_cons. by change (byte_val x00) with 0%Z. Qed.

Lemma reads_u24 : reads read_u24 3 from_be.
Proof.
  unfold read_u24. reads_start 3. rewrite <-(from_be_0 xs). peeks.
Qed.

Lemma reads_u32 : reads read_u32 4 from_be.
Proof. unfold read_u32. reads_start 4. peeks. Qed.

(** ** Completeness: closure properties of [parses] *)

Lemma unread_mid pre xs post : unread (mkPB (length pre) (pre ++ xs ++ post)) = xs ++ post.
Proof. unfold unread. simpl. apply drop_app_length. Qed.

Lemma reads_parses {A} (p : PM A) n f xs :
  reads p n f -> length xs = n -> parses p xs (f xs).
Proof.
  intros Hp Hl pre post. specialize (Hp (mkPB (length pre) (pre ++ xs ++ post))).
  rewrite decide_True in Hp by (simpl; len).
  destruct Hp as (ys & post' & Hu & Hl' & ->); [unfold pb_wf; simpl; len|].
  rewrite unread_mid in Hu. apply app_inj_1 in Hu as [<- _]; [|lia].
  simpl. by rewrite Hl.
Qed.

Lemma parses_ret {E A} (a : A) : parses (E := E) (mret a) [] a.
Proof. intros pre post. simpl. by rewrite Nat.add_0_r. Qed.

Lemma parses_bind {E A B} (p : M ParseBuffer E A) (k : A -> M ParseBuffer E B) xs ys a b :
  parses p xs a -> parses (k a) ys b -> parses (p ≫= k) (xs ++ ys) b.
Proof.
  intros Hp Hk pre post. rewrite <-(assoc_L (++)).
  rewrite (bind_Ok _ _ _ _ _ (Hp pre (ys ++ post))).
  specialize (Hk (pre ++ xs) post). rewrite length_app, <-!(assoc_L (++)) in Hk.
  rewrite Hk, length_app. by rewrite Nat.add_assoc.
Qed.

Lemma parses_bind_nil {E A B} (p : M ParseBuffer E A) (k : A -> M ParseBuffer E B) ys a b :
  parses p [] a -> parses (k a) ys b -> parses (p ≫= k) ys b.
Proof. apply (parses_bind p k []). Qed.

Lemma parses_bind_last {E A B} (p : M ParseBuffer E A) (k : A -> M ParseBuffer E B) xs a b :
  parses p xs a -> parses (k a) [] b -> parses (p ≫= k) xs b.
Proof. intros. rewrite <-(app_nil_r xs). by eapply parses_bind. Qed.

Lemma parses_map_err {E E' A} (f : E' -> E) (p : M ParseBuffer E' A) xs a :
  parses p xs a -> parses (map_err f p) xs a.
Proof. intros H pre post. by apply map_err_Ok. Qed.

Lemma parses_run_on {E A T} (t : T) (m : M T E A) a t' :
  m t = (Ok a, t') -> parses (run_on t m) [] a.
Proof. intros H pre post. unfold run_on. rewrite H. simpl. by rewrite Nat.add_0_r. Qed.

Lemma parses_u8 b : parses read_u8 [b] b.
Proof. by apply (reads_parses _ _ _ [b] reads_u8). Qed.

Lemma parses_be (p : PM Z) n z :
  reads p n from_be -> (0 <= z < 256 ^ Z.of_nat n)%Z -> parses p (be_bytes n z) z.
Proof.
  intros Hp Hz. pose proof (reads_parses p n _ (be_bytes n z) Hp (length_be_bytes n z)) as H.
  by rewrite from_be_be_bytes, Z.mod_small in H.
Qed.

Lemma parses_u16 z : (0 <= z < 2 ^ 16)%Z -> parses read_u16 (be_bytes 2 z) z.
Proof. apply (parses_be _ 2), reads_u16. Qed.

Lemma parses_u24 z : (0 <= z < 2 ^ 24)%Z -> parses read_u24 (be_bytes 3 z) z.
Proof. apply (parses_be _ 3), reads_u24. Qed.

Lemma parses_u32 z : (0 <= z < 2 ^ 32)%Z -> parses read_u32 (be_bytes 4 z) z.
Proof. apply (parses_be _ 4), reads_u32. Qed.

Lemma parses_slice n xs : n = length xs -> parses (slice n) xs (pb_new xs).
Proof. intros ->. by apply (reads_parses _ _ _ xs (reads_slice (length xs))). Qed.

Lemma parses_fill n xs : n = length xs -> parses (fill n) xs xs.
Proof. intros ->. by apply (reads_parses _ _ _ xs (reads_fill (length xs))). Qed.

(** A whole input read by [p]. *)
Lemma parses_whole {E A} (p : M ParseBuffer E A) xs a :
  parses p xs a -> p (pb_new xs) = (Ok a, mkPB (length xs) xs).
Proof. intros H. specialize (H [] []). by rewrite app_nil_r in H. Qed.

(** A loop over the concatenated encodings of [items]: [acc_of done] is the
    accumulator after the prefix [done]. *)
Lemma while_nonempty_items {E A T} (body : A -> M ParseBuffer E A) (enc : T -> list byte)
    (acc_of : list T -> A) items fuel done pre :
  (forall done x rest, items = done ++ x :: rest ->
     enc x <> [] /\ parses (body (acc_of done)) (enc x) (acc_of (done ++ [x]))) ->
  forall rest, items = done ++ rest -> length rest <= fuel ->
  while_nonempty fuel body (acc_of done) (mkPB (length pre) (pre ++ mjoin (enc <$> rest)))
  = (Ok (acc_of items),
     mkPB (length pre + length (mjoin (enc <$> rest))) (pre ++ mjoin (enc <$> rest))).
Proof.
  intros Hbody. revert done pre. induction fuel as [|fuel IH];
    intros done pre [|x rest] Heq Hfuel; try (simpl in Hfuel; lia).
  1,2: simpl; rewrite app_nil_r in *; unfold is_empty; simpl;
       rewrite bool_decide_true by done; subst; by rewrite Nat.add_0_r.
  destruct (Hbody done x rest Heq) as [Hne Hp].
  cbn [while_nonempty fmap list_fmap]. unfold is_empty. simpl pb_pos. simpl pb_buffer.
  rewrite bool_decide_false.
  2:{ rewrite length_app. simpl. rewrite length_app. destruct (enc x); [done|simpl; lia]. }
  change (mjoin (enc x :: (enc <$> rest))) with (enc x ++ mjoin (enc <$> rest)).
  rewrite (bind_Ok _ _ _ _ _ (Hp pre (mjoin (enc <$> rest)))).
  specialize (IH (done ++ [x]) (pre ++ enc x) rest).
  rewrite length_app, <-!(assoc_L (++)) in IH.
  rewrite IH; [|by rewrite Heq|simpl in Hfuel; lia].
  by rewrite length_app, Nat.add_assoc.
Qed.

Lemma length_mjoin_ge {T} (enc : T -> list byte) (items : list T) :
  (forall x, x ∈ items -> enc x <> []) -> length items <= length (mjoin (enc <$> items)).
Proof.
  induction items as [|x items IH]; intros H; [done|]. simpl. rewrite length_app.
  assert (enc x <> []) by (apply H; set_solver).
  assert (0 < length (enc x)) by (destruct (enc x); [done|simpl; lia]).
  specialize (IH ltac:(set_solver)). unfold fmap in *. lia.
Qed.

Lemma loop_items {E A T} (body : A -> M ParseBuffer E A) (enc : T -> list byte)
    (acc_of : list T -> A) items data acc0 :
  acc_of [] = acc0 ->
  data = mjoin (enc <$> items) ->
  (forall done x rest, items = done ++ x :: rest ->
     enc x <> [] /\ parses (body (acc_of done)) (enc x) (acc_of (done ++ [x]))) ->
  loop_nonempty body acc0 (pb_new data) = (Ok (acc_of items), mkPB (length data) data).
Proof.
  intros <- -> H. unfold loop_nonempty, pb_new. simpl pb_buffer.
  apply (while_nonempty_items body enc acc_of items _ [] [] H); [done|].
  apply length_mjoin_ge. intros x (i & l & ->)%list_elem_of_split. by eapply H.
Qed.

Lemma parses_read_list {T} (read : PM T) (enc : T -> list byte) N items n :
  n = length (mjoin (enc <$> items)) ->
  length items <= N ->
  (forall x, x ∈ items -> enc x <> [] /\ parses read (enc x) x) ->
  parses (read_list N n read) (mjoin (enc <$> items)) items.
Proof.
  intros -> HN H. unfold read_list. eapply parses_bind_last; [by apply parses_slice|].
  eapply parses_run_on.
  apply (loop_items _ enc id items _ _ eq_refl eq_refl). intros done x rest Heq.
  destruct (H x) as [Hne Hp]; [subst; set_solver|]. split; [done|].
  eapply parses_bind_last; [done|]. unfold vec_push, id. rewrite decide_True.
  - apply parses_ret.
  - subst. rewrite length_app in HN. simpl in HN. lia.
Qed.

(** ** Soundness: closure properties of [psound] *)

Lemma psound_mono {E A} (p : M ParseBuffer E A) (P P' : list byte -> A -> Prop) :
  psound p P -> (forall xs a, P xs a -> P' xs a) -> psound p P'.
Proof.
  intros H HP b Hwf. eapply wp_mono; [by apply H| |done].
  intros a b' (? & xs & ? & ?). eauto 6.
Qed.

Lemma psound_ret {E A} (a : A) (P : list byte -> A -> Prop) :
  P [] a -> psound (E := E) (mret a) P.
Proof. intros H b Hwf. apply wp_ret. eauto using consumed_refl. Qed.

Lemma psound_err {E A} (e : E) (P : list byte -> A -> Prop) : psound (err e) P.
Proof. intros b Hwf. apply wp_err. eauto using consumed_refl. Qed.

Lemma psound_bind {E A B} (p : M ParseBuffer E A) (k : A -> M ParseBuffer E B) P Q :
  psound p P ->
  (forall a xs, P xs a -> psound (k a) (fun ys b => Q (xs ++ ys) b)) ->
  psound (p ≫= k) Q.
Proof.
  intros Hp Hk b Hwf. apply wp_bind. eapply wp_mono; [by apply Hp| |done].
  intros a b' (Hwf' & xs & Hc & HP). eapply wp_mono; [by apply (Hk a xs HP b')| |].
  - intros b0 b'' (? & ys & Hc' & ?). eauto using consumed_trans.
  - intros e b'' (? & ys & Hc'). eauto using consumed_trans.
Qed.

(** [psound_bind] when the continuation does not depend on what was consumed. *)
Lemma psound_seq {E A B} (p : M ParseBuffer E A) (k : A -> M ParseBuffer E B) :
  psound p (fun _ _ => True) -> (forall a, psound (k a) (fun _ _ => True)) ->
  psound (p ≫= k) (fun _ _ => True).
Proof. intros Hp Hk. eapply psound_bind; [exact Hp|]. intros a xs _. apply Hk. Qed.

Lemma psound_map_err {E E' A} (f : E' -> E) (p : M ParseBuffer E' A) P :
  psound p P -> psound (map_err f p) P.
Proof. intros H b Hwf. apply wp_map_err, H, Hwf. Qed.

Lemma psound_try {E E' A} (p : M ParseBuffer E' A) P (Q : list byte -> A + E' -> Prop) :
  psound p P -> (forall xs a, P xs a -> Q xs (inl a)) -> (forall xs e, Q xs (inr e)) ->
  psound (E := E) (try_ p) Q.
Proof.
  intros H HQ HQ' b Hwf. apply wp_try. eapply wp_mono; [by apply H| |].
  - intros a b' (? & xs & ? & ?). eauto 6.
  - intros e b' (? & xs & ?). eauto 6.
Qed.

Lemma psound_ok_or {E A} (o : option A) (e : E) (P : list byte -> A -> Prop) :
  (forall a, o = Some a -> P [] a) -> psound (ok_or o e) P.
Proof. destruct o; intros H; [by apply psound_ret, H|apply psound_err]. Qed.

Lemma psound_ok_or_eq {E A} (o : option A) (e : E) :
  psound (ok_or o e) (fun xs a => xs = [] /\ o = Some a).
Proof. by apply psound_ok_or. Qed.

Lemma psound_get_pos {E} : psound (E := E) pb_offset (fun xs _ => xs = []).
Proof. intros b Hwf. unfold pb_offset, wp, mbind, M_bind, get. simpl. eauto using consumed_refl. Qed.

Lemma psound_run_on {E A T} (t : T) (m : M T E A) (P : list byte -> A -> Prop) :
  wp m t (fun a _ => P [] a) (fun _ _ => True) -> psound (run_on t m) P.
Proof.
  intros H b Hwf. apply wp_run_on. eapply wp_mono; [exact H| |];
    simpl; eauto using consumed_refl.
Qed.

Lemma psound_reads {A} (p : PM A) n f :
  reads p n f -> psound p (fun xs a => length xs = n /\ a = f xs).
Proof.
  intros Hp b Hwf. specialize (Hp b Hwf). unfold wp. case_decide as Hd.
  - destruct Hp as (xs & post & Hu & <- & ->).
    destruct (consumed_advance b xs post Hu Hwf). eauto 6.
  - rewrite Hp. eauto using consumed_refl.
Qed.

Lemma psound_u8 : psound read_u8 (fun xs v => xs = [v]).
Proof.
  eapply psound_mono; [apply (psound_reads _ _ _ reads_u8)|].
  intros [|x []] a [Hl ->]; done.
Qed.

Lemma psound_be (p : PM Z) n :
  reads p n from_be -> psound p (fun xs v => xs = be_bytes n v /\ (0 <= v < 256 ^ Z.of_nat n)%Z).
Proof.
  intros Hp. eapply psound_mono; [by apply psound_reads|].
  intros xs a [Hl ->]. rewrite <-Hl at 1.
  rewrite be_bytes_from_be, <-Hl. split; [done|apply from_be_range].
Qed.

Lemma psound_u16 : psound read_u16 (fun xs v => xs = be_bytes 2 v /\ (0 <= v < 2 ^ 16)%Z).
Proof. apply (psound_be _ 2), reads_u16. Qed.

Lemma psound_u24 : psound read_u24 (fun xs v => xs = be_bytes 3 v /\ (0 <= v < 2 ^ 24)%Z).
Proof. apply (psound_be _ 3), reads_u24. Qed.

Lemma psound_u32 : psound read_u32 (fun xs v => xs = be_bytes 4 v /\ (0 <= v < 2 ^ 32)%Z).
Proof. apply (psound_be _ 4), reads_u32. Qed.

Lemma psound_slice n : psound (slice n) (fun xs b => b = pb_new xs /\ length xs = n).
Proof.
  eapply psound_mono; [apply (psound_reads _ _ _ (reads_slice n))|]. naive_solver.
Qed.

Lemma psound_fill n : psound (fill n) (fun xs ys => ys = xs /\ length xs = n).
Proof.
  eapply psound_mono; [apply (psound_reads _ _ _ (reads_fill n))|].
  unfold id. naive_solver.
Qed.

(** ** Loops terminate and keep their invariant

    [I xs acc] relates the bytes read by the loop so far to the accumulator. *)
Lemma wp_while {E A} (body : A -> M ParseBuffer E A) (I : list byte -> A -> Prop) data :
  (forall acc xs, I xs acc ->
     psound (body acc) (fun ys acc' => ys <> [] /\ I (xs ++ ys) acc')) ->
  forall fuel acc xs b, pb_wf b -> consumed (pb_new data) b xs -> I xs acc ->
  length (unread b) <= fuel ->
  wp (while_nonempty fuel body acc) b
     (fun acc' b' => I data acc' /\ consumed (pb_new data) b' data) (fun _ _ => True).
Proof.
  intros Hbody. induction fuel as [|fuel IH]; intros acc xs b Hwf Hc HI Hfuel.
  all: unfold wp; cbn [while_nonempty]; destruct (is_empty b) eqn:He.
  1,3: apply (is_empty_spec b Hwf) in He; destruct Hc as (Hb & Hp & Hu);
       rewrite unread_new, He, app_nil_r in Hu; subst xs; split; [done|];
       split_and!; [done|done|by rewrite unread_new, He, app_nil_r].
  - assert (unread b <> []) as Hne.
    { intros H. apply (is_empty_spec b Hwf) in H. congruence. }
    destruct (unread b); [done|simpl in Hfuel; lia].
  - apply (wp_bind (body acc) (fun acc' => while_nonempty fuel body acc') b).
    eapply wp_mono; [by apply (Hbody acc xs HI b Hwf)| |done].
    intros acc' b' (Hwf' & ys & Hc' & Hne & HI').
    apply (IH acc' (xs ++ ys) b'); [done|by eapply consumed_trans|done|].
    destruct Hc' as (_ & _ & Hu'). rewrite Hu', length_app in Hfuel.
    destruct ys; [done|simpl in Hfuel; lia].
Qed.

Lemma wp_loop {E A} (body : A -> M ParseBuffer E A) (I : list byte -> A -> Prop) acc data :
  I [] acc ->
  (forall acc xs, I xs acc ->
     psound (body acc) (fun ys acc' => ys <> [] /\ I (xs ++ ys) acc')) ->
  wp (loop_nonempty body acc) (pb_new data) (fun acc' _ => I data acc') (fun _ _ => True).
Proof.
  intros H0 Hbody. unfold loop_nonempty.
  eapply wp_mono.
  - apply (wp_while body I data Hbody (length data) acc [] (pb_new data));
      [apply pb_new_wf|apply consumed_refl|done|by rewrite unread_new].
  - by intros acc' b' [? _].
  - done.
Qed.

Lemma vec_push_Some {A} N (v : list A) x v' :
  vec_push N v x = Some v' -> v' = v ++ [x] /\ length v < N.
Proof. unfold vec_push. case_decide; naive_solver. Qed.

(** [read_list] returns the items whose encodings make up the slice. *)
Lemma psound_read_list {T} (read : PM T) (P : list byte -> T -> Prop) N n :
  psound read P -> (forall xs x, P xs x -> xs <> []) ->
  psound (read_list N n read) (fun xs items => length xs = n /\ length items <= N /\
    exists encs, xs = mjoin encs /\ Forall2 P encs items).
Proof.
  intros Hr Hne. unfold read_list. eapply psound_bind; [apply psound_slice|].
  intros b xs (-> & Hlen). apply psound_run_on. eapply wp_mono.
  - apply (wp_loop _ (fun xs items => length items <= N /\
      exists encs, xs = mjoin encs /\ Forall2 P encs items)).
    + split; [simpl; lia|]. by exists [].
    + intros acc ys (HN & encs & -> & HF). eapply psound_bind; [exact Hr|].
      intros x zs HP. apply psound_ok_or. intros acc' [-> Hlt]%vec_push_Some.
      rewrite app_nil_r. split; [by eauto|]. split; [rewrite length_app; simpl; lia|].
      exists (encs ++ [zs]). rewrite join_app. simpl. rewrite app_nil_r. split; [done|].
      apply Forall2_app; [done|]. by repeat constructor.
  - intros items _ (HN & encs & Hx & HF). rewrite app_nil_r. eauto.
  - done.
Qed.

(** ** Properties *)

(** List parsing is exact and terminates.  Let [read] be an element parser that
    returns on every input and accepts exactly the non-empty encodings [enc x] of
    elements satisfying [ok].  Then [read_list] returns on every input (its loop ends
    within the length of the slice), and it returns [items] having consumed the whole
    input of length [n] if and only if the input is the concatenation of the
    encodings of [items], all [ok] and at most [N]. *)
Theorem read_list_exact {T} (read : PM T) (enc : T -> list byte) (ok : T -> Prop) N data items :
  psound read (fun xs x => xs = enc x /\ ok x) ->
  (forall x, ok x -> enc x <> [] /\ parses read (enc x) x) ->
  (exists r b, read_list N (length data) read (pb_new data) = (r, b) /\ r <> Panic /\ r <> Diverge) /\
  ((exists b, read_list N (length data) read (pb_new data) = (Ok items, b)) <->
   data = mjoin (enc <$> items) /\ Forall ok items /\ length items <= N).
Proof.
  intros Hs Hc.
  pose proof (psound_read_list read _ N (length data) Hs
    ltac:(intros ? x [-> Hx]; by apply Hc) _ (pb_new_wf data)) as Hl.
  split; [by eapply wp_returns|]. split.
  - intros [b Hb]. apply (wp_Ok _ _ _ _ _ _ Hl) in Hb
      as (Hwf & xs & (_ & _ & Hu) & Hlen & HN & encs & -> & HF).
    rewrite unread_new in Hu. assert (unread b = []) as Hn.
    { apply (f_equal length) in Hu. rewrite length_app in Hu. destruct (unread b); [done|simpl in Hu; lia]. }
    rewrite Hn, app_nil_r in Hu. rewrite Hu. clear -HF HN.
    assert (encs = enc <$> items /\ Forall ok items) as [-> ?]; [|done].
    clear HN. induction HF as [|e x encs items [-> Hx] _ [-> IH]]; [done|]. split; [done|by constructor].
  - intros (-> & HF & HN). eexists.
    pose proof (parses_read_list read enc N items _ eq_refl HN) as Hp.
    specialize (Hp ltac:(intros x Hx; rewrite Forall_forall in HF; by apply Hc, HF) [] []).
    simpl in Hp. rewrite app_nil_r in Hp. exact Hp.
Qed.

Lemma read_list_exact_witness :
  let data := [x01; x02; x03; x04] in
  (exists r b, read_list 2 (length data) read_u16 (pb_new data) = (r, b) /\ r <> Panic /\ r <> Diverge) /\
  ((exists b, read_list 2 (length data) read_u16 (pb_new data) = (Ok [258%Z; 772%Z], b)) <->
   data = mjoin (be_bytes 2 <$> [258%Z; 772%Z]) /\
   Forall (fun z => 0 <= z < 2 ^ 16)%Z [258%Z; 772%Z] /\ 2 <= 2).
Proof.
  apply (read_list_exact read_u16 (be_bytes 2) (fun z => 0 <= z < 2 ^ 16)%Z).
  - exact psound_u16.
  - intros z Hz. split; [done|]. by apply parses_u16.
Defined.
