(* ===== verification/Wire.v ===== *)
(** Code-point tables of the wire format: [ContentType] (content_types.rs),
    [HandshakeType] (handshake/mod.rs), [CipherSuite] (cipher_suites.rs),
    [ExtensionType] (extensions/mod.rs), [SignatureScheme], [NamedGroup],
    [MaxFragmentLength], [PskKeyExchangeMode], [NameType] and [ProtocolVersion]
    (extensions/extension_data/), and the [Alert] message (alert.rs).  Each table
    has its encoder and its parser; the lemmas show that the parser reads back
    exactly what the encoder writes and accepts nothing else. *)

From S2P Require Import Prelude Errors CryptoBuffer ParseBuffer.
From Stdlib Require Import ZArith Lia.
From Stdlib Require Import Strings.Byte.
From stdpp Require Import base list option numbers tactics sets.

(** ** content_types.rs *)

Inductive ContentType : Type :=
| CT_Invalid
| CT_ChangeCipherSpec
| CT_Alert
| CT_Handshake
| CT_ApplicationData.

#[global] Instance ContentType_eq_dec : EqDecision ContentType.
Proof. solve_decision. Defined.

(** [content_type as u8] *)
Definition ContentType_code (t : ContentType) : Z :=
  match t with
  | CT_Invalid => 0
  | CT_ChangeCipherSpec => 20
  | CT_Alert => 21
  | CT_Handshake => 22
  | CT_ApplicationData => 23
  end%Z.

Definition ContentType_of (num : byte) : option ContentType :=
  match byte_val num with
  | 0%Z => Some CT_Invalid
  | 20%Z => Some CT_ChangeCipherSpec
  | 21%Z => Some CT_Alert
  | 22%Z => Some CT_Handshake
  | 23%Z => Some CT_ApplicationData
  | _ => None
  end.

(** ** handshake/mod.rs *)

Inductive HandshakeType : Type :=
| HT_ClientHello
| HT_ServerHello
| HT_NewSessionTicket
| HT_EndOfEarlyData
| HT_EncryptedExtensions
| HT_Certificate
| HT_CertificateRequest
| HT_CertificateVerify
| HT_Finished
| HT_KeyUpdate
| HT_MessageHash.

#[global] Instance HandshakeType_eq_dec : EqDecision HandshakeType.
Proof. solve_decision. Defined.

(** [handshake_type as u8] *)
Definition HandshakeType_code (t : HandshakeType) : Z :=
  match t with
  | HT_ClientHello => 1
  | HT_ServerHello => 2
  | HT_NewSessionTicket => 4
  | HT_EndOfEarlyData => 5
  | HT_EncryptedExtensions => 8
  | HT_Certificate => 11
  | HT_CertificateRequest => 13
  | HT_CertificateVerify => 15
  | HT_Finished => 20
  | HT_KeyUpdate => 24
  | HT_MessageHash => 254
  end%Z.

Definition HandshakeType_parse : PM HandshakeType :=
  b ← read_u8;
  match byte_val b with
  | 1%Z => mret HT_ClientHello
  | 2%Z => mret HT_ServerHello
  | 4%Z => mret HT_NewSessionTicket
  | 5%Z => mret HT_EndOfEarlyData
  | 8%Z => mret HT_EncryptedExtensions
  | 11%Z => mret HT_Certificate
  | 13%Z => mret HT_CertificateRequest
  | 15%Z => mret HT_CertificateVerify
  | 20%Z => mret HT_Finished
  | 24%Z => mret HT_KeyUpdate
  | 254%Z => mret HT_MessageHash
  | _ => err InvalidData
  end.

Definition LEGACY_VERSION : Z := 0x0303.

(** ** cipher_suites.rs *)

Inductive CipherSuite : Type :=
| TlsAes128GcmSha256
| TlsAes256GcmSha384
| TlsChacha20Poly1305Sha256
| TlsAes128CcmSha256
| TlsAes128Ccm8Sha256
| TlsPskAes128GcmSha256.

#[global] Instance CipherSuite_eq_dec : EqDecision CipherSuite.
Proof. solve_decision. Defined.

(** [suite as u16] *)
Definition CipherSuite_code (t : CipherSuite) : Z :=
  match t with
  | TlsAes128GcmSha256 => 0x1301
  | TlsAes256GcmSha384 => 0x1302
  | TlsChacha20Poly1305Sha256 => 0x1303
  | TlsAes128CcmSha256 => 0x1304
  | TlsAes128Ccm8Sha256 => 0x1305
  | TlsPskAes128GcmSha256 => 0x00A8
  end%Z.

Definition CipherSuite_parse : PM CipherSuite :=
  v ← read_u16;
    if decide (v = CipherSuite_code TlsAes128GcmSha256) then mret TlsAes128GcmSha256 else
    if decide (v = CipherSuite_code TlsAes256GcmSha384) then mret TlsAes256GcmSha384 else
    if decide (v = CipherSuite_code TlsChacha20Poly1305Sha256) then mret TlsChacha20Poly1305Sha256 else
    if decide (v = CipherSuite_code TlsAes128CcmSha256) then mret TlsAes128CcmSha256 else
    if decide (v = CipherSuite_code TlsAes128Ccm8Sha256) then mret TlsAes128Ccm8Sha256 else
    if decide (v = CipherSuite_code TlsPskAes128GcmSha256) then mret TlsPskAes128GcmSha256 else
    err InvalidData.

(** ** extensions/mod.rs *)

Inductive ExtensionType : Type :=
| ET_ServerName
| ET_MaxFragmentLength
| ET_StatusRequest
| ET_SupportedGroups
| ET_SignatureAlgorithms
| ET_UseSrtp
| ET_Heartbeat
| ET_ApplicationLayerProtocolNegotiation
| ET_SignedCertificateTimestamp
| ET_ClientCertificateType
| ET_ServerCertificateType
| ET_Padding
| ET_CompressCertificate
| ET_PreSharedKey
| ET_EarlyData
| ET_SupportedVersions
| ET_Cookie
| ET_PskKeyExchangeModes
| ET_CertificateAuthorities
| ET_OidFilters
| ET_PostHandshakeAuth
| ET_SignatureAlgorithmsCert
| ET_KeyShare.

#[global] Instance ExtensionType_eq_dec : EqDecision ExtensionType.
Proof. solve_decision. Defined.

(** [extension_type as u16] *)
Definition ExtensionType_code (t : ExtensionType) : Z :=
  match t with
  | ET_ServerName => 0
  | ET_MaxFragmentLength => 1
  | ET_StatusRequest => 5
  | ET_SupportedGroups => 10
  | ET_SignatureAlgorithms => 13
  | ET_UseSrtp => 14
  | ET_Heartbeat => 15
  | ET_ApplicationLayerProtocolNegotiation => 16
  | ET_SignedCertificateTimestamp => 18
  | ET_ClientCertificateType => 19
  | ET_ServerCertificateType => 20
  | ET_Padding => 21
  | ET_CompressCertificate => 27
  | ET_PreSharedKey => 41
  | ET_EarlyData => 42
  | ET_SupportedVersions => 43
  | ET_Cookie => 44
  | ET_PskKeyExchangeModes => 45
  | ET_CertificateAuthorities => 47
  | ET_OidFilters => 48
  | ET_PostHandshakeAuth => 49
  | ET_SignatureAlgorithmsCert => 50
  | ET_KeyShare => 51
  end%Z.

Definition ExtensionType_parse : PM ExtensionType :=
  v ← read_u16;
    if decide (v = ExtensionType_code ET_ServerName) then mret ET_ServerName else
    if decide (v = ExtensionType_code ET_MaxFragmentLength) then mret ET_MaxFragmentLength else
    if decide (v = ExtensionType_code ET_StatusRequest) then mret ET_StatusRequest else
    if decide (v = ExtensionType_code ET_SupportedGroups) then mret ET_SupportedGroups else
    if decide (v = ExtensionType_code ET_SignatureAlgorithms) then mret ET_SignatureAlgorithms else
    if decide (v = ExtensionType_code ET_UseSrtp) then mret ET_UseSrtp else
    if decide (v = ExtensionType_code ET_Heartbeat) then mret ET_Heartbeat else
    if decide (v = ExtensionType_code ET_ApplicationLayerProtocolNegotiation) then mret ET_ApplicationLayerProtocolNegotiation else
    if decide (v = ExtensionType_code ET_SignedCertificateTimestamp) then mret ET_SignedCertificateTimestamp else
    if decide (v = ExtensionType_code ET_ClientCertificateType) then mret ET_ClientCertificateType else
    if decide (v = ExtensionType_code ET_ServerCertificateType) then mret ET_ServerCertificateType else
    if decide (v = ExtensionType_code ET_Padding) then mret ET_Padding else
    if decide (v = ExtensionType_code ET_CompressCertificate) then mret ET_CompressCertificate else
    if decide (v = ExtensionType_code ET_PreSharedKey) then mret ET_PreSharedKey else
    if decide (v = ExtensionType_code ET_EarlyData) then mret ET_EarlyData else
    if decide (v = ExtensionType_code ET_SupportedVersions) then mret ET_SupportedVersions else
    if decide (v = ExtensionType_code ET_Cookie) then mret ET_Cookie else
    if decide (v = ExtensionType_code ET_PskKeyExchangeModes) then mret ET_PskKeyExchangeModes else
    if decide (v = ExtensionType_code ET_CertificateAuthorities) then mret ET_CertificateAuthorities else
    if decide (v = ExtensionType_code ET_OidFilters) then mret ET_OidFilters else
    if decide (v = ExtensionType_code ET_PostHandshakeAuth) then mret ET_PostHandshakeAuth else
    if decide (v = ExtensionType_code ET_SignatureAlgorithmsCert) then mret ET_SignatureAlgorithmsCert else
    if decide (v = ExtensionType_code ET_KeyShare) then mret ET_KeyShare else
    err InvalidData.

Definition ExtensionType_encode (t : ExtensionType) : EncM unit :=
  encode_error (push_u16 (ExtensionType_code t)).

(** ** extension_data/signature_algorithms.rs *)

Inductive SignatureScheme : Type :=
| RsaPkcs1Sha256
| RsaPkcs1Sha384
| RsaPkcs1Sha512
| EcdsaSecp256r1Sha256
| EcdsaSecp384r1Sha384
| EcdsaSecp521r1Sha512
| RsaPssRsaeSha256
| RsaPssRsaeSha384
| RsaPssRsaeSha512
| Ed25519
| Ed448
| RsaPssPssSha256
| RsaPssPssSha384
| RsaPssPssSha512
| Sha224Ecdsa
| Sha224Rsa
| Sha224Dsa
| RsaPkcs1Sha1
| EcdsaSha1
| Sha256BrainpoolP256r1
| Sha384BrainpoolP384r1
| Sha512BrainpoolP512r1
| MlDsa44
| MlDsa65
| MlDsa87.

#[global] Instance SignatureScheme_eq_dec : EqDecision SignatureScheme.
Proof. solve_decision. Defined.

(** [as_u16] *)
Definition SignatureScheme_as_u16 (t : SignatureScheme) : Z :=
  match t with
  | RsaPkcs1Sha256 => 0x0401
  | RsaPkcs1Sha384 => 0x0501
  | RsaPkcs1Sha512 => 0x0601
  | EcdsaSecp256r1Sha256 => 0x0403
  | EcdsaSecp384r1Sha384 => 0x0503
  | EcdsaSecp521r1Sha512 => 0x0603
  | RsaPssRsaeSha256 => 0x0804
  | RsaPssRsaeSha384 => 0x0805
  | RsaPssRsaeSha512 => 0x0806
  | Ed25519 => 0x0807
  | Ed448 => 0x0808
  | RsaPssPssSha256 => 0x0809
  | RsaPssPssSha384 => 0x080a
  | RsaPssPssSha512 => 0x080b
  | Sha224Ecdsa => 0x0303
  | Sha224Rsa => 0x0301
  | Sha224Dsa => 0x0302
  | RsaPkcs1Sha1 => 0x0201
  | EcdsaSha1 => 0x0203
  | Sha256BrainpoolP256r1 => 0x081A
  | Sha384BrainpoolP384r1 => 0x081B
  | Sha512BrainpoolP512r1 => 0x081C
  | MlDsa44 => 0x0904
  | MlDsa65 => 0x0905
  | MlDsa87 => 0x0906
  end%Z.

Definition SignatureScheme_parse : PM SignatureScheme :=
  v ← read_u16;
  match v with
  | 0x0401%Z => mret RsaPkcs1Sha256
  | 0x0501%Z => mret RsaPkcs1Sha384
  | 0x0601%Z => mret RsaPkcs1Sha512
  | 0x0403%Z => mret EcdsaSecp256r1Sha256
  | 0x0503%Z => mret EcdsaSecp384r1Sha384
  | 0x0603%Z => mret EcdsaSecp521r1Sha512
  | 0x0804%Z => mret RsaPssRsaeSha256
  | 0x0805%Z => mret RsaPssRsaeSha384
  | 0x0806%Z => mret RsaPssRsaeSha512
  | 0x0807%Z => mret Ed25519
  | 0x0808%Z => mret Ed448
  | 0x0809%Z => mret RsaPssPssSha256
  | 0x080a%Z => mret RsaPssPssSha384
  | 0x080b%Z => mret RsaPssPssSha512
  | 0x0303%Z => mret Sha224Ecdsa
  | 0x0301%Z => mret Sha224Rsa
  | 0x0302%Z => mret Sha224Dsa
  | 0x0201%Z => mret RsaPkcs1Sha1
  | 0x0203%Z => mret EcdsaSha1
  | 0x081A%Z => mret Sha256BrainpoolP256r1
  | 0x081B%Z => mret Sha384BrainpoolP384r1
  | 0x081C%Z => mret Sha512BrainpoolP512r1
  | 0x0904%Z => mret MlDsa44
  | 0x0905%Z => mret MlDsa65
  | 0x0906%Z => mret MlDsa87
  | _ => err InvalidData
  end.

(** ** extension_data/supported_groups.rs *)

Inductive NamedGroup : Type :=
| Secp256r1
| Secp384r1
| Secp521r1
| X25519
| X448
| Ffdhe2048
| Ffdhe3072
| Ffdhe4096
| Ffdhe6144
| Ffdhe8192
| X25519MLKEM768
| SecP256r1MLKEM768
| SecP384r1MLKEM1024.

#[global] Instance NamedGroup_eq_dec : EqDecision NamedGroup.
Proof. solve_decision. Defined.

(** [as_u16] *)
Definition NamedGroup_as_u16 (t : NamedGroup) : Z :=
  match t with
  | Secp256r1 => 0x0017
  | Secp384r1 => 0x0018
  | Secp521r1 => 0x0019
  | X25519 => 0x001D
  | X448 => 0x001E
  | Ffdhe2048 => 0x0100
  | Ffdhe3072 => 0x0101
  | Ffdhe4096 => 0x0102
  | Ffdhe6144 => 0x0103
  | Ffdhe8192 => 0x0104
  | X25519MLKEM768 => 0x11EC
  | SecP256r1MLKEM768 => 0x11EB
  | SecP384r1MLKEM1024 => 0x11ED
  end%Z.

Definition NamedGroup_parse : PM NamedGroup :=
  v ← read_u16;
  match v with
  | 0x0017%Z => mret Secp256r1
  | 0x0018%Z => mret Secp384r1
  | 0x0019%Z => mret Secp521r1
  | 0x001D%Z => mret X25519
  | 0x001E%Z => mret X448
  | 0x0100%Z => mret Ffdhe2048
  | 0x0101%Z => mret Ffdhe3072
  | 0x0102%Z => mret Ffdhe4096
  | 0x0103%Z => mret Ffdhe6144
  | 0x0104%Z => mret Ffdhe8192
  | 0x11EC%Z => mret X25519MLKEM768
  | 0x11EB%Z => mret SecP256r1MLKEM768
  | 0x11ED%Z => mret SecP384r1MLKEM1024
  | _ => err InvalidData
  end.

Definition NamedGroup_encode (g : NamedGroup) : EncM unit :=
  encode_error (push_u16 (NamedGroup_as_u16 g)).

(** ** extension_data/max_fragment_length.rs *)

Inductive MaxFragmentLength : Type := Bits9 | Bits10 | Bits11 | Bits12.

#[global] Instance MaxFragmentLength_eq_dec : EqDecision MaxFragmentLength.
Proof. solve_decision. Defined.

Definition MaxFragmentLength_code (m : MaxFragmentLength) : Z :=
  match m with Bits9 => 1 | Bits10 => 2 | Bits11 => 3 | Bits12 => 4 end%Z.

Definition MaxFragmentLength_parse : PM MaxFragmentLength :=
  b ← read_u8;
  match byte_val b with
  | 1%Z => mret Bits9
  | 2%Z => mret Bits10
  | 3%Z => mret Bits11
  | 4%Z => mret Bits12
  | _ => err InvalidData
  end.

Definition MaxFragmentLength_encode (m : MaxFragmentLength) : EncM unit :=
  encode_error (push (u8 (MaxFragmentLength_code m))).

(** ** extension_data/psk_key_exchange_modes.rs *)

Inductive PskKeyExchangeMode : Type := PskKe | PskDheKe.

#[global] Instance PskKeyExchangeMode_eq_dec : EqDecision PskKeyExchangeMode.
Proof. solve_decision. Defined.

Definition PskKeyExchangeMode_code (m : PskKeyExchangeMode) : Z :=
  match m with PskKe => 0 | PskDheKe => 1 end%Z.

Definition PskKeyExchangeMode_parse : PM PskKeyExchangeMode :=
  b ← read_u8;
  match byte_val b with
  | 0%Z => mret PskKe
  | 1%Z => mret PskDheKe
  | _ => err InvalidData
  end.

Definition PskKeyExchangeMode_encode (m : PskKeyExchangeMode) : EncM unit :=
  encode_error (push (u8 (PskKeyExchangeMode_code m))).

(** ** extension_data/server_name.rs *)

Inductive NameType : Type := HostName.

#[global] Instance NameType_eq_dec : EqDecision NameType.
Proof. solve_decision. Defined.

Definition NameType_code (t : NameType) : Z := match t with HostName => 0 end%Z.

Definition NameType_parse : PM NameType :=
  b ← read_u8;
  match byte_val b with
  | 0%Z => mret HostName
  | _ => err InvalidData
  end.

Definition NameType_encode (t : NameType) : EncM unit :=
  encode_error (push (u8 (NameType_code t))).

(** ** extension_data/supported_versions.rs *)

(** The tuple struct [ProtocolVersion(u16)]. *)
Record ProtocolVersion : Type := mkVersion { version_code : Z }.

#[global] Instance ProtocolVersion_eq_dec : EqDecision ProtocolVersion.
Proof. solve_decision. Defined.

Definition ProtocolVersion_encode (v : ProtocolVersion) : EncM unit :=
  encode_error (push_u16 (version_code v)).

Definition ProtocolVersion_parse : PM ProtocolVersion :=
  v ← read_u16; mret (mkVersion v).

Definition TLS13 : ProtocolVersion := mkVersion 0x0304.

(** ** alert.rs *)

Record Alert : Type := mkAlert {
  alert_level : AlertLevel;
  alert_description : AlertDescription;
}.

#[global] Instance Alert_eq_dec : EqDecision Alert.
Proof. solve_decision. Defined.

Definition Alert_parse : TM Alert :=
  level ← into read_u8;
  desc ← into read_u8;
  l ← ok_or (AlertLevel_of level) DecodeError;
  d ← ok_or (AlertDescription_of desc) DecodeError;
  mret (mkAlert l d).

Definition Alert_encode (a : Alert) : EncM unit :=
  encode_error (push (u8 (AlertLevel_code (alert_level a))));;
  encode_error (push (u8 (AlertDescription_code (alert_description a))));;
  mret tt.

(** ** Lemmas: each table is a bijection onto the code points it accepts *)

Lemma ContentType_of_code t : ContentType_of (u8 (ContentType_code t)) = Some t.
Proof. by destruct t. Qed.

Lemma ContentType_code_of b t : ContentType_of b = Some t -> b = u8 (ContentType_code t).
Proof. destruct b; intros H; try discriminate H; by injection H as <-. Qed.

(** Parsers of one-byte and two-byte code points. *)
Lemma parses_code_u8 {A} (k : byte -> PM A) z a :
  k (u8 z) = mret a -> parses (b ← read_u8; k b) [u8 z] a.
Proof. intros H. eapply parses_bind_last; [apply parses_u8|]. rewrite H. apply parses_ret. Qed.

Lemma parses_code_u16 {A} (k : Z -> PM A) z a :
  (0 <= z < 2 ^ 16)%Z -> k z = mret a -> parses (v ← read_u16; k v) (be_bytes 2 z) a.
Proof.
  intros Hz H. eapply parses_bind_last; [by apply parses_u16|]. rewrite H. apply parses_ret.
Qed.

Lemma psound_code_u8 {A} (k : byte -> PM A) (code : A -> Z) :
  (forall b, (exists a, k b = mret a /\ b = u8 (code a)) \/ exists e, k b = err e) ->
  psound (b ← read_u8; k b) (fun xs a => xs = [u8 (code a)]).
Proof.
  intros H. eapply psound_bind; [apply psound_u8|]. intros b xs ->.
  destruct (H b) as [(a & -> & ->)|[e ->]]; [by apply psound_ret|apply psound_err].
Qed.

Lemma psound_code_u16 {A} (k : Z -> PM A) (code : A -> Z) :
  (forall v, (0 <= v < 2 ^ 16)%Z ->
     (exists a, k v = mret a /\ v = code a) \/ exists e, k v = err e) ->
  psound (v ← read_u16; k v) (fun xs a => xs = be_bytes 2 (code a)).
Proof.
  intros H. eapply psound_bind; [apply psound_u16|]. intros v xs (-> & Hv).
  destruct (H v Hv) as [(a & -> & ->)|[e ->]].
  - apply psound_ret. by rewrite app_nil_r.
  - apply psound_err.
Qed.

(** Proves the side condition of [psound_code_u8] by enumerating the byte. *)
Ltac byte_table :=
  let b := fresh "b" in
  intros b; destruct b; first [left; eexists; split; reflexivity | right; eexists; reflexivity].

(** Proves the side condition of [psound_code_u16] for a chain of comparisons. *)
Ltac if_table :=
  intros v _; repeat (case_decide; [left; eexists; split; [reflexivity|done]|]);
  right; eexists; reflexivity.

(** Proves it for a [match] on the code: follows the digits of the number. *)
Ltac match_table :=
  let v := fresh "v" in
  intros v _;
  repeat match goal with
  | |- (exists a, match ?x with _ => _ end = _ /\ _) \/ _ => destruct x
  end;
  first [left; eexists; split; reflexivity | right; eexists; reflexivity].

Lemma HandshakeType_parses t :
  parses HandshakeType_parse [u8 (HandshakeType_code t)] t.
Proof. apply parses_code_u8. by destruct t. Qed.

Lemma HandshakeType_sound :
  psound HandshakeType_parse (fun xs t => xs = [u8 (HandshakeType_code t)]).
Proof. apply psound_code_u8. byte_table. Qed.

Lemma CipherSuite_parses t : parses CipherSuite_parse (be_bytes 2 (CipherSuite_code t)) t.
Proof. apply parses_code_u16; by destruct t. Qed.

Lemma CipherSuite_sound :
  psound CipherSuite_parse (fun xs t => xs = be_bytes 2 (CipherSuite_code t)).
Proof. apply psound_code_u16. if_table. Qed.

Lemma ExtensionType_parses t : parses ExtensionType_parse (be_bytes 2 (ExtensionType_code t)) t.
Proof. apply parses_code_u16; by destruct t. Qed.

Lemma ExtensionType_sound :
  psound ExtensionType_parse (fun xs t => xs = be_bytes 2 (ExtensionType_code t)).
Proof. apply psound_code_u16. if_table. Qed.

Lemma ExtensionType_encodes t :
  encodes (ExtensionType_encode t) (be_bytes 2 (ExtensionType_code t)).
Proof. unfold ExtensionType_encode. auto with tls. Qed.

Lemma SignatureScheme_parses t :
  parses SignatureScheme_parse (be_bytes 2 (SignatureScheme_as_u16 t)) t.
Proof. apply parses_code_u16; by destruct t. Qed.

Lemma SignatureScheme_sound :
  psound SignatureScheme_parse (fun xs t => xs = be_bytes 2 (SignatureScheme_as_u16 t)).
Proof. apply psound_code_u16. match_table. Qed.

Lemma NamedGroup_parses t : parses NamedGroup_parse (be_bytes 2 (NamedGroup_as_u16 t)) t.
Proof. apply parses_code_u16; by destruct t. Qed.

Lemma NamedGroup_sound :
  psound NamedGroup_parse (fun xs t => xs = be_bytes 2 (NamedGroup_as_u16 t)).
Proof. apply psound_code_u16. match_table. Qed.

Lemma NamedGroup_encodes g :
  encodes (NamedGroup_encode g) (be_bytes 2 (NamedGroup_as_u16 g)).
Proof. unfold NamedGroup_encode. auto with tls. Qed.

Lemma MaxFragmentLength_parses m :
  parses MaxFragmentLength_parse [u8 (MaxFragmentLength_code m)] m.
Proof. apply parses_code_u8. by destruct m. Qed.

Lemma MaxFragmentLength_sound :
  psound MaxFragmentLength_parse (fun xs m => xs = [u8 (MaxFragmentLength_code m)]).
Proof. apply psound_code_u8. byte_table. Qed.

Lemma MaxFragmentLength_encodes m :
  encodes (MaxFragmentLength_encode m) [u8 (MaxFragmentLength_code m)].
Proof. unfold MaxFragmentLength_encode. auto with tls. Qed.

Lemma PskKeyExchangeMode_parses m :
  parses PskKeyExchangeMode_parse [u8 (PskKeyExchangeMode_code m)] m.
Proof. apply parses_code_u8. by destruct m. Qed.

Lemma PskKeyExchangeMode_sound :
  psound PskKeyExchangeMode_parse (fun xs m => xs = [u8 (PskKeyExchangeMode_code m)]).
Proof. apply psound_code_u8. byte_table. Qed.

Lemma PskKeyExchangeMode_encodes m :
  encodes (PskKeyExchangeMode_encode m) [u8 (PskKeyExchangeMode_code m)].
Proof. unfold PskKeyExchangeMode_encode. auto with tls. Qed.

Lemma NameType_parses t : parses NameType_parse [u8 (NameType_code t)] t.
Proof. apply parses_code_u8. by destruct t. Qed.

Lemma NameType_sound : psound NameType_parse (fun xs t => xs = [u8 (NameType_code t)]).
Proof. apply psound_code_u8. byte_table. Qed.

Lemma NameType_encodes t : encodes (NameType_encode t) [u8 (NameType_code t)].
Proof. unfold NameType_encode. auto with tls. Qed.

Definition version_ok (v : ProtocolVersion) : Prop := (0 <= version_code v < 2 ^ 16)%Z.

Lemma ProtocolVersion_parses v :
  version_ok v -> parses ProtocolVersion_parse (be_bytes 2 (version_code v)) v.
Proof. intros Hv. apply parses_code_u16; [done|]. by destruct v. Qed.

Lemma ProtocolVersion_sound :
  psound ProtocolVersion_parse
    (fun xs v => xs = be_bytes 2 (version_code v) /\ version_ok v).
Proof.
  eapply psound_bind; [apply psound_u16|]. intros v xs (-> & Hv).
  apply psound_ret. by rewrite app_nil_r.
Qed.

Lemma ProtocolVersion_encodes v :
  encodes (ProtocolVersion_encode v) (be_bytes 2 (version_code v)).
Proof. unfold ProtocolVersion_encode. auto with tls. Qed.

#[export] Hint Resolve ExtensionType_encodes NamedGroup_encodes MaxFragmentLength_encodes
  PskKeyExchangeMode_encodes NameType_encodes ProtocolVersion_encodes : tls.

(** *** Alerts *)

Definition Alert_bytes (a : Alert) : list byte :=
  [u8 (AlertLevel_code (alert_level a)); u8 (AlertDescription_code (alert_description a))].

Lemma Alert_encodes a : encodes (Alert_encode a) (Alert_bytes a).
Proof.
  unfold Alert_encode, Alert_bytes.
  apply (encodes_bind _ _ [_] [_]); [auto with tls|].
  apply (encodes_bind _ _ [_] []); auto with tls.
Qed.
#[export] Hint Resolve Alert_encodes : tls.

Lemma Alert_parses a : parses Alert_parse (Alert_bytes a) a.
Proof.
  unfold Alert_parse, Alert_bytes.
  eapply (parses_bind _ _ [_] [_]); [apply parses_map_err, parses_u8|].
  eapply (parses_bind _ _ [_] []); [apply parses_map_err, parses_u8|].
  rewrite AlertLevel_of_code, AlertDescription_of_code.
  destruct a. apply parses_ret.
Qed.

Lemma Alert_sound : psound Alert_parse (fun xs a => xs = Alert_bytes a).
Proof.
  unfold Alert_parse.
  eapply psound_bind; [apply psound_map_err, psound_u8|]. intros b0 ? ->.
  eapply psound_bind; [apply psound_map_err, psound_u8|]. intros b1 ? ->.
  destruct (AlertLevel_of b0) as [l|] eqn:Hl; [|apply psound_err].
  destruct (AlertDescription_of b1) as [d|] eqn:Hd; [|apply psound_err].
  apply psound_ret. unfold Alert_bytes. simpl.
  by rewrite <-(AlertLevel_code_of _ _ Hl), <-(AlertDescription_code_of _ _ Hd).
Qed.
