(* ===== verification/ExtensionData.v ===== *)
(** Extension payloads (extensions/extension_data/): one record per struct,
    with its [parse] and [encode].  For each payload, [X_bytes] is the wire
    format; the lemmas show that [encode] writes it ([encodes]), that [parse]
    reads it back ([parses]) and that [parse] accepts nothing else ([psound]). *)

From S2P Require Import Prelude Errors CryptoBuffer ParseBuffer Wire.
From Stdlib Require Import ZArith Lia.
From Stdlib Require Import Strings.Byte.
From stdpp Require Import base list option numbers tactics sets.

(** ** unimplemented.rs *)

Record Unimplemented : Type := mkUnimplemented { un_data : list byte }.

Definition Unimplemented_parse : PM Unimplemented :=
  b ← get; mret (mkUnimplemented (pb_as_slice b)).

Definition Unimplemented_encode (u : Unimplemented) : EncM unit :=
  extend_from_slice (un_data u).

(** ** alpn.rs *)

Record AlpnProtocolNameList : Type := mkAlpn { alpn_protocols : list (list byte) }.

(** One turn of the validation loop: a non-empty name, dropped. *)
Definition Alpn_parse_name (acc : unit) : PM unit :=
  name_len ← read_u8;
  if decide (byte_val name_len = 0%Z) then err InvalidData
  else
    slice (Z.to_nat (byte_val name_len));;
    mret tt.

Definition Alpn_parse : PM AlpnProtocolNameList :=
  list_len ← read_u16;
  list_buf ← slice (Z.to_nat list_len);
  run_on list_buf (loop_nonempty Alpn_parse_name tt);;
  mret (mkAlpn []).

Definition Alpn_encode (a : AlpnProtocolNameList) : EncM unit :=
  with_u16_length (for_each (alpn_protocols a) (fun protocol =>
    encode_error (push (u8_of_nat (length protocol)));;
    extend_from_slice protocol)).

(** ** key_share.rs *)

Record KeyShareEntry : Type := mkKeyShareEntry {
  ks_group : NamedGroup;
  ks_opaque : list byte;
}.

Definition KeyShareEntry_parse : PM KeyShareEntry :=
  group ← NamedGroup_parse;
  opaque_len ← read_u16;
  opaque ← slice (Z.to_nat opaque_len);
  mret (mkKeyShareEntry group (pb_as_slice opaque)).

Definition KeyShareEntry_encode (e : KeyShareEntry) : EncM unit :=
  NamedGroup_encode (ks_group e);;
  encode_error (with_u16_length (extend_from_slice (ks_opaque e))).

Record KeyShareServerHello : Type := mkKeyShareSH { kssh_entry : KeyShareEntry }.

Definition KeyShareServerHello_parse : PM KeyShareServerHello :=
  e ← KeyShareEntry_parse; mret (mkKeyShareSH e).

Definition KeyShareServerHello_encode (k : KeyShareServerHello) : EncM unit :=
  KeyShareEntry_encode (kssh_entry k).

Record KeyShareClientHello : Type := mkKeyShareCH { client_shares : list KeyShareEntry }.

Definition KeyShareClientHello_parse (N : nat) : PM KeyShareClientHello :=
  len ← read_u16;
  l ← read_list N (Z.to_nat len) KeyShareEntry_parse;
  mret (mkKeyShareCH l).

Definition KeyShareClientHello_encode (k : KeyShareClientHello) : EncM unit :=
  with_u16_length (for_each (client_shares k) KeyShareEntry_encode).

Record KeyShareHelloRetryRequest : Type := mkKeyShareHRR { selected_group : NamedGroup }.

Definition KeyShareHelloRetryRequest_parse : PM KeyShareHelloRetryRequest :=
  g ← NamedGroup_parse; mret (mkKeyShareHRR g).

Definition KeyShareHelloRetryRequest_encode (k : KeyShareHelloRetryRequest) : EncM unit :=
  NamedGroup_encode (selected_group k).

(** ** pre_shared_key.rs *)

Record PreSharedKeyClientHello : Type := mkPskCH {
  identities : list (list byte);
  binders : list (list byte);
  hash_size : nat;
}.

(** One turn of the identity loop. *)
Definition Psk_parse_identity (N : nat) (ids : list (list byte)) : PM (list (list byte)) :=
  id_len ← read_u16;
  if decide (id_len < 1)%Z then err InvalidData
  else
    id_data ← slice (Z.to_nat id_len);
    ids' ← ok_or (vec_push N ids (pb_as_slice id_data)) PInsufficientSpace;
    read_u32;;
    mret ids'.

(** One turn of the binder loop; the accumulator is [(binders, hash_size)]. *)
Definition Psk_parse_binder (N : nat) (acc : list (list byte) * nat) :
    PM (list (list byte) * nat) :=
  b_len ← read_u8;
  let n := Z.to_nat (byte_val b_len) in
  if decide (n < 32) then err InvalidData
  else
    b_data ← slice n;
    bs' ← ok_or (vec_push N (fst acc) (pb_as_slice b_data)) PInsufficientSpace;
    if decide (snd acc = 0) then mret (bs', n)
    else if decide (snd acc <> n) then err InvalidData
    else mret (bs', snd acc).

Definition PreSharedKeyClientHello_parse (N : nat) : PM PreSharedKeyClientHello :=
  identities_len ← read_u16;
  if decide (identities_len < 7)%Z then err InvalidData
  else
    id_buf ← slice (Z.to_nat identities_len);
    ids ← run_on id_buf (loop_nonempty (Psk_parse_identity N) []);
    if decide (length ids = 0) then err InvalidData
    else
      binders_total_len ← read_u16;
      if decide (binders_total_len < 33)%Z then err InvalidData
      else
        bind_buf ← slice (Z.to_nat binders_total_len);
        '(bs, hs) ← run_on bind_buf (loop_nonempty (Psk_parse_binder N) ([], 0));
        if decide (length bs <> length ids) then err InvalidData
        else mret (mkPskCH ids bs hs).

Definition PreSharedKeyClientHello_encode (p : PreSharedKeyClientHello) : EncM unit :=
  encode_error (with_u16_length (for_each (identities p) (fun identity =>
    encode_error (with_u16_length (extend_from_slice identity));;
    encode_error (push_u32 0))));;
  let binders_len := (1 + hash_size p) * length (identities p) in
  encode_error (push_u16 (Z.of_nat binders_len mod 2 ^ 16));;
  for_each (seq 0 binders_len) (fun _ => encode_error (push x00)).

Record PreSharedKeyServerHello : Type := mkPskSH { selected_identity : Z }.

Definition PreSharedKeyServerHello_parse : PM PreSharedKeyServerHello :=
  v ← read_u16; mret (mkPskSH v).

Definition PreSharedKeyServerHello_encode (p : PreSharedKeyServerHello) : EncM unit :=
  encode_error (push_u16 (selected_identity p)).

(** ** psk_key_exchange_modes.rs *)

Record PskKeyExchangeModes : Type := mkPskModes { modes : list PskKeyExchangeMode }.

Definition PskKeyExchangeModes_parse (N : nat) : PM PskKeyExchangeModes :=
  data_length ← read_u8;
  l ← read_list N (Z.to_nat (byte_val data_length)) PskKeyExchangeMode_parse;
  mret (mkPskModes l).

Definition PskKeyExchangeModes_encode (m : PskKeyExchangeModes) : EncM unit :=
  with_u8_length (for_each (modes m) PskKeyExchangeMode_encode).

(** ** server_name.rs *)

Record ServerName : Type := mkServerName { name_type : NameType; name : list byte }.

Definition is_ascii (l : list byte) : bool := forallb (fun b => (byte_val b <? 128)%Z) l.

(** [str::from_utf8] succeeds on every ASCII string, so only the [is_ascii]
    test can reject the name. *)
Definition ServerName_parse : PM ServerName :=
  nt ← NameType_parse;
  name_len ← read_u16;
  nm ← slice (Z.to_nat name_len);
  if is_ascii (pb_as_slice nm) then mret (mkServerName nt (pb_as_slice nm))
  else err InvalidData.

Definition ServerName_encode (s : ServerName) : EncM unit :=
  NameType_encode (name_type s);;
  encode_error (with_u16_length (extend_from_slice (name s))).

Record ServerNameList : Type := mkServerNameList { names : list ServerName }.

Definition ServerNameList_single (server_name : list byte) : ServerNameList :=
  mkServerNameList [mkServerName HostName server_name].

Definition ServerNameList_parse (N : nat) : PM ServerNameList :=
  data_length ← read_u16;
  l ← read_list N (Z.to_nat data_length) ServerName_parse;
  mret (mkServerNameList l).

Definition ServerNameList_encode (s : ServerNameList) : EncM unit :=
  with_u16_length (for_each (names s) ServerName_encode).

(** [ServerNameResponse] is a unit struct. *)
Definition ServerNameResponse_parse : PM unit :=
  b ← get;
  if is_empty b then mret tt else err InvalidData.

Definition ServerNameResponse_encode : EncM unit := mret tt.

(** ** signature_algorithms.rs *)

Record SignatureAlgorithms : Type := mkSigAlgs {
  supported_signature_algorithms : list SignatureScheme;
}.

(** One turn of the tolerant loop: unknown codes are dropped, and so is a
    scheme pushed on a full vector. *)
Definition SigAlgs_step (N : nat) (acc : list SignatureScheme) : PM (list SignatureScheme) :=
  r ← try_ SignatureScheme_parse;
  match r with
  | inl scheme => mret (default acc (vec_push N acc scheme))
  | inr InvalidData => mret acc
  | inr e => err e
  end.

Definition SignatureAlgorithms_parse (N : nat) : PM SignatureAlgorithms :=
  data_length ← read_u16;
  data ← slice (Z.to_nat data_length);
  l ← run_on data (loop_nonempty (SigAlgs_step N) []);
  mret (mkSigAlgs l).

Definition SignatureAlgorithms_encode (s : SignatureAlgorithms) : EncM unit :=
  with_u16_length (for_each (supported_signature_algorithms s) (fun a =>
    encode_error (push_u16 (SignatureScheme_as_u16 a)))).

(** ** signature_algorithms_cert.rs *)

Record SignatureAlgorithmsCert : Type := mkSigAlgsCert {
  supported_signature_algorithms_cert : list SignatureScheme;
}.

Definition SignatureAlgorithmsCert_parse (N : nat) : PM SignatureAlgorithmsCert :=
  data_length ← read_u16;
  l ← read_list N (Z.to_nat data_length) SignatureScheme_parse;
  mret (mkSigAlgsCert l).

Definition SignatureAlgorithmsCert_encode (s : SignatureAlgorithmsCert) : EncM unit :=
  with_u16_length (for_each (supported_signature_algorithms_cert s) (fun a =>
    encode_error (push_u16 (SignatureScheme_as_u16 a)))).

(** ** supported_groups.rs *)

Record SupportedGroups : Type := mkGroups { supported_groups : list NamedGroup }.

Definition SupportedGroups_parse (N : nat) : PM SupportedGroups :=
  data_length ← read_u16;
  l ← read_list N (Z.to_nat data_length) NamedGroup_parse;
  mret (mkGroups l).

Definition SupportedGroups_encode (s : SupportedGroups) : EncM unit :=
  with_u16_length (for_each (supported_groups s) NamedGroup_encode).

(** ** supported_versions.rs *)

Record SupportedVersionsClientHello : Type := mkVersionsCH { versions : list ProtocolVersion }.

Definition SupportedVersionsClientHello_parse (N : nat) : PM SupportedVersionsClientHello :=
  data_length ← read_u8;
  l ← read_list N (Z.to_nat (byte_val data_length)) ProtocolVersion_parse;
  mret (mkVersionsCH l).

Definition SupportedVersionsClientHello_encode (s : SupportedVersionsClientHello) : EncM unit :=
  with_u8_length (for_each (versions s) ProtocolVersion_encode).

Record SupportedVersionsServerHello : Type := mkVersionsSH { selected_version : ProtocolVersion }.

Definition SupportedVersionsServerHello_parse : PM SupportedVersionsServerHello :=
  v ← ProtocolVersion_parse; mret (mkVersionsSH v).

Definition SupportedVersionsServerHello_encode (s : SupportedVersionsServerHello) : EncM unit :=
  ProtocolVersion_encode (selected_version s).

(** ** Lemmas on length-prefixed vectors *)

Lemma length_vec8 xs : length (vec8 xs) = 1 + length xs.
Proof. done. Qed.
Lemma length_vec16 xs : length (vec16 xs) = 2 + length xs.
Proof. unfold vec16. len. Qed.
Lemma length_vec24 xs : length (vec24 xs) = 3 + length xs.
Proof. unfold vec24. len. Qed.
#[export] Hint Rewrite length_vec8 length_vec16 length_vec24 : tls_len.

Lemma byte_val_u8_of_nat n : n < 256 -> byte_val (u8_of_nat n) = Z.of_nat n.
Proof. intros. unfold u8_of_nat. rewrite byte_val_u8, Z.mod_small; lia. Qed.

Lemma u8_of_nat_byte_val b : u8_of_nat (Z.to_nat (byte_val b)) = b.
Proof.
  unfold u8_of_nat. rewrite Z2Nat.id by (pose proof (byte_val_range b); lia).
  apply u8_byte_val.
Qed.

(** [opaque<..2^16-1>]: a length and a slice of that length. *)
Lemma parses_vec16 {A} xs (k : ParseBuffer -> PM A) ys a :
  (Z.of_nat (length xs) < 2 ^ 16)%Z -> parses (k (pb_new xs)) ys a ->
  parses (n ← read_u16; s ← slice (Z.to_nat n); k s) (vec16 xs ++ ys) a.
Proof.
  intros Hx Hk. unfold vec16. rewrite <-(assoc_L (++)).
  eapply parses_bind; [apply parses_u16; lia|].
  eapply parses_bind; [|exact Hk]. apply parses_slice. lia.
Qed.

Lemma psound_vec16 {A} (k : ParseBuffer -> PM A) Q :
  (forall xs, (Z.of_nat (length xs) < 2 ^ 16)%Z -> psound (k (pb_new xs)) (fun ys a => Q (vec16 xs ++ ys) a)) ->
  psound (n ← read_u16; s ← slice (Z.to_nat n); k s) Q.
Proof.
  intros Hk. eapply psound_bind; [apply psound_u16|]. intros n ? (-> & Hn).
  eapply psound_bind; [apply psound_slice|]. intros s xs (-> & Hl).
  eapply psound_mono; [apply (Hk xs); lia|]. intros ys a. unfold vec16.
  rewrite <-(assoc_L (++)). by replace (Z.of_nat (length xs)) with n by lia.
Qed.

(** Lists of items behind a two-byte or a one-byte length. *)
Lemma parses_list16 {T R} (read : PM T) (enc : T -> list byte) N (mk : list T -> R) items :
  (Z.of_nat (length (mjoin (enc <$> items))) < 2 ^ 16)%Z ->
  length items <= N ->
  (forall x, x ∈ items -> enc x <> [] /\ parses read (enc x) x) ->
  parses (n ← read_u16; l ← read_list N (Z.to_nat n) read; mret (mk l))
    (vec16 (mjoin (enc <$> items))) (mk items).
Proof.
  intros Hl HN H. unfold vec16. eapply parses_bind; [apply parses_u16; lia|].
  eapply parses_bind_last; [|apply parses_ret].
  apply parses_read_list; [lia|done|done].
Qed.

Lemma parses_list8 {T R} (read : PM T) (enc : T -> list byte) N (mk : list T -> R) items :
  (Z.of_nat (length (mjoin (enc <$> items))) < 256)%Z ->
  length items <= N ->
  (forall x, x ∈ items -> enc x <> [] /\ parses read (enc x) x) ->
  parses (n ← read_u8; l ← read_list N (Z.to_nat (byte_val n)) read; mret (mk l))
    (vec8 (mjoin (enc <$> items))) (mk items).
Proof.
  intros Hl HN H. unfold vec8. eapply (parses_bind _ _ [_]); [apply parses_u8|].
  eapply parses_bind_last; [|apply parses_ret].
  rewrite byte_val_u8_of_nat by lia. apply parses_read_list; [lia|done|done].
Qed.

(** What an accepted list looks like: the encodings of items that are [ok]. *)
Definition list_wire {T} (enc : T -> list byte) (ok : T -> Prop) (N : nat) (bound : Z)
    (data : list byte) (items : list T) : Prop :=
  data = mjoin (enc <$> items) /\ (Z.of_nat (length data) < bound)%Z /\ length items <= N /\ Forall ok items.

Lemma Forall2_enc {T} (enc : T -> list byte) (ok : T -> Prop) encs items :
  Forall2 (fun xs x => xs = enc x /\ ok x) encs items ->
  encs = enc <$> items /\ Forall ok items.
Proof.
  induction 1 as [|xs x encs items [-> ?] _ [-> ?]]; simpl; [done|]. split; [done|by constructor].
Qed.

Lemma psound_list16 {T R} (read : PM T) (enc : T -> list byte) ok N (mk : list T -> R) :
  psound read (fun xs x => xs = enc x /\ ok x) -> (forall x, enc x <> []) ->
  psound (n ← read_u16; l ← read_list N (Z.to_nat n) read; mret (mk l))
    (fun xs r => exists data items, xs = vec16 data /\ r = mk items /\
       list_wire enc ok N (2 ^ 16)%Z data items).
Proof.
  intros Hr Hne. eapply psound_bind; [apply psound_u16|]. intros n ? (-> & Hn).
  eapply psound_bind.
  { apply (psound_read_list read _ N _ Hr). intros xs x [-> _]. apply Hne. }
  intros l xs (Hl & HN & encs & -> & HF). apply Forall2_enc in HF as [-> HF].
  apply psound_ret. rewrite app_nil_r. exists (mjoin (enc <$> l)), l.
  unfold vec16, list_wire. rewrite Hl, Z2Nat.id by lia. split_and!; [done..|lia|done|done].
Qed.

Lemma psound_list8 {T R} (read : PM T) (enc : T -> list byte) ok N (mk : list T -> R) :
  psound read (fun xs x => xs = enc x /\ ok x) -> (forall x, enc x <> []) ->
  psound (n ← read_u8; l ← read_list N (Z.to_nat (byte_val n)) read; mret (mk l))
    (fun xs r => exists data items, xs = vec8 data /\ r = mk items /\
       list_wire enc ok N 256%Z data items).
Proof.
  intros Hr Hne. eapply psound_bind; [apply psound_u8|]. intros n ? ->.
  eapply psound_bind.
  { apply (psound_read_list read _ N _ Hr). intros xs x [-> _]. apply Hne. }
  intros l xs (Hl & HN & encs & -> & HF). apply Forall2_enc in HF as [-> HF].
  apply psound_ret. rewrite app_nil_r. exists (mjoin (enc <$> l)), l.
  pose proof (byte_val_range n). unfold vec8, list_wire.
  rewrite Hl, u8_of_nat_byte_val. split_and!; [done..|lia|done|done].
Qed.

Lemma be_bytes_nonnil n z xs : 0 < n -> be_bytes n z ++ xs <> [].
Proof. by destruct n; [lia|]. Qed.

(** ** Key shares *)

Definition KeyShareEntry_bytes (e : KeyShareEntry) : list byte :=
  be_bytes 2 (NamedGroup_as_u16 (ks_group e)) ++ vec16 (ks_opaque e).
Definition KeyShareEntry_ok (e : KeyShareEntry) : Prop :=
  (Z.of_nat (length (ks_opaque e)) < 2 ^ 16)%Z.

Lemma KeyShareEntry_encodes e : encodes (KeyShareEntry_encode e) (KeyShareEntry_bytes e).
Proof. apply encodes_bind; auto with tls. Qed.

Lemma KeyShareEntry_parses e :
  KeyShareEntry_ok e -> parses KeyShareEntry_parse (KeyShareEntry_bytes e) e.
Proof.
  intros He. eapply parses_bind; [apply NamedGroup_parses|].
  rewrite <-(app_nil_r (vec16 _)). apply parses_vec16; [done|].
  destruct e. apply parses_ret.
Qed.

Lemma KeyShareEntry_sound :
  psound KeyShareEntry_parse (fun xs e => xs = KeyShareEntry_bytes e /\ KeyShareEntry_ok e).
Proof.
  eapply psound_bind; [apply NamedGroup_sound|]. intros g ? ->.
  apply psound_vec16. intros xs Hx. apply psound_ret. by rewrite app_nil_r.
Qed.

Definition KeyShareClientHello_bytes (k : KeyShareClientHello) : list byte :=
  vec16 (mjoin (KeyShareEntry_bytes <$> client_shares k)).
Definition KeyShareClientHello_ok (N : nat) (k : KeyShareClientHello) : Prop :=
  (Z.of_nat (length (mjoin (KeyShareEntry_bytes <$> client_shares k))) < 2 ^ 16)%Z /\
  length (client_shares k) <= N /\ Forall KeyShareEntry_ok (client_shares k).

Lemma KeyShareClientHello_encodes k :
  encodes (KeyShareClientHello_encode k) (KeyShareClientHello_bytes k).
Proof.
  apply encodes_with_u16_length, encodes_for_each. intros; apply KeyShareEntry_encodes.
Qed.

Lemma KeyShareClientHello_parses N k :
  KeyShareClientHello_ok N k ->
  parses (KeyShareClientHello_parse N) (KeyShareClientHello_bytes k) k.
Proof.
  intros (Hl & HN & HF). destruct k. apply parses_list16; [done..|].
  intros x Hx. rewrite Forall_forall in HF.
  split; [by apply be_bytes_nonnil; lia|by apply KeyShareEntry_parses, HF].
Qed.

Lemma KeyShareClientHello_sound N :
  psound (KeyShareClientHello_parse N)
    (fun xs k => xs = KeyShareClientHello_bytes k /\ KeyShareClientHello_ok N k).
Proof.
  eapply psound_mono.
  { apply (psound_list16 _ _ _ _ _ KeyShareEntry_sound).
    intros; by apply be_bytes_nonnil; lia. }
  intros xs k (data & items & -> & -> & -> & ? & ? & ?). split; [done|]. by split_and!.
Qed.

Definition KeyShareServerHello_bytes (k : KeyShareServerHello) : list byte :=
  KeyShareEntry_bytes (kssh_entry k).

Lemma KeyShareServerHello_parses k :
  KeyShareEntry_ok (kssh_entry k) ->
  parses KeyShareServerHello_parse (KeyShareServerHello_bytes k) k.
Proof.
  intros H. eapply parses_bind_last; [by apply KeyShareEntry_parses|].
  destruct k. apply parses_ret.
Qed.

Lemma KeyShareServerHello_sound :
  psound KeyShareServerHello_parse
    (fun xs k => xs = KeyShareServerHello_bytes k /\ KeyShareEntry_ok (kssh_entry k)).
Proof.
  eapply psound_bind; [apply KeyShareEntry_sound|]. intros e xs (-> & He).
  apply psound_ret. by rewrite app_nil_r.
Qed.

(** ** Lists of code points *)

Definition PskKeyExchangeModes_bytes (m : PskKeyExchangeModes) : list byte :=
  vec8 (mjoin ((fun x => [u8 (PskKeyExchangeMode_code x)]) <$> modes m)).
Definition SupportedGroups_bytes (s : SupportedGroups) : list byte :=
  vec16 (mjoin ((fun g => be_bytes 2 (NamedGroup_as_u16 g)) <$> supported_groups s)).
Definition SupportedVersionsCH_bytes (s : SupportedVersionsClientHello) : list byte :=
  vec8 (mjoin ((fun v => be_bytes 2 (version_code v)) <$> versions s)).
Definition sig_bytes (l : list SignatureScheme) : list byte :=
  mjoin ((fun a => be_bytes 2 (SignatureScheme_as_u16 a)) <$> l).

Lemma PskKeyExchangeModes_encodes m :
  encodes (PskKeyExchangeModes_encode m) (PskKeyExchangeModes_bytes m).
Proof. apply encodes_with_u8_length, encodes_for_each. auto with tls. Qed.

Lemma SupportedGroups_encodes s : encodes (SupportedGroups_encode s) (SupportedGroups_bytes s).
Proof. apply encodes_with_u16_length, encodes_for_each. auto with tls. Qed.

Lemma SupportedVersionsCH_encodes s :
  encodes (SupportedVersionsClientHello_encode s) (SupportedVersionsCH_bytes s).
Proof. apply encodes_with_u8_length, encodes_for_each. auto with tls. Qed.

Lemma SignatureAlgorithms_encodes s :
  encodes (SignatureAlgorithms_encode s) (vec16 (sig_bytes (supported_signature_algorithms s))).
Proof. apply encodes_with_u16_length, encodes_for_each. auto with tls. Qed.

Lemma SignatureAlgorithmsCert_encodes s :
  encodes (SignatureAlgorithmsCert_encode s)
    (vec16 (sig_bytes (supported_signature_algorithms_cert s))).
Proof. apply encodes_with_u16_length, encodes_for_each. auto with tls. Qed.

Lemma length_mjoin_const {T} (enc : T -> list byte) n items :
  (forall x, length (enc x) = n) -> length (mjoin (enc <$> items)) = n * length items.
Proof.
  intros H. induction items as [|x l IH]; simpl; [lia|].
  rewrite length_app, H. unfold fmap in IH. lia.
Qed.

Lemma PskKeyExchangeModes_parses N m :
  length (modes m) <= N -> length (modes m) < 256 ->
  parses (PskKeyExchangeModes_parse N) (PskKeyExchangeModes_bytes m) m.
Proof.
  intros HN Hl. destruct m as [ms]. apply parses_list8; simpl in *.
  - rewrite (length_mjoin_const _ 1) by done. lia.
  - done.
  - intros x _. split; [done|apply PskKeyExchangeMode_parses].
Qed.

Lemma SupportedGroups_parses N s :
  length (supported_groups s) <= N -> (Z.of_nat (length (supported_groups s)) < 2 ^ 15)%Z ->
  parses (SupportedGroups_parse N) (SupportedGroups_bytes s) s.
Proof.
  intros HN Hl. destruct s as [gs]. apply parses_list16; simpl in *.
  - rewrite (length_mjoin_const _ 2) by done. simpl in *. lia.
  - done.
  - intros x _. split; [done|apply NamedGroup_parses].
Qed.

Lemma SupportedVersionsCH_parses N s :
  length (versions s) <= N -> length (versions s) < 128 -> Forall version_ok (versions s) ->
  parses (SupportedVersionsClientHello_parse N) (SupportedVersionsCH_bytes s) s.
Proof.
  intros HN Hl HF. destruct s as [vs]. apply parses_list8; simpl in *.
  - rewrite (length_mjoin_const _ 2) by done. lia.
  - done.
  - intros x Hx. rewrite Forall_forall in HF.
    split; [done|by apply ProtocolVersion_parses, HF].
Qed.

(** ** pre_shared_key in a ClientHello *)

Definition psk_identity_bytes (item : list byte * Z) : list byte :=
  vec16 (fst item) ++ be_bytes 4 (snd item).

(** The [binders] vector, prefix included: what the binder MAC leaves out. *)
Definition psk_binders_bytes (bs : list (list byte)) : list byte :=
  vec16 (mjoin (vec8 <$> bs)).

Definition psk_wire (items : list (list byte * Z)) (bs : list (list byte)) : list byte :=
  vec16 (mjoin (psk_identity_bytes <$> items)) ++ psk_binders_bytes bs.

Definition psk_identity_ok (item : list byte * Z) : Prop :=
  1 <= length (fst item) /\ (Z.of_nat (length (fst item)) < 2 ^ 16)%Z /\
  (0 <= snd item < 2 ^ 32)%Z.

Definition binders_ok (hs : nat) (bs : list (list byte)) : Prop :=
  32 <= hs < 256 /\ Forall (fun b => length b = hs) bs.

(** [items] are the offered identities with their ticket ages. *)
Definition psk_wire_ok (N : nat) (items : list (list byte * Z)) (p : PreSharedKeyClientHello) :
    Prop :=
  identities p = items.*1 /\ 1 <= length items <= N /\ Forall psk_identity_ok items /\
  length (binders p) = length items /\ binders_ok (hash_size p) (binders p) /\
  (Z.of_nat (length (mjoin (psk_identity_bytes <$> items))) < 2 ^ 16)%Z /\
  (Z.of_nat (length (mjoin (vec8 <$> binders p))) < 2 ^ 16)%Z.

Lemma psk_identity_bytes_nonnil item : psk_identity_bytes item <> [].
Proof. unfold psk_identity_bytes, vec16. rewrite <-(assoc_L (++)). by apply be_bytes_nonnil; lia. Qed.

Lemma Psk_parse_identity_parses N ids item :
  length ids < N -> psk_identity_ok item ->
  parses (Psk_parse_identity N ids) (psk_identity_bytes item) (ids ++ [fst item]).
Proof.
  destruct item as [id age]. unfold psk_identity_ok, psk_identity_bytes. cbn [fst snd].
  intros HN (Hl & Hb & Ha). unfold Psk_parse_identity, vec16. rewrite <-(assoc_L (++)).
  eapply parses_bind; [apply parses_u16; lia|]. rewrite decide_False by lia.
  eapply parses_bind; [apply parses_slice; lia|].
  unfold vec_push. simpl. rewrite decide_True by done.
  eapply parses_bind_nil; [apply parses_ret|].
  eapply parses_bind_last; [by apply parses_u32|apply parses_ret].
Qed.

Lemma Psk_parse_identity_sound N ids :
  psound (Psk_parse_identity N ids) (fun xs ids' => length ids < N /\ exists item,
    xs = psk_identity_bytes item /\ ids' = ids ++ [fst item] /\ psk_identity_ok item).
Proof.
  unfold Psk_parse_identity. eapply psound_bind; [apply psound_u16|]. intros n ? (-> & Hn).
  case_decide; [apply psound_err|].
  eapply psound_bind; [apply psound_slice|]. intros ? id (-> & Hl).
  eapply psound_bind; [apply psound_ok_or_eq|].
  intros ids' ? (-> & [-> HN]%vec_push_Some).
  eapply psound_bind; [apply psound_u32|]. intros age ? (-> & Ha).
  apply psound_ret. split; [done|]. exists (id, age). unfold psk_identity_bytes, psk_identity_ok.
  cbn [fst snd]. unfold vec16. replace (Z.of_nat (length id)) with n by lia.
  split_and!; [by rewrite <-!(assoc_L (++)), app_nil_r|done|lia|lia|lia|lia].
Qed.

Lemma Psk_parse_binder_parses N bs hs b :
  length bs < N -> 32 <= length b < 256 -> (hs = 0 \/ hs = length b) ->
  parses (Psk_parse_binder N (bs, hs)) (vec8 b) (bs ++ [b], length b).
Proof.
  intros HN Hb Hhs. unfold Psk_parse_binder, vec8.
  eapply (parses_bind _ _ [_]); [apply parses_u8|].
  rewrite byte_val_u8_of_nat, Nat2Z.id by lia. cbv zeta. rewrite decide_False by lia.
  eapply parses_bind_last; [by apply parses_slice|].
  unfold vec_push. simpl. rewrite decide_True by done.
  eapply parses_bind_nil; [apply parses_ret|].
  case_decide; [apply parses_ret|]. rewrite decide_False by lia.
  replace hs with (length b) by lia. apply parses_ret.
Qed.

Lemma Psk_parse_binder_sound N bs hs :
  psound (Psk_parse_binder N (bs, hs)) (fun xs acc' => length bs < N /\ exists b,
    xs = vec8 b /\ acc' = (bs ++ [b], length b) /\ 32 <= length b < 256 /\
    (hs = 0 \/ hs = length b)).
Proof.
  unfold Psk_parse_binder. eapply psound_bind; [apply psound_u8|]. intros n ? ->. cbv zeta.
  case_decide; [apply psound_err|]. pose proof (byte_val_range n).
  eapply psound_bind; [apply psound_slice|]. intros ? b (-> & Hl).
  eapply psound_bind; [apply psound_ok_or_eq|].
  simpl. intros bs' ? (-> & [-> HN]%vec_push_Some). simpl.
  assert ([n] ++ b = vec8 b) as Hv.
  { unfold vec8. by rewrite Hl, u8_of_nat_byte_val. }
  repeat case_decide; try apply psound_err; apply psound_ret; split; try done;
    exists b; rewrite ?app_nil_r, <-?Hl; split_and!; try done; try lia.
  f_equal. lia.
Qed.

Lemma psk_parse_complete N items p :
  psk_wire_ok N items p ->
  parses (PreSharedKeyClientHello_parse N) (psk_wire items (binders p)) p.
Proof.
  destruct p as [ids bs hs]. unfold psk_wire_ok, binders_ok. simpl.
  intros (-> & HN & Hitems & Hbs & (Hhs & HF) & Hl1 & Hl2).
  unfold PreSharedKeyClientHello_parse, psk_wire, vec16. rewrite <-(assoc_L (++)).
  eapply parses_bind; [apply parses_u16; lia|]. rewrite decide_False.
  2:{ destruct items as [|i l]; [simpl in HN; lia|]. apply Forall_cons in Hitems as [[? ?] _].
      revert Hl1. simpl. unfold psk_identity_bytes at 1. intros. lens. lia. }
  eapply parses_bind; [by apply parses_slice; lia|].
  eapply parses_bind_nil.
  { eapply parses_run_on.
    apply (loop_items _ psk_identity_bytes (fun done => done.*1) items _ []); [done..|].
    intros done x rest ->. split.
    - apply psk_identity_bytes_nonnil.
    - rewrite fmap_app. apply Psk_parse_identity_parses.
      + rewrite length_fmap. rewrite length_app in HN. simpl in HN. lia.
      + apply Forall_app in Hitems as [_ Hx]. by apply Forall_cons in Hx as [? _]. }
  rewrite decide_False by (rewrite length_fmap; lia).
  unfold psk_binders_bytes, vec16. eapply parses_bind; [apply parses_u16; lia|].
  rewrite decide_False.
  2:{ destruct bs as [|b l]; [simpl in Hbs; lia|]. apply Forall_cons in HF as [? _].
      simpl. unfold vec8 at 1. lens. lia. }
  eapply parses_bind_last; [by apply parses_slice; lia|].
  eapply parses_bind_nil.
  { eapply parses_run_on.
    apply (loop_items _ vec8 (fun done => (done, if decide (done = []) then 0 else hs))
      bs _ ([], 0)); [done..|].
    intros done x rest ->. split; [done|].
    apply Forall_app in HF as [_ Hx]. apply Forall_cons in Hx as [Hx _].
    rewrite (decide_False (P := done ++ [x] = [])) by (by destruct done).
    rewrite <-Hx. apply Psk_parse_binder_parses.
    - rewrite length_app in Hbs. simpl in Hbs. lia.
    - lia.
    - case_decide; auto. }
  rewrite decide_False by (by destruct bs; [simpl in Hbs; lia|]).
  rewrite decide_False by (rewrite length_fmap; lia). apply parses_ret.
Qed.

Lemma psk_parse_sound N :
  psound (PreSharedKeyClientHello_parse N)
    (fun xs p => exists items, xs = psk_wire items (binders p) /\ psk_wire_ok N items p).
Proof.
  unfold PreSharedKeyClientHello_parse.
  eapply psound_bind; [apply psound_u16|]. intros n ? (-> & Hn).
  case_decide; [apply psound_err|].
  eapply psound_bind; [apply psound_slice|]. intros ? xs (-> & Hxs).
  eapply psound_bind.
  { apply (psound_run_on _ _ (fun ys ids => ys = [] /\ exists items, ids = items.*1 /\
      xs = mjoin (psk_identity_bytes <$> items) /\ length items <= N /\
      Forall psk_identity_ok items)).
    eapply wp_mono; [apply (wp_loop _ (fun xs ids => exists items, ids = items.*1 /\
      xs = mjoin (psk_identity_bytes <$> items) /\ length items <= N /\
      Forall psk_identity_ok items))| |done].
    - exists []. split_and!; [done|done|simpl; lia|done].
    - intros ids zs (items & -> & -> & HN & HF).
      eapply psound_mono; [apply Psk_parse_identity_sound|].
      intros ys ids' (Hlt & item & -> & -> & Hok). rewrite length_fmap in Hlt.
      split; [apply psk_identity_bytes_nonnil|]. exists (items ++ [item]).
      rewrite !fmap_app, join_app. simpl. rewrite app_nil_r.
      split_and!; [done|done|len|by apply Forall_app; split; [|constructor]].
    - intros ids b' H'. by split. }
  intros ids ? (-> & items & -> & -> & HN & HF).
  case_decide as Hne; [apply psound_err|]. rewrite length_fmap in Hne.
  eapply psound_bind; [apply psound_u16|]. intros m ? (-> & Hm).
  case_decide; [apply psound_err|].
  eapply psound_bind; [apply psound_slice|]. intros ? ys (-> & Hys).
  eapply psound_bind.
  { apply (psound_run_on _ _ (fun zs acc => zs = [] /\ ys = mjoin (vec8 <$> fst acc) /\
      (fst acc = [] \/ binders_ok (snd acc) (fst acc)))).
    eapply wp_mono; [apply (wp_loop _ (fun ys acc => ys = mjoin (vec8 <$> fst acc) /\
      (fst acc = [] /\ snd acc = 0 \/ binders_ok (snd acc) (fst acc))))| |done].
    - split; [done|by left].
    - intros [bs hs] zs (-> & Hbs).
      eapply psound_mono; [apply Psk_parse_binder_sound|]. simpl in *.
      intros ws acc' (Hlt & b & -> & -> & Hb & Hhs). split; [done|]. simpl.
      rewrite fmap_app, join_app. simpl. rewrite app_nil_r. split; [done|right].
      unfold binders_ok. destruct Hbs as [[-> ->]|[Hr HFb]]; split; try lia.
      + by constructor.
      + replace (length b) with hs by lia. apply Forall_app; split; [done|].
        constructor; [lia|done].
    - intros acc _ (-> & Hacc). naive_solver. }
  intros [bs hs] ? (-> & -> & Hbs). simpl in *.
  case_decide as Hlen; [apply psound_err|]. rewrite length_fmap in Hlen. apply psound_ret.
  exists items. cbn [binders]. split.
  - unfold psk_wire, psk_binders_bytes, vec16.
    rewrite Hxs, Hys, !Z2Nat.id, <-!(assoc_L (++)), app_nil_r by lia. done.
  - unfold psk_wire_ok. simpl. split_and!; [done|lia|lia|done|lia| |lia|lia].
    destruct Hbs as [->|]; [simpl in Hlen; lia|done].
Qed.

Lemma length_psk_binders_bytes bs :
  length (psk_binders_bytes bs) = 2 + sum_list_with (fun b => 1 + length b) bs.
Proof.
  unfold psk_binders_bytes. rewrite length_vec16. f_equal.
  induction bs as [|b bs IH]; [done|].
  change (mjoin (vec8 <$> b :: bs)) with (vec8 b ++ mjoin (vec8 <$> bs)).
  rewrite length_app, IH. simpl. lia.
Qed.

(** The encoder leaves the binders as a zero-filled hole of the final size. *)
Definition psk_hole (n hs : nat) : list byte :=
  be_bytes 2 (Z.of_nat ((1 + hs) * n)) ++ replicate ((1 + hs) * n) x00.

Definition PskCH_bytes (p : PreSharedKeyClientHello) : list byte :=
  vec16 (mjoin (psk_identity_bytes <$> ((fun id => (id, 0%Z)) <$> identities p)))
  ++ psk_hole (length (identities p)) (hash_size p).

Lemma PreSharedKeyClientHello_encodes p :
  encodes (PreSharedKeyClientHello_encode p) (PskCH_bytes p).
Proof.
  apply encodes_bind.
  - apply encodes_encode_error, encodes_with_u16_length.
    rewrite <-list_fmap_compose. apply encodes_for_each. intros id _.
    apply encodes_bind; auto with tls.
  - apply encodes_bind.
    + change (2 ^ 16)%Z with (256 ^ Z.of_nat 2)%Z. rewrite <-(be_bytes_mod 2 (Z.of_nat _)).
      auto with tls.
    + set (n := (1 + hash_size p) * length (identities p)).
      replace (replicate n x00) with (mjoin ((fun _ : nat => [x00]) <$> seq 0 n)).
      { apply encodes_for_each. auto with tls. }
      generalize 0. induction n as [|n IH]; intros i; [done|]. simpl. f_equal. apply IH.
Qed.

Definition PskSH_ok (p : PreSharedKeyServerHello) : Prop :=
  (0 <= selected_identity p < 2 ^ 16)%Z.

Lemma PreSharedKeyServerHello_parses p :
  PskSH_ok p -> parses PreSharedKeyServerHello_parse (be_bytes 2 (selected_identity p)) p.
Proof. intros H. apply parses_code_u16; [done|]. by destruct p. Qed.

Lemma PreSharedKeyServerHello_sound :
  psound PreSharedKeyServerHello_parse
    (fun xs p => xs = be_bytes 2 (selected_identity p) /\ PskSH_ok p).
Proof.
  eapply psound_bind; [apply psound_u16|]. intros v xs (-> & Hv).
  apply psound_ret. by rewrite app_nil_r.
Qed.

Lemma PreSharedKeyServerHello_encodes p :
  encodes (PreSharedKeyServerHello_encode p) (be_bytes 2 (selected_identity p)).
Proof. unfold PreSharedKeyServerHello_encode. auto with tls. Qed.

Lemma SupportedVersionsSH_parses s :
  version_ok (selected_version s) ->
  parses SupportedVersionsServerHello_parse (be_bytes 2 (version_code (selected_version s))) s.
Proof.
  intros H. eapply parses_bind_last; [by apply ProtocolVersion_parses|].
  destruct s. apply parses_ret.
Qed.

Lemma SupportedVersionsSH_sound :
  psound SupportedVersionsServerHello_parse (fun xs s =>
    xs = be_bytes 2 (version_code (selected_version s)) /\ version_ok (selected_version s)).
Proof.
  eapply psound_bind; [apply ProtocolVersion_sound|]. intros v xs (-> & Hv).
  apply psound_ret. by rewrite app_nil_r.
Qed.

(** ** Names, protocols and signature schemes *)

Definition ServerName_bytes (s : ServerName) : list byte :=
  u8 (NameType_code (name_type s)) :: vec16 (name s).
Definition ServerName_ok (s : ServerName) : Prop :=
  (Z.of_nat (length (name s)) < 2 ^ 16)%Z /\ is_ascii (name s) = true.

Lemma ServerName_encodes s : encodes (ServerName_encode s) (ServerName_bytes s).
Proof. apply (encodes_bind _ _ [_]); auto with tls. Qed.

Lemma ServerName_parses s : ServerName_ok s -> parses ServerName_parse (ServerName_bytes s) s.
Proof.
  intros [Hl Ha]. eapply (parses_bind _ _ [_]); [apply NameType_parses|].
  rewrite <-(app_nil_r (vec16 _)). apply parses_vec16; [done|].
  unfold pb_as_slice. simpl. rewrite Ha. destruct s. apply parses_ret.
Qed.

Lemma ServerName_sound :
  psound ServerName_parse (fun xs s => xs = ServerName_bytes s /\ ServerName_ok s).
Proof.
  eapply psound_bind; [apply NameType_sound|]. intros t ? ->.
  apply psound_vec16. intros xs Hx. unfold pb_as_slice. simpl.
  destruct (is_ascii xs) eqn:Ha; [|apply psound_err].
  apply psound_ret. rewrite app_nil_r. by repeat split.
Qed.

Definition ServerNameList_bytes (s : ServerNameList) : list byte :=
  vec16 (mjoin (ServerName_bytes <$> names s)).
Definition ServerNameList_ok (N : nat) (s : ServerNameList) : Prop :=
  (Z.of_nat (length (mjoin (ServerName_bytes <$> names s))) < 2 ^ 16)%Z /\
  length (names s) <= N /\ Forall ServerName_ok (names s).

Lemma ServerNameList_encodes s : encodes (ServerNameList_encode s) (ServerNameList_bytes s).
Proof. apply encodes_with_u16_length, encodes_for_each. intros; apply ServerName_encodes. Qed.

Lemma ServerNameList_parses N s :
  ServerNameList_ok N s -> parses (ServerNameList_parse N) (ServerNameList_bytes s) s.
Proof.
  intros (Hl & HN & HF). destruct s. apply parses_list16; [done..|]. intros x Hx.
  rewrite Forall_forall in HF. split; [done|by apply ServerName_parses, HF].
Qed.

Lemma ServerNameList_sound N :
  psound (ServerNameList_parse N) (fun xs s => xs = ServerNameList_bytes s /\ ServerNameList_ok N s).
Proof.
  eapply psound_mono; [by apply (psound_list16 _ _ _ _ _ ServerName_sound)|].
  intros xs s (data & items & -> & -> & -> & ? & ? & ?). split; [done|]. by split_and!.
Qed.

Lemma ServerNameResponse_sound : psound ServerNameResponse_parse (fun xs _ => xs = []).
Proof.
  intros b Hwf. unfold ServerNameResponse_parse, wp, mbind, M_bind, get.
  destruct (ParseBuffer.is_empty b); simpl; eauto using consumed_refl.
Qed.

Definition Alpn_bytes (a : AlpnProtocolNameList) : list byte :=
  vec16 (mjoin (vec8 <$> alpn_protocols a)).

Lemma Alpn_encodes a : encodes (Alpn_encode a) (Alpn_bytes a).
Proof.
  apply encodes_with_u16_length, encodes_for_each. intros p _.
  apply (encodes_bind _ _ [_]); auto with tls.
Qed.

(** Every protocol of a valid list is validated; the list itself is not kept. *)
Lemma Alpn_parses a :
  (Z.of_nat (length (mjoin (vec8 <$> alpn_protocols a))) < 2 ^ 16)%Z ->
  Forall (fun p => 1 <= length p < 256) (alpn_protocols a) ->
  parses Alpn_parse (Alpn_bytes a) (mkAlpn []).
Proof.
  intros Hl HF. rewrite <-(app_nil_r (Alpn_bytes a)).
  apply (parses_vec16 _ (fun s => _ ← run_on s _; _)); [done|].
  eapply parses_bind_nil; [|apply parses_ret]. eapply parses_run_on.
  apply (loop_items _ vec8 (fun _ => tt) (alpn_protocols a)); [done..|].
  intros done x rest Heq. split; [done|].
  assert (1 <= length x < 256) as Hx.
  { rewrite Heq in HF. apply Forall_app in HF as [_ HF]. by apply Forall_cons in HF as [? _]. }
  unfold Alpn_parse_name, vec8. eapply (parses_bind _ _ [_]); [apply parses_u8|].
  rewrite byte_val_u8_of_nat, Nat2Z.id by lia. rewrite decide_False by lia.
  eapply parses_bind_last; [by apply parses_slice|apply parses_ret].
Qed.

Lemma Alpn_sound : psound Alpn_parse (fun _ a => a = mkAlpn []).
Proof.
  unfold Alpn_parse. eapply psound_bind; [apply psound_u16|]. intros n ws _.
  eapply psound_bind; [apply psound_slice|]. intros ? xs (-> & _).
  eapply (psound_bind _ _ (fun _ _ => True)); [|intros; by apply psound_ret].
  apply psound_run_on. eapply wp_mono; [apply (wp_loop _ (fun _ _ => True))|done|done]; [done|].
  intros acc ys _. unfold Alpn_parse_name. eapply psound_bind; [apply psound_u8|].
  intros m ms ->. case_decide; [apply psound_err|].
  eapply psound_bind; [apply psound_slice|]. intros; by apply psound_ret.
Qed.

Lemma Unimplemented_sound : psound Unimplemented_parse (fun xs _ => xs = []).
Proof.
  intros b Hwf. unfold Unimplemented_parse, wp, mbind, M_bind, get. simpl.
  eauto using consumed_refl.
Qed.

Lemma Unimplemented_parse_whole xs :
  Unimplemented_parse (pb_new xs) = (Ok (mkUnimplemented xs), pb_new xs).
Proof. done. Qed.

(** What [SignatureScheme::parse] makes of a code it has read. *)
Lemma SignatureScheme_parse_cases b :
  pb_wf b ->
  (exists xs post b', unread b = xs ++ post /\ length xs = 2 /\
     b' = mkPB (pb_pos b + length xs) (pb_buffer b) /\
     ((exists s, SignatureScheme_parse b = (Ok s, b')) \/
      SignatureScheme_parse b = (Err InvalidData, b'))) \/
  SignatureScheme_parse b = (Err InsufficientBytes, b).
Proof.
  intros Hwf. pose proof (reads_u16 b Hwf) as H. case_decide as Hd.
  - left. destruct H as (xs & post & Hu & Hl & Hr).
    exists xs, post, (mkPB (pb_pos b + length xs) (pb_buffer b)). split_and!; [done..|].
    rewrite Hl. unfold SignatureScheme_parse. rewrite (bind_Ok _ _ _ _ _ Hr).
    generalize (from_be xs). intros v.
    repeat match goal with
    | |- (exists s, match ?x with _ => _ end _ = _) \/ _ => destruct x
    end; first [left; eexists; reflexivity | right; reflexivity].
  - right. unfold SignatureScheme_parse. by rewrite (bind_Err _ _ _ _ _ H).
Qed.

(** The tolerant loop consumes two bytes per turn and pushes at most one scheme. *)
Lemma SigAlgs_step_sound N acc :
  psound (SigAlgs_step N acc) (fun xs acc' => length xs = 2 /\
    (acc' = acc \/ exists s, acc' = acc ++ [s] /\ length acc < N)).
Proof.
  intros b Hwf. apply wp_bind, wp_try. unfold wp at 1.
  destruct (SignatureScheme_parse_cases b Hwf)
    as [(xs & post & b' & Hu & Hl & -> & [(s & ->)| ->])| ->].
  - destruct (consumed_advance b xs post Hu Hwf) as [Hc Hw].
    apply wp_ret. split; [done|]. exists xs. split_and!; [done..|].
    unfold vec_push. case_decide; simpl; eauto.
  - destruct (consumed_advance b xs post Hu Hwf) as [Hc Hw].
    apply wp_ret. split; [done|]. exists xs. split_and!; auto.
  - apply wp_err. eauto using consumed_refl.
Qed.

Lemma SignatureAlgorithms_sound N :
  psound (SignatureAlgorithms_parse N)
    (fun _ s => length (supported_signature_algorithms s) <= N).
Proof.
  unfold SignatureAlgorithms_parse.
  eapply psound_bind; [apply psound_u16|]. intros n ws _.
  eapply psound_bind; [apply psound_slice|]. intros ? xs (-> & _).
  eapply (psound_bind _ _ (fun _ l => length l <= N)); [|intros; by apply psound_ret].
  apply psound_run_on. eapply wp_mono;
    [apply (wp_loop _ (fun _ (l : list SignatureScheme) => length l <= N))|done|done]; [simpl; lia|].
  intros acc ys HN. eapply psound_mono; [apply SigAlgs_step_sound|].
  intros zs acc' (Hl & Hacc). split; [by destruct zs|].
  destruct Hacc as [->|(s & -> & ?)]; [done|len].
Qed.

Lemma SigAlgs_step_parses N acc s :
  length acc < N ->
  parses (SigAlgs_step N acc) (be_bytes 2 (SignatureScheme_as_u16 s)) (acc ++ [s]).
Proof.
  intros HN. unfold SigAlgs_step. eapply (parses_bind_last _ _ _ (inl s)).
  - intros pre post. unfold try_. by rewrite SignatureScheme_parses.
  - unfold vec_push. rewrite decide_True by done. apply parses_ret.
Qed.

Lemma SignatureAlgorithms_parses N s :
  length (supported_signature_algorithms s) <= N ->
  (Z.of_nat (length (supported_signature_algorithms s)) < 2 ^ 15)%Z ->
  parses (SignatureAlgorithms_parse N)
    (vec16 (sig_bytes (supported_signature_algorithms s))) s.
Proof.
  intros HN Hl. rewrite <-(app_nil_r (vec16 _)).
  apply (parses_vec16 _ (fun d => l ← run_on d _; _)).
  { unfold sig_bytes. rewrite (length_mjoin_const _ 2) by done. lia. }
  apply (parses_bind_nil _ _ _ (supported_signature_algorithms s)); [|destruct s; apply parses_ret].
  eapply parses_run_on, (loop_items _ _ id); [done..|].
  intros done x rest Heq. split; [done|]. apply SigAlgs_step_parses.
  change (supported_signature_algorithms s = done ++ x :: rest) in Heq.
  rewrite Heq, length_app in HN. simpl in HN. unfold id. lia.
Qed.

Lemma SignatureAlgorithmsCert_sound N :
  psound (SignatureAlgorithmsCert_parse N) (fun xs s => exists data,
    xs = vec16 data /\ data = sig_bytes (supported_signature_algorithms_cert s)).
Proof.
  eapply psound_mono.
  { apply (psound_list16 _ (fun s => be_bytes 2 (SignatureScheme_as_u16 s)) (fun _ => True)); [|done].
    eapply psound_mono; [apply SignatureScheme_sound|done]. }
  intros xs k (data & items & -> & -> & -> & _). by eexists.
Qed.

Lemma SupportedGroups_sound N :
  psound (SupportedGroups_parse N) (fun xs s => xs = SupportedGroups_bytes s).
Proof.
  eapply psound_mono.
  { apply (psound_list16 _ (fun g => be_bytes 2 (NamedGroup_as_u16 g)) (fun _ => True)); [|done].
    eapply psound_mono; [apply NamedGroup_sound|done]. }
  intros xs k (data & items & -> & -> & -> & _). done.
Qed.

Lemma PskKeyExchangeModes_sound N :
  psound (PskKeyExchangeModes_parse N) (fun xs s => xs = PskKeyExchangeModes_bytes s).
Proof.
  eapply psound_mono.
  { apply (psound_list8 _ (fun m => [u8 (PskKeyExchangeMode_code m)]) (fun _ => True)); [|done].
    eapply psound_mono; [apply PskKeyExchangeMode_sound|done]. }
  intros xs k (data & items & -> & -> & -> & _). done.
Qed.

Lemma SupportedVersionsCH_sound N :
  psound (SupportedVersionsClientHello_parse N) (fun xs s =>
    xs = SupportedVersionsCH_bytes s /\ length (versions s) <= N).
Proof.
  eapply psound_mono; [by apply (psound_list8 _ _ _ _ _ ProtocolVersion_sound)|].
  intros xs k (data & items & -> & -> & -> & _ & ? & _). done.
Qed.

(** ** Properties *)

(** The pre_shared_key offer is parsed exactly.  [PreSharedKeyClientHello::parse]
    returns on every input; it returns an offer and consumes the input if and only if
    the input is a list of one to [N] identities with ticket ages and a list of as
    many binders of one common length that is at least 32, in their length-prefixed
    encoding; so a parsed offer always has one binder per identity. *)
Theorem psk_offer_exact N data p :
  (exists r b, PreSharedKeyClientHello_parse N (pb_new data) = (r, b) /\ r <> Panic /\ r <> Diverge) /\
  ((exists b, PreSharedKeyClientHello_parse N (pb_new data) = (Ok p, b) /\ is_empty b = true) <->
   (exists items, data = psk_wire items (binders p) /\ psk_wire_ok N items p)).
Proof.
  pose proof (psk_parse_sound N _ (pb_new_wf data)) as Hs. split; [by eapply wp_returns|]. split.
  - intros (b & Hp & He). apply (wp_Ok _ _ _ _ _ _ Hs) in Hp as (Hwf & xs & (_ & _ & Hu) & items & -> & Hok).
    apply (is_empty_spec b Hwf) in He. rewrite He, app_nil_r, unread_new in Hu. by exists items.
  - intros (items & -> & Hok%psk_parse_complete). specialize (Hok [] []). simpl in Hok.
    rewrite app_nil_r in Hok. eexists. split; [exact Hok|]. by apply bool_decide_true.
Qed.
