(* ===== verification/Extensions.v ===== *)
(** Extension groups (extensions/extension_group_macro.rs, extensions/messages.rs).

    The [extension_group!] macro generates, for every message kind, an enum and
    the same three functions.  The macro is the class [ExtensionGroup]: its
    fields are what the macro receives (the constructors with their payload
    types), and [ext_encode], [ext_parse] and [parse_vector] are the generated
    functions, written once.  [ExtensionGroupLaws] is what the payloads promise;
    the theorems about vectors are proved against it and hold of all seven
    groups. *)

From S2P Require Import Prelude Errors CryptoBuffer ParseBuffer Wire ExtensionData.
From Stdlib Require Import ZArith Lia.
From Stdlib Require Import Strings.Byte.
From stdpp Require Import base list option numbers tactics sets.

(** ** The macro *)

Class ExtensionGroup (T : Type) : Type := {
  extension_type : T -> ExtensionType;
  (** [match self { Self::X(ext_data) => ext_data.encode(buf), .. }] *)
  data_encode : T -> EncM unit;
  (** [ExtensionType::X => Self::X(<Data>::parse(..)), ..]; [None] is the last arm *)
  data_parse : ExtensionType -> option (PM T);
}.

Section Macro.
Context {T : Type} `{!ExtensionGroup T}.

Definition ext_encode (x : T) : EncM unit :=
  ExtensionType_encode (extension_type x);;
  with_u16_length (data_encode x).

Definition ext_parse : TM T :=
  extension_type ← try_ ExtensionType_parse;
  data_len ← map_err (fun _ => DecodeError) read_u16;
  ext_data ← map_err (fun _ => DecodeError) (slice (Z.to_nat data_len));
  match extension_type with
  | inr InvalidData => err UnknownExtensionType
  | inr _ => err DecodeError
  | inl ext_type =>
      match data_parse ext_type with
      | Some parse => run_on ext_data (map_err (fun _ => DecodeError) parse)
      | None => err (abort_fatal IllegalParameter)
      end
  end.

(** One turn of the loop of [parse_vector]. *)
Definition vector_step (N : nat) (extensions : list T) : TM (list T) :=
  r ← try_ ext_parse;
  match r with
  | inl extension => ok_or (vec_push N extensions extension) DecodeError
  | inr UnknownExtensionType => mret extensions
  | inr e => err e
  end.

Definition parse_vector (N : nat) : TM (list T) :=
  extensions_len ← map_err (fun _ => InvalidExtensionsLength) read_u16;
  ext_buf ← map_err TlsParseError (slice (Z.to_nat extensions_len));
  run_on ext_buf (loop_nonempty (vector_step N) []).
End Macro.

(** ** The groups of messages.rs *)

Definition pmap {A B} (f : A -> B) (p : PM A) : PM B := x ← p; mret (f x).

Inductive ClientHelloExtension : Type :=
| CH_ServerName (d : ServerNameList)
| CH_SupportedVersions (d : SupportedVersionsClientHello)
| CH_SignatureAlgorithms (d : SignatureAlgorithms)
| CH_SupportedGroups (d : SupportedGroups)
| CH_KeyShare (d : KeyShareClientHello)
| CH_PreSharedKey (d : PreSharedKeyClientHello)
| CH_PskKeyExchangeModes (d : PskKeyExchangeModes)
| CH_SignatureAlgorithmsCert (d : SignatureAlgorithmsCert)
| CH_MaxFragmentLength (d : MaxFragmentLength)
| CH_StatusRequest (d : Unimplemented)
| CH_UseSrtp (d : Unimplemented)
| CH_Heartbeat (d : Unimplemented)
| CH_ApplicationLayerProtocolNegotiation (d : AlpnProtocolNameList)
| CH_SignedCertificateTimestamp (d : Unimplemented)
| CH_ClientCertificateType (d : Unimplemented)
| CH_ServerCertificateType (d : Unimplemented)
| CH_Padding (d : Unimplemented)
| CH_EarlyData (d : Unimplemented)
| CH_Cookie (d : Unimplemented)
| CH_CertificateAuthorities (d : Unimplemented)
| CH_OidFilters (d : Unimplemented)
| CH_PostHandshakeAuth (d : Unimplemented).

#[global] Instance ClientHelloExtension_group : ExtensionGroup ClientHelloExtension := {
  extension_type x := match x with
    | CH_ServerName _ => ET_ServerName
    | CH_SupportedVersions _ => ET_SupportedVersions
    | CH_SignatureAlgorithms _ => ET_SignatureAlgorithms
    | CH_SupportedGroups _ => ET_SupportedGroups
    | CH_KeyShare _ => ET_KeyShare
    | CH_PreSharedKey _ => ET_PreSharedKey
    | CH_PskKeyExchangeModes _ => ET_PskKeyExchangeModes
    | CH_SignatureAlgorithmsCert _ => ET_SignatureAlgorithmsCert
    | CH_MaxFragmentLength _ => ET_MaxFragmentLength
    | CH_StatusRequest _ => ET_StatusRequest
    | CH_UseSrtp _ => ET_UseSrtp
    | CH_Heartbeat _ => ET_Heartbeat
    | CH_ApplicationLayerProtocolNegotiation _ => ET_ApplicationLayerProtocolNegotiation
    | CH_SignedCertificateTimestamp _ => ET_SignedCertificateTimestamp
    | CH_ClientCertificateType _ => ET_ClientCertificateType
    | CH_ServerCertificateType _ => ET_ServerCertificateType
    | CH_Padding _ => ET_Padding
    | CH_EarlyData _ => ET_EarlyData
    | CH_Cookie _ => ET_Cookie
    | CH_CertificateAuthorities _ => ET_CertificateAuthorities
    | CH_OidFilters _ => ET_OidFilters
    | CH_PostHandshakeAuth _ => ET_PostHandshakeAuth
    end;
  data_encode x := match x with
    | CH_ServerName d => ServerNameList_encode d
    | CH_SupportedVersions d => SupportedVersionsClientHello_encode d
    | CH_SignatureAlgorithms d => SignatureAlgorithms_encode d
    | CH_SupportedGroups d => SupportedGroups_encode d
    | CH_KeyShare d => KeyShareClientHello_encode d
    | CH_PreSharedKey d => PreSharedKeyClientHello_encode d
    | CH_PskKeyExchangeModes d => PskKeyExchangeModes_encode d
    | CH_SignatureAlgorithmsCert d => SignatureAlgorithmsCert_encode d
    | CH_MaxFragmentLength d => MaxFragmentLength_encode d
    | CH_ApplicationLayerProtocolNegotiation d => Alpn_encode d
    | CH_StatusRequest d | CH_UseSrtp d | CH_Heartbeat d
    | CH_SignedCertificateTimestamp d | CH_ClientCertificateType d
    | CH_ServerCertificateType d | CH_Padding d | CH_EarlyData d | CH_Cookie d
    | CH_CertificateAuthorities d | CH_OidFilters d | CH_PostHandshakeAuth d =>
        Unimplemented_encode d
    end;
  data_parse t := match t with
    | ET_ServerName => Some (pmap CH_ServerName (ServerNameList_parse 1))
    | ET_SupportedVersions =>
        Some (pmap CH_SupportedVersions (SupportedVersionsClientHello_parse 1))
    | ET_SignatureAlgorithms => Some (pmap CH_SignatureAlgorithms (SignatureAlgorithms_parse 25))
    | ET_SupportedGroups => Some (pmap CH_SupportedGroups (SupportedGroups_parse 13))
    | ET_KeyShare => Some (pmap CH_KeyShare (KeyShareClientHello_parse 4))
    | ET_PreSharedKey => Some (pmap CH_PreSharedKey (PreSharedKeyClientHello_parse 4))
    | ET_PskKeyExchangeModes => Some (pmap CH_PskKeyExchangeModes (PskKeyExchangeModes_parse 4))
    | ET_SignatureAlgorithmsCert =>
        Some (pmap CH_SignatureAlgorithmsCert (SignatureAlgorithmsCert_parse 25))
    | ET_MaxFragmentLength => Some (pmap CH_MaxFragmentLength MaxFragmentLength_parse)
    | ET_StatusRequest => Some (pmap CH_StatusRequest Unimplemented_parse)
    | ET_UseSrtp => Some (pmap CH_UseSrtp Unimplemented_parse)
    | ET_Heartbeat => Some (pmap CH_Heartbeat Unimplemented_parse)
    | ET_ApplicationLayerProtocolNegotiation =>
        Some (pmap CH_ApplicationLayerProtocolNegotiation Alpn_parse)
    | ET_SignedCertificateTimestamp =>
        Some (pmap CH_SignedCertificateTimestamp Unimplemented_parse)
    | ET_ClientCertificateType => Some (pmap CH_ClientCertificateType Unimplemented_parse)
    | ET_ServerCertificateType => Some (pmap CH_ServerCertificateType Unimplemented_parse)
    | ET_Padding => Some (pmap CH_Padding Unimplemented_parse)
    | ET_EarlyData => Some (pmap CH_EarlyData Unimplemented_parse)
    | ET_Cookie => Some (pmap CH_Cookie Unimplemented_parse)
    | ET_CertificateAuthorities => Some (pmap CH_CertificateAuthorities Unimplemented_parse)
    | ET_OidFilters => Some (pmap CH_OidFilters Unimplemented_parse)
    | ET_PostHandshakeAuth => Some (pmap CH_PostHandshakeAuth Unimplemented_parse)
    | ET_CompressCertificate => None
    end;
}.

Inductive ServerHelloExtension : Type :=
| SH_KeyShare (d : KeyShareServerHello)
| SH_PreSharedKey (d : PreSharedKeyServerHello)
| SH_Cookie (d : Unimplemented)
| SH_SupportedVersions (d : SupportedVersionsServerHello).

#[global] Instance ServerHelloExtension_group : ExtensionGroup ServerHelloExtension := {
  extension_type x := match x with
    | SH_KeyShare _ => ET_KeyShare
    | SH_PreSharedKey _ => ET_PreSharedKey
    | SH_Cookie _ => ET_Cookie
    | SH_SupportedVersions _ => ET_SupportedVersions
    end;
  data_encode x := match x with
    | SH_KeyShare d => KeyShareServerHello_encode d
    | SH_PreSharedKey d => PreSharedKeyServerHello_encode d
    | SH_Cookie d => Unimplemented_encode d
    | SH_SupportedVersions d => SupportedVersionsServerHello_encode d
    end;
  data_parse t := match t with
    | ET_KeyShare => Some (pmap SH_KeyShare KeyShareServerHello_parse)
    | ET_PreSharedKey => Some (pmap SH_PreSharedKey PreSharedKeyServerHello_parse)
    | ET_Cookie => Some (pmap SH_Cookie Unimplemented_parse)
    | ET_SupportedVersions => Some (pmap SH_SupportedVersions SupportedVersionsServerHello_parse)
    | _ => None
    end;
}.

Inductive EncryptedExtensionsExtension : Type :=
| EE_ServerName (d : unit)
| EE_MaxFragmentLength (d : MaxFragmentLength)
| EE_SupportedGroups (d : SupportedGroups)
| EE_UseSrtp (d : Unimplemented)
| EE_Heartbeat (d : Unimplemented)
| EE_ApplicationLayerProtocolNegotiation (d : AlpnProtocolNameList)
| EE_ClientCertificateType (d : Unimplemented)
| EE_ServerCertificateType (d : Unimplemented)
| EE_EarlyData (d : Unimplemented).

#[global] Instance EncryptedExtensionsExtension_group :
    ExtensionGroup EncryptedExtensionsExtension := {
  extension_type x := match x with
    | EE_ServerName _ => ET_ServerName
    | EE_MaxFragmentLength _ => ET_MaxFragmentLength
    | EE_SupportedGroups _ => ET_SupportedGroups
    | EE_UseSrtp _ => ET_UseSrtp
    | EE_Heartbeat _ => ET_Heartbeat
    | EE_ApplicationLayerProtocolNegotiation _ => ET_ApplicationLayerProtocolNegotiation
    | EE_ClientCertificateType _ => ET_ClientCertificateType
    | EE_ServerCertificateType _ => ET_ServerCertificateType
    | EE_EarlyData _ => ET_EarlyData
    end;
  data_encode x := match x with
    | EE_ServerName _ => ServerNameResponse_encode
    | EE_MaxFragmentLength d => MaxFragmentLength_encode d
    | EE_SupportedGroups d => SupportedGroups_encode d
    | EE_ApplicationLayerProtocolNegotiation d => Alpn_encode d
    | EE_UseSrtp d | EE_Heartbeat d | EE_ClientCertificateType d
    | EE_ServerCertificateType d | EE_EarlyData d => Unimplemented_encode d
    end;
  data_parse t := match t with
    | ET_ServerName => Some (pmap EE_ServerName ServerNameResponse_parse)
    | ET_MaxFragmentLength => Some (pmap EE_MaxFragmentLength MaxFragmentLength_parse)
    | ET_SupportedGroups => Some (pmap EE_SupportedGroups (SupportedGroups_parse 13))
    | ET_UseSrtp => Some (pmap EE_UseSrtp Unimplemented_parse)
    | ET_Heartbeat => Some (pmap EE_Heartbeat Unimplemented_parse)
    | ET_ApplicationLayerProtocolNegotiation =>
        Some (pmap EE_ApplicationLayerProtocolNegotiation Alpn_parse)
    | ET_ClientCertificateType => Some (pmap EE_ClientCertificateType Unimplemented_parse)
    | ET_ServerCertificateType => Some (pmap EE_ServerCertificateType Unimplemented_parse)
    | ET_EarlyData => Some (pmap EE_EarlyData Unimplemented_parse)
    | _ => None
    end;
}.

Inductive CertificateRequestExtension : Type :=
| CR_StatusRequest (d : Unimplemented)
| CR_SignatureAlgorithms (d : SignatureAlgorithms)
| CR_SignedCertificateTimestamp (d : Unimplemented)
| CR_CertificateAuthorities (d : Unimplemented)
| CR_OidFilters (d : Unimplemented)
| CR_SignatureAlgorithmsCert (d : Unimplemented)
| CR_CompressCertificate (d : Unimplemented).

#[global] Instance CertificateRequestExtension_group :
    ExtensionGroup CertificateRequestExtension := {
  extension_type x := match x with
    | CR_StatusRequest _ => ET_StatusRequest
    | CR_SignatureAlgorithms _ => ET_SignatureAlgorithms
    | CR_SignedCertificateTimestamp _ => ET_SignedCertificateTimestamp
    | CR_CertificateAuthorities _ => ET_CertificateAuthorities
    | CR_OidFilters _ => ET_OidFilters
    | CR_SignatureAlgorithmsCert _ => ET_SignatureAlgorithmsCert
    | CR_CompressCertificate _ => ET_CompressCertificate
    end;
  data_encode x := match x with
    | CR_SignatureAlgorithms d => SignatureAlgorithms_encode d
    | CR_StatusRequest d | CR_SignedCertificateTimestamp d | CR_CertificateAuthorities d
    | CR_OidFilters d | CR_SignatureAlgorithmsCert d | CR_CompressCertificate d =>
        Unimplemented_encode d
    end;
  data_parse t := match t with
    | ET_StatusRequest => Some (pmap CR_StatusRequest Unimplemented_parse)
    | ET_SignatureAlgorithms => Some (pmap CR_SignatureAlgorithms (SignatureAlgorithms_parse 25))
    | ET_SignedCertificateTimestamp =>
        Some (pmap CR_SignedCertificateTimestamp Unimplemented_parse)
    | ET_CertificateAuthorities => Some (pmap CR_CertificateAuthorities Unimplemented_parse)
    | ET_OidFilters => Some (pmap CR_OidFilters Unimplemented_parse)
    | ET_SignatureAlgorithmsCert => Some (pmap CR_SignatureAlgorithmsCert Unimplemented_parse)
    | ET_CompressCertificate => Some (pmap CR_CompressCertificate Unimplemented_parse)
    | _ => None
    end;
}.

Inductive CertificateExtension : Type :=
| CE_StatusRequest (d : Unimplemented)
| CE_SignedCertificateTimestamp (d : Unimplemented).

#[global] Instance CertificateExtension_group : ExtensionGroup CertificateExtension := {
  extension_type x := match x with
    | CE_StatusRequest _ => ET_StatusRequest
    | CE_SignedCertificateTimestamp _ => ET_SignedCertificateTimestamp
    end;
  data_encode x := match x with
    | CE_StatusRequest d | CE_SignedCertificateTimestamp d => Unimplemented_encode d
    end;
  data_parse t := match t with
    | ET_StatusRequest => Some (pmap CE_StatusRequest Unimplemented_parse)
    | ET_SignedCertificateTimestamp =>
        Some (pmap CE_SignedCertificateTimestamp Unimplemented_parse)
    | _ => None
    end;
}.

Inductive NewSessionTicketExtension : Type := NST_EarlyData (d : Unimplemented).

#[global] Instance NewSessionTicketExtension_group : ExtensionGroup NewSessionTicketExtension := {
  extension_type x := match x with NST_EarlyData _ => ET_EarlyData end;
  data_encode x := match x with NST_EarlyData d => Unimplemented_encode d end;
  data_parse t := match t with
    | ET_EarlyData => Some (pmap NST_EarlyData Unimplemented_parse)
    | _ => None
    end;
}.

Inductive HelloRetryRequestExtension : Type :=
| HRR_KeyShare (d : Unimplemented)
| HRR_Cookie (d : Unimplemented)
| HRR_SupportedVersions (d : Unimplemented).

#[global] Instance HelloRetryRequestExtension_group :
    ExtensionGroup HelloRetryRequestExtension := {
  extension_type x := match x with
    | HRR_KeyShare _ => ET_KeyShare
    | HRR_Cookie _ => ET_Cookie
    | HRR_SupportedVersions _ => ET_SupportedVersions
    end;
  data_encode x := match x with
    | HRR_KeyShare d | HRR_Cookie d | HRR_SupportedVersions d => Unimplemented_encode d
    end;
  data_parse t := match t with
    | ET_KeyShare => Some (pmap HRR_KeyShare Unimplemented_parse)
    | ET_Cookie => Some (pmap HRR_Cookie Unimplemented_parse)
    | ET_SupportedVersions => Some (pmap HRR_SupportedVersions Unimplemented_parse)
    | _ => None
    end;
}.

(** ** The wire format of a vector of extensions *)

(** An extension before it is interpreted: a type code and its data. *)
Record RawExtension : Type := mkRaw { raw_type : Z; raw_data : list byte }.

Definition raw_bytes (r : RawExtension) : list byte :=
  be_bytes 2 (raw_type r) ++ vec16 (raw_data r).
Definition raw_ok (r : RawExtension) : Prop :=
  (0 <= raw_type r < 2 ^ 16)%Z /\ (Z.of_nat (length (raw_data r)) < 2 ^ 16)%Z.

Definition all_extension_types : list ExtensionType :=
  [ET_ServerName; ET_MaxFragmentLength; ET_StatusRequest; ET_SupportedGroups;
   ET_SignatureAlgorithms; ET_UseSrtp; ET_Heartbeat; ET_ApplicationLayerProtocolNegotiation;
   ET_SignedCertificateTimestamp; ET_ClientCertificateType; ET_ServerCertificateType;
   ET_Padding; ET_CompressCertificate; ET_PreSharedKey; ET_EarlyData; ET_SupportedVersions;
   ET_Cookie; ET_PskKeyExchangeModes; ET_CertificateAuthorities; ET_OidFilters;
   ET_PostHandshakeAuth; ET_SignatureAlgorithmsCert; ET_KeyShare].

Definition type_of_code (v : Z) : option ExtensionType :=
  find (fun t => (ExtensionType_code t =? v)%Z) all_extension_types.

Lemma ExtensionType_parse_eq b :
  ExtensionType_parse b = (v ← read_u16; ok_or (type_of_code v) InvalidData) b.
Proof.
  unfold ExtensionType_parse, mbind, M_bind. destruct (read_u16 b) as [[v| | |] b']; [|done..].
  repeat (case_decide; [subst v; reflexivity|]).
  destruct (type_of_code v) as [t|] eqn:Ht; [|done].
  apply find_some in Ht as [_ Ht%Z.eqb_eq]. destruct t; congruence.
Qed.

Lemma type_of_code_code t : type_of_code (ExtensionType_code t) = Some t.
Proof. by destruct t. Qed.

Section Vector.
Context {T : Type} `{!ExtensionGroup T}.

(** What one extension means, and what a whole vector means: the reference
    reading of section 4.2 of RFC 8446 as the crate implements it. *)
Definition ext_of_raw (r : RawExtension) : result TlsError T :=
  match type_of_code (raw_type r) with
  | None => Err UnknownExtensionType
  | Some t =>
      match data_parse t with
      | None => Err (abort_fatal IllegalParameter)
      | Some p => fst (map_err (fun _ => DecodeError) p (pb_new (raw_data r)))
      end
  end.

Definition add_raw (N : nat) (acc : list T) (r : RawExtension) : result TlsError (list T) :=
  match ext_of_raw r with
  | Ok x => if decide (length acc < N) then Ok (acc ++ [x]) else Err DecodeError
  | Err UnknownExtensionType => Ok acc
  | Err e => Err e
  | Panic => Panic
  | Diverge => Diverge
  end.

Fixpoint vector_of_raws (N : nat) (acc : list T) (raws : list RawExtension) :
    result TlsError (list T) :=
  match raws with
  | [] => Ok acc
  | r :: raws' =>
      match add_raw N acc r with
      | Ok acc' => vector_of_raws N acc' raws'
      | e => e
      end
  end.

Lemma ext_parse_raw pre post r :
  raw_ok r ->
  ext_parse (mkPB (length pre) (pre ++ raw_bytes r ++ post))
  = (ext_of_raw r, mkPB (length pre + length (raw_bytes r)) (pre ++ raw_bytes r ++ post)).
Proof.
  intros [Ht Hd]. unfold ext_parse, raw_bytes, vec16.
  set (n := Z.of_nat (length (raw_data r))). set (d := raw_data r) in *.
  set (ty := be_bytes 2 (raw_type r)).
  pose proof (parses_u16 (raw_type r) Ht pre (be_bytes 2 n ++ d ++ post)) as H1.
  pose proof (parses_u16 n ltac:(lia) (pre ++ ty) (d ++ post)) as H2.
  pose proof (parses_slice (Z.to_nat n) d ltac:(lia) (pre ++ ty ++ be_bytes 2 n) post) as H3.
  fold ty in H1. rewrite !length_app, <-!(assoc_L (++)) in *.
  replace (length ty) with 2 in * by (symmetry; apply length_be_bytes).
  rewrite !length_be_bytes in *.
  erewrite (bind_Ok (try_ ExtensionType_parse) _ _
    (match type_of_code (raw_type r) with Some t => inl t | None => inr InvalidData end)).
  2:{ unfold try_. rewrite ExtensionType_parse_eq, (bind_Ok _ _ _ _ _ H1).
      destruct (type_of_code (raw_type r)); reflexivity. }
  erewrite bind_Ok by apply map_err_Ok, H2.
  replace (length pre + 2 + 2) with (length pre + (2 + 2)) by lia.
  erewrite bind_Ok by apply map_err_Ok, H3.
  replace (length pre + (2 + 2) + length d) with (length pre + (2 + (2 + length d))) by lia.
  unfold ext_of_raw. destruct (type_of_code (raw_type r)) as [t|]; [|done].
  destruct (data_parse t) as [p|]; [|done].
  unfold run_on. by destruct (map_err _ p _) as [[] ?].
Qed.

Lemma vector_step_raw N acc pre post r :
  raw_ok r ->
  vector_step N acc (mkPB (length pre) (pre ++ raw_bytes r ++ post))
  = (add_raw N acc r, mkPB (length pre + length (raw_bytes r)) (pre ++ raw_bytes r ++ post)).
Proof.
  intros Hr. unfold vector_step, mbind, M_bind, try_. rewrite (ext_parse_raw _ _ _ Hr).
  unfold add_raw. destruct (ext_of_raw r) as [x|[]| |]; try done.
  unfold vec_push. by case_decide.
Qed.

Lemma raw_bytes_nonnil r : raw_bytes r <> [].
Proof. done. Qed.

Lemma while_raws N raws : forall fuel acc pre,
  Forall raw_ok raws -> length raws <= fuel ->
  fst (while_nonempty fuel (vector_step N) acc
         (mkPB (length pre) (pre ++ mjoin (raw_bytes <$> raws))))
  = vector_of_raws N acc raws.
Proof.
  induction raws as [|r raws IH]; intros fuel acc pre HF Hfuel.
  - destruct fuel; simpl; unfold is_empty; simpl; rewrite app_nil_r;
      by rewrite bool_decide_true.
  - apply Forall_cons in HF as [Hr HF]. destruct fuel as [|fuel]; [simpl in Hfuel; lia|].
    cbn [while_nonempty fmap list_fmap vector_of_raws].
    change (mjoin (raw_bytes r :: (raw_bytes <$> raws)))
      with (raw_bytes r ++ mjoin (raw_bytes <$> raws)).
    unfold is_empty. simpl pb_pos. simpl pb_buffer. rewrite bool_decide_false.
    2:{ rewrite length_app. simpl. lia. }
    unfold mbind, M_bind. rewrite (vector_step_raw N acc pre _ r Hr).
    destruct (add_raw N acc r) as [acc'| | |]; [|done..].
    specialize (IH fuel acc' (pre ++ raw_bytes r) HF ltac:(simpl in Hfuel; lia)).
    by rewrite length_app, <-(assoc_L (++)) in IH.
Qed.

(** [parse_vector] computes the reference reading of every framed vector,
    errors included. *)
Lemma parse_vector_raws N raws pre post :
  Forall raw_ok raws -> (Z.of_nat (length (mjoin (raw_bytes <$> raws))) < 2 ^ 16)%Z ->
  let data := mjoin (raw_bytes <$> raws) in
  parse_vector N (mkPB (length pre) (pre ++ vec16 data ++ post))
  = (vector_of_raws N [] raws, mkPB (length pre + length (vec16 data)) (pre ++ vec16 data ++ post)).
Proof.
  intros HF Hlen data. fold data in Hlen. unfold parse_vector, vec16.
  set (n := Z.of_nat (length data)).
  pose proof (parses_u16 n ltac:(lia) pre (data ++ post)) as H1.
  pose proof (parses_slice (Z.to_nat n) data ltac:(lia) (pre ++ be_bytes 2 n) post) as H2.
  rewrite !length_app, !length_be_bytes, <-!(assoc_L (++)) in *.
  rewrite (bind_Ok _ _ _ _ _ (map_err_Ok _ _ _ _ _ H1)).
  rewrite (bind_Ok _ _ _ _ _ (map_err_Ok _ _ _ _ _ H2)).
  unfold run_on, loop_nonempty. simpl pb_buffer.
  pose proof (while_raws N raws (length data) [] [] HF
    (length_mjoin_ge raw_bytes raws (fun r _ => raw_bytes_nonnil r))) as Hw.
  fold data in Hw. simpl app in Hw. unfold pb_new.
  destruct (while_nonempty (length data) (vector_step N) [] _) as [r b']. simpl in Hw. subst r.
  rewrite Nat.add_assoc. by destruct (vector_of_raws N [] raws).
Qed.
End Vector.

(** ** What the payloads of a group promise *)

Class ExtensionGroupLaws (T : Type) `{!ExtensionGroup T} : Type := {
  (** every payload parser returns, with a value of the announced type *)
  data_parse_sound t p :
    data_parse t = Some p -> psound p (fun _ (x : T) => extension_type x = t);
  (** the wire format of a payload *)
  data_bytes : T -> list byte;
  data_encodes x : encodes (data_encode x) (data_bytes x);
  (** payloads whose wire format reads back as the same value *)
  data_ok : T -> Prop;
  data_roundtrip x : data_ok x ->
    (Z.of_nat (length (data_bytes x)) < 2 ^ 16)%Z /\
    exists p b, data_parse (extension_type x) = Some p /\ p (pb_new (data_bytes x)) = (Ok x, b);
}.

Section Laws.
Context {T : Type} `{!ExtensionGroup T, !ExtensionGroupLaws T}.

Definition ext_bytes (x : T) : list byte :=
  be_bytes 2 (ExtensionType_code (extension_type x)) ++ vec16 (data_bytes x).

Lemma ext_encodes x : encodes (ext_encode x) (ext_bytes x).
Proof.
  apply encodes_bind; [apply ExtensionType_encodes|].
  apply encodes_with_u16_length, data_encodes.
Qed.

(** A vector of extensions behind its length, as every message encodes it. *)
Lemma ext_vector_encodes (xs : list T) :
  encodes (with_u16_length (for_each xs ext_encode)) (vec16 (mjoin (ext_bytes <$> xs))).
Proof. apply encodes_with_u16_length, encodes_for_each. intros; apply ext_encodes. Qed.

Lemma ext_of_raw_total r : ext_of_raw (T := T) r <> Panic /\ ext_of_raw (T := T) r <> Diverge.
Proof.
  unfold ext_of_raw. destruct (type_of_code _) as [t|]; [|done].
  destruct (data_parse t) as [p|] eqn:Hp; [|done].
  pose proof (data_parse_sound t p Hp (pb_new (raw_data r)) (pb_new_wf _)) as H.
  unfold wp, map_err in *. by destruct (p _) as [[] ?].
Qed.

(** Reading the header of an extension: whatever the type code, the data of
    the announced length is consumed. *)
Lemma wp_header {A} b (k : ExtensionType + ParseError -> ParseBuffer -> TM A) Q
    (R : TlsError -> ParseBuffer -> Prop) :
  pb_wf b ->
  (forall xs b', consumed b b' xs -> pb_wf b' -> R DecodeError b') ->
  (forall r b', raw_ok r -> consumed b b' (raw_bytes r) -> pb_wf b' ->
     wp (k (match type_of_code (raw_type r) with Some t => inl t | None => inr InvalidData end)
           (pb_new (raw_data r))) b' Q R) ->
  wp (ty ← try_ ExtensionType_parse;
      n ← map_err (fun _ => DecodeError) read_u16;
      d ← map_err (fun _ => DecodeError) (slice (Z.to_nat n));
      k ty d) b Q R.
Proof.
  intros Hwf HR Hk. apply wp_bind, wp_try.
  assert (Hrest : forall v b1, consumed b b1 (be_bytes 2 v) -> pb_wf b1 -> (0 <= v < 2 ^ 16)%Z ->
    wp (n ← map_err (fun _ => DecodeError) read_u16;
        d ← map_err (fun _ => DecodeError) (slice (Z.to_nat n));
        k (match type_of_code v with Some t => inl t | None => inr InvalidData end) d) b1 Q R).
  { intros v b1 Hc1 Hwf1 Hv. apply wp_bind, wp_map_err.
    eapply wp_mono; [by apply psound_u16| |].
    2:{ intros _ b2 (Hwf2 & ys & Hc2). eapply HR; [by eapply consumed_trans|done]. }
    intros n b2 (Hwf2 & ? & Hc2 & -> & Hn). apply wp_bind, wp_map_err.
    eapply wp_mono; [by apply psound_slice| |].
    2:{ intros _ b3 (Hwf3 & ys & Hc3). eapply HR; [|done].
        eapply consumed_trans; [done|]. by eapply consumed_trans. }
    intros ? b3 (Hwf3 & d & Hc3 & -> & Hl).
    apply (Hk (mkRaw v d)); [split; simpl; lia| |done].
    unfold raw_bytes, vec16. simpl raw_type. simpl raw_data. rewrite Hl, Z2Nat.id by lia.
    eapply consumed_trans; [done|]. by eapply consumed_trans. }
  unfold wp at 1. rewrite ExtensionType_parse_eq.
  pose proof (psound_u16 b Hwf) as H. unfold wp in H.
  destruct (read_u16 b) as [[v|e| |] b1] eqn:He; [| |done..].
  - destruct H as (Hwf1 & ? & Hc & -> & Hv). specialize (Hrest v b1 Hc Hwf1 Hv).
    rewrite (bind_Ok _ _ _ _ _ He). by destruct (type_of_code v).
  - rewrite (bind_Err _ _ _ _ _ He). destruct H as (Hwf1 & xs & Hc).
    assert (e = InsufficientBytes /\ b1 = b) as [-> ->].
    { pose proof (reads_u16 b Hwf) as Hr. rewrite He in Hr. case_decide; [destruct Hr as (? & ? & ? & ? & ?)|]; by simplify_eq. }
    apply wp_bind, wp_map_err. unfold wp. rewrite He. by apply (HR xs b).
Qed.

Lemma wp_ext_parse b :
  pb_wf b ->
  wp ext_parse b
    (fun (x : T) b' => pb_wf b' /\
       exists r, raw_ok r /\ consumed b b' (raw_bytes r) /\ ext_of_raw r = Ok x)
    (fun e b' => pb_wf b' /\ exists xs, consumed b b' xs /\
       (e = UnknownExtensionType ->
        exists r, raw_ok r /\ xs = raw_bytes r /\ ext_of_raw (T := T) r = Err UnknownExtensionType)).
Proof.
  intros Hwf. apply wp_header; [done|by intros; split; [|eexists; split]|].
  intros r b' Hr Hc Hwf'.
  pose proof (ext_of_raw_total r) as [HP HD].
  destruct (type_of_code (raw_type r)) as [t|] eqn:Ht.
  - destruct (data_parse t) as [p|] eqn:Hp; [|apply wp_err; split; [done|by eexists]].
    assert (Heq : ext_of_raw r = fst (map_err (fun _ => DecodeError) p (pb_new (raw_data r)))).
    { unfold ext_of_raw. by rewrite Ht, Hp. }
    apply wp_run_on. unfold wp. rewrite Heq in HP, HD.
    destruct (map_err _ p _) as [[] ?] eqn:Hm; simpl in *; [by eauto 6| |done..].
    unfold map_err in Hm. destruct (p _) as [[] ?]; simplify_eq. split; [done|by eexists].
  - apply wp_err. split; [done|]. exists (raw_bytes r). split; [done|]. intros _. exists r.
    unfold ext_of_raw. by rewrite Ht.
Qed.

Lemma vector_step_sound N acc :
  psound (vector_step (T := T) N acc) (fun xs acc' =>
    exists r, raw_ok r /\ xs = raw_bytes r /\ add_raw N acc r = Ok acc').
Proof.
  intros b Hwf. apply wp_bind, wp_try. eapply wp_mono; [by apply wp_ext_parse| |].
  - intros x b' (Hwf' & r & Hr & Hc & Hx). apply wp_ok_or. unfold vec_push. case_decide; [|by eauto].
    split; [done|]. eexists; split; [done|]. exists r. split_and!; [done..|].
    unfold add_raw. rewrite Hx. by rewrite decide_True.
  - intros e b' (Hwf' & xs & Hc & He).
    destruct (decide (e = UnknownExtensionType)) as [->|Hne].
    + destruct (He eq_refl) as (r & Hr & -> & Hx). apply wp_ret. split; [done|].
      eexists; split; [done|]. exists r. split_and!; [done..|]. unfold add_raw. by rewrite Hx.
    + destruct e; try done; apply wp_err; by eauto.
Qed.

(** Every extension of the vector is the reading of a framed one. *)
Lemma vector_of_raws_elems N raws : forall acc l,
  vector_of_raws (T := T) N acc raws = Ok l ->
  forall x, x ∈ l -> x ∈ acc \/ exists r, r ∈ raws /\ ext_of_raw r = Ok x.
Proof.
  induction raws as [|r raws IH]; intros acc l; simpl; [intros [= <-]; by left|].
  unfold add_raw. destruct (ext_of_raw r) as [y|e| |] eqn:Hr; [| |done..].
  - case_decide; [|done]. intros Hl x [Hx|(r' & Hr' & Hx)]%(IH _ _ Hl).
    + apply elem_of_app in Hx as [Hx| ->%list_elem_of_singleton]; [by left|].
      right. exists r. split; [set_solver|done].
    + right. exists r'. split; [set_solver|done].
  - destruct e; try done. intros Hl x [Hx|(r' & Hr' & Hx)]%(IH _ _ Hl); [by left|].
    right. exists r'. split; [set_solver|done].
Qed.

Lemma vector_of_raws_snoc N raws r : forall acc acc' acc'',
  vector_of_raws (T := T) N acc raws = Ok acc' -> add_raw N acc' r = Ok acc'' ->
  vector_of_raws N acc (raws ++ [r]) = Ok acc''.
Proof.
  induction raws as [|r0 raws IH]; simpl; intros acc acc' acc'' H1 H2.
  - injection H1 as ->. by rewrite H2.
  - destruct (add_raw N acc r0); try done. by eapply IH.
Qed.

(** [parse_vector] returns on every input; what it accepts is a framed vector
    whose reference reading is the result. *)
Lemma parse_vector_sound N :
  psound (parse_vector (T := T) N) (fun xs l => exists raws,
    xs = vec16 (mjoin (raw_bytes <$> raws)) /\ Forall raw_ok raws /\
    (Z.of_nat (length (mjoin (raw_bytes <$> raws))) < 2 ^ 16)%Z /\
    vector_of_raws N [] raws = Ok l).
Proof.
  unfold parse_vector. eapply psound_bind; [apply psound_map_err, psound_u16|].
  intros n ? (-> & Hn). eapply psound_bind; [apply psound_map_err, psound_slice|].
  intros ? xs (-> & Hl). apply psound_run_on.
  eapply wp_mono; [apply (wp_loop _ (fun xs l => exists raws,
    xs = mjoin (raw_bytes <$> raws) /\ Forall raw_ok raws /\ vector_of_raws N [] raws = Ok l))| |done].
  - by exists [].
  - intros acc ys (raws & -> & HF & Hv). eapply psound_mono; [apply vector_step_sound|].
    intros zs acc' (r & Hr & -> & Hadd). split; [done|]. exists (raws ++ [r]).
    rewrite fmap_app, join_app. simpl. rewrite app_nil_r. split_and!; [done| |by eapply vector_of_raws_snoc].
    apply Forall_app. auto.
  - intros l _ (raws & -> & HF & Hv). exists raws. rewrite app_nil_r. split_and!; [|done|lia|done].
    unfold vec16. by rewrite Hl, Z2Nat.id by lia.
Qed.

Definition raw_of (x : T) : RawExtension :=
  mkRaw (ExtensionType_code (extension_type x)) (data_bytes x).

Lemma ext_of_raw_of x : data_ok x -> ext_of_raw (raw_of x) = Ok x.
Proof.
  intros (_ & p & b & Hp & Hx)%data_roundtrip. unfold ext_of_raw, raw_of. simpl.
  by rewrite type_of_code_code, Hp, (map_err_Ok _ _ _ _ _ Hx).
Qed.

Lemma raw_of_ok x : data_ok x -> raw_ok (raw_of x).
Proof.
  intros [Hl _]%data_roundtrip. split; [|done]. simpl.
  destruct (extension_type x); simpl; lia.
Qed.

Lemma vector_of_raws_of N xs : forall acc,
  Forall data_ok xs -> length acc + length xs <= N ->
  vector_of_raws N acc (raw_of <$> xs) = Ok (acc ++ xs).
Proof.
  induction xs as [|x xs IH]; intros acc HF HN; simpl; [by rewrite app_nil_r|].
  apply Forall_cons in HF as [Hx HF]. simpl in HN. unfold add_raw.
  rewrite ext_of_raw_of by done. rewrite decide_True by lia.
  rewrite IH by (done || len). by rewrite <-(assoc_L (++)).
Qed.

(** What [ext_encode] writes for a list of extensions, [parse_vector] reads. *)
Lemma parse_vector_parses N (xs : list T) :
  Forall data_ok xs -> length xs <= N ->
  (Z.of_nat (length (mjoin (ext_bytes <$> xs))) < 2 ^ 16)%Z ->
  parses (parse_vector N) (vec16 (mjoin (ext_bytes <$> xs))) xs.
Proof.
  intros HF HN Hl pre post.
  assert (mjoin (ext_bytes <$> xs) = mjoin (raw_bytes <$> (raw_of <$> xs))) as Heq.
  { by rewrite <-list_fmap_compose. }
  rewrite Heq in *. rewrite parse_vector_raws; [|..|done].
  - by rewrite vector_of_raws_of.
  - apply Forall_fmap. eapply Forall_impl; [done|]. apply raw_of_ok.
Qed.
End Laws.

(** ** The laws of the seven groups *)

Lemma psound_pmap {A B} (f : A -> B) p P (Q : list byte -> B -> Prop) :
  psound p P -> (forall xs a, Q xs (f a)) -> psound (pmap f p) Q.
Proof. intros Hp HQ. eapply psound_bind; [done|]. intros; by apply psound_ret. Qed.

Lemma pmap_whole {A B} (f : A -> B) p xs a :
  parses p xs a -> exists b, pmap f p (pb_new xs) = (Ok (f a), b).
Proof. intros Hp%parses_whole. eexists. unfold pmap. by rewrite (bind_Ok _ _ _ _ _ Hp). Qed.

#[export] Hint Resolve ServerNameList_sound SupportedVersionsCH_sound SignatureAlgorithms_sound
  SupportedGroups_sound KeyShareClientHello_sound psk_parse_sound PskKeyExchangeModes_sound
  SignatureAlgorithmsCert_sound MaxFragmentLength_sound Unimplemented_sound Alpn_sound
  KeyShareServerHello_sound PreSharedKeyServerHello_sound SupportedVersionsSH_sound
  ServerNameResponse_sound : tls.

#[export] Hint Resolve ServerNameList_encodes SupportedVersionsCH_encodes
  SignatureAlgorithms_encodes SupportedGroups_encodes KeyShareClientHello_encodes
  PreSharedKeyClientHello_encodes PskKeyExchangeModes_encodes SignatureAlgorithmsCert_encodes
  MaxFragmentLength_encodes Alpn_encodes PreSharedKeyServerHello_encodes KeyShareEntry_encodes
  ProtocolVersion_encodes : tls.

Ltac group_sound :=
  intros t p; destruct t; intros Hp; cbn in Hp;
  try discriminate Hp; injection Hp as <-; (eapply psound_pmap; [eauto with tls|done]).
Ltac group_encodes := intros x; destruct x; simpl; solve [eauto with tls].

Definition SigAlgs_bytes (s : SignatureAlgorithms) : list byte :=
  vec16 (sig_bytes (supported_signature_algorithms s)).

Definition CH_bytes (x : ClientHelloExtension) : list byte :=
  match x with
  | CH_ServerName d => ServerNameList_bytes d
  | CH_SupportedVersions d => SupportedVersionsCH_bytes d
  | CH_SignatureAlgorithms d => SigAlgs_bytes d
  | CH_SupportedGroups d => SupportedGroups_bytes d
  | CH_KeyShare d => KeyShareClientHello_bytes d
  | CH_PreSharedKey d => PskCH_bytes d
  | CH_PskKeyExchangeModes d => PskKeyExchangeModes_bytes d
  | CH_SignatureAlgorithmsCert d => vec16 (sig_bytes (supported_signature_algorithms_cert d))
  | CH_MaxFragmentLength d => [u8 (MaxFragmentLength_code d)]
  | CH_ApplicationLayerProtocolNegotiation d => Alpn_bytes d
  | CH_StatusRequest d | CH_UseSrtp d | CH_Heartbeat d
  | CH_SignedCertificateTimestamp d | CH_ClientCertificateType d
  | CH_ServerCertificateType d | CH_Padding d | CH_EarlyData d | CH_Cookie d
  | CH_CertificateAuthorities d | CH_OidFilters d | CH_PostHandshakeAuth d => un_data d
  end.

(** The values that survive a round trip: lists within the capacities of the
    source, texts within their length fields.  The ALPN parser drops the names it
    validates, and the PSK encoder leaves the binders blank, so a non-empty ALPN
    list and a PSK offer never read back as themselves. *)
Definition CH_payload_ok (x : ClientHelloExtension) : Prop :=
  match x with
  | CH_ServerName d => ServerNameList_ok 1 d
  | CH_SupportedVersions d => length (versions d) <= 1 /\ Forall version_ok (versions d)
  | CH_SignatureAlgorithms d => length (supported_signature_algorithms d) <= 25
  | CH_SupportedGroups d => length (supported_groups d) <= 13
  | CH_KeyShare d => KeyShareClientHello_ok 4 d
  | CH_PreSharedKey d => False
  | CH_PskKeyExchangeModes d => length (modes d) <= 4
  | CH_SignatureAlgorithmsCert d => length (supported_signature_algorithms_cert d) <= 25
  | CH_ApplicationLayerProtocolNegotiation d => alpn_protocols d = []
  | _ => True
  end.

Lemma SignatureAlgorithmsCert_parses N s :
  length (supported_signature_algorithms_cert s) <= N ->
  (Z.of_nat (length (supported_signature_algorithms_cert s)) < 2 ^ 15)%Z ->
  parses (SignatureAlgorithmsCert_parse N)
    (vec16 (sig_bytes (supported_signature_algorithms_cert s))) s.
Proof.
  intros HN Hl. destruct s as [l]. apply parses_list16; simpl in *.
  - rewrite (length_mjoin_const _ 2) by done. simpl in *. lia.
  - done.
  - intros x _. split; [done|apply SignatureScheme_parses].
Qed.

Lemma Alpn_parses_nil a : alpn_protocols a = [] -> parses Alpn_parse (Alpn_bytes a) a.
Proof. destruct a as [l]. simpl. intros ->. by apply (Alpn_parses (mkAlpn [])). Qed.

Ltac whole f H :=
  let b := fresh "b" in let Hb := fresh "Hb" in
  edestruct (pmap_whole f _ _ _ H) as [b Hb]; eexists _, b; split; [reflexivity|exact Hb].
Ltac whole_un := eexists _, _; split; [reflexivity|]; match goal with
  | |- _ = (Ok (?c ?d), _) => destruct d; reflexivity end.

#[global, refine] Instance ClientHelloExtension_laws : ExtensionGroupLaws ClientHelloExtension := {
  data_bytes := CH_bytes;
  data_ok x := (Z.of_nat (length (CH_bytes x)) < 2 ^ 16)%Z /\ CH_payload_ok x;
}.
Proof.
  - group_sound.
  - group_encodes.
  - intros x [Hl Hx]. split; [done|]. destruct x as [d|d|d|d|d|d|d|d|d|d|d|d|d|d|d|d|d|d|d|d|d|d];
      cbn [CH_bytes CH_payload_ok extension_type ClientHelloExtension_group] in *; try by whole_un.
    + whole CH_ServerName (ServerNameList_parses 1 d Hx).
    + destruct Hx as [H1 H2].
      whole CH_SupportedVersions (SupportedVersionsCH_parses 1 d H1 ltac:(lia) H2).
    + whole CH_SignatureAlgorithms (SignatureAlgorithms_parses 25 d Hx ltac:(lia)).
    + whole CH_SupportedGroups (SupportedGroups_parses 13 d Hx ltac:(lia)).
    + whole CH_KeyShare (KeyShareClientHello_parses 4 d Hx).
    + done.
    + whole CH_PskKeyExchangeModes (PskKeyExchangeModes_parses 4 d Hx ltac:(lia)).
    + whole CH_SignatureAlgorithmsCert (SignatureAlgorithmsCert_parses 25 d Hx ltac:(lia)).
    + whole CH_ApplicationLayerProtocolNegotiation (Alpn_parses_nil d Hx).
Defined.

Definition SH_bytes (x : ServerHelloExtension) : list byte :=
  match x with
  | SH_KeyShare d => KeyShareServerHello_bytes d
  | SH_PreSharedKey d => be_bytes 2 (selected_identity d)
  | SH_Cookie d => un_data d
  | SH_SupportedVersions d => be_bytes 2 (version_code (selected_version d))
  end.

Definition SH_payload_ok (x : ServerHelloExtension) : Prop :=
  match x with
  | SH_KeyShare d => KeyShareEntry_ok (kssh_entry d)
  | SH_PreSharedKey d => PskSH_ok d
  | SH_Cookie d => True
  | SH_SupportedVersions d => version_ok (selected_version d)
  end.

#[global, refine] Instance ServerHelloExtension_laws : ExtensionGroupLaws ServerHelloExtension := {
  data_bytes := SH_bytes;
  data_ok x := (Z.of_nat (length (SH_bytes x)) < 2 ^ 16)%Z /\ SH_payload_ok x;
}.
Proof.
  - group_sound.
  - intros [d|d|d|d]; simpl; [apply KeyShareEntry_encodes|by eauto with tls..].
  - intros x [Hl Hx]. split; [done|]. destruct x as [d|d|d|d];
      cbn [SH_bytes SH_payload_ok extension_type ServerHelloExtension_group] in *.
    + whole SH_KeyShare (KeyShareServerHello_parses d Hx).
    + whole SH_PreSharedKey (PreSharedKeyServerHello_parses d Hx).
    + whole_un.
    + whole SH_SupportedVersions (SupportedVersionsSH_parses d Hx).
Defined.

Definition EE_bytes (x : EncryptedExtensionsExtension) : list byte :=
  match x with
  | EE_ServerName _ => []
  | EE_MaxFragmentLength d => [u8 (MaxFragmentLength_code d)]
  | EE_SupportedGroups d => SupportedGroups_bytes d
  | EE_ApplicationLayerProtocolNegotiation d => Alpn_bytes d
  | EE_UseSrtp d | EE_Heartbeat d | EE_ClientCertificateType d
  | EE_ServerCertificateType d | EE_EarlyData d => un_data d
  end.

Definition EE_payload_ok (x : EncryptedExtensionsExtension) : Prop :=
  match x with
  | EE_SupportedGroups d => length (supported_groups d) <= 13
  | EE_ApplicationLayerProtocolNegotiation d => alpn_protocols d = []
  | _ => True
  end.

#[global, refine] Instance EncryptedExtensionsExtension_laws :
    ExtensionGroupLaws EncryptedExtensionsExtension := {
  data_bytes := EE_bytes;
  data_ok x := (Z.of_nat (length (EE_bytes x)) < 2 ^ 16)%Z /\ EE_payload_ok x;
}.
Proof.
  - group_sound.
  - group_encodes.
  - intros x [Hl Hx]. split; [done|]. destruct x as [d|d|d|d|d|d|d|d|d];
      cbn [EE_bytes EE_payload_ok extension_type EncryptedExtensionsExtension_group] in *;
      try by whole_un.
    + whole EE_SupportedGroups (SupportedGroups_parses 13 d Hx ltac:(lia)).
    + whole EE_ApplicationLayerProtocolNegotiation (Alpn_parses_nil d Hx).
Defined.

Definition CR_bytes (x : CertificateRequestExtension) : list byte :=
  match x with
  | CR_SignatureAlgorithms d => SigAlgs_bytes d
  | CR_StatusRequest d | CR_SignedCertificateTimestamp d | CR_CertificateAuthorities d
  | CR_OidFilters d | CR_SignatureAlgorithmsCert d | CR_CompressCertificate d => un_data d
  end.

Definition CR_payload_ok (x : CertificateRequestExtension) : Prop :=
  match x with
  | CR_SignatureAlgorithms d => length (supported_signature_algorithms d) <= 25
  | _ => True
  end.

#[global, refine] Instance CertificateRequestExtension_laws :
    ExtensionGroupLaws CertificateRequestExtension := {
  data_bytes := CR_bytes;
  data_ok x := (Z.of_nat (length (CR_bytes x)) < 2 ^ 16)%Z /\ CR_payload_ok x;
}.
Proof.
  - group_sound.
  - group_encodes.
  - intros x [Hl Hx]. split; [done|]. destruct x as [d|d|d|d|d|d|d];
      cbn [CR_bytes CR_payload_ok extension_type CertificateRequestExtension_group] in *;
      try by whole_un.
    whole CR_SignatureAlgorithms (SignatureAlgorithms_parses 25 d Hx ltac:(lia)).
Defined.

Definition CE_bytes (x : CertificateExtension) : list byte :=
  match x with CE_StatusRequest d | CE_SignedCertificateTimestamp d => un_data d end.

#[global, refine] Instance CertificateExtension_laws : ExtensionGroupLaws CertificateExtension := {
  data_bytes := CE_bytes;
  data_ok x := (Z.of_nat (length (CE_bytes x)) < 2 ^ 16)%Z;
}.
Proof.
  - group_sound.
  - group_encodes.
  - intros x Hl. split; [done|]. by destruct x; whole_un.
Defined.

#[global, refine] Instance NewSessionTicketExtension_laws :
    ExtensionGroupLaws NewSessionTicketExtension := {
  data_bytes x := match x with NST_EarlyData d => un_data d end;
  data_ok x := match x with NST_EarlyData d => (Z.of_nat (length (un_data d)) < 2 ^ 16)%Z end;
}.
Proof.
  - group_sound.
  - group_encodes.
  - intros [d] Hl. split; [done|]. whole_un.
Defined.

Definition HRR_bytes (x : HelloRetryRequestExtension) : list byte :=
  match x with HRR_KeyShare d | HRR_Cookie d | HRR_SupportedVersions d => un_data d end.

#[global, refine] Instance HelloRetryRequestExtension_laws :
    ExtensionGroupLaws HelloRetryRequestExtension := {
  data_bytes := HRR_bytes;
  data_ok x := (Z.of_nat (length (HRR_bytes x)) < 2 ^ 16)%Z;
}.
Proof.
  - group_sound.
  - group_encodes.
  - intros x Hl. split; [done|]. by destruct x; whole_un.
Defined.

(** ** Properties *)

(** Extension vectors round-trip, in every message.  For any extension group (the
    proof uses only the interface): a list of well-formed extensions that fits the
    length field and the capacity of the vector is encoded behind its 16-bit length,
    and parsing the result gives back the same list and consumes it entirely. *)
Theorem extension_vector_roundtrip {T} `{!ExtensionGroup T, !ExtensionGroupLaws T}
    N (xs : list T) buf :
  Forall data_ok xs -> length xs <= N ->
  (Z.of_nat (length (mjoin (ext_bytes <$> xs))) < 2 ^ 16)%Z ->
  2 + length (mjoin (ext_bytes <$> xs)) <= length buf ->
  exists c b,
    with_u16_length (for_each xs ext_encode) (wrap buf) = (Ok tt, c) /\
    parse_vector N (pb_new (contents c)) = (Ok xs, b) /\ is_empty b = true.
Proof.
  intros HF HN Hl Hbuf.
  pose proof (ext_vector_encodes xs (wrap buf) (wrap_wf buf)) as He.
  assert (room (wrap buf) = length buf) as Hroom by (unfold room, capacity; simpl; lia).
  rewrite decide_True in He by (rewrite length_vec16; lia).
  eexists _, _. split; [exact He|]. rewrite contents_append by (first [apply wrap_wf|rewrite length_vec16; lia]).
  pose proof (parse_vector_parses N xs HF HN Hl [] []) as Hp. simpl in Hp. rewrite app_nil_r in Hp.
  split; [exact Hp|]. by apply bool_decide_true.
Qed.

Lemma extension_vector_roundtrip_witness :
  let xs := [SH_SupportedVersions (mkVersionsSH TLS13); SH_PreSharedKey (mkPskSH 1)] in
  exists c b,
    with_u16_length (for_each xs ext_encode) (wrap (replicate 16 x00)) = (Ok tt, c) /\
    parse_vector 4 (pb_new (contents c)) = (Ok xs, b) /\ is_empty b = true.
Proof.
  apply (extension_vector_roundtrip (T := ServerHelloExtension) 4).
  - repeat constructor; simpl; lia.
  - simpl. lia.
  - done.
  - vm_compute. lia.
Defined.

(** C18: extension vectors are parsed exactly.  For any extension group, [parse_vector]
    returns on every input; it returns a list and consumes the input if and only if
    the input is a 16-bit length and a sequence of framed extensions whose reading
    (unknown types skipped, payloads parsed by the group, at most [N] kept) is that
    list. *)
Theorem extension_vector_exact {T} `{!ExtensionGroup T, !ExtensionGroupLaws T} N data (l : list T) :
  (exists r b, parse_vector (T := T) N (pb_new data) = (r, b) /\ r <> Panic /\ r <> Diverge) /\
  ((exists b, parse_vector N (pb_new data) = (Ok l, b) /\ is_empty b = true) <->
   (exists raws, data = vec16 (mjoin (raw_bytes <$> raws)) /\ Forall raw_ok raws /\
      (Z.of_nat (length (mjoin (raw_bytes <$> raws))) < 2 ^ 16)%Z /\
      vector_of_raws N [] raws = Ok l)).
Proof.
  pose proof (parse_vector_sound N (T := T) _ (pb_new_wf data)) as Hs. split; [by eapply wp_returns|]. split.
  - intros (b & Hp & He). apply (wp_Ok _ _ _ _ _ _ Hs) in Hp
      as (Hwf & xs & (_ & _ & Hu) & raws & -> & HF & Hl & Hv).
    apply (is_empty_spec b Hwf) in He. rewrite He, app_nil_r, unread_new in Hu. by exists raws.
  - intros (raws & -> & HF & Hl & Hv).
    pose proof (parse_vector_raws (T := T) N raws [] [] HF Hl) as Hp. cbn [app length] in Hp.
    rewrite app_nil_r, Hv in Hp. eexists. split; [exact Hp|]. by apply bool_decide_true.
Qed.
