(* ===== verification/CryptoSuite.v ===== *)
(** Cipher suites (config.rs) and the cryptographic code the crate calls.

    The hash, HMAC, HKDF, AEAD and X25519 implementations are other crates
    (sha2, hmac, hkdf, aes-gcm, x25519-dalek): they are the operations of the
    classes [TlsCipherSuite] and [X25519Ops], parameters of everything built on
    them.  [TlsCipherSuiteLaws] are the documented facts the crate relies on: output
    lengths, and that opening inverts sealing.  No
    secrecy or unforgeability is assumed anywhere.  [Toy] is an executable
    implementation that meets the laws; the concrete runs use it.

    A running digest is modelled by the bytes absorbed so far: [Digest::new] is
    [[]], [update] appends and [finalize] is [digest_out]. *)

From S2P Require Import Prelude Errors CryptoBuffer Wire.
From Stdlib Require Import ZArith Lia.
From Stdlib Require Import Strings.Byte.
From stdpp Require Import base list option numbers tactics sets.

Class TlsCipherSuite : Type := {
  CODE_POINT : Z;
  KeyLen : nat;
  IvLen : nat;
  HashLen : nat;
  LabelBufferSize : nat;
  TagLen : nat;
  digest_out : list byte -> list byte;
  (** [SimpleHmac::new_from_slice(key)] then [update(msg)] and [finalize] *)
  hmac : list byte -> list byte -> option (list byte);
  Hkdf : Type;
  hkdf_extract : list byte -> list byte -> list byte * Hkdf;
  hkdf_from_prk : list byte -> option Hkdf;
  hkdf_expand : Hkdf -> list byte -> nat -> option (list byte);
  (** the AEAD as a function: [encrypt_in_place_detached], [decrypt_in_place_detached] *)
  aead_seal : list byte -> list byte -> list byte -> list byte -> option (list byte * list byte);
  aead_open : list byte -> list byte -> list byte -> list byte -> list byte -> option (list byte);
  (** [AeadInPlace::encrypt_in_place] and [decrypt_in_place] on a [CryptoBuffer] *)
  encrypt_in_place : list byte -> list byte -> list byte -> M CryptoBuffer unit unit;
  decrypt_in_place : list byte -> list byte -> list byte -> M CryptoBuffer unit unit;
}.

Class X25519Ops : Type := {
  x25519 : list byte -> list byte -> list byte;
  X25519_BASEPOINT_BYTES : list byte;
}.

(** [buf.iter().all(|&b| b == 0)] *)
Definition all_zero (l : list byte) : bool := forallb (fun b => bool_decide (b = x00)) l.

Definition zeros (n : nat) : list byte := replicate n x00.

Class TlsCipherSuiteLaws (CS : TlsCipherSuite) : Prop := {
  key_len : KeyLen < 256;
  iv_len : 8 <= IvLen < 256;
  hash_len : 32 <= HashLen <= 64;
  label_buffer_size : LabelBufferSize = HashLen + 22;
  tag_len : TagLen = 16;
  length_digest m : length (digest_out m) = HashLen;
  hmac_total k m : exists t, hmac k m = Some t /\ length t = HashLen;
  length_extract s i : length (fst (hkdf_extract s i)) = HashLen;
  (** [extract] returns the PRK together with the context built from it *)
  extract_from_prk s i : hkdf_from_prk (fst (hkdf_extract s i)) = Some (snd (hkdf_extract s i));
  from_prk_total prk : HashLen <= length prk -> is_Some (hkdf_from_prk prk);
  expand_total h info n : n <= 255 * HashLen ->
    exists okm, hkdf_expand h info n = Some okm /\ length okm = n;
  (** AEAD on records: keys and nonces of the right size, plaintexts below 2^16 *)
  seal_total k n a p :
    length k = KeyLen -> length n = IvLen -> (Z.of_nat (length p) < 2 ^ 16)%Z ->
    exists c t, aead_seal k n a p = Some (c, t) /\ length c = length p /\ length t = TagLen;
  open_seal k n a p c t :
    aead_seal k n a p = Some (c, t) -> aead_open k n a c t = Some p;
  open_length k n a c t p : aead_open k n a c t = Some p -> length p = length c;
  (** in place: the message of the buffer is replaced by ciphertext and tag, when
      there is room for the tag; on the way back the buffer is truncated to the
      plaintext, and a rejected message is an error *)
  encrypt_in_place_spec k n a pre pt gap c t :
    aead_seal k n a pt = Some (c, t) -> length c = length pt -> length t <= length gap ->
    encrypt_in_place k n a (mkCB (pre ++ pt ++ gap) (length pre) (length pt))
    = (Ok tt, mkCB (pre ++ c ++ t ++ drop (length t) gap) (length pre) (length pt + length t));
  encrypt_in_place_full k n a pre pt gap c t :
    aead_seal k n a pt = Some (c, t) -> length c = length pt -> length gap < length t ->
    exists c', encrypt_in_place k n a (mkCB (pre ++ pt ++ gap) (length pre) (length pt)) = (Err tt, c') /\
      capacity c' = length (pre ++ pt ++ gap);
  (** the call returns *)
  encrypt_in_place_returns k n a : calm (encrypt_in_place k n a);
  decrypt_in_place_spec k n a body :
    decrypt_in_place k n a (wrap_with_pos body (length body))
    = (if decide (length body < TagLen) then (Err tt, wrap_with_pos body (length body))
       else let tag_pos := length body - TagLen in
            match aead_open k n a (take tag_pos body) (drop tag_pos body) with
            | None => (Err tt, wrap_with_pos body (length body))
            | Some p => (Ok tt, mkCB (p ++ drop tag_pos body) 0 tag_pos)
            end);
}.

(** ** The two suites of config.rs *)

Section Suites.
Context (hash : list byte -> list byte).
Context (mac : list byte -> list byte -> option (list byte)).
Context (kdf : Type) (extract : list byte -> list byte -> list byte * kdf).
Context (from_prk : list byte -> option kdf).
Context (expand : kdf -> list byte -> nat -> option (list byte)).
Context (seal : list byte -> list byte -> list byte -> list byte -> option (list byte * list byte)).
Context (open : list byte -> list byte -> list byte -> list byte -> list byte -> option (list byte)).
Context (enc dec : list byte -> list byte -> list byte -> M CryptoBuffer unit unit).

Definition LongestLabel : nat := 12.
Definition LabelOverhead : nat := 10.

Definition Aes128GcmSha256 : TlsCipherSuite := {|
  CODE_POINT := CipherSuite_code TlsAes128GcmSha256;
  KeyLen := 16; IvLen := 12; HashLen := 32;
  LabelBufferSize := 32 + (LongestLabel + LabelOverhead); TagLen := 16;
  digest_out := hash; hmac := mac; Hkdf := kdf; hkdf_extract := extract;
  hkdf_from_prk := from_prk; hkdf_expand := expand; aead_seal := seal; aead_open := open;
  encrypt_in_place := enc; decrypt_in_place := dec;
|}.

Definition Aes256GcmSha384 : TlsCipherSuite := {|
  CODE_POINT := CipherSuite_code TlsAes256GcmSha384;
  KeyLen := 32; IvLen := 12; HashLen := 48;
  LabelBufferSize := 48 + (LongestLabel + LabelOverhead); TagLen := 16;
  digest_out := hash; hmac := mac; Hkdf := kdf; hkdf_extract := extract;
  hkdf_from_prk := from_prk; hkdf_expand := expand; aead_seal := seal; aead_open := open;
  encrypt_in_place := enc; decrypt_in_place := dec;
|}.
End Suites.

(** ** In-place encryption from a detached one

    One way to meet the two in-place laws, through the [aead::Buffer] implementation
    of buffer.rs only; the concrete suite below uses it. *)

Section InPlace.
Context (TagLen : nat).
Context (seal : list byte -> list byte -> list byte -> list byte -> option (list byte * list byte)).
Context (open : list byte -> list byte -> list byte -> list byte -> list byte -> option (list byte)).

Definition in_place_encrypt (key nonce aad : list byte) : M CryptoBuffer unit unit :=
  msg ← as_slice;
  '(ct, tag) ← ok_or (seal key nonce aad msg) tt;
  Buffer_overwrite ct;;
  Buffer_extend_from_slice tag.

Definition in_place_decrypt (key nonce aad : list byte) : M CryptoBuffer unit unit :=
  buf ← as_slice;
  tag_pos ← ok_or (usub (length buf) TagLen) tt;
  msg ← ok_or (open key nonce aad (take tag_pos buf) (drop tag_pos buf)) tt;
  Buffer_overwrite msg;;
  Buffer_truncate tag_pos.

Lemma in_place_encrypt_calm key nonce aad : calm (in_place_encrypt key nonce aad).
Proof. unfold in_place_encrypt, Buffer_overwrite, Buffer_extend_from_slice. calm. Qed.

Lemma in_place_message {E} pre pt gap :
  as_slice (E := E) (mkCB (pre ++ pt ++ gap) (length pre) (length pt))
  = (Ok pt, mkCB (pre ++ pt ++ gap) (length pre) (length pt)).
Proof.
  rewrite as_slice_spec by (unfold cb_wf, capacity; simpl; len).
  unfold contents. simpl. by rewrite drop_app_length, take_app_length.
Qed.

Lemma in_place_overwrite pre pt gap c :
  length c = length pt ->
  Buffer_overwrite c (mkCB (pre ++ pt ++ gap) (length pre) (length pt))
  = (Ok tt, mkCB (pre ++ c ++ gap) (length pre) (length pt)).
Proof.
  intros Hc. unfold Buffer_overwrite, mbind, M_bind, get, buf_write. simpl.
  rewrite decide_True by len. by rewrite splice_app.
Qed.

Lemma in_place_encrypt_spec k n a pre pt gap c t :
  seal k n a pt = Some (c, t) -> length c = length pt -> length t <= length gap ->
  in_place_encrypt k n a (mkCB (pre ++ pt ++ gap) (length pre) (length pt))
  = (Ok tt, mkCB (pre ++ c ++ t ++ drop (length t) gap) (length pre) (length pt + length t)).
Proof.
  intros Hs Hc Hg. unfold in_place_encrypt.
  rewrite (bind_Ok _ _ _ _ _ (in_place_message pre pt gap)), Hs. cbn [ok_or].
  rewrite (bind_Ok (mret (c, t)) _ _ _ _ eq_refl).
  rewrite (bind_Ok _ _ _ _ _ (in_place_overwrite pre pt gap c Hc)).
  unfold Buffer_extend_from_slice. apply map_err_Ok.
  pose proof (encodes_Ok _ _ (mkCB (pre ++ c ++ gap) (length pre) (length pt)) (encodes_extend t)) as H.
  unfold cb_wf, room, capacity, cb_append in H. simpl in H. unfold extend_from_slice in H.
  rewrite H by len. do 2 f_equal.
  rewrite <-(take_drop (length t) gap) at 1. rewrite <-Hc, <-length_app, (assoc_L (++) pre c).
  rewrite splice_app by len. by rewrite <-(assoc_L (++)).
Qed.

Lemma in_place_encrypt_full k n a pre pt gap c t :
  seal k n a pt = Some (c, t) -> length c = length pt -> length gap < length t ->
  exists c', in_place_encrypt k n a (mkCB (pre ++ pt ++ gap) (length pre) (length pt)) = (Err tt, c') /\
    capacity c' = length (pre ++ pt ++ gap).
Proof.
  intros Hs Hc Hg. unfold in_place_encrypt.
  rewrite (bind_Ok _ _ _ _ _ (in_place_message pre pt gap)), Hs. cbn [ok_or].
  rewrite (bind_Ok (mret (c, t)) _ _ _ _ eq_refl).
  rewrite (bind_Ok _ _ _ _ _ (in_place_overwrite pre pt gap c Hc)).
  set (cb := mkCB _ _ _).
  assert (cb_wf cb) as Hwf by (unfold cb_wf, capacity, cb; simpl; len).
  destruct (encodes_Err _ t cb (encodes_extend t) Hwf) as (e & c' & He & _ & _ & Hf & _).
  { unfold room, capacity, cb. simpl. len. }
  exists c'. split; [by apply (map_err_Err (fun _ => tt)) in He|]. rewrite Hf.
  unfold capacity, cb. simpl. len.
Qed.

Lemma in_place_decrypt_spec k n a body :
  (forall p, open k n a (take (length body - TagLen) body) (drop (length body - TagLen) body)
             = Some p -> length p = length body - TagLen) ->
  in_place_decrypt k n a (wrap_with_pos body (length body))
  = (if decide (length body < TagLen) then (Err tt, wrap_with_pos body (length body))
     else let tag_pos := length body - TagLen in
          match open k n a (take tag_pos body) (drop tag_pos body) with
          | None => (Err tt, wrap_with_pos body (length body))
          | Some p => (Ok tt, mkCB (p ++ drop tag_pos body) 0 tag_pos)
          end).
Proof.
  intros Hlen. unfold in_place_decrypt.
  rewrite (bind_Ok _ _ _ _ _ (as_slice_spec _ (wrap_with_pos_wf body (length body) ltac:(lia)))).
  unfold contents, wrap_with_pos. simpl cb_len. simpl cb_offset. simpl cb_buf.
  rewrite drop_0, firstn_all. unfold usub. case_decide as Hd.
  - rewrite decide_False by lia. cbn [ok_or]. rewrite (bind_Ok (mret _) _ _ _ _ eq_refl).
    destruct (open k n a _ _) as [p|] eqn:Hp; [|done]. cbn [ok_or].
    rewrite (bind_Ok (mret p) _ _ _ _ eq_refl). specialize (Hlen p eq_refl).
    rewrite (bind_Ok (Buffer_overwrite p) _ _ tt
               (mkCB (p ++ drop (length body - TagLen) body) 0 (length body))).
    2:{ unfold Buffer_overwrite, mbind, M_bind, get, buf_write. simpl.
        rewrite decide_True by lia. do 2 f_equal. unfold splice. simpl. by rewrite Hlen. }
    change (Buffer_truncate (length body - TagLen)) with
      (truncate (E := unit) (length body - TagLen)).
    rewrite truncate_spec.
    + unfold capacity. simpl. by rewrite decide_True by len.
    + unfold cb_wf, capacity. simpl. len.
  - rewrite decide_True by lia. done.
Qed.
End InPlace.

(** ** An executable implementation that meets the laws

    The hash absorbs each byte into a rotating 32-byte state, the AEAD appends a
    tag to the plaintext.  It has no security; it only makes runs computable. *)
Module Toy.
Definition bxor (a b : byte) : byte := u8 (Z.lxor (byte_val a) (byte_val b)).
Definition absorb (st : list byte) (b : byte) : list byte :=
  match rev st with
  | [] => []
  | l :: r => bxor (u8 (byte_val l + 89)) b :: rev r
  end.
Definition hash (m : list byte) : list byte := foldl absorb (replicate 32 x00) m.
Definition mac (k m : list byte) : option (list byte) := Some (hash (k ++ m)).
Definition extract (s i : list byte) : list byte * list byte := (hash (s ++ i), hash (s ++ i)).
Definition from_prk (prk : list byte) : option (list byte) :=
  if decide (32 <= length prk) then Some prk else None.
Definition expand (h info : list byte) (n : nat) : option (list byte) :=
  if decide (n <= 255 * 32) then Some (take n (hash (h ++ info) ++ replicate n x00)) else None.
Definition tag (k n a p : list byte) : list byte := take 16 (hash (k ++ n ++ a ++ p)).
Definition seal (k n a p : list byte) : option (list byte * list byte) := Some (p, tag k n a p).
Definition open (k n a c t : list byte) : option (list byte) :=
  if decide (t = tag k n a c) then Some c else None.

#[global] Instance suite : TlsCipherSuite :=
  Aes128GcmSha256 hash mac _ extract from_prk expand seal open
    (in_place_encrypt seal) (in_place_decrypt 16 open).

Lemma length_absorb st b : length (absorb st b) = length st.
Proof.
  unfold absorb. destruct (rev st) as [|x r] eqn:Hr.
  - by rewrite <-(length_rev st), Hr.
  - simpl. rewrite length_rev. by rewrite <-(length_rev st), Hr.
Qed.

Lemma length_hash m : length (hash m) = 32.
Proof.
  unfold hash. change 32 with (length (replicate 32 x00)) at 2.
  generalize (replicate 32 x00). induction m as [|b m IH]; intros st; [done|].
  simpl. by rewrite IH, length_absorb.
Qed.

#[global] Instance suite_laws : TlsCipherSuiteLaws suite.
Proof.
  split; simpl; intros.
  - lia.
  - lia.
  - lia.
  - done.
  - done.
  - apply length_hash.
  - eexists. split; [done|apply length_hash].
  - apply length_hash.
  - unfold from_prk. by rewrite decide_True by (rewrite length_hash; lia).
  - unfold from_prk. rewrite decide_True by lia. eauto.
  - unfold expand. rewrite decide_True by lia. eexists. split; [done|].
    rewrite length_take, length_app, length_replicate, length_hash. lia.
  - do 2 eexists. split; [done|]. unfold tag. by rewrite length_take, length_hash.
  - unfold seal in *. simplify_eq. unfold open. by rewrite decide_True.
  - unfold open in *. case_decide; by simplify_eq.
  - by apply in_place_encrypt_spec.
  - by eapply in_place_encrypt_full.
  - apply in_place_encrypt_calm.
  - apply (in_place_decrypt_spec 16 open). intros p. unfold open. case_decide; [|done].
    intros [= <-]. by rewrite length_take, Nat.min_l by lia.
Qed.

Definition dh (s p : list byte) : list byte := hash (s ++ p).
#[global] Instance x25519_toy : X25519Ops := {| x25519 := dh; X25519_BASEPOINT_BYTES := [x09] |}.
End Toy.
