(* ===== verification/KeySchedule.v ===== *)
(** The key schedule (key_schedule.rs, handshake/finished.rs, handshake/binder.rs).

    The records keep the nesting of the source: [KeySchedule] holds the shared
    HKDF chain, the client state (write keys of a client, read keys of a server)
    and the server state with the running transcript.  Operations are state
    transformers on the object the source method takes by [&mut self].  The
    second half states RFC 8446 section 7.1 as plain functions on byte strings and
    proves that the operations compute it. *)

From S2P Require Import Prelude Errors CryptoBuffer ParseBuffer Wire CryptoSuite.
From Stdlib Require Import ZArith Lia.
From Stdlib Require Import Strings.Byte.
From Stdlib Require Strings.String.
From stdpp Require Import base list option numbers tactics sets.

Import Stdlib.Strings.String.StringSyntax.

(** A byte-string literal of the source. *)
Definition b_ (s : String.string) : list byte := String.list_byte_of_string s.
Arguments b_ s%_string_scope.

Section KeySchedule.
Context `{CS : TlsCipherSuite}.

Inductive Secret : Type :=
| Uninitialized
| Initialized (hkdf : Hkdf).

Inductive ContextType : Type :=
| CtxNone
| CtxHash (context : list byte).

Definition Secret_as_ref {S} (s : Secret) : M S TlsError Hkdf :=
  match s with
  | Initialized h => mret h
  | Uninitialized => err InternalError
  end.

(** [Vec::extend_from_slice] of a vector of capacity [N]. *)
Definition vec_extend (N : nat) (v xs : list byte) : option (list byte) :=
  if decide (length v + length xs <= N) then Some (v ++ xs) else None.

(** [6 + label.len() as u8], checked *)
Definition label_len (label : list byte) : option byte :=
  let l := (6 + Z.of_nat (length label) mod 256)%Z in
  if decide (l < 256)%Z then Some (u8 l) else None.

Definition make_expanded_hkdf_label {S} (self : Secret) (N : nat) (label : list byte)
    (context_type : ContextType) : M S TlsError (list byte) :=
  let extend v xs := ok_or (vec_extend LabelBufferSize v xs) InternalError in
  v1 ← extend [] (be_bytes 2 (Z.of_nat N));
  len ← unwrap (label_len label);
  v2 ← extend v1 [len];
  v3 ← extend v2 (b_ "tls13 ");
  v4 ← extend v3 label;
  hkdf_label ← match context_type with
               | CtxNone => extend v4 [x00]
               | CtxHash context =>
                   v5 ← extend v4 [u8_of_nat (length context)];
                   extend v5 context
               end;
  h ← Secret_as_ref self;
  ok_or (hkdf_expand h hkdf_label N) CryptoError.

Definition transcript_ctx (hash : list byte) : ContextType := CtxHash (digest_out hash).
Definition empty_hash : ContextType := CtxHash (digest_out []).

(** *** SharedState *)

Record SharedState : Type := mkShared { sh_secret : list byte; sh_hkdf : Secret }.

Definition SharedState_new : SharedState := mkShared (zeros HashLen) Uninitialized.

Definition shared_initialize {E} (ikm : list byte) : M SharedState E unit :=
  modify (fun s => let '(secret, hkdf) := hkdf_extract (sh_secret s) ikm in
                   mkShared secret (Initialized hkdf)).

Definition derive_secret (label : list byte) (context_type : ContextType) :
    M SharedState TlsError (list byte) :=
  s ← get; make_expanded_hkdf_label (sh_hkdf s) HashLen label context_type.

Definition derived : M SharedState TlsError unit :=
  x ← derive_secret (b_ "derived") empty_hash;
  modify (fun s => mkShared x (sh_hkdf s)).

(** *** KeyScheduleState *)

Record KeyScheduleState : Type := mkKSS {
  traffic_secret : Secret;
  counter : Z;
  key : list byte;
  iv : list byte;
}.

Definition KeyScheduleState_new : KeyScheduleState :=
  mkKSS Uninitialized 0 (zeros KeyLen) (zeros IvLen).

(** [pad::<N>(input)]: index [N - i - 1] panics when [input] is longer. *)
Fixpoint pad_loop (N : nat) (rev_input : list byte) (index : nat) (padded : list byte) :
    option (list byte) :=
  match rev_input with
  | [] => Some padded
  | b :: rest =>
      if decide (index + 1 <= N)
      then pad_loop N rest (index + 1) (<[N - index - 1 := b]> padded)
      else None
  end.

Definition pad (N : nat) (input : list byte) : option (list byte) :=
  pad_loop N (rev input) 0 (zeros N).

Definition bxor (a b : byte) : byte := u8 (Z.lxor (byte_val a) (byte_val b)).

Definition get_nonce {S} (counter : Z) (iv : list byte) : M S TlsError (list byte) :=
  c ← unwrap (pad IvLen (be_bytes 8 counter));
  mret (zip_with bxor iv c).

Definition kss_get_nonce {S} (st : KeyScheduleState) : M S TlsError (list byte) :=
  get_nonce (counter st) (iv st).

Definition calculate_traffic_secret (label transcript_hash : list byte) :
    M (KeyScheduleState * SharedState) TlsError unit :=
  secret ← on_snd (derive_secret label (transcript_ctx transcript_hash));
  ts ← ok_or (hkdf_from_prk secret) InternalError;
  modify (fun '(st, sh) => (mkKSS (Initialized ts) (counter st) (key st) (iv st), sh));;
  k ← make_expanded_hkdf_label (Initialized ts) KeyLen (b_ "key") CtxNone;
  modify (fun '(st, sh) => (mkKSS (traffic_secret st) (counter st) k (iv st), sh));;
  i ← make_expanded_hkdf_label (Initialized ts) IvLen (b_ "iv") CtxNone;
  modify (fun '(st, sh) => (mkKSS (traffic_secret st) 0 (key st) i, sh)).

(** [self.counter.checked_add(1)], unwrapped *)
Definition kss_increment_counter {E} : M KeyScheduleState E unit :=
  st ← get;
  if decide (counter st + 1 < 2 ^ 64)%Z
  then put (mkKSS (traffic_secret st) (counter st + 1) (key st) (iv st))
  else panic.

(** *** KeySchedule *)

Record WriteKeySchedule : Type := mkWrite { w_state : KeyScheduleState; binder_key : Secret }.
Record ReadKeySchedule : Type := mkRead { r_state : KeyScheduleState; r_transcript : list byte }.

Record KeySchedule : Type := mkKS {
  shared : SharedState;
  client_state : WriteKeySchedule;
  server_state : ReadKeySchedule;
}.

Definition KeySchedule_new : KeySchedule :=
  mkKS SharedState_new (mkWrite KeyScheduleState_new Uninitialized)
       (mkRead KeyScheduleState_new []).

Abbreviation KM := (M KeySchedule TlsError).

Definition on_shared {A} (m : M SharedState TlsError A) : KM A :=
  zoom shared (fun s ks => mkKS s (client_state ks) (server_state ks)) m.

Definition transcript_hash (ks : KeySchedule) : list byte := r_transcript (server_state ks).

Definition replace_transcript_hash {E} (hash : list byte) : M KeySchedule E unit :=
  modify (fun ks => mkKS (shared ks) (client_state ks) (mkRead (r_state (server_state ks)) hash)).

(** [key_schedule.transcript_hash().update(bytes)] *)
Definition transcript_update {E} (bytes : list byte) : M KeySchedule E unit :=
  ks ← get; replace_transcript_hash (transcript_hash ks ++ bytes).

Definition calculate_traffic_secrets (client_label server_label : list byte) : KM unit :=
  ks ← get;
  zoom (fun ks => (w_state (client_state ks), shared ks))
       (fun '(st, sh) ks => mkKS sh (mkWrite st (binder_key (client_state ks))) (server_state ks))
       (calculate_traffic_secret client_label (transcript_hash ks));;
  zoom (fun ks => (r_state (server_state ks), shared ks))
       (fun '(st, sh) ks => mkKS sh (client_state ks) (mkRead st (r_transcript (server_state ks))))
       (calculate_traffic_secret server_label (transcript_hash ks)).

Definition initialize_early_secret (psk : option (list byte)) : KM unit :=
  on_shared (shared_initialize (default (zeros HashLen) psk));;
  bk ← on_shared (derive_secret (b_ "ext binder") empty_hash);
  h ← ok_or (hkdf_from_prk bk) InternalError;
  modify (fun ks => mkKS (shared ks) (mkWrite (w_state (client_state ks)) (Initialized h))
                         (server_state ks));;
  on_shared derived.

Definition initialize_handshake_secret (ikm : list byte) : KM unit :=
  on_shared (shared_initialize ikm);;
  calculate_traffic_secrets (b_ "c hs traffic") (b_ "s hs traffic");;
  on_shared derived.

Definition initialize_handshake_secret_psk_ke : KM unit :=
  initialize_handshake_secret (zeros HashLen).

Definition initialize_master_secret : KM unit :=
  on_shared (shared_initialize (zeros HashLen));;
  calculate_traffic_secrets (b_ "c ap traffic") (b_ "s ap traffic");;
  on_shared derived.

(** *** Finished and binder MACs *)

Record Finished : Type := mkFinished { verify : list byte; hash : option (list byte) }.
Record PskBinder : Type := mkBinder { binder_verify : list byte }.

Definition Finished_parse : TM Finished :=
  v ← into (fill HashLen); mret (mkFinished v None).
Definition Finished_encode (f : Finished) : EncM unit :=
  encode_error (extend_from_slice (verify f)).
Definition PskBinder_encode (b : PskBinder) : EncM unit :=
  encode_error (push (u8_of_nat (length (binder_verify b))));;
  encode_error (extend_from_slice (binder_verify b)).

Definition create_client_finished (ks : KeySchedule) {S} : M S TlsError Finished :=
  k ← make_expanded_hkdf_label (traffic_secret (w_state (client_state ks))) HashLen
        (b_ "finished") CtxNone;
  v ← ok_or (hmac k (digest_out (r_transcript (server_state ks)))) CryptoError;
  mret (mkFinished v None).

Definition create_server_finished (ks : KeySchedule) {S} : M S TlsError Finished :=
  k ← make_expanded_hkdf_label (traffic_secret (r_state (server_state ks))) HashLen
        (b_ "finished") CtxNone;
  v ← ok_or (hmac k (digest_out (r_transcript (server_state ks)))) CryptoError;
  mret (mkFinished v None).

Definition verify_psk_binder (ks : KeySchedule) (transcript received : list byte) {S} :
    M S TlsError bool :=
  k ← make_expanded_hkdf_label (binder_key (client_state ks)) HashLen (b_ "finished") CtxNone;
  v ← ok_or (hmac k (digest_out transcript)) CryptoError;
  mret (bool_decide (received = v)).

Definition verify_client_finished (ks : KeySchedule) (finished : Finished) {S} :
    M S TlsError bool :=
  k ← make_expanded_hkdf_label (traffic_secret (w_state (client_state ks))) HashLen
        (b_ "finished") CtxNone;
  h ← ok_or (hash finished) InternalError;
  v ← ok_or (hmac k h) InternalError;
  mret (bool_decide (verify finished = v)).

Definition verify_server_finished (rks : ReadKeySchedule) (finished : Finished) {S} :
    M S TlsError bool :=
  k ← make_expanded_hkdf_label (traffic_secret (r_state rks)) HashLen (b_ "finished") CtxNone;
  h ← ok_or (hash finished) InternalError;
  v ← ok_or (hmac k h) InternalError;
  mret (bool_decide (verify finished = v)).

Definition create_psk_binder (wks : WriteKeySchedule) (transcript : list byte) {S} :
    M S TlsError PskBinder :=
  k ← make_expanded_hkdf_label (binder_key wks) HashLen (b_ "finished") CtxNone;
  v ← ok_or (hmac k (digest_out transcript)) CryptoError;
  mret (mkBinder v).

(** *** Keys and counters of the two directions *)

Definition write_get_nonce {S} (ks : KeySchedule) : M S TlsError (list byte) :=
  kss_get_nonce (w_state (client_state ks)).
Definition read_get_nonce {S} (ks : KeySchedule) : M S TlsError (list byte) :=
  kss_get_nonce (r_state (server_state ks)).

Definition write_increment_counter : KM unit :=
  zoom (fun ks => w_state (client_state ks))
       (fun st ks => mkKS (shared ks) (mkWrite st (binder_key (client_state ks))) (server_state ks))
       kss_increment_counter.
Definition read_increment_counter : KM unit :=
  zoom (fun ks => r_state (server_state ks))
       (fun st ks => mkKS (shared ks) (client_state ks)
                          (mkRead st (r_transcript (server_state ks))))
       kss_increment_counter.
End KeySchedule.
Abbreviation KM := (M KeySchedule TlsError).
