(* ===== verification/KeyScheduleProps.v ===== *)
(** RFC 8446 section 7.1 as functions on byte strings, and the proof that the
    operations of key_schedule.rs compute it ([initialize_early_secret_spec],
    [initialize_handshake_secret_spec], [initialize_master_secret_spec]); the MAC
    operations and the per-record nonces. *)

From S2P Require Import Prelude Errors CryptoBuffer ParseBuffer Wire CryptoSuite KeySchedule.
From Stdlib Require Import ZArith Lia.
From Stdlib Require Import Strings.Byte.
From Stdlib Require Strings.String.
From stdpp Require Import base list option numbers tactics sets.

Import Stdlib.Strings.String.StringSyntax.

(** ** The specification *)

Section RFC8446.
Context `{CS : TlsCipherSuite}.

(** HKDF-Extract, and HKDF-Expand from a pseudorandom key. *)
Definition Extract (salt ikm : list byte) : list byte := fst (hkdf_extract salt ikm).
Definition Expand (prk info : list byte) (n : nat) : list byte :=
  match hkdf_from_prk prk with
  | Some h => default [] (hkdf_expand h info n)
  | None => []
  end.

(** struct { uint16 length; opaque label<7..255>; opaque context<0..255>; } *)
Definition HkdfLabel (n : nat) (label context : list byte) : list byte :=
  be_bytes 2 (Z.of_nat n) ++ vec8 (b_ "tls13 " ++ label) ++ vec8 context.

Definition Expand_Label (secret label context : list byte) (n : nat) : list byte :=
  Expand secret (HkdfLabel n label context) n.
Definition Derive_Secret (secret label messages : list byte) : list byte :=
  Expand_Label secret label (digest_out messages) HashLen.

Definition Early_Secret (psk : list byte) : list byte := Extract (zeros HashLen) psk.
Definition Binder_Key (psk : list byte) : list byte :=
  Derive_Secret (Early_Secret psk) (b_ "ext binder") [].
Definition Handshake_Secret (psk dhe : list byte) : list byte :=
  Extract (Derive_Secret (Early_Secret psk) (b_ "derived") []) dhe.
Definition Master_Secret (psk dhe : list byte) : list byte :=
  Extract (Derive_Secret (Handshake_Secret psk dhe) (b_ "derived") []) (zeros HashLen).

(** Section 4.4.4: the Finished MAC; section 4.2.11.2: the binder MAC. *)
Definition Finished_Mac (base_key transcript : list byte) : list byte :=
  default [] (hmac (Expand_Label base_key (b_ "finished") [] HashLen) (digest_out transcript)).

(** Section 7.3: the record keys of a traffic secret, counter at zero. *)
Definition secret_of (prk : list byte) : Secret :=
  match hkdf_from_prk prk with Some h => Initialized h | None => Uninitialized end.
Definition traffic_state (ts : list byte) : KeyScheduleState :=
  mkKSS (secret_of ts) 0 (Expand_Label ts (b_ "key") [] KeyLen)
        (Expand_Label ts (b_ "iv") [] IvLen).

(** Section 5.3: the 64-bit sequence number, left padded with zeros, XOR the IV. *)
Definition Record_Nonce (iv : list byte) (seq : Z) : list byte :=
  zip_with bxor iv (zeros (IvLen - 8) ++ be_bytes 8 seq).
End RFC8446.

(** ** The operations compute the specification *)

Section Refinement.
Context `{CS : TlsCipherSuite, !TlsCipherSuiteLaws CS}.
Implicit Types ks : KeySchedule.

Lemma length_b_ s : length (b_ s) = String.length s.
Proof. unfold b_. induction s; simpl; auto. Qed.

Lemma length_Extract s i : length (Extract s i) = HashLen.
Proof. apply length_extract. Qed.

Lemma length_Expand prk info n :
  HashLen <= length prk -> n <= 255 * HashLen -> length (Expand prk info n) = n.
Proof.
  intros [h Hh]%from_prk_total Hn. unfold Expand. rewrite Hh.
  by destruct (expand_total h info n Hn) as (okm & -> & Hl).
Qed.

Lemma length_Derive_Secret s l m : HashLen <= length s -> length (Derive_Secret s l m) = HashLen.
Proof. intros. apply length_Expand; [done|lia]. Qed.

Lemma secret_of_Some prk :
  HashLen <= length prk -> exists h, hkdf_from_prk prk = Some h /\ secret_of prk = Initialized h.
Proof. intros [h Hh]%from_prk_total. exists h. unfold secret_of. by rewrite Hh. Qed.

Lemma secret_of_extract s i : secret_of (Extract s i) = Initialized (snd (hkdf_extract s i)).
Proof. unfold secret_of, Extract. by rewrite extract_from_prk. Qed.

Definition ctx_bytes (c : ContextType) : list byte :=
  match c with CtxNone => [] | CtxHash h => h end.

(** The label is always built: what is left is the expansion. *)
Lemma make_expanded_label {S} sec n label c (s : S) :
  length label <= 12 -> length (ctx_bytes c) <= HashLen ->
  make_expanded_hkdf_label sec n label c s
  = (h ← Secret_as_ref sec;
     ok_or (hkdf_expand h (HkdfLabel n label (ctx_bytes c)) n) CryptoError) s.
Proof.
  intros Hl Hc. pose proof label_buffer_size as HL. pose proof hash_len as HH.
  assert (length (b_ "tls13 ") = 6) as H6 by done.
  assert (label_len label = Some (u8_of_nat (length (b_ "tls13 " ++ label)))) as Hll.
  { unfold label_len. rewrite Z.mod_small, decide_True by lia. unfold u8_of_nat.
    do 2 f_equal. rewrite length_app, H6. lia. }
  unfold make_expanded_hkdf_label. rewrite Hll.
  do 5 (erewrite bind_Ok; [|first [reflexivity|
    unfold vec_extend; rewrite decide_True by (lens; rewrite ?H6; lia); reflexivity]]).
  rewrite (bind_Ok _ _ _ (HkdfLabel n label (ctx_bytes c)) s); [done|].
  unfold HkdfLabel, vec8. destruct c as [|c]; simpl ctx_bytes in *.
  - unfold vec_extend. rewrite decide_True by (lens; rewrite ?H6; lia).
    by rewrite <-!(assoc_L (++)).
  - erewrite bind_Ok by
      (unfold vec_extend; rewrite decide_True by (lens; rewrite ?H6; lia); reflexivity).
    unfold vec_extend. rewrite decide_True by (lens; rewrite ?H6; lia).
    by rewrite <-!(assoc_L (++)).
Qed.

Lemma make_expanded_spec {S} prk n label c (s : S) :
  HashLen <= length prk -> n <= 255 * HashLen -> length label <= 12 ->
  length (ctx_bytes c) <= HashLen ->
  make_expanded_hkdf_label (secret_of prk) n label c s
  = (Ok (Expand_Label prk label (ctx_bytes c) n), s).
Proof.
  intros Hprk Hn Hl Hc. destruct (secret_of_Some prk Hprk) as (h & Hh & ->).
  destruct (expand_total h (HkdfLabel n label (ctx_bytes c)) n Hn) as (okm & Hokm & _).
  rewrite make_expanded_label by done. unfold Expand_Label, Expand. rewrite Hh.
  unfold mbind, M_bind. simpl. by rewrite Hokm.
Qed.

(** Whatever the secret, the expansion returns. *)
Lemma make_expanded_total {S} sec n label c (s : S) :
  n <= 255 * HashLen -> length label <= 12 -> length (ctx_bytes c) <= HashLen ->
  (exists x, make_expanded_hkdf_label sec n label c s = (Ok x, s) /\ length x = n) \/
  make_expanded_hkdf_label sec n label c s = (Err InternalError, s).
Proof.
  intros Hn Hl Hc. rewrite make_expanded_label by done. destruct sec as [|h]; [by right|]. left.
  destruct (expand_total h (HkdfLabel n label (ctx_bytes c)) n Hn) as (okm & Hokm & Hlen).
  exists okm. unfold mbind, M_bind. simpl. by rewrite Hokm.
Qed.

(** Side conditions of [make_expanded_spec] at the labels of the source. *)
Lemma key_len_bound : KeyLen <= 255 * HashLen.
Proof. pose proof key_len. pose proof hash_len. nia. Qed.
Lemma iv_len_bound : IvLen <= 255 * HashLen.
Proof. pose proof iv_len. pose proof hash_len. nia. Qed.
Lemma hash_len_bound : HashLen <= 255 * HashLen.
Proof. nia. Qed.
Hint Resolve key_len_bound iv_len_bound hash_len_bound : tls.

Ltac ml := solve [done | auto with tls | rewrite ?length_Extract, ?length_digest; lia
                  | rewrite length_b_; simpl; lia | simpl; rewrite ?length_digest; lia].

Lemma derive_secret_spec prk sec label m :
  HashLen <= length prk -> length label <= 12 ->
  derive_secret label (transcript_ctx m) (mkShared sec (secret_of prk))
  = (Ok (Derive_Secret prk label m), mkShared sec (secret_of prk)).
Proof.
  intros. unfold derive_secret. rewrite bind_get. simpl sh_hkdf.
  rewrite make_expanded_spec by ml. done.
Qed.

Lemma derived_spec prk sec :
  HashLen <= length prk ->
  derived (mkShared sec (secret_of prk))
  = (Ok tt, mkShared (Derive_Secret prk (b_ "derived") []) (secret_of prk)).
Proof.
  intros. unfold derived. change empty_hash with (transcript_ctx []).
  by erewrite bind_Ok by (apply derive_secret_spec; ml).
Qed.

Lemma calculate_traffic_secret_spec prk sec label m st :
  HashLen <= length prk -> length label <= 12 ->
  calculate_traffic_secret label m (st, mkShared sec (secret_of prk))
  = (Ok tt, (traffic_state (Derive_Secret prk label m), mkShared sec (secret_of prk))).
Proof.
  intros Hp Hl. unfold calculate_traffic_secret.
  rewrite (bind_Ok _ _ _ (Derive_Secret prk label m) (st, mkShared sec (secret_of prk)))
    by (unfold on_snd, zoom; simpl; by rewrite derive_secret_spec).
  set (ts := Derive_Secret prk label m).
  assert (length ts = HashLen) as Hts by (by apply length_Derive_Secret).
  destruct (secret_of_Some ts) as (h & Hh & Hs); [lia|].
  rewrite Hh, bind_ok_or_Some, bind_modify, <-Hs.
  erewrite bind_Ok by (apply make_expanded_spec; first [ml|lia]).
  rewrite bind_modify.
  erewrite bind_Ok by (apply make_expanded_spec; first [ml|lia]).
  unfold modify, traffic_state. simpl. by rewrite Hs.
Qed.

Lemma shared_initialize_spec sh ikm :
  shared_initialize (E := TlsError) ikm sh
  = (Ok tt, mkShared (Extract (sh_secret sh) ikm) (secret_of (Extract (sh_secret sh) ikm))).
Proof.
  unfold shared_initialize, modify. rewrite secret_of_extract. unfold Extract.
  by destruct (hkdf_extract (sh_secret sh) ikm).
Qed.

(** From any schedule, the early secret is extracted with the current chain
    value as salt, and the binder key is ready. *)
Lemma initialize_early_secret_spec psk ks :
  let es := Extract (sh_secret (shared ks)) (default (zeros HashLen) psk) in
  initialize_early_secret psk ks
  = (Ok tt, mkKS (mkShared (Derive_Secret es (b_ "derived") []) (secret_of es))
                 (mkWrite (w_state (client_state ks)) (secret_of (Derive_Secret es (b_ "ext binder") [])))
                 (server_state ks)).
Proof.
  intros es. unfold initialize_early_secret, on_shared.
  assert (HashLen <= length es) as Hes by (unfold es; by rewrite length_Extract).
  erewrite bind_Ok by (unfold zoom; rewrite shared_initialize_spec; reflexivity). fold es.
  change empty_hash with (transcript_ctx []).
  erewrite bind_Ok by (unfold zoom; simpl shared; rewrite derive_secret_spec by ml; reflexivity).
  destruct (secret_of_Some (Derive_Secret es (b_ "ext binder") [])) as (h & Hh & Hs);
    [by rewrite length_Derive_Secret|].
  rewrite Hh, bind_ok_or_Some, bind_modify, <-Hs. unfold zoom. simpl shared.
  by rewrite derived_spec.
Qed.

(** A schedule whose chain holds [prk], with traffic keys derived from it. *)
Definition with_traffic (prk cl sl : list byte) ks : KeySchedule :=
  let t := transcript_hash ks in
  mkKS (mkShared (Derive_Secret prk (b_ "derived") []) (secret_of prk))
       (mkWrite (traffic_state (Derive_Secret prk cl t)) (binder_key (client_state ks)))
       (mkRead (traffic_state (Derive_Secret prk sl t)) t).

Lemma traffic_phase_spec ikm cl sl ks :
  length cl <= 12 -> length sl <= 12 ->
  (on_shared (shared_initialize ikm);; calculate_traffic_secrets cl sl;; on_shared derived) ks
  = (Ok tt, with_traffic (Extract (sh_secret (shared ks)) ikm) cl sl ks).
Proof.
  intros Hc Hs. unfold on_shared. set (prk := Extract (sh_secret (shared ks)) ikm).
  assert (HashLen <= length prk) as Hp by (unfold prk; by rewrite length_Extract).
  erewrite bind_Ok by (unfold zoom; rewrite shared_initialize_spec; reflexivity). fold prk.
  erewrite bind_Ok.
  2:{ unfold calculate_traffic_secrets. rewrite bind_get.
      erewrite bind_Ok by
        (unfold zoom; simpl; rewrite calculate_traffic_secret_spec by done; reflexivity).
      unfold zoom. simpl. rewrite calculate_traffic_secret_spec by done. reflexivity. }
  unfold zoom. simpl shared. by rewrite derived_spec.
Qed.

Lemma initialize_handshake_secret_spec ikm ks :
  initialize_handshake_secret ikm ks
  = (Ok tt, with_traffic (Extract (sh_secret (shared ks)) ikm)
              (b_ "c hs traffic") (b_ "s hs traffic") ks).
Proof. apply traffic_phase_spec; ml. Qed.

Lemma initialize_master_secret_spec ks :
  initialize_master_secret ks
  = (Ok tt, with_traffic (Extract (sh_secret (shared ks)) (zeros HashLen))
              (b_ "c ap traffic") (b_ "s ap traffic") ks).
Proof. apply traffic_phase_spec; ml. Qed.

(** ** MACs *)

Lemma hmac_default k m : exists t, hmac k m = Some t /\ default [] (hmac k m) = t /\ length t = HashLen.
Proof. destruct (hmac_total k m) as (t & Ht & Hl). exists t. by rewrite Ht. Qed.

Lemma length_Finished_Mac base m : length (Finished_Mac base m) = HashLen.
Proof. unfold Finished_Mac. by destruct (hmac_default (Expand_Label base (b_ "finished") [] HashLen)
  (digest_out m)) as (t & _ & -> & ?). Qed.

Lemma finished_key_spec {S} base (s : S) :
  HashLen <= length base ->
  make_expanded_hkdf_label (secret_of base) HashLen (b_ "finished") CtxNone s
  = (Ok (Expand_Label base (b_ "finished") [] HashLen), s).
Proof. intros. rewrite make_expanded_spec by (first [ml|simpl; lia]). done. Qed.

Lemma mac_spec {S B} base m e (k : list byte -> M S TlsError B) (s : S) :
  HashLen <= length base ->
  (fk ← make_expanded_hkdf_label (secret_of base) HashLen (b_ "finished") CtxNone;
   v ← ok_or (hmac fk (digest_out m)) e; k v) s = k (Finished_Mac base m) s.
Proof.
  intros Hb. rewrite (bind_Ok _ _ _ _ _ (finished_key_spec base s Hb)).
  unfold Finished_Mac.
  destruct (hmac_default (Expand_Label base (b_ "finished") [] HashLen) (digest_out m))
    as (t & -> & _ & _). done.
Qed.

Lemma create_server_finished_spec {S} base ks (s : S) :
  HashLen <= length base -> traffic_secret (r_state (server_state ks)) = secret_of base ->
  create_server_finished ks s
  = (Ok (mkFinished (Finished_Mac base (transcript_hash ks)) None), s).
Proof. intros Hb Hs. unfold create_server_finished. rewrite Hs. by rewrite mac_spec. Qed.

Lemma create_client_finished_spec {S} base ks (s : S) :
  HashLen <= length base -> traffic_secret (w_state (client_state ks)) = secret_of base ->
  create_client_finished ks s
  = (Ok (mkFinished (Finished_Mac base (transcript_hash ks)) None), s).
Proof. intros Hb Hs. unfold create_client_finished. rewrite Hs. by rewrite mac_spec. Qed.

Lemma create_psk_binder_spec {S} base wks m (s : S) :
  HashLen <= length base -> binder_key wks = secret_of base ->
  create_psk_binder wks m s = (Ok (mkBinder (Finished_Mac base m)), s).
Proof. intros Hb Hs. unfold create_psk_binder. rewrite Hs. by rewrite mac_spec. Qed.

Lemma verify_psk_binder_spec {S} base ks m received (s : S) :
  HashLen <= length base -> binder_key (client_state ks) = secret_of base ->
  verify_psk_binder ks m received s = (Ok (bool_decide (received = Finished_Mac base m)), s).
Proof. intros Hb Hs. unfold verify_psk_binder. rewrite Hs. by rewrite mac_spec. Qed.

Lemma verify_client_finished_spec {S} base ks m v (s : S) :
  HashLen <= length base -> traffic_secret (w_state (client_state ks)) = secret_of base ->
  verify_client_finished ks (mkFinished v (Some (digest_out m))) s
  = (Ok (bool_decide (v = Finished_Mac base m)), s).
Proof.
  intros Hb Hs. unfold verify_client_finished. rewrite Hs.
  exact (mac_spec base m InternalError (fun v' => mret (bool_decide (v = v'))) s Hb).
Qed.

Lemma verify_server_finished_spec {S} base rks m v (s : S) :
  HashLen <= length base -> traffic_secret (r_state rks) = secret_of base ->
  verify_server_finished rks (mkFinished v (Some (digest_out m))) s
  = (Ok (bool_decide (v = Finished_Mac base m)), s).
Proof.
  intros Hb Hs. unfold verify_server_finished. rewrite Hs.
  exact (mac_spec base m InternalError (fun v' => mret (bool_decide (v = v'))) s Hb).
Qed.

(** ** Nonces *)

Lemma pad_loop_spec N rest : forall done,
  length done + length rest <= N ->
  pad_loop N rest (length done) (zeros (N - length done) ++ done)
  = Some (zeros (N - length done - length rest) ++ rev rest ++ done).
Proof.
  induction rest as [|b rest IH]; intros done HN; simpl in *; [by rewrite Nat.sub_0_r|].
  rewrite decide_True by lia.
  replace (<[N - length done - 1 := b]> (zeros (N - length done) ++ done))
    with (zeros (N - length (b :: done)) ++ (b :: done)).
  - specialize (IH (b :: done)). simpl length in IH. rewrite Nat.add_1_r.
    change (length (b :: done)) with (S (length done)). rewrite IH by lia. do 2 f_equal; [f_equal; lia|]. by rewrite <-(assoc_L (++)).
  - unfold zeros. simpl length.
    replace (N - length done) with (N - S (length done) + 1) by lia.
    rewrite replicate_add, <-(assoc_L (++)). simpl.
    rewrite insert_app_r_alt; rewrite length_replicate; [|lia].
    by replace (N - S (length done) + 1 - 1 - (N - S (length done))) with 0 by lia.
Qed.

Lemma pad_spec N input :
  length input <= N -> pad N input = Some (zeros (N - length input) ++ input).
Proof.
  intros HN. unfold pad. pose proof (pad_loop_spec N (rev input) []) as H. simpl in H.
  rewrite length_rev, rev_involutive, !app_nil_r, Nat.sub_0_r in H. by apply H.
Qed.

Lemma get_nonce_spec {S} c i (s : S) : get_nonce c i s = (Ok (Record_Nonce i c), s).
Proof.
  unfold get_nonce. rewrite pad_spec; rewrite length_be_bytes; [done|].
  pose proof iv_len. lia.
Qed.

Lemma length_Record_Nonce i c : length i = IvLen -> length (Record_Nonce i c) = IvLen.
Proof.
  intros Hi. pose proof iv_len. unfold Record_Nonce, zeros.
  rewrite length_zip_with, length_app, length_replicate, length_be_bytes. lia.
Qed.
End Refinement.

Lemma lxor_byte a b : (0 <= Z.lxor (byte_val a) (byte_val b) < 256)%Z.
Proof.
  pose proof (byte_val_range a). pose proof (byte_val_range b).
  assert (0 <= Z.lxor (byte_val a) (byte_val b))%Z as Hnn by (apply Z.lxor_nonneg; lia).
  split; [done|]. destruct (Z.eq_dec (Z.lxor (byte_val a) (byte_val b)) 0%Z) as [->|Hne]; [lia|].
  apply (Z.log2_lt_pow2 _ 8); [lia|].
  pose proof (Z.log2_lxor (byte_val a) (byte_val b) ltac:(lia) ltac:(lia)).
  assert (forall x, 0 <= x < 256 -> Z.log2 x < 8)%Z as Hl.
  { intros x Hx. destruct (Z.eq_dec x 0%Z) as [->|]; [by cbv|]. apply Z.log2_lt_pow2; lia. }
  pose proof (Hl (byte_val a)). pose proof (Hl (byte_val b)). lia.
Qed.

Lemma bxor_inj a b c : bxor a b = bxor a c -> b = c.
Proof.
  intros H%(f_equal byte_val). unfold bxor in H. rewrite !byte_val_u8 in H.
  rewrite !Z.mod_small in H by apply lxor_byte. apply byte_val_inj.
  apply (f_equal (Z.lxor (byte_val a))) in H. by rewrite <-!Z.lxor_assoc, Z.lxor_nilpotent, !Z.lxor_0_l in H.
Qed.

Lemma zip_bxor_inj i : forall x y, length x = length y -> length x <= length i ->
  zip_with bxor i x = zip_with bxor i y -> x = y.
Proof.
  induction i as [|a i IH]; intros [|b x] [|c y]; simpl; intros; try lia; try done.
  simplify_eq. f_equal; [by eapply bxor_inj|]. apply IH; [done|lia|done].
Qed.

Lemma be_bytes_inj n x y :
  (0 <= x < 256 ^ Z.of_nat n)%Z -> (0 <= y < 256 ^ Z.of_nat n)%Z ->
  be_bytes n x = be_bytes n y -> x = y.
Proof.
  intros Hx Hy H%(f_equal from_be). rewrite !from_be_be_bytes in H.
  by rewrite !Z.mod_small in H.
Qed.

Lemma Record_Nonce_inj `{CS : TlsCipherSuite, !TlsCipherSuiteLaws CS} i c c' :
  length i = IvLen -> (0 <= c < 2 ^ 64)%Z -> (0 <= c' < 2 ^ 64)%Z ->
  Record_Nonce i c = Record_Nonce i c' -> c = c'.
Proof.
  intros Hi Hc Hc' H. unfold Record_Nonce in H. pose proof iv_len.
  apply zip_bxor_inj in H; [|len|unfold zeros; rewrite length_app, length_replicate, length_be_bytes; lia].
  apply app_inv_head in H. by apply (be_bytes_inj 8).
Qed.

(** ** Properties *)

(** C13: the key schedule is the one of RFC 8446 section 7.1.  From a new
    [KeySchedule], setting up the early secret with any PSK (or none), the handshake
    secret with any key-exchange value at transcript [t1], and the master secret at
    transcript [t2] never fails, and leaves the binder key, the client and server
    traffic secrets, record keys and IVs, and the chain value that the RFC's
    diagram derives; the record counters are zero after every change of keys. *)
Theorem key_schedule_rfc `{CS : TlsCipherSuite, !TlsCipherSuiteLaws CS} psk ikm t1 t2 :
  let psk' := default (zeros HashLen) psk in
  let hs := Handshake_Secret psk' ikm in
  let ms := Master_Secret psk' ikm in
  exists ks1 ks2 ks3,
    initialize_early_secret psk KeySchedule_new = (Ok tt, ks1) /\
    (replace_transcript_hash t1;; initialize_handshake_secret ikm) ks1 = (Ok tt, ks2) /\
    (replace_transcript_hash t2;; initialize_master_secret) ks2 = (Ok tt, ks3) /\
    binder_key (client_state ks1) = secret_of (Binder_Key psk') /\
    w_state (client_state ks2) = traffic_state (Derive_Secret hs (b_ "c hs traffic") t1) /\
    r_state (server_state ks2) = traffic_state (Derive_Secret hs (b_ "s hs traffic") t1) /\
    w_state (client_state ks3) = traffic_state (Derive_Secret ms (b_ "c ap traffic") t2) /\
    r_state (server_state ks3) = traffic_state (Derive_Secret ms (b_ "s ap traffic") t2) /\
    sh_hkdf (shared ks3) = secret_of ms /\ transcript_hash ks3 = t2.
Proof.
  do 3 eexists. split; [apply initialize_early_secret_spec|].
  split; [unfold replace_transcript_hash; rewrite bind_modify; apply initialize_handshake_secret_spec|].
  split; [unfold replace_transcript_hash; rewrite bind_modify; apply initialize_master_secret_spec|].
  by split_and!.
Qed.

(** The schedule of a PSK session, run with the executable suite. *)
Lemma key_schedule_rfc_witness :
  let ms := Master_Secret (CS := Toy.suite) (b_ "psk") (b_ "shared") in
  exists ks : KeySchedule (CS := Toy.suite),
    w_state (client_state ks) = traffic_state (Derive_Secret ms (b_ "c ap traffic") (b_ "hello")) /\
    transcript_hash ks = b_ "hello".
Proof.
  destruct (key_schedule_rfc (CS := Toy.suite) (Some (b_ "psk")) (b_ "shared") (b_ "hell") (b_ "hello"))
    as (? & ? & ks & ? & ? & ? & ? & ? & ? & ? & ? & ? & ?).
  by exists ks.
Defined.

(** What a sender and a receiver promise each other about a MAC keyed by [secret]. *)
Definition mac_agrees `{CS : TlsCipherSuite} (secret : Secret)
    (create : result TlsError (list byte)) (check : list byte -> result TlsError bool) : Prop :=
  match create with
  | Ok mac => secret <> Uninitialized /\ forall v, check v = Ok (bool_decide (v = mac))
  | r => r = Err InternalError /\ secret = Uninitialized
  end.

(** Every MAC of key_schedule.rs is computed and used in this shape. *)
Lemma mac_run `{CS : TlsCipherSuite, !TlsCipherSuiteLaws CS} h m :
  exists v, forall e B (k : list byte -> M unit TlsError B),
    (fk ← make_expanded_hkdf_label (Initialized h) HashLen (b_ "finished") CtxNone;
     v ← ok_or (hmac fk (digest_out m)) e; k v) tt = k v tt.
Proof.
  destruct (expand_total h (HkdfLabel HashLen (b_ "finished") []) HashLen hash_len_bound) as (fk & Hk & _).
  destruct (hmac_total fk (digest_out m)) as (v & Hv & _). exists v. intros e B k.
  rewrite (bind_Ok _ _ _ fk tt); [by rewrite Hv|].
  rewrite make_expanded_label by (simpl; lia). unfold Secret_as_ref. rewrite bind_ret. cbn [ctx_bytes]. by rewrite Hk.
Qed.

(** Creating and verifying MACs agree.  For every schedule and transcript: when
    the traffic secret (or binder key) is set, the sender's [create] succeeds and
    the receiver's [verify] over the same transcript accepts exactly the created
    value; when it is not set, [create] fails with [InternalError].  The three pairs
    are the client's Finished, the server's Finished and the PSK binder. *)
Theorem mac_create_verify `{CS : TlsCipherSuite, !TlsCipherSuiteLaws CS} ks t :
  let t_hash := Some (digest_out (transcript_hash ks)) in
  mac_agrees (traffic_secret (w_state (client_state ks)))
    (fst ((f ← create_client_finished ks; mret (verify f)) tt))
    (fun v => fst (verify_client_finished ks (mkFinished v t_hash) tt)) /\
  mac_agrees (traffic_secret (r_state (server_state ks)))
    (fst ((f ← create_server_finished ks; mret (verify f)) tt))
    (fun v => fst (verify_server_finished (server_state ks) (mkFinished v t_hash) tt)) /\
  mac_agrees (binder_key (client_state ks))
    (fst ((b ← create_psk_binder (client_state ks) t; mret (binder_verify b)) tt))
    (fun v => fst (verify_psk_binder ks t v tt)).
Proof.
  assert (forall n l, make_expanded_hkdf_label Uninitialized n l CtxNone tt = (Err InternalError, tt) \/
    12 < length l) as Hun.
  { intros n l. destruct (decide (length l <= 12)); [|right; lia]. left.
    by rewrite make_expanded_label by (simpl; lia). }
  destruct (Hun HashLen (b_ "finished")) as [Hno|]; [|simpl in *; lia]. cbv zeta.
  split_and!; unfold mac_agrees, create_client_finished, create_server_finished, create_psk_binder.
  - destruct (traffic_secret (w_state _)) as [|h] eqn:Hs.
    + by rewrite (bind_Err _ _ _ _ _ (bind_Err _ _ _ _ _ Hno)).
    + destruct (mac_run h (r_transcript (server_state ks))) as [v Hv].
      rewrite (bind_Ok _ _ _ _ _ (Hv _ _ _)). split; [done|]. intros w.
      unfold verify_client_finished. rewrite Hs.
      exact (f_equal fst (Hv InternalError _ (fun v' => mret (bool_decide (w = v'))))).
  - destruct (traffic_secret (r_state _)) as [|h] eqn:Hs.
    + by rewrite (bind_Err _ _ _ _ _ (bind_Err _ _ _ _ _ Hno)).
    + destruct (mac_run h (r_transcript (server_state ks))) as [v Hv].
      rewrite (bind_Ok _ _ _ _ _ (Hv _ _ _)). split; [done|]. intros w.
      unfold verify_server_finished. rewrite Hs.
      exact (f_equal fst (Hv InternalError _ (fun v' => mret (bool_decide (w = v'))))).
  - destruct (binder_key _) as [|h] eqn:Hs.
    + by rewrite (bind_Err _ _ _ _ _ (bind_Err _ _ _ _ _ Hno)).
    + destruct (mac_run h t) as [v Hv]. rewrite (bind_Ok _ _ _ _ _ (Hv _ _ _)). split; [done|].
      intros w. unfold verify_psk_binder. rewrite Hs. by rewrite Hv.
Qed.

(** A binder under a set binder key: only the created value is accepted. *)
Lemma mac_create_verify_witness :
  let ks := snd (initialize_early_secret (CS := Toy.suite) (Some (b_ "psk")) KeySchedule_new) in
  mac_agrees (binder_key (client_state ks))
    (fst ((b ← create_psk_binder (client_state ks) (b_ "hello"); mret (binder_verify b)) tt))
    (fun v => fst (verify_psk_binder ks (b_ "hello") v tt)).
Proof. apply (mac_create_verify (CS := Toy.suite)). Defined.
