(* ===== verification/ClientHello.v ===== *)
(** ClientHello (handshake/client_hello.rs, the client part of config.rs).

    [ClientHelloRef_parse] is the server's parser; [ClientHello_encode] and
    [finalize] are the client's encoder and the binder patching.  The offset of
    the binders, which delimits the bytes a binder authenticates, is computed by
    the parser from the parsed PSK extension; [client_hello_ref_complete] shows it
    is the real one when the extension is where it must be. *)

From S2P Require Import Prelude Errors CryptoBuffer ParseBuffer Wire ExtensionData Extensions.
From S2P Require Import CryptoSuite KeySchedule KeyScheduleProps.
From Stdlib Require Import ZArith Lia.
From Stdlib Require Import Strings.Byte.
From stdpp Require Import base list option numbers tactics sets.

(** ** ClientHelloRef *)

Record ClientHelloRef : Type := mkHello {
  legacy_version : Z;
  random : list byte;
  legacy_session_id : list byte;
  cipher_suites : list byte;
  legacy_compression_methods : list byte;
  extensions : list ClientHelloExtension;
  binders_start_offset : nat;
}.

(** [read.map_err(|_| TlsError::InvalidHandshake)?] *)
Definition inv_hs {A} (p : PM A) : TM A := map_err (fun _ => InvalidHandshake) p.

Definition is_psk (e : ClientHelloExtension) : bool :=
  match e with CH_PreSharedKey _ => true | _ => false end.

(** [.iter().enumerate().filter_map(..).collect()] *)
Fixpoint psk_indices_from (i : nat) (exts : list ClientHelloExtension) : list nat :=
  match exts with
  | [] => []
  | e :: exts' => if is_psk e then i :: psk_indices_from (i + 1) exts'
                  else psk_indices_from (i + 1) exts'
  end.
Definition psk_indices (exts : list ClientHelloExtension) : list nat := psk_indices_from 0 exts.

(** [wire_len] of the binders section, by the loop of the source. *)
Definition binders_wire_len (bs : list (list byte)) : nat :=
  foldl (fun n binder => n + (1 + length binder)) 2 bs.

Definition compute_binders_offset {S} (exts : list ClientHelloExtension)
    (total_message_length : nat) : M S TlsError nat :=
  let idxs := psk_indices exts in
  if decide (1 < length idxs) then err (abort_fatal IllegalParameter)
  else match idxs with
  | [] => mret total_message_length
  | idx :: _ =>
      last ← unwrap (usub (length exts) 1);
      if decide (idx <> last) then err (abort_fatal IllegalParameter)
      else
        ext ← unwrap (exts !! idx);
        match ext with
        | CH_PreSharedKey psk =>
            let wire_len := binders_wire_len (binders psk) in
            if decide (total_message_length < wire_len) then err InvalidHandshake
            else unwrap (usub total_message_length wire_len)
        | _ => mret total_message_length
        end
  end.

Definition ClientHelloRef_parse (NEXT : nat) : TM ClientHelloRef :=
  msg_type_raw ← inv_hs read_u8;
  if decide (msg_type_raw <> u8 (HandshakeType_code HT_ClientHello)) then err InvalidHandshake
  else
    body_len ← inv_hs read_u24;
    body_start ← pb_offset;
    let total_message_length := body_start + Z.to_nat body_len in
    legacy_version ← inv_hs read_u16;
    random ← inv_hs (fill 32);
    session_id_len ← inv_hs read_u8;
    if decide (32 < byte_val session_id_len)%Z then err InvalidSessionIdLength
    else
      session_id_buf ← inv_hs (slice (Z.to_nat (byte_val session_id_len)));
      cipher_suites_len ← inv_hs read_u16;
      if decide (cipher_suites_len < 2 \/ cipher_suites_len mod 2 <> 0)%Z then err InvalidHandshake
      else
        cipher_suites_buf ← inv_hs (slice (Z.to_nat cipher_suites_len));
        comp_len ← inv_hs read_u8;
        if decide (byte_val comp_len < 1)%Z then err InvalidHandshake
        else
          comp_buf ← inv_hs (slice (Z.to_nat (byte_val comp_len)));
          extensions ← parse_vector NEXT;
          off ← pb_offset;
          if decide (off <> total_message_length) then err InvalidHandshake
          else
            binders_start_offset ← compute_binders_offset extensions total_message_length;
            mret (mkHello legacy_version random (pb_as_slice session_id_buf)
                    (pb_as_slice cipher_suites_buf) (pb_as_slice comp_buf)
                    extensions binders_start_offset).

(** ** TlsConfig and ClientHello *)

Record TlsConfig : Type := mkConfig {
  server_name : option (list byte);
  alpn_config : option (list (list byte));
  psk : option (list byte * list (list byte));
  signature_schemes : list SignatureScheme;
  named_groups : list NamedGroup;
  max_fragment_length : option MaxFragmentLength;
}.

(** [TlsConfig::new] without the [alloc] feature. *)
Definition TlsConfig_new : TlsConfig :=
  mkConfig None None None [EcdsaSecp256r1Sha256; EcdsaSecp384r1Sha384; Ed25519] [Secp256r1] None.

Definition enable_rsa_signatures {S E} (c : TlsConfig) : M S E TlsConfig :=
  l ← foldl (fun acc s => l ← acc; unwrap (vec_push 25 l s)) (mret (signature_schemes c))
       [RsaPkcs1Sha256; RsaPkcs1Sha384; RsaPkcs1Sha512;
        RsaPssRsaeSha256; RsaPssRsaeSha384; RsaPssRsaeSha512];
  mret (mkConfig (server_name c) (alpn_config c) (psk c) l (named_groups c) (max_fragment_length c)).

(** [TlsConfig::new] with the [alloc] feature: the RSA schemes come first. *)
Definition TlsConfig_new_alloc {S E} : M S E TlsConfig :=
  config ← enable_rsa_signatures (mkConfig None None None [] [] None);
  l1 ← unwrap (vec_push 25 (signature_schemes config) EcdsaSecp256r1Sha256);
  l2 ← unwrap (vec_push 25 l1 EcdsaSecp384r1Sha384);
  l3 ← unwrap (vec_push 25 l2 Ed25519);
  groups ← unwrap (vec_push 13 (named_groups config) Secp256r1);
  mret (mkConfig (server_name config) (alpn_config config) (psk config) l3 groups
          (max_fragment_length config)).

(** The builders. *)
Definition with_server_name (name : list byte) (c : TlsConfig) : TlsConfig :=
  mkConfig (Some name) (alpn_config c) (psk c) (signature_schemes c) (named_groups c)
    (max_fragment_length c).

Definition with_alpn (protocols : list (list byte)) (c : TlsConfig) : TlsConfig :=
  mkConfig (server_name c) (Some protocols) (psk c) (signature_schemes c) (named_groups c)
    (max_fragment_length c).

Definition with_max_fragment_length (m : MaxFragmentLength) (c : TlsConfig) : TlsConfig :=
  mkConfig (server_name c) (alpn_config c) (psk c) (signature_schemes c) (named_groups c) (Some m).

Definition reset_max_fragment_length (c : TlsConfig) : TlsConfig :=
  mkConfig (server_name c) (alpn_config c) (psk c) (signature_schemes c) (named_groups c) None.

(** [Vec::from_slice(identities)] into a vector of capacity 4, unwrapped. *)
Definition with_psk {S E} (key : list byte) (ids : list (list byte)) (c : TlsConfig) :
    M S E TlsConfig :=
  if decide (length ids <= 4)
  then mret (mkConfig (server_name c) (alpn_config c) (Some (key, ids)) (signature_schemes c)
               (named_groups c) (max_fragment_length c))
  else panic.

Section Client.
Context `{CS : TlsCipherSuite}.

(** [public_key] stands for the SEC1 encoding of the P-256 public point of the
    ephemeral secret, which the p256 crate computes. *)
Record ClientHello : Type := mkClientHello {
  config : TlsConfig;
  ch_random : list byte;
  public_key : list byte;
}.

Definition client_extensions (h : ClientHello) : list ClientHelloExtension :=
  [CH_SupportedVersions (mkVersionsCH [TLS13]);
   CH_SignatureAlgorithms (mkSigAlgs (signature_schemes (config h)))]
  ++ match max_fragment_length (config h) with
     | Some m => [CH_MaxFragmentLength m] | None => [] end
  ++ [CH_SupportedGroups (mkGroups (named_groups (config h)));
      CH_PskKeyExchangeModes (mkPskModes [PskDheKe]);
      CH_KeyShare (mkKeyShareCH [mkKeyShareEntry Secp256r1 (public_key h)])]
  ++ match server_name (config h) with
     | Some n => [CH_ServerName (ServerNameList_single n)] | None => [] end
  ++ match alpn_config (config h) with
     | Some l => [CH_ApplicationLayerProtocolNegotiation (mkAlpn l)] | None => [] end
  ++ match psk (config h) with
     | Some (_, ids) => [CH_PreSharedKey (mkPskCH ids [] HashLen)] | None => [] end.

Definition ClientHello_encode (h : ClientHello) : EncM unit :=
  encode_error (push_u16 LEGACY_VERSION);;
  encode_error (extend_from_slice (ch_random h));;
  encode_error (push x00);;
  encode_error (push_u16 2);;
  encode_error (push_u16 CODE_POINT);;
  encode_error (push x01);;
  encode_error (push x00);;
  with_u16_length (for_each (client_extensions h) ext_encode).

(** [finalize(enc_buf, transcript, write_key_schedule)]: the state is the
    encoded message and the transcript. *)
Definition finalize (h : ClientHello) (wks : WriteKeySchedule) :
    M (list byte * list byte) TlsError unit :=
  '(enc_buf, transcript) ← get;
  match psk (config h) with
  | Some (_, ids) =>
      let binders_len := length ids * (1 + HashLen) in
      binders_pos ← unwrap (usub (length enc_buf) binders_len);
      upto ← unwrap (usub binders_pos 2);
      prefix ← unwrap (sub enc_buf 0 upto);
      put (enc_buf, transcript ++ prefix);;
      zoom (fun st => (wrap (drop binders_pos (fst st)), snd st))
           (fun c st => (take binders_pos (fst st) ++ cb_buf (fst c), snd c))
           (for_each ids (fun _ =>
              st ← get;
              binder ← create_psk_binder wks (snd st);
              on_fst (PskBinder_encode binder)));;
      '(enc_buf', transcript') ← get;
      rest ← unwrap (sub enc_buf' upto (length enc_buf'));
      put (enc_buf', transcript' ++ rest)
  | None => put (enc_buf, transcript ++ enc_buf)
  end.
End Client.

(** ** The wire format *)

Record HelloFields : Type := mkFields {
  f_version : Z;
  f_random : list byte;
  f_session_id : list byte;
  f_suites : list byte;
  f_compression : list byte;
  f_extensions : list RawExtension;
}.

Definition raws_bytes (rs : list RawExtension) : list byte := mjoin (raw_bytes <$> rs).

Definition hello_body (f : HelloFields) : list byte :=
  be_bytes 2 (f_version f) ++ f_random f ++ vec8 (f_session_id f) ++ vec16 (f_suites f)
  ++ vec8 (f_compression f) ++ vec16 (raws_bytes (f_extensions f)).

(** A handshake message of type ClientHello. *)
Definition hello_message (f : HelloFields) : list byte :=
  u8 (HandshakeType_code HT_ClientHello) :: vec24 (hello_body f).

Definition hello_fields_ok (f : HelloFields) : Prop :=
  (0 <= f_version f < 2 ^ 16)%Z /\ length (f_random f) = 32 /\ length (f_session_id f) <= 32 /\
  (2 <= Z.of_nat (length (f_suites f)) < 2 ^ 16)%Z /\
  (Z.of_nat (length (f_suites f)) mod 2 = 0)%Z /\
  1 <= length (f_compression f) < 256 /\ Forall raw_ok (f_extensions f) /\
  (Z.of_nat (length (raws_bytes (f_extensions f))) < 2 ^ 16)%Z.

(** What the message means: the extensions by the reference reading, the offset
    from the last one. *)
Definition hello_of (NEXT : nat) (f : HelloFields) : result TlsError ClientHelloRef :=
  match vector_of_raws NEXT [] (f_extensions f) with
  | Ok exts =>
      match fst (compute_binders_offset exts (length (hello_message f)) tt) with
      | Ok off => Ok (mkHello (f_version f) (f_random f) (f_session_id f) (f_suites f)
                        (f_compression f) exts off)
      | Err e => Err e
      | Panic => Panic
      | Diverge => Diverge
      end
  | Err e => Err e
  | Panic => Panic
  | Diverge => Diverge
  end.

Lemma compute_binders_offset_state {S} exts n (s : S) :
  compute_binders_offset exts n s = (fst (compute_binders_offset exts n tt), s).
Proof.
  unfold compute_binders_offset. case_decide; [done|].
  destruct (psk_indices exts) as [|idx idxs]; [done|].
  destruct (usub (length exts) 1); [|done]. rewrite !bind_unwrap_Some. case_decide; [done|].
  destruct (exts !! idx) as [e|]; [|done]. rewrite !bind_unwrap_Some.
  destruct e as [| | | | |p| | | | | | | | | | | | | | | |]; try done.
  case_decide; [done|]. by destruct (usub n _).
Qed.

Lemma hello_body_bound f :
  hello_fields_ok f -> (Z.of_nat (length (hello_body f)) < 2 ^ 24)%Z.
Proof.
  intros (? & ? & ? & ? & ? & ? & ? & ?). unfold hello_body. lens. lia.
Qed.

(** ** The parser computes [hello_of] *)

Lemma bind_pb_offset {E B} (k : nat -> M ParseBuffer E B) b : (pb_offset ≫= k) b = k (pb_pos b) b.
Proof. done. Qed.

Lemma inv_hs_bind {A B} (p : PM A) (k : A -> TM B) xs a pre post r :
  parses p xs a ->
  k a (mkPB (length pre + length xs) (pre ++ xs ++ post)) = r ->
  (inv_hs p ≫= k) (mkPB (length pre) (pre ++ xs ++ post)) = r.
Proof. intros Hp <-. unfold inv_hs. by rewrite (bind_Ok _ _ _ _ _ (map_err_Ok _ _ _ _ _ (Hp pre post))). Qed.

(** Step over [xs]: the next field starts after [pre ++ xs]. *)
Ltac step_over tac :=
  eapply inv_hs_bind; [tac|]; cbv beta;
  match goal with
  | |- _ (mkPB (length ?pre + length ?xs) (?pre ++ ?xs ++ ?post)) = _ =>
      rewrite <-(length_app pre xs), (assoc_L (++) pre xs post)
  end.

Lemma hello_parse_complete NEXT f :
  hello_fields_ok f ->
  ClientHelloRef_parse NEXT (pb_new (hello_message f))
  = (hello_of NEXT f, mkPB (length (hello_message f)) (hello_message f)).
Proof.
  intros Hok. pose proof (hello_body_bound f Hok) as Hb.
  destruct Hok as (Hv & Hr & Hs & Hc & Hc2 & Hm & HF & He).
  unfold ClientHelloRef_parse, pb_new.
  set (msg := hello_message f). set (exts := vec16 (raws_bytes (f_extensions f))).
  set (ty := u8 (HandshakeType_code HT_ClientHello)).
  assert (msg = [ty] ++ be_bytes 3 (Z.of_nat (length (hello_body f))) ++ be_bytes 2 (f_version f)
    ++ f_random f ++ [u8_of_nat (length (f_session_id f))] ++ f_session_id f
    ++ be_bytes 2 (Z.of_nat (length (f_suites f))) ++ f_suites f
    ++ [u8_of_nat (length (f_compression f))] ++ f_compression f ++ exts ++ []) as Hmsg.
  { unfold msg, hello_message, vec24. unfold hello_body at 2, vec8. fold exts ty. unfold vec16 at 1.
    rewrite app_nil_r, <-!(assoc_L (++)). done. }
  assert (length msg = 4 + length (hello_body f)) as Hlen
    by (unfold msg, hello_message; lens; lia).
  rewrite Hmsg at 1.
  set (bl := Z.of_nat (length (hello_body f))) in *.
  change (mkPB 0 ?x) with (mkPB (length (@nil byte)) ([] ++ x)).
  step_over ltac:(apply parses_u8). rewrite decide_False by (by intros []).
  step_over ltac:(apply parses_u24; lia).
  rewrite bind_pb_offset. cbn [pb_pos].
  step_over ltac:(by apply parses_u16).
  step_over ltac:(by apply parses_fill).
  step_over ltac:(apply parses_u8).
  rewrite byte_val_u8_of_nat, decide_False, Nat2Z.id by lia.
  step_over ltac:(by apply parses_slice).
  step_over ltac:(apply parses_u16; lia).
  rewrite decide_False, Nat2Z.id by lia.
  step_over ltac:(by apply parses_slice).
  step_over ltac:(apply parses_u8).
  rewrite byte_val_u8_of_nat, decide_False, Nat2Z.id by lia.
  step_over ltac:(by apply parses_slice).
  match goal with |- (parse_vector _ ≫= _) (mkPB (length ?p) _) = _ => set (pre := p) in * end.
  assert (length pre + length exts = length msg) as Hpre.
  { rewrite Hmsg. unfold pre. rewrite !length_app. simpl. lia. }
  assert (pre ++ exts ++ [] = msg) as Hfull.
  { rewrite Hmsg. unfold pre. by rewrite <-!(assoc_L (++)). }
  unfold mbind at 1, M_bind at 1. unfold exts, raws_bytes in *.
  rewrite parse_vector_raws by done. rewrite Hpre, Hfull. unfold hello_of. fold msg.
  destruct (vector_of_raws NEXT [] (f_extensions f)) as [es|e| |]; [|done..].
  rewrite bind_pb_offset. cbn [pb_pos]. 
  assert (length (([] ++ [ty]) ++ be_bytes 3 bl) + Z.to_nat bl = length msg) as Htot
    by (rewrite Hlen; unfold bl; len).
  rewrite Htot, decide_False by (intros H; by apply H).
  unfold mbind at 1, M_bind at 1. rewrite compute_binders_offset_state.
  by destruct (fst (compute_binders_offset es (length msg) tt)).
Qed.

(** ** What the parser accepts *)

Lemma wp_step {E A B} (p : M ParseBuffer E A) (k : A -> M ParseBuffer E B) P b0 b xs Q :
  psound p P -> pb_wf b -> consumed b0 b xs ->
  (forall a b' ys, P ys a -> pb_wf b' -> consumed b0 b' (xs ++ ys) -> wp (k a) b' Q (fun _ _ => True)) ->
  wp (p ≫= k) b Q (fun _ _ => True).
Proof.
  intros Hp Hwf Hc Hk. apply wp_bind. eapply wp_mono; [by apply Hp| |done].
  intros a b' (Hwf' & ys & Hc' & HP). by eapply Hk; [|..|eapply consumed_trans].
Qed.

Lemma compute_binders_offset_cases exts n :
  match fst (compute_binders_offset exts n tt) with
  | Ok off =>
      (Forall (fun e => is_psk e = false) exts /\ off = n) \/
      (exists front psk, exts = front ++ [CH_PreSharedKey psk] /\
         Forall (fun e => is_psk e = false) front /\
         binders_wire_len (binders psk) <= n /\ off = n - binders_wire_len (binders psk))
  | Err _ => True
  | _ => False
  end.
Proof.
  assert (Hidx : forall l i, match psk_indices_from i l with
    | [] => Forall (fun e => is_psk e = false) l
    | idx :: rest => exists front psk back, l = front ++ CH_PreSharedKey psk :: back /\
        Forall (fun e => is_psk e = false) front /\ idx = i + length front
    end).
  { induction l as [|e l IH]; intros i; simpl; [done|].
    destruct (is_psk e) eqn:He.
    - destruct e; try done. by exists [], d, l.
    - specialize (IH (i + 1)). destruct (psk_indices_from (i + 1) l) as [|idx rest].
      + by constructor.
      + destruct IH as (front & psk & back & -> & HF & ->).
        exists (e :: front), psk, back. split_and!; [done|by constructor|simpl; lia]. }
  unfold compute_binders_offset, psk_indices. case_decide; [done|].
  specialize (Hidx exts 0). destruct (psk_indices_from 0 exts) as [|idx rest]; [by left|].
  destruct Hidx as (front & psk & back & -> & HF & ->).
  rewrite (usub_Some (length _) 1), bind_unwrap_Some by (rewrite length_app; simpl; lia).
  case_decide as Hl; [done|].
  rewrite length_app in Hl. simpl in Hl. destruct back; [|simpl in Hl; lia].
  rewrite lookup_app_r, Nat.sub_diag by lia. cbn [lookup list_lookup].
  rewrite bind_unwrap_Some. case_decide; [done|].
  rewrite usub_Some by lia. right. exists front, psk. split_and!; [done..|lia|done].
Qed.

Lemma binders_wire_len_spec bs : binders_wire_len bs = length (psk_binders_bytes bs).
Proof.
  rewrite length_psk_binders_bytes. unfold binders_wire_len.
  assert (forall n, foldl (fun n binder => n + (1 + length binder)) n bs
                    = n + sum_list_with (fun b => 1 + length b) bs) as H; [|apply H].
  induction bs as [|b bs IH]; intros n; cbn [foldl]; [simpl; lia|]. rewrite IH. simpl. lia.
Qed.

Lemma psound_inv_hs {A} (p : PM A) P : psound p P -> psound (inv_hs p) P.
Proof. apply psound_map_err. Qed.

Lemma hello_parse_sound NEXT data :
  wp (ClientHelloRef_parse NEXT) (pb_new data)
    (fun h b' => pb_wf b' /\ exists f, hello_fields_ok f /\
       consumed (pb_new data) b' (hello_message f) /\ hello_of NEXT f = Ok h)
    (fun _ _ => True).
Proof.
  unfold ClientHelloRef_parse.
  pose proof (pb_new_wf data) as Hw0. pose proof (consumed_refl (pb_new data)) as Hc0.
  eapply wp_step; [apply psound_inv_hs, psound_u8|done..|]. intros ty b1 ? -> Hw1 Hc1.
  case_decide as Hty; [done|].
  eapply wp_step; [apply psound_inv_hs, psound_u24|done..|]. intros bl b2 ? (-> & Hbl) Hw2 Hc2.
  apply wp_bind. unfold pb_offset at 1. apply wp_bind, wp_get, wp_ret.
  eapply wp_step; [apply psound_inv_hs, psound_u16|done..|]. intros ver b3 ? (-> & Hver) Hw3 Hc3.
  eapply wp_step; [apply psound_inv_hs, psound_fill|done..|]. intros ? b4 rnd (-> & Hrnd) Hw4 Hc4.
  eapply wp_step; [apply psound_inv_hs, psound_u8|done..|]. intros sl b5 ? -> Hw5 Hc5.
  case_decide as Hsl; [done|].
  eapply wp_step; [apply psound_inv_hs, psound_slice|done..|]. intros ? b6 sid (-> & Hsid) Hw6 Hc6.
  eapply wp_step; [apply psound_inv_hs, psound_u16|done..|]. intros cl b7 ? (-> & Hcl) Hw7 Hc7.
  case_decide as Hcl2; [done|].
  eapply wp_step; [apply psound_inv_hs, psound_slice|done..|]. intros ? b8 cs (-> & Hcs) Hw8 Hc8.
  eapply wp_step; [apply psound_inv_hs, psound_u8|done..|]. intros ml b9 ? -> Hw9 Hc9.
  case_decide as Hml; [done|].
  eapply wp_step; [apply psound_inv_hs, psound_slice|done..|]. intros ? b10 cm (-> & Hcm) Hw10 Hc10.
  eapply wp_step; [apply parse_vector_sound|done..|].
  intros exts b11 ? (raws & -> & HF & Hraws & Hv) Hw11 Hc11.
  apply wp_bind. unfold pb_offset. apply wp_bind, wp_get, wp_ret. case_decide as Htot; [done|].
  set (f := mkFields ver rnd sid cs cm raws).
  pose proof (byte_val_range sl). pose proof (byte_val_range ml).
  assert (sl = u8_of_nat (length sid)) as Esl by (by rewrite Hsid, u8_of_nat_byte_val).
  assert (ml = u8_of_nat (length cm)) as Eml by (by rewrite Hcm, u8_of_nat_byte_val).
  assert (hello_fields_ok f) as Hok.
  { unfold hello_fields_ok, f. simpl. rewrite Hcs, Z2Nat.id by lia. split_and!; (lia || done). }
  assert (consumed (pb_new data) b11 ([ty] ++ be_bytes 3 bl ++ hello_body f)) as Hc.
  { unfold hello_body, f, vec8. cbn [f_version f_random f_session_id f_suites f_compression f_extensions].
    unfold vec16 at 1. rewrite <-Esl, <-Eml, Hcs, Z2Nat.id by lia.
    rewrite <-!(assoc_L (++)) in Hc11. rewrite <-?(assoc_L (++)). exact Hc11. }
  assert (pb_pos b2 = 4) as H4 by (destruct Hc2 as (_ & -> & _); simpl; lens; done).
  assert (Z.of_nat (length (hello_body f)) = bl) as Hlen.
  { destruct Hc as (_ & Hp & _). rewrite !length_app, length_be_bytes in Hp.
    cbn [length pb_pos pb_new] in Hp. lia. }
  assert (hello_message f = [ty] ++ be_bytes 3 bl ++ hello_body f) as Hmsg.
  { unfold hello_message, vec24. rewrite Hlen, Hty by (intros ?; by apply Hty). done. }
  assert (length (hello_message f) = pb_pos b2 + Z.to_nat bl) as Hml'.
  { rewrite Hmsg, H4. lens. lia. }
  apply wp_bind. unfold wp at 1. rewrite compute_binders_offset_state.
  pose proof (compute_binders_offset_cases exts (pb_pos b2 + Z.to_nat bl)) as Hoff.
  destruct (fst (compute_binders_offset exts _ tt)) as [off|e| |] eqn:Ho; [|done..].
  apply wp_ret. split; [done|]. exists f. rewrite Hmsg. split_and!; [done..|].
  unfold hello_of. rewrite Hml'. unfold f at 1. cbn [f_extensions]. by rewrite Hv, Ho.
Qed.

Lemma psk_indices_from_app l1 l2 i :
  psk_indices_from i (l1 ++ l2) = psk_indices_from i l1 ++ psk_indices_from (i + length l1) l2.
Proof.
  revert i. induction l1 as [|e l1 IH]; intros i; simpl; [by rewrite Nat.add_0_r|].
  rewrite IH, <-Nat.add_assoc. by destruct (is_psk e).
Qed.

Lemma psk_indices_none l i :
  Forall (fun e => is_psk e = false) l -> psk_indices_from i l = [].
Proof. intros HF. revert i. induction HF as [|e l He _ IH]; intros i; simpl; [done|]. by rewrite He. Qed.

Lemma compute_binders_offset_last {S} front psk n (s : S) :
  Forall (fun e => is_psk e = false) front -> binders_wire_len (binders psk) <= n ->
  compute_binders_offset (front ++ [CH_PreSharedKey psk]) n s
  = (Ok (n - binders_wire_len (binders psk)), s).
Proof.
  intros HF Hn. unfold compute_binders_offset, psk_indices.
  rewrite psk_indices_from_app, (psk_indices_none front) by done.
  cbn [app psk_indices_from is_psk]. rewrite decide_False by (simpl; lia).
  rewrite usub_Some, bind_unwrap_Some by len.
  rewrite decide_False by len. rewrite lookup_app_r, Nat.sub_diag by lia.
  cbn [lookup list_lookup]. rewrite bind_unwrap_Some, decide_False by lia. by rewrite usub_Some.
Qed.

Lemma ext_of_raw_psk items p :
  psk_wire_ok 4 items p ->
  ext_of_raw (mkRaw (ExtensionType_code ET_PreSharedKey) (psk_wire items (binders p)))
  = Ok (CH_PreSharedKey p).
Proof.
  intros H%psk_parse_complete. unfold ext_of_raw. cbn [raw_type raw_data].
  rewrite type_of_code_code. cbn [data_parse ClientHelloExtension_group].
  destruct (pmap_whole CH_PreSharedKey _ _ _ H) as [b Hb]. unfold map_err. by rewrite Hb.
Qed.

Lemma ext_of_raw_psk_inv r p :
  ext_of_raw r = Ok (CH_PreSharedKey p) -> exists items, psk_wire_ok 4 items p.
Proof.
  unfold ext_of_raw. destruct (type_of_code (raw_type r)) as [t|]; [|done].
  destruct (data_parse t) as [q|] eqn:Hq; [|done]. intros Hp.
  destruct (map_err _ q (pb_new (raw_data r))) as [res b] eqn:He. simpl in Hp. subst res.
  apply map_err_inv_Ok in He. pose proof (data_parse_sound t q Hq) as Hs.
  apply (wp_Ok _ _ _ _ _ _ (Hs _ (pb_new_wf _))) in He as Ht. destruct Ht as (_ & _ & _ & <-).
  cbn in Hq. injection Hq as <-. apply bind_inv_Ok in He as (p' & b' & Hp' & Heq).
  injection Heq as -> ->. pose proof (psk_parse_sound 4 _ (pb_new_wf (raw_data r))) as Hps.
  apply (wp_Ok _ _ _ _ _ _ Hps) in Hp' as (_ & _ & _ & items & _ & Hok). eauto.
Qed.

(** A parsed offer has one binder per identity. *)
Lemma hello_of_psk NEXT f h p :
  hello_of NEXT f = Ok h -> CH_PreSharedKey p ∈ extensions h ->
  length (binders p) = length (identities p).
Proof.
  unfold hello_of. destruct (vector_of_raws _ _ _) as [exts| | |] eqn:Hv; try done.
  destruct (fst _); try done. intros [= <-] Hin. cbn [extensions] in Hin.
  destruct (vector_of_raws_elems _ _ _ _ Hv _ Hin) as [?|(r & _ & Hr)]; [set_solver|].
  apply ext_of_raw_psk_inv in Hr as (items & -> & _ & _ & -> & _). by rewrite length_fmap.
Qed.

Lemma hello_of_offset NEXT f h :
  hello_of NEXT f = Ok h -> binders_start_offset h <= length (hello_message f).
Proof.
  unfold hello_of. destruct (vector_of_raws _ _ _) as [exts| | |]; try done.
  pose proof (compute_binders_offset_cases exts (length (hello_message f))) as Hc.
  destruct (fst _) as [off| | |]; try done. intros [= <-]. cbn [binders_start_offset].
  destruct Hc as [[_ ->]|(? & ? & _ & _ & ? & ->)]; lia.
Qed.

Lemma hello_of_session_id NEXT f h :
  hello_of NEXT f = Ok h -> legacy_session_id h = f_session_id f /\ random h = f_random f.
Proof.
  unfold hello_of. destruct (vector_of_raws _ _ _); try done. destruct (fst _); try done.
  by intros [= <-].
Qed.

(** The bytes before the binders. *)
Lemma hello_message_binders f raws items bs :
  f_extensions f = raws ++ [mkRaw (ExtensionType_code ET_PreSharedKey) (psk_wire items bs)] ->
  psk_binders_bytes bs `suffix_of` hello_message f.
Proof.
  intros He. unfold hello_message, hello_body, raws_bytes.
  rewrite He, fmap_app, join_app. cbn [fmap list_fmap mjoin list_join]. rewrite app_nil_r.
  unfold raw_bytes at 2. cbn [raw_type raw_data]. unfold psk_wire.
  apply suffix_cons_r, suffix_app_r. do 5 apply suffix_app_r. apply suffix_app_r.
  do 3 apply suffix_app_r. apply suffix_app_r. reflexivity.
Qed.

(** A hello whose last extension, and no other, is a PSK offer. *)
Lemma hello_of_last_psk NEXT f raws front items p :
  f_extensions f
  = raws ++ [mkRaw (ExtensionType_code ET_PreSharedKey) (psk_wire items (binders p))] ->
  psk_wire_ok 4 items p ->
  vector_of_raws NEXT [] raws = Ok front -> Forall (fun e => is_psk e = false) front ->
  length front < NEXT ->
  hello_of NEXT f
  = Ok (mkHello (f_version f) (f_random f) (f_session_id f) (f_suites f) (f_compression f)
          (front ++ [CH_PreSharedKey p])
          (length (hello_message f) - length (psk_binders_bytes (binders p)))).
Proof.
  intros He Hp Hfront HF HN.
  destruct (hello_message_binders f raws items (binders p) He) as [pre Hpre].
  pose proof (binders_wire_len_spec (binders p)) as Hw.
  unfold hello_of. rewrite He, (vector_of_raws_snoc NEXT raws _ [] front
    (front ++ [CH_PreSharedKey p]) Hfront).
  2:{ unfold add_raw. by rewrite ext_of_raw_psk, decide_True. }
  rewrite compute_binders_offset_last by (first [done | rewrite Hpre; len]). cbn [fst]. by rewrite Hw.
Qed.

(** ** Properties *)

(** C14: the server's ClientHello parser accepts exactly the well-formed handshake
    messages.  It never panics and never diverges, whatever the input; it returns
    a hello and consumes the whole message if and only if the input is a
    ClientHello message (type, 24-bit length, version, random, session id of at
    most 32 bytes, a non-empty even cipher-suite list, a non-empty compression
    list, framed extensions) whose reference reading is that hello. *)
Theorem client_hello_ref_exact NEXT data h :
  (exists r b, ClientHelloRef_parse NEXT (pb_new data) = (r, b) /\ r <> Panic /\ r <> Diverge) /\
  ((exists b, ClientHelloRef_parse NEXT (pb_new data) = (Ok h, b) /\ is_empty b = true) <->
   (exists f, hello_fields_ok f /\ data = hello_message f /\ hello_of NEXT f = Ok h)).
Proof.
  pose proof (hello_parse_sound NEXT data) as Hs. split; [by eapply wp_returns|]. split.
  - intros (b & Hp & He). apply (wp_Ok _ _ _ _ _ _ Hs) in Hp as (Hwf & f & Hf & (_ & _ & Hc) & Hh).
    apply (is_empty_spec b Hwf) in He. rewrite He, app_nil_r, unread_new in Hc. eauto.
  - intros (f & Hf & -> & Hh). rewrite (hello_parse_complete NEXT f Hf), Hh.
    eexists. split; [done|]. by apply bool_decide_true.
Qed.

(** C15: the binder offset.  When the last extension of a well-formed ClientHello
    is a pre_shared_key offer (and no other is), the parser returns that offer and
    an offset that splits the message exactly before the binders list: the bytes
    from the offset on are the encoded binders, so the prefix is the part of the
    ClientHello that RFC 8446 section 4.2.11.2 puts under the binder MAC. *)
Theorem binders_offset_correct NEXT f raws front items p :
  hello_fields_ok f ->
  f_extensions f
  = raws ++ [mkRaw (ExtensionType_code ET_PreSharedKey) (psk_wire items (binders p))] ->
  psk_wire_ok 4 items p ->
  vector_of_raws NEXT [] raws = Ok front -> Forall (fun e => is_psk e = false) front ->
  length front < NEXT ->
  exists h b, ClientHelloRef_parse NEXT (pb_new (hello_message f)) = (Ok h, b) /\
    extensions h = front ++ [CH_PreSharedKey p] /\
    drop (binders_start_offset h) (hello_message f) = psk_binders_bytes (binders p).
Proof.
  intros Hf He Hp Hfront HF HN. rewrite (hello_parse_complete NEXT f Hf).
  rewrite (hello_of_last_psk NEXT f raws front items p) by done.
  do 2 eexists. split; [done|]. split; [done|]. cbn [binders_start_offset].
  destruct (hello_message_binders f raws items (binders p) He) as [pre Hpre].
  rewrite Hpre, length_app, Nat.add_sub. apply drop_app_length.
Qed.

(** A ClientHello that offers TLS 1.3 and one PSK. *)
Definition sample_psk : PreSharedKeyClientHello := mkPskCH [[x69; x64]] [replicate 32 xab] 32.
Definition sample_raws : list RawExtension := [mkRaw (ExtensionType_code ET_SupportedVersions) [x02; x03; x04]].
Definition sample_fields : HelloFields :=
  mkFields 0x0303 (replicate 32 x44) [] [x13; x01] [x00]
    (sample_raws ++ [mkRaw (ExtensionType_code ET_PreSharedKey)
                       (psk_wire [([x69; x64], 7%Z)] (binders sample_psk))]).

Lemma binders_offset_correct_witness :
  exists h b, ClientHelloRef_parse 16 (pb_new (hello_message sample_fields)) = (Ok h, b) /\
    extensions h = [CH_SupportedVersions (mkVersionsCH [TLS13])] ++ [CH_PreSharedKey sample_psk] /\
    drop (binders_start_offset h) (hello_message sample_fields) = psk_binders_bytes [replicate 32 xab].
Proof.
  apply (binders_offset_correct 16 sample_fields sample_raws [CH_SupportedVersions (mkVersionsCH [TLS13])]
    [([x69; x64], 7%Z)] sample_psk).
  - unfold hello_fields_ok. split_and!; try done; try (simpl; lia). by repeat constructor.
  - done.
  - unfold psk_wire_ok, psk_identity_ok, binders_ok. split_and!; try done; try (simpl; lia).
    + repeat constructor; simpl; lia.
    + by repeat constructor.
  - vm_compute. reflexivity.
  - repeat constructor.
  - simpl. lia.
Defined.

(** The ClientHello of RFC 8448 section 4 (test_data/rfc8448_client_hello.hex). *)
Definition rfc8448_client_hello : list byte :=
  [
   x01; x00; x01; xfc; x03; x03; x1b; xc3; xce; xb6; xbb; xe3; x9c; xff; x93; x83; x55; xb5; xa5; x0a;
   xdb; x6d; xb2; x1b; x7a; x6a; xf6; x49; xd7; xb4; xbc; x41; x9d; x78; x76; x48; x7d; x95; x00; x00;
   x06; x13; x01; x13; x03; x13; x02; x01; x00; x01; xcd; x00; x00; x00; x0b; x00; x09; x00; x00; x06;
   x73; x65; x72; x76; x65; x72; xff; x01; x00; x01; x00; x00; x0a; x00; x14; x00; x12; x00; x1d; x00;
   x17; x00; x18; x00; x19; x01; x00; x01; x01; x01; x02; x01; x03; x01; x04; x00; x33; x00; x26; x00;
   x24; x00; x1d; x00; x20; xe4; xff; xb6; x8a; xc0; x5f; x8d; x96; xc9; x9d; xa2; x66; x98; x34; x6c;
   x6b; xe1; x64; x82; xba; xdd; xda; xfe; x05; x1a; x66; xb4; xf1; x8d; x66; x8f; x0b; x00; x2a; x00;
   x00; x00; x2b; x00; x03; x02; x03; x04; x00; x0d; x00; x20; x00; x1e; x04; x03; x05; x03; x06; x03;
   x02; x03; x08; x04; x08; x05; x08; x06; x04; x01; x05; x01; x06; x01; x02; x01; x04; x02; x05; x02;
   x06; x02; x02; x02; x00; x2d; x00; x02; x01; x01; x00; x1c; x00; x02; x40; x01; x00; x15; x00; x57;
   x00; x00; x00; x00; x00; x00; x00; x00; x00; x00; x00; x00; x00; x00; x00; x00; x00; x00; x00; x00;
   x00; x00; x00; x00; x00; x00; x00; x00; x00; x00; x00; x00; x00; x00; x00; x00; x00; x00; x00; x00;
   x00; x00; x00; x00; x00; x00; x00; x00; x00; x00; x00; x00; x00; x00; x00; x00; x00; x00; x00; x00;
   x00; x00; x00; x00; x00; x00; x00; x00; x00; x00; x00; x00; x00; x00; x00; x00; x00; x00; x00; x00;
   x00; x00; x00; x00; x00; x00; x00; x00; x29; x00; xdd; x00; xb8; x00; xb2; x2c; x03; x5d; x82; x93;
   x59; xee; x5f; xf7; xaf; x4e; xc9; x00; x00; x00; x00; x26; x2a; x64; x94; xdc; x48; x6d; x2c; x8a;
   x34; xcb; x33; xfa; x90; xbf; x1b; x00; x70; xad; x3c; x49; x88; x83; xc9; x36; x7c; x09; xa2; xbe;
   x78; x5a; xbc; x55; xcd; x22; x60; x97; xa3; xa9; x82; x11; x72; x83; xf8; x2a; x03; xa1; x43; xef;
   xd3; xff; x5d; xd3; x6d; x64; xe8; x61; xbe; x7f; xd6; x1d; x28; x27; xdb; x27; x9c; xce; x14; x50;
   x77; xd4; x54; xa3; x66; x4d; x4e; x6d; xa4; xd2; x9e; xe0; x37; x25; xa6; xa4; xda; xfc; xd0; xfc;
   x67; xd2; xae; xa7; x05; x29; x51; x3e; x3d; xa2; x67; x7f; xa5; x90; x6c; x5b; x3f; x7d; x8f; x92;
   xf2; x28; xbd; xa4; x0d; xda; x72; x14; x70; xf9; xfb; xf2; x97; xb5; xae; xa6; x17; x64; x6f; xac;
   x5c; x03; x27; x2e; x97; x07; x27; xc6; x21; xa7; x91; x41; xef; x5f; x7d; xe6; x50; x5e; x5b; xfb;
   xc3; x88; xe9; x33; x43; x69; x40; x93; x93; x4a; xe4; xd3; x57; xfa; xd6; xaa; xcb; x00; x21; x20;
   x3a; xdd; x4f; xb2; xd8; xfd; xf8; x22; xa0; xca; x3c; xf7; x67; x8e; xf5; xe8; x8d; xae; x99; x01;
   x41; xc5; x92; x4d; x57; xbb; x6f; xa3; x1b; x9e; x5f; x9d].

(** On the RFC trace the parser finds a single offered identity of 178 bytes and
    the offset 477 that the RFC prints. *)
Example rfc8448_offset :
  match fst (ClientHelloRef_parse 16 (pb_new rfc8448_client_hello)) with
  | Ok h => binders_start_offset h = 477 /\ cipher_suites h = [x13; x01; x13; x03; x13; x02] /\
      match last (extensions h) with
      | Some (CH_PreSharedKey p) =>
          length <$> identities p = [178] /\
          drop 477 rfc8448_client_hello = psk_binders_bytes (binders p)
      | _ => False
      end
  | _ => False
  end.
Proof. vm_compute. repeat split. Qed.

(** ** Two surprises of the parser *)

(** An extension whose payload is rejected rejects the vector. *)
Lemma vector_of_raws_Err N raws r e : forall acc : list ClientHelloExtension,
  ext_of_raw (T := ClientHelloExtension) r = Err e -> e <> UnknownExtensionType -> r ∈ raws ->
  exists e', vector_of_raws N acc raws = Err e'.
Proof.
  intros acc Hr He. revert acc. induction raws as [|r0 raws IH]; intros acc Hin; [set_solver|].
  simpl. unfold add_raw. pose proof (ext_of_raw_total (T := ClientHelloExtension) r0) as [HP HD].
  apply elem_of_cons in Hin as [->|Hin].
  - rewrite Hr. destruct e; by eauto.
  - destruct (ext_of_raw r0) as [x|e0| |]; [| |done..].
    + case_decide; [|by eauto]. by apply IH.
    + destruct e0; eauto.
Qed.

Lemma versions_raw_rejected r b rest :
  raw_type r = ExtensionType_code ET_SupportedVersions -> raw_data r = b :: rest -> (2 < byte_val b)%Z ->
  ext_of_raw (T := ClientHelloExtension) r = Err DecodeError.
Proof.
  intros Ht Hd Hb. unfold ext_of_raw. rewrite Ht, type_of_code_code. cbn [data_parse ClientHelloExtension_group].
  pose proof (SupportedVersionsCH_sound 1 _ (pb_new_wf (raw_data r))) as Hs. unfold wp in Hs.
  unfold map_err, pmap, mbind, M_bind.
  destruct (SupportedVersionsClientHello_parse 1 (pb_new (raw_data r))) as [[v|e| |] st]; [|done..].
  exfalso. destruct Hs as (_ & xs & (_ & _ & Hu) & -> & Hl). rewrite unread_new, Hd in Hu.
  unfold SupportedVersionsCH_bytes, vec8 in Hu. injection Hu as -> _.
  destruct (versions v) as [|v1 [|]]; simpl in Hl; [| |lia]; by vm_compute in Hb.
Qed.

Lemma unknown_skipped N unknown : forall acc raws,
  Forall (fun r => type_of_code (raw_type r) = None) unknown ->
  vector_of_raws (T := ClientHelloExtension) N acc (raws ++ unknown) = vector_of_raws N acc raws.
Proof.
  intros acc raws HF. revert acc. induction raws as [|r raws IH]; intros acc; simpl.
  - induction HF as [|r l Hr _ IH]; simpl; [done|]. unfold add_raw, ext_of_raw. by rewrite Hr.
  - by destruct (add_raw N acc r).
Qed.

(** A hello that offers more than one version is rejected.  A ClientHello with a
    supported_versions extension whose list is longer than two bytes (TLS 1.3 and any
    other version, as most clients send) is never parsed, whatever else it contains:
    the vector of versions has capacity one. *)
Theorem several_versions_rejected NEXT f r b rest :
  hello_fields_ok f -> r ∈ f_extensions f ->
  raw_type r = ExtensionType_code ET_SupportedVersions -> raw_data r = b :: rest -> (2 < byte_val b)%Z ->
  exists e st, ClientHelloRef_parse NEXT (pb_new (hello_message f)) = (Err e, st).
Proof.
  intros Hf Hin Ht Hd Hb. rewrite (hello_parse_complete NEXT f Hf). unfold hello_of.
  destruct (vector_of_raws_Err NEXT (f_extensions f) r DecodeError []) as [e ->]; [|done..|by eauto].
  by eapply versions_raw_rejected.
Qed.

Definition two_versions : HelloFields :=
  mkFields 0x0303 (replicate 32 x44) [] [x13; x01] [x00]
    [mkRaw (ExtensionType_code ET_SupportedVersions) [x04; x03; x04; x03; x03]].

Lemma several_versions_rejected_witness :
  exists e st, ClientHelloRef_parse 16 (pb_new (hello_message two_versions)) = (Err e, st).
Proof.
  apply (several_versions_rejected 16 two_versions
    (mkRaw (ExtensionType_code ET_SupportedVersions) [x04; x03; x04; x03; x03]) x04 [x03; x04; x03; x03]).
  - unfold hello_fields_ok. split_and!; try done; try (simpl; lia). by repeat constructor.
  - by left.
  - done.
  - done.
  - done.
Defined.

(** C19: pre_shared_key is not required to be last on the wire.  When one or more
    extensions of unknown types follow the offer, the message is parsed all the same,
    and the returned offset is wrong: it exceeds the start of the binders, which is
    where RFC 8446 4.2.11.2 cuts the ClientHello for the binder MAC, by exactly the
    length of the extensions that follow. *)
Theorem psk_not_last_accepted NEXT f raws front items p unknown :
  hello_fields_ok f ->
  f_extensions f = (raws ++ [mkRaw (ExtensionType_code ET_PreSharedKey) (psk_wire items (binders p))])
                   ++ unknown ->
  psk_wire_ok 4 items p ->
  vector_of_raws NEXT [] raws = Ok front -> Forall (fun e => is_psk e = false) front ->
  length front < NEXT -> unknown <> [] -> Forall (fun r => type_of_code (raw_type r) = None) unknown ->
  exists h b truncated, ClientHelloRef_parse NEXT (pb_new (hello_message f)) = (Ok h, b) /\
    extensions h = front ++ [CH_PreSharedKey p] /\
    hello_message f = truncated ++ psk_binders_bytes (binders p) ++ raws_bytes unknown /\
    binders_start_offset h = length truncated + length (raws_bytes unknown) /\
    length truncated < binders_start_offset h.
Proof.
  intros Hf He Hp Hfront HF HN HU0 HU. rewrite (hello_parse_complete NEXT f Hf).
  assert (psk_binders_bytes (binders p) ++ raws_bytes unknown `suffix_of` hello_message f) as [pre Hpre].
  { unfold hello_message, hello_body, raws_bytes. rewrite He, !fmap_app, !join_app.
    cbn [fmap list_fmap mjoin list_join]. rewrite app_nil_r.
    unfold raw_bytes at 3. cbn [raw_type raw_data]. unfold psk_wire, vec24, vec16.
    rewrite <-!(assoc_L (++)). apply suffix_cons_r.
    repeat first [reflexivity|apply suffix_app_r]. }
  pose proof (binders_wire_len_spec (binders p)) as Hw.
  unfold hello_of. rewrite He, unknown_skipped by done.
  rewrite (vector_of_raws_snoc NEXT raws _ [] front (front ++ [CH_PreSharedKey p]) Hfront).
  2:{ unfold add_raw. by rewrite ext_of_raw_psk, decide_True. }
  rewrite compute_binders_offset_last by (first [done | rewrite Hpre; len]).
  assert (0 < length (raws_bytes unknown)) as Hpos by (destruct unknown; [done|simpl; lia]).
  do 2 eexists. exists pre. split; [done|]. split; [done|]. split; [done|].
  cbn [binders_start_offset]. rewrite Hw, Hpre, !length_app. lia.
Qed.

Definition psk_then_unknown : HelloFields :=
  mkFields 0x0303 (replicate 32 x44) [] [x13; x01] [x00]
    (f_extensions sample_fields ++ [mkRaw 0xfafa [x00]]).

Lemma psk_not_last_accepted_witness :
  exists h b truncated, ClientHelloRef_parse 16 (pb_new (hello_message psk_then_unknown)) = (Ok h, b) /\
    extensions h = [CH_SupportedVersions (mkVersionsCH [TLS13])] ++ [CH_PreSharedKey sample_psk] /\
    hello_message psk_then_unknown
    = truncated ++ psk_binders_bytes (binders sample_psk) ++ raws_bytes [mkRaw 0xfafa [x00]] /\
    binders_start_offset h = length truncated + length (raws_bytes [mkRaw 0xfafa [x00]]) /\
    length truncated < binders_start_offset h.
Proof.
  apply (psk_not_last_accepted 16 psk_then_unknown sample_raws
    [CH_SupportedVersions (mkVersionsCH [TLS13])] [([x69; x64], 7%Z)] sample_psk [mkRaw 0xfafa [x00]]).
  - unfold hello_fields_ok. split_and!; try done; try (simpl; lia). by repeat constructor.
  - done.
  - unfold psk_wire_ok, psk_identity_ok, binders_ok. split_and!; try done; try (simpl; lia).
    + repeat constructor; simpl; lia.
    + by repeat constructor.
  - vm_compute. reflexivity.
  - repeat constructor.
  - simpl. lia.
  - done.
  - by repeat constructor.
Defined.
