(* ===== verification/Handshake.v ===== *)
(** The handshake messages other than ClientHello (handshake/): ServerHello and its
    server-side emitter, EncryptedExtensions, Certificate, CertificateRequest,
    CertificateVerify, NewSessionTicket, and the dispatch of handshake/mod.rs
    ([ClientHandshake::encode], [ServerHandshake::parse] and [read]).  The lemmas
    give the wire format of each message; the properties at the end are the totality
    of the client's message reader with what it feeds to the transcript, and the
    agreement of the server's ServerHello emitter with the client's parser. *)

From S2P Require Import Prelude Errors CryptoBuffer ParseBuffer Wire ExtensionData Extensions.
From S2P Require Import CryptoSuite KeySchedule KeyScheduleProps ClientHello.
From Stdlib Require Import ZArith Lia.
From Stdlib Require Import Strings.Byte.
From stdpp Require Import base list option numbers tactics sets.

(** ** server_hello.rs *)

Record ServerHello : Type := mkServerHello { sh_extensions : list ServerHelloExtension }.

Definition ServerHello_parse : TM ServerHello :=
  map_err (fun _ => InvalidHandshake) read_u16;;
  into (fill 32);;
  session_id_length ← map_err (fun _ => InvalidSessionIdLength) read_u8;
  map_err (fun _ => InvalidSessionIdLength) (slice (Z.to_nat (byte_val session_id_length)));;
  map_err (fun _ => InvalidCipherSuite) CipherSuite_parse;;
  into read_u8;;
  extensions ← parse_vector 4;
  mret (mkServerHello extensions).

(** [iter().find_map(..)] *)
Fixpoint find_map {A B} (f : A -> option B) (l : list A) : option B :=
  match l with
  | [] => None
  | a :: l' => match f a with Some b => Some b | None => find_map f l' end
  end.

Definition sh_key_share (h : ServerHello) : option KeyShareEntry :=
  find_map (fun e => match e with SH_KeyShare k => Some (kssh_entry k) | _ => None end)
           (sh_extensions h).

Record ServerHelloEmit : Type := mkEmit {
  em_random : list byte;
  legacy_session_id_echo : list byte;
  em_cipher_suite : Z;
  em_extensions : list ServerHelloExtension;
}.

Definition ServerHelloEmit_encode (sh : ServerHelloEmit) : EncM unit :=
  if decide (32 < length (legacy_session_id_echo sh)) then err EncodeError
  else
    encode_error (push_u16 LEGACY_VERSION);;
    encode_error (extend_from_slice (em_random sh));;
    encode_error (push (u8_of_nat (length (legacy_session_id_echo sh))));;
    encode_error (extend_from_slice (legacy_session_id_echo sh));;
    encode_error (push_u16 (em_cipher_suite sh));;
    encode_error (push x00);;
    with_u16_length (for_each (em_extensions sh) ext_encode).

(** ** encrypted_extensions.rs *)

Definition EncryptedExtensions_parse : TM unit :=
  parse_vector (T := EncryptedExtensionsExtension) 16;; mret tt.

Definition EncryptedExtensionsEmit_encode (exts : list EncryptedExtensionsExtension) : EncM unit :=
  with_u16_length (for_each exts ext_encode).

(** ** certificate.rs *)

Inductive CertificateEntryRef : Type :=
| X509 (data : list byte)
| RawPublicKey (data : list byte).

Record CertificateRef : Type := mkCert {
  raw_entries : list byte;
  request_context : list byte;
  entries : list CertificateEntryRef;
}.

Definition CertificateRef_with_context (ctx : list byte) : CertificateRef := mkCert [] ctx [].

Definition CertificateRef_add (entry : CertificateEntryRef) : M CertificateRef TlsError unit :=
  c ← get;
  es ← ok_or (vec_push 16 (entries c) entry) InsufficientSpace;
  put (mkCert (raw_entries c) (request_context c) es).

Definition CertificateEntryRef_parse : TM CertificateEntryRef :=
  entry_len ← map_err (fun _ => InvalidCertificateEntry) read_u24;
  cert ← map_err (fun _ => InvalidCertificateEntry) (slice (Z.to_nat entry_len));
  parse_vector (T := CertificateExtension) 2;;
  mret (X509 (pb_as_slice cert)).

Definition CertificateEntryRef_parse_vector (N : nat) : TM (list CertificateEntryRef) :=
  loop_nonempty (fun result =>
    e ← CertificateEntryRef_parse;
    ok_or (vec_push N result e) DecodeError) [].

Definition CertificateRef_parse : TM CertificateRef :=
  request_context_len ← map_err (fun _ => InvalidCertificate) read_u8;
  request_context ← map_err (fun _ => InvalidCertificate)
                      (slice (Z.to_nat (byte_val request_context_len)));
  entries_len ← map_err (fun _ => InvalidCertificate) read_u24;
  raw ← map_err (fun _ => InvalidCertificate) (slice (Z.to_nat entries_len));
  es ← run_on raw (CertificateEntryRef_parse_vector 16);
  mret (mkCert (pb_as_slice raw) (pb_as_slice request_context) es).

(** [RawPublicKey] is a [todo!()]. *)
Definition CertificateEntryRef_encode (e : CertificateEntryRef) : EncM unit :=
  match e with
  | RawPublicKey _ => panic
  | X509 cert =>
      with_u24_length (extend_from_slice cert);;
      push_u16 0
  end.

Definition CertificateRef_encode (c : CertificateRef) : EncM unit :=
  with_u8_length (extend_from_slice (request_context c));;
  with_u24_length (for_each (entries c) CertificateEntryRef_encode).

(** [Certificate<N>]: the owned copy, with capacities 256 and [N]. *)
Record Certificate : Type := mkOwnedCert { oc_context : list byte; entries_data : list byte }.

Definition Certificate_try_from (N : nat) (c : CertificateRef) {S} : M S TlsError Certificate :=
  ctx ← ok_or (vec_extend 256 [] (request_context c)) OutOfMemory;
  data ← ok_or (vec_extend N [] (raw_entries c)) OutOfMemory;
  mret (mkOwnedCert ctx data).

Definition CertificateRef_try_from (c : Certificate) {S} : M S TlsError CertificateRef :=
  es ← run_on (pb_new (entries_data c)) (CertificateEntryRef_parse_vector 16);
  mret (mkCert (entries_data c) (oc_context c) es).

(** ** certificate_request.rs, certificate_verify.rs, new_session_ticket.rs *)

Record CertificateRequestRef : Type := mkCertReq { cr_context : list byte }.

Definition CertificateRequestRef_parse : TM CertificateRequestRef :=
  request_context_len ← map_err (fun _ => InvalidCertificateRequest) read_u8;
  request_context ← map_err (fun _ => InvalidCertificateRequest)
                      (slice (Z.to_nat (byte_val request_context_len)));
  parse_vector (T := CertificateRequestExtension) 6;;
  mret (mkCertReq (pb_as_slice request_context)).

(** [CertificateRequest::try_from]: the context copied into a vector of capacity 256. *)
Definition CertificateRequest_try_from (c : CertificateRequestRef) {S} : M S TlsError (list byte) :=
  ok_or (vec_extend 256 [] (cr_context c)) InsufficientSpace.

Record CertificateVerifyRef : Type := mkCertVerify {
  signature_scheme : SignatureScheme;
  signature : list byte;
}.

Definition CertificateVerifyRef_parse : TM CertificateVerifyRef :=
  signature_scheme ← map_err (fun _ => InvalidSignatureScheme) SignatureScheme_parse;
  len ← map_err (fun _ => InvalidSignature) read_u16;
  signature ← map_err (fun _ => InvalidSignature) (slice (Z.to_nat len));
  mret (mkCertVerify signature_scheme (pb_as_slice signature)).

Definition CertificateVerify_encode (c : CertificateVerifyRef) : EncM unit :=
  push_u16 (SignatureScheme_as_u16 (signature_scheme c));;
  with_u16_length (extend_from_slice (signature c)).

Definition NewSessionTicket_parse : TM unit :=
  into read_u32;;
  into read_u32;;
  nonce_length ← into read_u8;
  map_err (fun _ => InvalidNonceLength) (slice (Z.to_nat (byte_val nonce_length)));;
  ticket_length ← into read_u16;
  map_err (fun _ => InvalidTicketLength) (slice (Z.to_nat ticket_length));;
  parse_vector (T := NewSessionTicketExtension) 1;;
  mret tt.

(** ** handshake/mod.rs *)

Section Messages.
Context `{CS : TlsCipherSuite}.

Inductive ClientHandshake : Type :=
| ClientCert (c : CertificateRef)
| ClientCertVerify (c : CertificateVerifyRef)
| CHS_ClientHello (h : ClientHello)
| CHS_Finished (f : Finished).

Definition client_handshake_type (m : ClientHandshake) : HandshakeType :=
  match m with
  | CHS_ClientHello _ => HT_ClientHello
  | CHS_Finished _ => HT_Finished
  | ClientCert _ => HT_Certificate
  | ClientCertVerify _ => HT_CertificateVerify
  end.

Definition encode_inner (m : ClientHandshake) : EncM unit :=
  match m with
  | CHS_ClientHello inner => ClientHello_encode inner
  | CHS_Finished inner => Finished_encode inner
  | ClientCert inner => CertificateRef_encode inner
  | ClientCertVerify inner => CertificateVerify_encode inner
  end.

Definition ClientHandshake_encode (m : ClientHandshake) : EncM unit :=
  encode_error (push (u8 (HandshakeType_code (client_handshake_type m))));;
  with_u24_length (encode_inner m).

(** [finalize(buf, transcript, write_key_schedule)]: the state is the bytes of
    the message and the transcript. *)
Definition ClientHandshake_finalize (m : ClientHandshake) (wks : WriteKeySchedule) :
    M (list byte * list byte) TlsError unit :=
  match m with
  | CHS_ClientHello hello => finalize hello wks
  | _ => '(enc_buf, transcript) ← get; put (enc_buf, transcript ++ enc_buf)
  end.

Inductive ServerHandshake : Type :=
| SHS_ServerHello (h : ServerHello)
| SHS_EncryptedExtensions
| SHS_NewSessionTicket
| SHS_Certificate (c : CertificateRef)
| SHS_CertificateRequest (c : CertificateRequestRef)
| SHS_CertificateVerify (c : CertificateVerifyRef)
| SHS_Finished (f : Finished).

Definition server_handshake_type (m : ServerHandshake) : HandshakeType :=
  match m with
  | SHS_ServerHello _ => HT_ServerHello
  | SHS_EncryptedExtensions => HT_EncryptedExtensions
  | SHS_NewSessionTicket => HT_NewSessionTicket
  | SHS_Certificate _ => HT_Certificate
  | SHS_CertificateRequest _ => HT_CertificateRequest
  | SHS_CertificateVerify _ => HT_CertificateVerify
  | SHS_Finished _ => HT_Finished
  end.

Definition ServerHandshake_parse : TM ServerHandshake :=
  handshake_type ← map_err (fun _ => InvalidHandshake) HandshakeType_parse;
  map_err (fun _ => InvalidHandshake) read_u24;;
  match handshake_type with
  | HT_ServerHello => h ← ServerHello_parse; mret (SHS_ServerHello h)
  | HT_NewSessionTicket => NewSessionTicket_parse;; mret SHS_NewSessionTicket
  | HT_EncryptedExtensions => EncryptedExtensions_parse;; mret SHS_EncryptedExtensions
  | HT_Certificate => c ← CertificateRef_parse; mret (SHS_Certificate c)
  | HT_CertificateRequest => c ← CertificateRequestRef_parse; mret (SHS_CertificateRequest c)
  | HT_CertificateVerify => c ← CertificateVerifyRef_parse; mret (SHS_CertificateVerify c)
  | HT_Finished => f ← Finished_parse; mret (SHS_Finished f)
  | _ => err UnimplementedError
  end.

(** [read(buf, digest)]: the state is the cursor and the digest. *)
Definition ServerHandshake_read : M (ParseBuffer * list byte) TlsError ServerHandshake :=
  handshake_start ← on_fst pb_offset;
  handshake ← on_fst ServerHandshake_parse;
  handshake_end ← on_fst pb_offset;
  '(buf, digest) ← get;
  let handshake' := match handshake with
                    | SHS_Finished f => SHS_Finished (mkFinished (verify f) (Some (digest_out digest)))
                    | h => h
                    end in
  bytes ← unwrap (sub (pb_as_slice buf) handshake_start handshake_end);
  put (buf, digest ++ bytes);;
  mret handshake'.
End Messages.

(** ** ServerHello on the wire *)

Definition server_hello_body (sh : ServerHelloEmit) : list byte :=
  be_bytes 2 LEGACY_VERSION ++ em_random sh ++ vec8 (legacy_session_id_echo sh)
  ++ be_bytes 2 (em_cipher_suite sh) ++ [x00] ++ vec16 (mjoin (ext_bytes <$> em_extensions sh)).

Lemma ServerHelloEmit_encodes sh :
  length (legacy_session_id_echo sh) <= 32 ->
  encodes (ServerHelloEmit_encode sh) (server_hello_body sh).
Proof.
  intros Hl. unfold ServerHelloEmit_encode, server_hello_body, vec8.
  rewrite decide_False by lia. rewrite <-app_comm_cons.
  change (?b :: ?l ++ ?m) with ([b] ++ l ++ m).
  repeat (apply encodes_bind; [auto with tls|]). apply ext_vector_encodes.
Qed.

Lemma ServerHello_parses cs sh :
  length (em_random sh) = 32 -> length (legacy_session_id_echo sh) <= 32 ->
  em_cipher_suite sh = CipherSuite_code cs ->
  Forall data_ok (em_extensions sh) -> length (em_extensions sh) <= 4 ->
  (Z.of_nat (length (mjoin (ext_bytes <$> em_extensions sh))) < 2 ^ 16)%Z ->
  parses ServerHello_parse (server_hello_body sh) (mkServerHello (em_extensions sh)).
Proof.
  intros Hr Hs Hcs HF HN Hl. unfold ServerHello_parse, server_hello_body, vec8.
  rewrite <-app_comm_cons. change (?b :: ?l ++ ?m) with ([b] ++ l ++ m). rewrite Hcs.
  eapply parses_bind; [by apply parses_map_err, parses_u16|].
  eapply parses_bind; [by apply parses_map_err, parses_fill|].
  eapply parses_bind; [apply parses_map_err, parses_u8|].
  rewrite byte_val_u8_of_nat, Nat2Z.id by lia.
  eapply parses_bind; [by apply parses_map_err, parses_slice|].
  eapply parses_bind; [apply parses_map_err, CipherSuite_parses|].
  eapply parses_bind; [apply parses_map_err, parses_u8|].
  eapply parses_bind_last; [by apply parse_vector_parses|apply parses_ret].
Qed.

(** ** Certificates on the wire *)

Definition entry_bytes (e : CertificateEntryRef) : list byte :=
  match e with X509 cert => vec24 cert ++ be_bytes 2 0 | RawPublicKey _ => [] end.
Definition entry_ok (e : CertificateEntryRef) : Prop :=
  match e with X509 cert => (Z.of_nat (length cert) < 2 ^ 24)%Z | RawPublicKey _ => False end.

Definition cert_bytes (c : CertificateRef) : list byte :=
  vec8 (request_context c) ++ vec24 (mjoin (entry_bytes <$> entries c)).

Lemma CertificateRef_encodes c :
  Forall entry_ok (entries c) -> encodes (CertificateRef_encode c) (cert_bytes c).
Proof.
  intros HF. apply encodes_bind; [auto with tls|].
  apply encodes_with_u24_length, encodes_for_each. intros [cert|] He.
  - apply encodes_bind; auto with tls.
  - rewrite Forall_forall in HF. by apply HF in He.
Qed.

Lemma parses_vec24 {E A} xs (f : ParseError -> E) (k : ParseBuffer -> M ParseBuffer E A) ys a :
  (Z.of_nat (length xs) < 2 ^ 24)%Z -> parses (k (pb_new xs)) ys a ->
  parses (n ← map_err f read_u24; s ← map_err f (slice (Z.to_nat n)); k s) (vec24 xs ++ ys) a.
Proof.
  intros Hx Hk. unfold vec24. rewrite <-(assoc_L (++)).
  eapply parses_bind; [apply parses_map_err, parses_u24; lia|].
  eapply parses_bind; [|exact Hk]. apply parses_map_err, parses_slice. lia.
Qed.

Lemma CertificateEntryRef_parses e :
  entry_ok e -> parses CertificateEntryRef_parse (entry_bytes e) e.
Proof.
  destruct e as [cert|]; [|done]. intros He. apply parses_vec24; [done|].
  eapply parses_bind_last; [|apply parses_ret].
  apply (parse_vector_parses (T := CertificateExtension) 2 []); simpl; [done|lia|done].
Qed.

Lemma CertificateRef_parses c :
  length (request_context c) < 256 -> length (entries c) <= 16 -> Forall entry_ok (entries c) ->
  (Z.of_nat (length (mjoin (entry_bytes <$> entries c))) < 2 ^ 24)%Z ->
  parses CertificateRef_parse (cert_bytes c)
    (mkCert (mjoin (entry_bytes <$> entries c)) (request_context c) (entries c)).
Proof.
  intros Hc HN HF Hl. unfold CertificateRef_parse, cert_bytes, vec8.
  rewrite <-app_comm_cons. change (?b :: ?l ++ ?m) with ([b] ++ l ++ m).
  eapply parses_bind; [apply parses_map_err, parses_u8|].
  rewrite byte_val_u8_of_nat, Nat2Z.id by lia.
  eapply parses_bind; [by apply parses_map_err, parses_slice|].
  rewrite <-(app_nil_r (vec24 _)).
  apply (parses_vec24 _ _ (fun raw => es ← run_on raw _; mret _)); [done|].
  eapply (parses_bind_nil _ _ _ (entries c)); [|apply parses_ret].
  eapply parses_run_on. apply (loop_items _ entry_bytes id); [done..|].
  intros done x rest Heq. change (entries c = done ++ x :: rest) in Heq.
  assert (entry_ok x) as Hx.
  { rewrite Forall_forall in HF. apply HF. rewrite Heq. set_solver. }
  split; [by destruct x|]. eapply parses_bind_last; [by apply CertificateEntryRef_parses|].
  unfold vec_push, id. rewrite decide_True; [apply parses_ret|].
  rewrite Heq, length_app in HN. simpl in HN. lia.
Qed.

Definition cert_verify_bytes (c : CertificateVerifyRef) : list byte :=
  be_bytes 2 (SignatureScheme_as_u16 (signature_scheme c)) ++ vec16 (signature c).

Lemma CertificateVerify_encodes c : encodes (CertificateVerify_encode c) (cert_verify_bytes c).
Proof. apply encodes_bind; auto with tls. Qed.

Lemma CertificateVerify_parses c :
  (Z.of_nat (length (signature c)) < 2 ^ 16)%Z ->
  parses CertificateVerifyRef_parse (cert_verify_bytes c) c.
Proof.
  intros Hl. eapply parses_bind; [apply parses_map_err, SignatureScheme_parses|].
  unfold vec16. eapply parses_bind; [apply parses_map_err, parses_u16; lia|].
  eapply parses_bind_last; [apply parses_map_err, parses_slice; lia|]. destruct c. apply parses_ret.
Qed.

(** ** Every message parser returns *)

Create HintDb ptotal discriminated.

Definition ptotal {E A} (p : M ParseBuffer E A) : Prop := psound p (fun _ _ => True).

Lemma ptotal_of {E A} (p : M ParseBuffer E A) P : psound p P -> ptotal p.
Proof. intros H. by eapply psound_mono. Qed.

Lemma ptotal_map_err {E E' A} (f : E' -> E) (p : M ParseBuffer E' A) :
  ptotal p -> ptotal (map_err f p).
Proof. apply psound_map_err. Qed.

Lemma ptotal_bind {E A B} (p : M ParseBuffer E A) (k : A -> M ParseBuffer E B) :
  ptotal p -> (forall a, ptotal (k a)) -> ptotal (p ≫= k).
Proof. apply psound_seq. Qed.

Lemma ptotal_ret {E A} (a : A) : ptotal (E := E) (mret a).
Proof. by apply psound_ret. Qed.

Lemma ptotal_err {E A} (e : E) : ptotal (A := A) (err e).
Proof. apply psound_err. Qed.

Lemma ptotal_vector `{ExtensionGroup T, !ExtensionGroupLaws T} N : ptotal (parse_vector (T := T) N).
Proof. eapply ptotal_of, parse_vector_sound. Qed.

Lemma ptotal_u8 : ptotal read_u8.
Proof. eapply ptotal_of, psound_u8. Qed.
Lemma ptotal_u16 : ptotal read_u16.
Proof. eapply ptotal_of, psound_u16. Qed.
Lemma ptotal_u24 : ptotal read_u24.
Proof. eapply ptotal_of, psound_u24. Qed.
Lemma ptotal_u32 : ptotal read_u32.
Proof. eapply ptotal_of, psound_u32. Qed.
Lemma ptotal_slice n : ptotal (slice n).
Proof. eapply ptotal_of, psound_slice. Qed.
Lemma ptotal_fill n : ptotal (fill n).
Proof. eapply ptotal_of, psound_fill. Qed.
Lemma ptotal_suite : ptotal CipherSuite_parse.
Proof. eapply ptotal_of, CipherSuite_sound. Qed.
Lemma ptotal_scheme : ptotal SignatureScheme_parse.
Proof. eapply ptotal_of, SignatureScheme_sound. Qed.
Lemma ptotal_hs_type : ptotal HandshakeType_parse.
Proof. eapply ptotal_of, HandshakeType_sound. Qed.

#[export] Hint Resolve ptotal_bind ptotal_map_err ptotal_ret ptotal_err ptotal_u8
  ptotal_u16 ptotal_u24 ptotal_u32 ptotal_slice ptotal_fill ptotal_suite ptotal_scheme
  ptotal_hs_type : ptotal.

Ltac total :=
  repeat first [ solve [auto with ptotal nocore] | solve [apply ptotal_vector; apply _]
               | apply ptotal_map_err | apply ptotal_bind; [|intros ?]
               | progress case_match ].

Lemma CertificateEntryRef_sound :
  psound CertificateEntryRef_parse (fun xs _ => xs <> []).
Proof.
  unfold CertificateEntryRef_parse. eapply psound_bind; [apply psound_map_err, psound_u24|].
  intros n ? (-> & _).
  eapply (psound_mono _ (fun _ _ => True)); [|by intros; apply (be_bytes_nonnil 3); lia].
  apply ptotal_bind; [auto with ptotal|intros ?].
  apply ptotal_bind; [apply ptotal_vector; apply _|auto with ptotal].
Qed.

Lemma CertificateEntryRef_parse_vector_total N data :
  wp (CertificateEntryRef_parse_vector N) (pb_new data) (fun _ _ => True) (fun _ _ => True).
Proof.
  eapply wp_mono; [apply (wp_loop _ (fun _ _ => True))|done|done]; [done|].
  intros acc xs _. eapply psound_bind; [apply CertificateEntryRef_sound|].
  intros e ys Hne. apply psound_ok_or. intros l _. split; [|done]. by destruct ys.
Qed.

Lemma ptotal_certificate : ptotal CertificateRef_parse.
Proof.
  unfold CertificateRef_parse. do 3 (apply ptotal_bind; [auto with ptotal|intros ?]).
  eapply psound_bind; [apply psound_map_err, psound_slice|]. intros raw xs (-> & _).
  eapply (psound_bind _ _ (fun _ _ => True)); [|intros; by apply psound_ret].
  apply psound_run_on, CertificateEntryRef_parse_vector_total.
Qed.
#[export] Hint Resolve ptotal_certificate : ptotal.

Section Reader.
Context `{CS : TlsCipherSuite}.

(** A certificate message: the request context and the entries, which are read from the
    bytes that come with the message. *)
Definition certificate_body (c : CertificateRef) (body : list byte) : Prop :=
  exists k, body = k :: request_context c ++ be_bytes 3 (Z.of_nat (length (raw_entries c))) ++ raw_entries c /\
    byte_val k = Z.of_nat (length (request_context c)) /\
    fst (CertificateEntryRef_parse_vector 16 (pb_new (raw_entries c))) = Ok (entries c).

Definition verify_body (v : CertificateVerifyRef) (body : list byte) : Prop :=
  body = be_bytes 2 (SignatureScheme_as_u16 (signature_scheme v)) ++
         be_bytes 2 (Z.of_nat (length (signature v))) ++ signature v.

(** The body of a message of type [t]; its bytes are recorded for a certificate, its
    signature and a Finished. *)
Definition wire_body (m : ServerHandshake) (t : HandshakeType) (body : list byte) : Prop :=
  match m with
  | SHS_ServerHello _ => t = HT_ServerHello
  | SHS_EncryptedExtensions => t = HT_EncryptedExtensions
  | SHS_NewSessionTicket => t = HT_NewSessionTicket
  | SHS_Certificate c => t = HT_Certificate /\ certificate_body c body
  | SHS_CertificateRequest _ => t = HT_CertificateRequest
  | SHS_CertificateVerify v => t = HT_CertificateVerify /\ verify_body v body
  | SHS_Finished f => t = HT_Finished /\ body = verify f /\ length (verify f) = HashLen
  end.

(** The bytes of a message: its type, three bytes of length that the client does not
    look at, and what the parser of its body consumes. *)
Definition message_wire (m : ServerHandshake) (xs : list byte) : Prop :=
  exists t l body, xs = u8 (HandshakeType_code t) :: l ++ body /\ length l = 3 /\ wire_body m t body.

(** The first byte of a message is the code of its [handshake_type]. *)
Lemma message_wire_type m xs :
  message_wire m xs -> xs !! 0 = Some (u8 (HandshakeType_code (server_handshake_type m))).
Proof. intros (t & l & body & -> & _ & Hb). destruct m; simpl in *; by destruct_and?; subst. Qed.

Lemma message_wire_length m xs : message_wire m xs -> 4 <= length xs.
Proof. intros (t & l & body & -> & Hl & _). simpl. rewrite length_app. lia. Qed.

Lemma Finished_sound : psound Finished_parse (fun xs f => xs = verify f /\ length (verify f) = HashLen).
Proof.
  unfold Finished_parse, into. eapply psound_bind; [apply psound_map_err, psound_fill|].
  intros v xs [-> Hl]. apply psound_ret. by rewrite app_nil_r.
Qed.

Lemma CertificateRef_sound : psound CertificateRef_parse (fun xs c => certificate_body c xs).
Proof.
  unfold CertificateRef_parse. eapply psound_bind; [apply psound_map_err, psound_u8|]. intros k ? ->.
  eapply psound_bind; [apply psound_map_err, psound_slice|]. intros ? ctx [-> Hc].
  eapply psound_bind; [apply psound_map_err, psound_u24|]. intros n ? [-> Hn].
  eapply psound_bind; [apply psound_map_err, psound_slice|]. intros ? raw [-> Hr].
  eapply (psound_bind _ _ (fun xs es => xs = [] /\ fst (CertificateEntryRef_parse_vector 16 (pb_new raw)) = Ok es)).
  - apply psound_run_on. pose proof (CertificateEntryRef_parse_vector_total 16 raw) as Hp. unfold wp in *.
    by destruct (CertificateEntryRef_parse_vector _ _) as [[] ?].
  - intros es ? [-> Hes]. apply psound_ret. exists k. unfold pb_as_slice. cbn. rewrite app_nil_r. split_and!; [|pose proof (byte_val_range k); lia|done].
    replace (Z.of_nat (length raw)) with n by lia. done.
Qed.

Lemma CertificateVerifyRef_sound : psound CertificateVerifyRef_parse (fun xs v => verify_body v xs).
Proof.
  unfold CertificateVerifyRef_parse. eapply psound_bind; [apply psound_map_err, SignatureScheme_sound|]. intros sc ? ->.
  eapply psound_bind; [apply psound_map_err, psound_u16|]. intros n ? [-> Hn].
  eapply psound_bind; [apply psound_map_err, psound_slice|]. intros ? sg [-> Hs]. apply psound_ret.
  unfold verify_body, pb_as_slice. cbn. rewrite app_nil_r. by replace (Z.of_nat (length sg)) with n by lia.
Qed.

Lemma tagged_sound {A} (p : TM A) (c : A -> ServerHandshake) t n P :
  psound p P -> (forall a body, P body a -> wire_body (c a) t body) ->
  psound (a ← p; mret (c a)) (fun ys m =>
    message_wire m ([u8 (HandshakeType_code t)] ++ be_bytes 3 n ++ ys)).
Proof.
  intros Hp Hw. eapply psound_bind; [exact Hp|]. intros a ys Ha. apply psound_ret. rewrite app_nil_r.
  exists t, (be_bytes 3 n), ys. split_and!; [done|apply length_be_bytes|by apply Hw].
Qed.

Lemma ServerHandshake_sound : psound ServerHandshake_parse (fun xs m => message_wire m xs).
Proof.
  unfold ServerHandshake_parse. eapply psound_bind; [apply psound_map_err, HandshakeType_sound|].
  intros t ts ->. eapply psound_bind; [apply psound_map_err, psound_u24|]. intros n ? (-> & _).
  destruct t; try apply psound_err;
    try (by apply (tagged_sound _ _ _ _ (fun _ _ => True)); [|done];
         unfold ServerHello_parse, NewSessionTicket_parse, EncryptedExtensions_parse,
           CertificateRequestRef_parse, into; total).
  - apply (tagged_sound _ _ _ _ _ CertificateRef_sound). by intros.
  - apply (tagged_sound _ _ _ _ _ CertificateVerifyRef_sound). by intros.
  - apply (tagged_sound _ _ _ _ _ Finished_sound). by intros f body [-> ?].
Qed.

Lemma read_spec b d :
  pb_wf b ->
  wp ServerHandshake_read (b, d)
    (fun m '(b', d') => pb_wf b' /\ exists xs, consumed b b' xs /\ message_wire m xs /\ d' = d ++ xs /\
       forall f, m = SHS_Finished f -> hash f = Some (digest_out d))
    (fun _ '(b', d') => pb_wf b' /\ d' = d).
Proof.
  intros Hwf. unfold ServerHandshake_read. apply wp_bind, wp_zoom. simpl. unfold pb_offset at 1.
  apply wp_bind, wp_get, wp_ret. apply wp_bind, wp_zoom.
  eapply wp_mono; [by apply ServerHandshake_sound| |by intros e b' [? _]].
  intros m b' (Hwf' & xs & (Hb & Hp & Hu) & Hx). simpl.
  apply wp_bind, wp_zoom. simpl. unfold pb_offset. apply wp_bind, wp_get, wp_ret.
  apply wp_bind, wp_get. cbv beta iota. apply wp_bind. unfold pb_as_slice. rewrite Hb, Hp. cbn [fst].
  assert (sub (pb_buffer b) (pb_pos b) (pb_pos b + length xs) = Some xs) as ->.
  { eapply sub_unread; [done|done|]. unfold pb_wf in Hwf'. rewrite Hb, Hp in Hwf'. done. }
  apply wp_ret, wp_bind, wp_put, wp_ret. split; [done|]. exists xs. split_and!; [done| |done|].
  - by destruct m.
  - intros f. destruct m; intros [= <-]. done.
Qed.
End Reader.

(** An encoder and a parser of the same format, run one after the other. *)
Lemma encode_then_parse {E A} (m : EncM unit) (p : M ParseBuffer E A) xs a buf :
  encodes m xs -> parses p xs a -> length xs <= length buf ->
  exists c b, m (wrap buf) = (Ok tt, c) /\ contents c = xs /\
    p (pb_new (contents c)) = (Ok a, b) /\ is_empty b = true.
Proof.
  intros Hm Hp Hl. pose proof (wrap_wf buf) as Hwf.
  assert (length xs <= room (wrap buf)) as Hr by (unfold room, capacity; simpl; lia).
  exists (cb_append (wrap buf) xs), (mkPB (length xs) xs).
  rewrite (encodes_Ok m xs (wrap buf) Hm Hwf Hr), (contents_append _ _ Hwf Hr).
  change (contents (wrap buf)) with (@nil byte). simpl app.
  split_and!; [done|done|by apply parses_whole|by apply bool_decide_true].
Qed.

(** ** Properties *)

(** C16: the client's handshake reader is total and feeds the transcript exactly.
    From any well-formed cursor it returns (no panic, no endless loop); on success
    it has consumed the bytes of one message of the type it returns and the running
    digest has absorbed precisely those bytes; a Finished message carries the digest taken before its own bytes; on an error the
    digest is unchanged. *)
Theorem server_handshake_read_total `{CS : TlsCipherSuite} b d :
  pb_wf b ->
  exists r b' d', ServerHandshake_read (b, d) = (r, (b', d')) /\
    match r with
    | Ok m => exists xs, consumed b b' xs /\ message_wire m xs /\ d' = d ++ xs /\
        (forall f, m = SHS_Finished f -> hash f = Some (digest_out d))
    | Err _ => d' = d
    | _ => False
    end.
Proof.
  intros Hwf. pose proof (read_spec b d Hwf) as H. unfold wp in H.
  destruct (ServerHandshake_read (b, d)) as [[m|e| |] [b' d']]; [| |done..].
  - destruct H as (_ & xs & H). by exists (Ok m), b', d'; split; [|exists xs].
  - destruct H as (_ & ->). by exists (Err e), b', d.
Qed.

Lemma server_handshake_read_total_witness :
  exists r b' d', ServerHandshake_read (CS := Toy.suite) (pb_new (x08 :: vec24 (vec16 [])), [x01])
    = (r, (b', d')) /\
    match r with
    | Ok m => exists xs, consumed (pb_new (x08 :: vec24 (vec16 []))) b' xs /\ message_wire m xs /\ d' = [x01] ++ xs /\
        (forall f, m = SHS_Finished f -> hash f = Some (digest_out [x01]))
    | Err _ => d' = [x01]
    | _ => False
    end.
Proof. apply (server_handshake_read_total (CS := Toy.suite)). apply pb_new_wf. Defined.

(** C17: the server's ServerHello emitter and the client's ServerHello parser agree.
    In any buffer large enough, what [ServerHelloEmit::encode] writes is read back
    by [ServerHello::parse] completely, with the same extensions in the same order,
    and [key_share] returns the share that was emitted first. *)
Theorem server_hello_emit_roundtrip cs sh buf :
  length (em_random sh) = 32 -> length (legacy_session_id_echo sh) <= 32 ->
  em_cipher_suite sh = CipherSuite_code cs ->
  Forall data_ok (em_extensions sh) -> length (em_extensions sh) <= 4 ->
  (Z.of_nat (length (mjoin (ext_bytes <$> em_extensions sh))) < 2 ^ 16)%Z ->
  length (server_hello_body sh) <= length buf ->
  exists c h b, ServerHelloEmit_encode sh (wrap buf) = (Ok tt, c) /\
    ServerHello_parse (pb_new (contents c)) = (Ok h, b) /\ is_empty b = true /\
    sh_extensions h = em_extensions sh /\
    sh_key_share h = find_map (fun e => match e with SH_KeyShare k => Some (kssh_entry k) | _ => None end)
                       (em_extensions sh).
Proof.
  intros Hr Hs Hcs HF HN Hl Hbuf.
  destruct (encode_then_parse _ _ _ _ buf (ServerHelloEmit_encodes sh Hs)
    (ServerHello_parses cs sh Hr Hs Hcs HF HN Hl) Hbuf) as (c & b & Hc & _ & Hp & He).
  by exists c, (mkServerHello (em_extensions sh)), b.
Qed.

Definition demo_server_hello : ServerHelloEmit :=
  mkEmit (replicate 32 x42) [x01; x02; x03; x04] 0x1301
    [SH_SupportedVersions (mkVersionsSH TLS13);
     SH_KeyShare (mkKeyShareSH (mkKeyShareEntry X25519 (replicate 32 x09)));
     SH_PreSharedKey (mkPskSH 0)].

Lemma server_hello_emit_roundtrip_witness :
  exists c h b, ServerHelloEmit_encode demo_server_hello (wrap (zeros 200)) = (Ok tt, c) /\
    ServerHello_parse (pb_new (contents c)) = (Ok h, b) /\ is_empty b = true /\
    sh_extensions h = em_extensions demo_server_hello /\
    sh_key_share h = Some (mkKeyShareEntry X25519 (replicate 32 x09)).
Proof.
  apply (server_hello_emit_roundtrip TlsAes128GcmSha256 demo_server_hello (zeros 200));
    [done|simpl; lia|done| |simpl; lia|by vm_compute|].
  - repeat constructor; vm_compute; by repeat split.
  - apply Nat.leb_le. by vm_compute.
Defined.

(** Client certificate messages round-trip.  A Certificate with at most 16
    X.509 entries is read back by [CertificateRef::parse] with the same context and
    entries, and the raw entries kept for re-parsing are the encoded entries. *)
Theorem certificate_roundtrip c buf :
  length (request_context c) < 256 -> length (entries c) <= 16 -> Forall entry_ok (entries c) ->
  (Z.of_nat (length (mjoin (entry_bytes <$> entries c))) < 2 ^ 24)%Z ->
  length (cert_bytes c) <= length buf ->
  exists cb b, CertificateRef_encode c (wrap buf) = (Ok tt, cb) /\
    CertificateRef_parse (pb_new (contents cb))
    = (Ok (mkCert (mjoin (entry_bytes <$> entries c)) (request_context c) (entries c)), b) /\
    is_empty b = true.
Proof.
  intros Hc HN HF Hl Hbuf.
  destruct (encode_then_parse _ _ _ _ buf (CertificateRef_encodes c HF)
    (CertificateRef_parses c Hc HN HF Hl) Hbuf) as (cb & b & ? & _ & ? & ?).
  by exists cb, b.
Qed.

Lemma certificate_roundtrip_witness :
  exists cb b, CertificateRef_encode (mkCert [] [x07] [X509 [x30; x00]]) (wrap (zeros 32)) = (Ok tt, cb) /\
    CertificateRef_parse (pb_new (contents cb))
    = (Ok (mkCert [x00; x00; x02; x30; x00; x00; x00] [x07] [X509 [x30; x00]]), b) /\
    is_empty b = true.
Proof.
  apply (certificate_roundtrip (mkCert [] [x07] [X509 [x30; x00]]) (zeros 32));
    [simpl; lia|simpl; lia|by repeat constructor|done|apply Nat.leb_le; by vm_compute].
Defined.
