(* ===== verification/Server.v ===== *)
(** The server handshake driver (server.rs): data, validation, key-exchange
    decision, record writers, the two handshake steps, application data and alerts,
    and [TlsServerSession].

    Slices borrowed mutably are byte lists in the state; [out[i] = v] and
    [out[a..b].copy_from_slice(..)] panic out of range as in Rust.  Returned
    sub-slices of an output buffer are the bytes they hold. *)

From S2P Require Import Prelude Errors CryptoBuffer ParseBuffer Wire ExtensionData Extensions.
From S2P Require Import CryptoSuite KeySchedule KeyScheduleProps ClientHello Handshake.
From Stdlib Require Import ZArith Lia.
From Stdlib Require Import Strings.Byte.
From stdpp Require Import base list option numbers tactics sets.

Definition TLS_AES_128_GCM_SHA256 : Z := 0x1301.
Definition CLIENT_HELLO_MAX_EXTENSIONS : nat := 16.
Definition RECORD_HEADER_LEN : nat := 5.
Definition HANDSHAKE_HEADER_LEN : nat := 4.
Definition X25519_LEN : nat := 32.

(** [ContentType::X as u8] and [HandshakeType::X as u8] *)
Definition ct_byte (t : ContentType) : byte := u8 (ContentType_code t).
Definition hs_byte (t : HandshakeType) : byte := u8 (HandshakeType_code t).

(** ** Byte buffers *)

Definition lset {E} (i : nat) (v : byte) : M (list byte) E unit := fun l =>
  if decide (i < length l) then (Ok tt, <[i := v]> l) else (Panic, l).

Definition lwrite {E} (a : nat) (xs : list byte) : M (list byte) E unit := fun l =>
  if decide (a + length xs <= length l) then (Ok tt, splice l a xs) else (Panic, l).

(** [let mut c = CryptoBuffer::wrap_with_pos(&mut buf[a..b], pos); m(&mut c)] *)
Definition with_region {E A} (a b pos : nat) (m : M CryptoBuffer E A) : M (list byte) E A := fun l =>
  match sub l a b with
  | Some region =>
      let '(r, c) := m (wrap_with_pos region pos) in
      (r, take a l ++ cb_buf c ++ drop b l)
  | None => (Panic, l)
  end.

(** [iter().position(p)] and [iter().rposition(p)] *)
Fixpoint position {A} (p : A -> bool) (l : list A) : option nat :=
  match l with
  | [] => None
  | a :: l' => if p a then Some 0 else S <$> position p l'
  end.

Fixpoint rposition {A} (p : A -> bool) (l : list A) : option nat :=
  match l with
  | [] => None
  | a :: l' => match rposition p l' with
               | Some i => Some (S i)
               | None => if p a then Some 0 else None
               end
  end.

Section Server.
Context `{CS : TlsCipherSuite, X : X25519Ops}.

(** ** Data *)

Record DheKeyShare : Type := mkDhe { dhe_secret : list byte; dhe_public : list byte }.

Definition DheKeyShare_from_secret (secret : list byte) : DheKeyShare :=
  mkDhe secret (x25519 secret X25519_BASEPOINT_BYTES).

(** [generate(rng)]; [fill_bytes] draws that many bytes from the generator. *)
Definition DheKeyShare_generate {R} (fill_bytes : nat -> M R TlsError (list byte)) :
    M R TlsError DheKeyShare :=
  secret ← fill_bytes X25519_LEN;
  mret (DheKeyShare_from_secret secret).

Record TlsServerConfig : Type := mkServerConfig {
  psk_identity : list byte;
  psk_secret : list byte;
  server_random : list byte;
  dhe_keypair : option DheKeyShare;
}.

Inductive KexMode : Type :=
| KexPskKe
| KexPskDheKe (client_x25519_pub : list byte).

Inductive KexDecision : Type :=
| Use (m : KexMode)
| Retry (retry_group : NamedGroup).

Inductive HandshakeOutput : Type :=
| FirstFlight (bytes : list byte)
| HelloRetryRequest (bytes : list byte).

Definition HRR_SPECIAL_RANDOM : list byte :=
  [xcf; x21; xad; x74; xe5; x9a; x61; x11; xbe; x1d; x8c; x02; x1e; x65; xb8; x91;
   xc2; xa2; x11; x16; x7a; xbb; x8c; x5e; x07; x9e; x09; xe2; xc8; xa8; x33; x9c].

Record HrrState : Type := mkHrr {
  sent : bool;
  ch1_random : list byte;
  ch1_session_id_len : byte;
  ch1_session_id : list byte;
}.

Definition HrrState_default : HrrState := mkHrr false (zeros 32) x00 (zeros 32).

Inductive AppDataOrAlert : Type :=
| AppData (bytes : list byte)
| AlertRecord (level : AlertLevel) (description : AlertDescription).

(** ** ClientHello validation *)

Definition find_versions (e : ClientHelloExtension) : option SupportedVersionsClientHello :=
  match e with CH_SupportedVersions v => Some v | _ => None end.
Definition find_modes (e : ClientHelloExtension) : option PskKeyExchangeModes :=
  match e with CH_PskKeyExchangeModes m => Some m | _ => None end.
Definition find_groups (e : ClientHelloExtension) : option SupportedGroups :=
  match e with CH_SupportedGroups g => Some g | _ => None end.
Definition find_key_share (e : ClientHelloExtension) : option KeyShareClientHello :=
  match e with CH_KeyShare k => Some k | _ => None end.
Definition find_psk (e : ClientHelloExtension) : option PreSharedKeyClientHello :=
  match e with CH_PreSharedKey p => Some p | _ => None end.

Definition validate_supported_versions {S} (hello : ClientHelloRef) : M S TlsError unit :=
  ext ← ok_or (find_map find_versions (extensions hello)) (abort_fatal MissingExtension);
  if existsb (fun v => bool_decide (v = TLS13)) (versions ext) then mret tt
  else err (abort_fatal ProtocolVersionAlert).

(** [chunks_exact(2)] *)
Fixpoint chunks_exact_2 (l : list byte) : list (list byte) :=
  match l with
  | a :: b :: l' => [a; b] :: chunks_exact_2 l'
  | _ => []
  end.

Definition validate_cipher_suites {S} (hello : ClientHelloRef) : M S TlsError unit :=
  let target := be_bytes 2 TLS_AES_128_GCM_SHA256 in
  if existsb (fun c => bool_decide (c = target)) (chunks_exact_2 (cipher_suites hello))
  then mret tt
  else err (abort_fatal HandshakeFailure).

Definition client_supports_group (hello : ClientHelloRef) (group : NamedGroup) : bool :=
  match find_map find_groups (extensions hello) with
  | Some g => existsb (fun gg => bool_decide (gg = group)) (supported_groups g)
  | None => false
  end.

Fixpoint find_x25519 {S} (shares : list KeyShareEntry) : M S TlsError (option (list byte)) :=
  match shares with
  | [] => mret None
  | entry :: rest =>
      if decide (ks_group entry = X25519) then
        if decide (length (ks_opaque entry) <> X25519_LEN)
        then err (abort_fatal IllegalParameter)
        else mret (Some (ks_opaque entry))
      else find_x25519 rest
  end.

Definition find_client_x25519_share {S} (hello : ClientHelloRef) :
    M S TlsError (option (list byte)) :=
  match find_map find_key_share (extensions hello) with
  | Some ks => find_x25519 (client_shares ks)
  | None => mret None
  end.

Definition decide_kex {S} (hello : ClientHelloRef) (config : TlsServerConfig)
    (hrr_already_sent : bool) : M S TlsError KexDecision :=
  ms ← ok_or (find_map find_modes (extensions hello)) (abort_fatal MissingExtension);
  let offers_psk_ke := existsb (fun m => bool_decide (m = PskKe)) (modes ms) in
  let offers_psk_dhe_ke := existsb (fun m => bool_decide (m = PskDheKe)) (modes ms) in
  let dhe_available := bool_decide (is_Some (dhe_keypair config)) in
  if offers_psk_dhe_ke && dhe_available then
    share ← find_client_x25519_share hello;
    match share with
    | Some share => mret (Use (KexPskDheKe share))
    | None =>
        if offers_psk_ke then mret (Use KexPskKe)
        else if negb hrr_already_sent && client_supports_group hello X25519
        then mret (Retry X25519)
        else err (abort_fatal HandshakeFailure)
    end
  else if offers_psk_ke then mret (Use KexPskKe)
  else err (abort_fatal HandshakeFailure).

Definition validate_ch2_consistency {S} (hello : ClientHelloRef) (snapshot : HrrState) :
    M S TlsError unit :=
  if decide (random hello <> ch1_random snapshot) then err (abort_fatal IllegalParameter)
  else
    snap_sid ← unwrap (sub (ch1_session_id snapshot) 0
                         (Z.to_nat (byte_val (ch1_session_id_len snapshot))));
    if decide (legacy_session_id hello <> snap_sid) then err (abort_fatal IllegalParameter)
    else mret tt.

Definition locate_our_identity {S} (hello : ClientHelloRef) (config : TlsServerConfig) :
    M S TlsError (Z * list byte) :=
  psk_ext ← ok_or (find_map find_psk (extensions hello)) (abort_fatal MissingExtension);
  idx ← ok_or (position (fun id => bool_decide (id = psk_identity config)) (identities psk_ext))
          (abort_fatal UnknownPskIdentity);
  binder ← unwrap (binders psk_ext !! idx);
  mret (Z.of_nat idx mod 2 ^ 16, binder)%Z.

(** ** OutWriter *)

Record OutWriter : Type := mkOut { ow_buf : list byte; ow_pos : nat }.

(** [pos + data.len()] cannot overflow: both are bounded by the size of an
    allocation. *)
Definition append (data : list byte) : M OutWriter TlsError unit := fun w =>
  if decide (length (ow_buf w) < ow_pos w + length data) then (Err InsufficientSpace, w)
  else (Ok tt, mkOut (splice (ow_buf w) (ow_pos w) data) (ow_pos w + length data)).

Definition ow_len {E} : M OutWriter E nat := w ← get; mret (ow_pos w).
Definition on_buf {E A} (m : M (list byte) E A) : M OutWriter E A :=
  zoom ow_buf (fun b w => mkOut b (ow_pos w)) m.
Definition set_pos {E} (n : nat) : M OutWriter E unit := modify (fun w => mkOut (ow_buf w) n).

Abbreviation WM := (M (OutWriter * KeySchedule) TlsError).
Abbreviation onw m := (on_fst (T := KeySchedule) m).
Abbreviation onk m := (on_snd (S := OutWriter) m).

(** The three bytes of a handshake length and the two of a record length,
    patched byte by byte. *)
Definition patch_u24 (pos : nat) (n : Z) : M (list byte) TlsError unit :=
  lset (pos + 1) (u8 (n ≫ 16));;
  lset (pos + 2) (u8 (n ≫ 8));;
  lset (pos + 3) (u8 n).
Definition patch_u16 (pos : nat) (n : Z) : M (list byte) TlsError unit :=
  lset (pos + 3) (u8 (n ≫ 8));;
  lset (pos + 4) (u8 n).

(** ** Record writers *)

Definition write_hello_retry_request_record (legacy_session_id_echo : list byte)
    (selected_group : NamedGroup) (ch1_handshake_message : list byte) : WM unit :=
  record_start ← onw ow_len;
  onw (append [ct_byte CT_Handshake; x03; x03; x00; x00]);;
  hs_header_pos ← onw ow_len;
  onw (append [hs_byte HT_ServerHello; x00; x00; x00]);;
  body_start ← onw ow_len;
  onw (append [x03; x03]);;
  onw (append HRR_SPECIAL_RANDOM);;
  if decide (32 < length legacy_session_id_echo) then err EncodeError
  else
    onw (append [u8_of_nat (length legacy_session_id_echo)]);;
    onw (append legacy_session_id_echo);;
    onw (append (be_bytes 2 TLS_AES_128_GCM_SHA256));;
    onw (append [x00]);;
    ext_list_len_pos ← onw ow_len;
    onw (append [x00; x00]);;
    ext_content_start ← onw ow_len;
    onw (append (be_bytes 2 0x002b));;
    onw (append (be_bytes 2 2));;
    onw (append (be_bytes 2 0x0304));;
    onw (append (be_bytes 2 0x0033));;
    onw (append (be_bytes 2 2));;
    onw (append (be_bytes 2 (NamedGroup_as_u16 selected_group)));;
    ext_content_end ← onw ow_len;
    ext_list_len ← unwrap (usub ext_content_end ext_content_start);
    onw (on_buf (lwrite ext_list_len_pos (be_bytes 2 (Z.of_nat ext_list_len))));;
    body_end ← onw ow_len;
    body_len ← unwrap (usub body_end body_start);
    onw (on_buf (patch_u24 hs_header_pos (Z.of_nat body_len mod 2 ^ 32)));;
    payload ← unwrap (usub body_end record_start ≫= fun n => usub n RECORD_HEADER_LEN);
    onw (on_buf (patch_u16 record_start (Z.of_nat payload mod 2 ^ 16)));;
    let ch1_hash := digest_out ch1_handshake_message in
    let synthetic_header :=
      [hs_byte HT_MessageHash; x00; u8 (Z.of_nat HashLen ≫ 8); u8 (Z.of_nat HashLen)] in
    '(w, _) ← get;
    hrr_hs_bytes ← unwrap (sub (ow_buf w) hs_header_pos (ow_pos w));
    onk (replace_transcript_hash (synthetic_header ++ ch1_hash ++ hrr_hs_bytes)).

(** The extension vector of the ServerHello, in a [Vec<_, 4>]. *)
Definition server_hello_extensions {S} (config : TlsServerConfig) (selected_idx : Z)
    (mode : KexMode) : M S TlsError (list ServerHelloExtension) :=
  v1 ← ok_or (vec_push 4 [] (SH_SupportedVersions (mkVersionsSH TLS13))) EncodeError;
  v2 ← match mode with
       | KexPskDheKe _ =>
           dhe ← ok_or (dhe_keypair config) InternalError;
           ok_or (vec_push 4 v1
             (SH_KeyShare (mkKeyShareSH (mkKeyShareEntry X25519 (dhe_public dhe))))) EncodeError
       | KexPskKe => mret v1
       end;
  ok_or (vec_push 4 v2 (SH_PreSharedKey (mkPskSH selected_idx))) EncodeError.

Definition write_server_hello_record (config : TlsServerConfig)
    (legacy_session_id_echo : list byte) (selected_idx : Z) (mode : KexMode) : WM unit :=
  record_start ← onw ow_len;
  onw (append [ct_byte CT_Handshake; x03; x03; x00; x00]);;
  hs_header_pos ← onw ow_len;
  onw (append [hs_byte HT_ServerHello; x00; x00; x00]);;
  body_start ← onw ow_len;
  sh_exts ← server_hello_extensions config selected_idx mode;
  let sh := mkEmit (server_random config) legacy_session_id_echo TLS_AES_128_GCM_SHA256 sh_exts in
  body_len ← onw (on_buf (fun l =>
    with_region body_start (length l) 0 (ServerHelloEmit_encode sh;; c ← get; mret (cb_len c)) l));
  onw (set_pos (body_start + body_len));;
  onw (on_buf (patch_u24 hs_header_pos (Z.of_nat body_len mod 2 ^ 32)));;
  end_pos ← onw ow_len;
  payload ← unwrap (usub end_pos record_start ≫= fun n => usub n RECORD_HEADER_LEN);
  onw (on_buf (patch_u16 record_start (Z.of_nat payload mod 2 ^ 16)));;
  '(w, _) ← get;
  hs_message ← unwrap (sub (ow_buf w) hs_header_pos (ow_pos w));
  onk (transcript_update hs_message).

(** The key and nonce helpers of the server role: it writes with the server
    state and reads with the client state. *)
Definition server_handshake_aead_key {S} (ks : KeySchedule) : M S TlsError (list byte) :=
  mret (key (r_state (server_state ks))).
Definition server_handshake_aead_nonce {S} (ks : KeySchedule) : M S TlsError (list byte) :=
  read_get_nonce ks.
Definition client_handshake_aead_key {S} (ks : KeySchedule) : M S TlsError (list byte) :=
  mret (key (w_state (client_state ks))).
Definition client_handshake_aead_nonce {S} (ks : KeySchedule) : M S TlsError (list byte) :=
  write_get_nonce ks.

Definition crypto_error {S E A} (m : M S E A) : M S TlsError A := map_err (fun _ => CryptoError) m.

(** [inner_encoder] runs on the borrowed region and the key schedule. *)
Definition on_region {A} (a b : nat) (m : M (list byte * KeySchedule) TlsError A) : WM A :=
  fun st =>
    let '(w, ks) := st in
    match sub (ow_buf w) a b with
    | Some region =>
        let '(r, (region', ks')) := m (region, ks) in
        (r, (mkOut (take a (ow_buf w) ++ region' ++ drop b (ow_buf w)) (ow_pos w), ks'))
    | None => (Panic, st)
    end.

Definition write_encrypted_handshake_record
    (inner_encoder : M (list byte * KeySchedule) TlsError nat) : WM unit :=
  record_start ← onw ow_len;
  onw (append [ct_byte CT_ApplicationData; x03; x03; x00; x00]);;
  inner_start ← onw ow_len;
  '(w, _) ← get;
  let remaining := length (ow_buf w) - inner_start in
  if decide (remaining < 1 + TagLen) then err InsufficientSpace
  else
    let inner_max := remaining - 1 - TagLen in
    inner_len ← on_region inner_start (inner_start + inner_max) inner_encoder;
    onw (on_buf (lset (inner_start + inner_len) (ct_byte CT_Handshake)));;
    let plaintext_len := inner_len + 1 in
    '(w, _) ← get;
    hs_message ← unwrap (sub (ow_buf w) inner_start (inner_start + inner_len));
    onk (transcript_update hs_message);;
    let ciphertext_len := plaintext_len + TagLen in
    let len_bytes := be_bytes 2 (Z.of_nat ciphertext_len) in
    let additional_data := [ct_byte CT_ApplicationData; x03; x03] ++ len_bytes in
    '(w, ks) ← get;
    key ← server_handshake_aead_key ks;
    nonce ← server_handshake_aead_nonce ks;
    let region_end := inner_start + ciphertext_len in
    if decide (length (ow_buf w) < region_end) then err InsufficientSpace
    else
      onw (on_buf (crypto_error (with_region inner_start region_end plaintext_len
        (encrypt_in_place key nonce additional_data))));;
      onw (set_pos region_end);;
      onk read_increment_counter;;
      onw (on_buf (lwrite (record_start + 3) len_bytes)).

Definition encode_encrypted_extensions : M (list byte * KeySchedule) TlsError nat :=
  '(out, _) ← get;
  if decide (length out < HANDSHAKE_HEADER_LEN + 2) then err InsufficientSpace
  else
    on_fst (lset 0 (hs_byte HT_EncryptedExtensions);; lset 1 x00;; lset 2 x00;; lset 3 x02;;
            lset 4 x00;; lset 5 x00);;
    mret 6.

Definition encode_server_finished : M (list byte * KeySchedule) TlsError nat :=
  let total := HANDSHAKE_HEADER_LEN + HashLen in
  '(out, ks) ← get;
  if decide (length out < total) then err InsufficientSpace
  else
    finished ← crypto_error (E := TlsError) (create_server_finished ks);
    on_fst (lset 0 (hs_byte HT_Finished);; lset 1 x00;;
            lset 2 (u8 (Z.of_nat HashLen ≫ 8));; lset 3 (u8 (Z.of_nat HashLen));;
            (if decide (length (verify finished) = HashLen)
             then lwrite HANDSHAKE_HEADER_LEN (verify finished) else panic));;
    mret total.
End Server.

Abbreviation WM := (M (OutWriter * KeySchedule) TlsError).

Section Steps.
Context `{CS : TlsCipherSuite, X : X25519Ops}.

(** ** The ClientHello step *)

(** What [process_client_hello_inner] borrows mutably. *)
Record HelloState : Type := mkHelloState {
  hl_schedule : KeySchedule;
  hl_hrr : HrrState;
  hl_out : list byte;
}.

Definition on_schedule {E A} (m : M KeySchedule E A) : M HelloState E A :=
  zoom hl_schedule (fun ks st => mkHelloState ks (hl_hrr st) (hl_out st)) m.
Definition on_hrr {E A} (m : M HrrState E A) : M HelloState E A :=
  zoom hl_hrr (fun h st => mkHelloState (hl_schedule st) h (hl_out st)) m.

(** [let mut writer = OutWriter::new(out);] and the code that uses it *)
Definition with_writer {A} (m : WM A) : M HelloState TlsError A :=
  zoom (fun st => (mkOut (hl_out st) 0, hl_schedule st))
       (fun p st => mkHelloState (snd p) (hl_hrr st) (ow_buf (fst p))) m.

(** The binder check: on the second ClientHello the base is the running
    transcript, and the early secret is not recomputed. *)
Definition check_binder (ch_handshake_message : list byte) (config : TlsServerConfig)
    (hello : ClientHelloRef) (received_binder : list byte) : M HelloState TlsError unit :=
  st ← get;
  (if sent (hl_hrr st) then mret tt
   else on_schedule (crypto_error (initialize_early_secret (Some (psk_secret config)))));;
  st' ← get;
  let base := if sent (hl_hrr st) then transcript_hash (hl_schedule st') else [] in
  prefix ← unwrap (sub ch_handshake_message 0 (binders_start_offset hello));
  binder_ok ← crypto_error (E := TlsError)
                (verify_psk_binder (hl_schedule st') (base ++ prefix) received_binder);
  if binder_ok : bool then mret tt else err (abort_fatal DecryptError).

(** The snapshot of CH1 taken after a HelloRetryRequest. *)
Definition record_hrr {E} (hello : ClientHelloRef) : M HrrState E unit :=
  h ← get;
  let sid := legacy_session_id hello in
  if decide (length sid <= length (ch1_session_id h))
  then put (mkHrr true (random hello) (u8_of_nat (length sid)) (splice (ch1_session_id h) 0 sid))
  else panic.

(** The handshake secret of the negotiated mode. *)
Definition derive_handshake_secret (config : TlsServerConfig) (mode : KexMode) :
    M KeySchedule TlsError unit :=
  match mode with
  | KexPskKe => crypto_error initialize_handshake_secret_psk_ke
  | KexPskDheKe client_x25519_pub =>
      dhe ← ok_or (dhe_keypair config) InternalError;
      if decide (length client_x25519_pub <> X25519_LEN) then err (abort_fatal IllegalParameter)
      else
        let shared := x25519 (dhe_secret dhe) client_x25519_pub in
        if all_zero shared then err (abort_fatal IllegalParameter)
        else crypto_error (initialize_handshake_secret shared)
  end.

Definition write_first_flight (config : TlsServerConfig) (hello : ClientHelloRef)
    (selected_idx : Z) (mode : KexMode) : WM nat :=
  write_server_hello_record config (legacy_session_id hello) selected_idx mode;;
  on_snd (derive_handshake_secret config mode);;
  write_encrypted_handshake_record encode_encrypted_extensions;;
  write_encrypted_handshake_record encode_server_finished;;
  on_fst ow_len.

Definition process_client_hello_inner (ch_handshake_message : list byte)
    (config : TlsServerConfig) : M HelloState TlsError HandshakeOutput :=
  '(hello, rest) ← run_on (pb_new ch_handshake_message)
    (h ← ClientHelloRef_parse CLIENT_HELLO_MAX_EXTENSIONS; b ← get; mret (h, b));
  if negb (is_empty rest) then err InvalidHandshake
  else
    validate_supported_versions hello;;
    validate_cipher_suites hello;;
    st ← get;
    (if sent (hl_hrr st) then validate_ch2_consistency hello (hl_hrr st) else mret tt);;
    decision ← decide_kex hello config (sent (hl_hrr st));
    '(selected_idx, received_binder) ← locate_our_identity hello config;
    check_binder ch_handshake_message config hello received_binder;;
    match decision with
    | Retry retry_group =>
        len ← with_writer
          (write_hello_retry_request_record (legacy_session_id hello) retry_group
             ch_handshake_message;;
           on_fst ow_len);
        on_hrr (record_hrr hello);;
        st' ← get;
        bytes ← unwrap (sub (hl_out st') 0 len);
        mret (HelloRetryRequest bytes)
    | Use mode =>
        on_schedule (transcript_update ch_handshake_message);;
        len ← with_writer (write_first_flight config hello selected_idx mode);
        st' ← get;
        bytes ← unwrap (sub (hl_out st') 0 len);
        mret (FirstFlight bytes)
    end.

(** The free function of the 0.2 interface: no HelloRetryRequest. *)
Definition process_client_hello (ch_handshake_message : list byte) (config : TlsServerConfig) :
    M (KeySchedule * list byte) TlsError (list byte) :=
  r ← zoom (fun st => mkHelloState (fst st) HrrState_default (snd st))
           (fun h st => (hl_schedule h, hl_out h))
           (process_client_hello_inner ch_handshake_message config);
  match r with
  | FirstFlight bytes => mret bytes
  | HelloRetryRequest _ => err (abort_fatal HandshakeFailure)
  end.

(** ** The Finished step *)

(** [RECORD_HEADER_LEN + body_len != record.len()] and what precedes it. *)
Definition check_record_header {S} (encrypted_record : list byte) : M S TlsError nat :=
  if decide (length encrypted_record < RECORD_HEADER_LEN) then err InvalidRecord
  else
    t ← unwrap (encrypted_record !! 0);
    if decide (t <> ct_byte CT_ApplicationData) then err InvalidRecord
    else
      b3 ← unwrap (encrypted_record !! 3);
      b4 ← unwrap (encrypted_record !! 4);
      let body_len := Z.to_nat (from_be [b3; b4]) in
      if decide (RECORD_HEADER_LEN + body_len <> length encrypted_record) then err InvalidRecord
      else mret body_len.

Definition nonzero (b : byte) : bool := bool_decide (b <> x00).

(** Strip the padding: the content and its inner content type. *)
Definition strip_padding {S} (plaintext : list byte) : M S TlsError (nat * ContentType) :=
  pad_end ← ok_or (rposition nonzero plaintext) InvalidRecord;
  t ← unwrap (plaintext !! pad_end);
  inner_ct ← ok_or (ContentType_of t) InvalidRecord;
  mret (pad_end, inner_ct).

(** Copy the body of a record into the front of a buffer and decrypt it there
    with the client's keys; the client's counter moves on success.  Returns the
    length of the plaintext. *)
Definition decrypt_client_record (encrypted_record : list byte) (body_len : nat) :
    M (KeySchedule * list byte) TlsError nat :=
  body ← unwrap (sub encrypted_record RECORD_HEADER_LEN (length encrypted_record));
  on_snd (if decide (length body = body_len) then lwrite 0 body else panic);;
  '(ks, _) ← get;
  key ← client_handshake_aead_key ks;
  nonce ← client_handshake_aead_nonce ks;
  header ← unwrap (sub encrypted_record 0 RECORD_HEADER_LEN);
  plaintext_len ← on_snd (with_region 0 body_len body_len
    (crypto_error (decrypt_in_place key nonce header);; c ← get; mret (cb_len c)));
  on_fst write_increment_counter;;
  mret plaintext_len.

Definition parse_finished : TM (list byte) :=
  msg_type ← inv_hs read_u8;
  if decide (msg_type <> hs_byte HT_Finished) then err InvalidHandshake
  else
    body_len ← inv_hs read_u24;
    if decide (Z.to_nat body_len <> HashLen) then err InvalidHandshake
    else
      verify ← inv_hs (fill HashLen);
      p ← get;
      if negb (is_empty p) then err InvalidHandshake else mret verify.

Definition process_client_finished (encrypted_record : list byte) : M KeySchedule TlsError unit :=
  body_len ← check_record_header encrypted_record;
  ks ← get;
  let pre_finished_snapshot := digest_out (transcript_hash ks) in
  if decide (256 < body_len) then err InsufficientSpace
  else
    plaintext ← zoom (fun ks => (ks, zeros 256)) (fun p _ => fst p)
      (n ← decrypt_client_record encrypted_record body_len;
       st ← get; unwrap (sub (snd st) 0 n));
    '(pad_end, inner_ct) ← strip_padding plaintext;
    if decide (inner_ct <> CT_Handshake) then err InvalidRecord
    else
      let inner := take pad_end plaintext in
      verify ← run_on (pb_new inner) parse_finished;
      ks' ← get;
      ok ← crypto_error (E := TlsError)
             (verify_client_finished ks' (mkFinished verify (Some pre_finished_snapshot)));
      if negb ok then err (abort_fatal DecryptError)
      else
        crypto_error initialize_master_secret;;
        transcript_update inner.

(** ** Application data and alerts *)

(** The header and the associated data of an outgoing record. *)
Definition record_header (ciphertext_len : nat) : list byte :=
  [ct_byte CT_ApplicationData; x03; x03] ++ be_bytes 2 (Z.of_nat ciphertext_len).

(** Write the header, the inner plaintext and its content type at the front of
    [out], encrypt in place with the server's keys and move the counter. *)
Definition encrypt_record (inner : list byte) (marker : ContentType) :
    M (KeySchedule * list byte) TlsError (list byte) :=
  let plaintext_with_marker := length inner + 1 in
  let ciphertext_len := plaintext_with_marker + TagLen in
  let total := RECORD_HEADER_LEN + ciphertext_len in
  on_snd (lwrite 0 (record_header ciphertext_len));;
  on_snd (lwrite RECORD_HEADER_LEN inner);;
  on_snd (lset (RECORD_HEADER_LEN + length inner) (ct_byte marker));;
  '(ks, _) ← get;
  key ← server_handshake_aead_key ks;
  nonce ← server_handshake_aead_nonce ks;
  on_snd (crypto_error (with_region RECORD_HEADER_LEN (RECORD_HEADER_LEN + ciphertext_len)
    plaintext_with_marker (encrypt_in_place key nonce (record_header ciphertext_len))));;
  on_fst read_increment_counter;;
  '(_, out) ← get;
  unwrap (sub out 0 total).

Definition encrypt_application_data (plaintext : list byte) :
    M (KeySchedule * list byte) TlsError (list byte) :=
  let ciphertext_len := length plaintext + 1 + TagLen in
  '(_, out) ← get;
  if decide (length out < RECORD_HEADER_LEN + ciphertext_len) then err InsufficientSpace
  else if decide (65535 < Z.of_nat ciphertext_len)%Z then err EncodeError
  else encrypt_record plaintext CT_ApplicationData.

Definition encrypt_alert_record (level : AlertLevel) (description : AlertDescription) :
    M (KeySchedule * list byte) TlsError (list byte) :=
  let ciphertext_len := 2 + 1 + TagLen in
  '(_, out) ← get;
  if decide (length out < RECORD_HEADER_LEN + ciphertext_len) then err InsufficientSpace
  else encrypt_record [u8 (AlertLevel_code level); u8 (AlertDescription_code description)] CT_Alert.

(** The common part of the two decryption functions: the content and its type,
    and the plaintext buffer. *)
Definition decrypt_record (encrypted_record : list byte) :
    M (KeySchedule * list byte) TlsError (nat * ContentType) :=
  body_len ← check_record_header encrypted_record;
  '(_, plaintext_buf) ← get;
  if decide (length plaintext_buf < body_len) then err InsufficientSpace
  else
    plaintext_len ← decrypt_client_record encrypted_record body_len;
    '(_, buf) ← get;
    plaintext ← unwrap (sub buf 0 plaintext_len);
    strip_padding plaintext.

Definition decrypt_application_data (encrypted_record : list byte) :
    M (KeySchedule * list byte) TlsError (list byte) :=
  '(pad_end, inner_ct) ← decrypt_record encrypted_record;
  if decide (inner_ct <> CT_ApplicationData) then err InvalidRecord
  else
    '(_, buf) ← get;
    unwrap (sub buf 0 pad_end).

Definition decrypt_app_data_or_alert (encrypted_record : list byte) :
    M (KeySchedule * list byte) TlsError AppDataOrAlert :=
  '(pad_end, inner_ct) ← decrypt_record encrypted_record;
  '(_, buf) ← get;
  match inner_ct with
  | CT_ApplicationData => bytes ← unwrap (sub buf 0 pad_end); mret (AppData bytes)
  | CT_Alert =>
      if decide (pad_end <> 2) then err InvalidRecord
      else
        b0 ← unwrap (buf !! 0);
        level ← ok_or (AlertLevel_of b0) DecodeError;
        b1 ← unwrap (buf !! 1);
        description ← ok_or (AlertDescription_of b1) DecodeError;
        mret (AlertRecord level description)
  | _ => err InvalidRecord
  end.

(** ** TlsServerSession *)

Record TlsServerSession : Type := mkSession { ses_schedule : KeySchedule; ses_hrr : HrrState }.

Definition TlsServerSession_new : TlsServerSession :=
  mkSession KeySchedule_new HrrState_default.

(** The state of a call is the session and the caller's output buffer. *)
Definition session_process_client_hello (ch : list byte) (config : TlsServerConfig) :
    M (TlsServerSession * list byte) TlsError HandshakeOutput :=
  zoom (fun st => mkHelloState (ses_schedule (fst st)) (ses_hrr (fst st)) (snd st))
       (fun h _ => (mkSession (hl_schedule h) (hl_hrr h), hl_out h))
       (process_client_hello_inner ch config).

Definition session_process_client_finished (encrypted_record : list byte) :
    M TlsServerSession TlsError unit :=
  zoom ses_schedule (fun ks s => mkSession ks (ses_hrr s)) (process_client_finished encrypted_record).

(** The record methods delegate to the free functions on the schedule. *)
Definition on_session {A} (m : M (KeySchedule * list byte) TlsError A) :
    M (TlsServerSession * list byte) TlsError A :=
  zoom (fun st => (ses_schedule (fst st), snd st))
       (fun p st => (mkSession (fst p) (ses_hrr (fst st)), snd p)) m.

Definition session_encrypt_app_data (plaintext : list byte) := on_session (encrypt_application_data plaintext).
Definition session_decrypt_app_data (r : list byte) := on_session (decrypt_application_data r).
Definition session_encrypt_alert (l : AlertLevel) (d : AlertDescription) :=
  on_session (encrypt_alert_record l d).
Definition session_decrypt_app_data_or_alert (r : list byte) :=
  on_session (decrypt_app_data_or_alert r).
End Steps.
