(* ===== verification/ServerRecords.v ===== *)
(** Records written and read by the server: the output writer, plaintext and
    encrypted handshake records, application data and alerts.

    A writer is always [W ws tail]: [ws] is written, [tail] is left.  The lemmas
    give the exact bytes of each record; the properties are the round trips of
    application data and alerts, their totality, and the uniqueness of nonces. *)

From S2P Require Import Prelude Errors CryptoBuffer ParseBuffer Wire ExtensionData Extensions.
From S2P Require Import CryptoSuite KeySchedule KeyScheduleProps ClientHello Handshake Server.
From Stdlib Require Import ZArith Lia.
From Stdlib Require Import Strings.Byte.
From stdpp Require Import base list option numbers tactics sets.

(** ** Byte buffers *)

Lemma lset_app {E} pre b post v i :
  i = length pre -> lset (E := E) i v (pre ++ b :: post) = (Ok tt, pre ++ v :: post).
Proof.
  intros ->. unfold lset. rewrite decide_True by len.
  by rewrite insert_app_r_alt, Nat.sub_diag by lia.
Qed.

Lemma lwrite_app {E} pre old post xs a :
  a = length pre -> length old = length xs ->
  lwrite (E := E) a xs (pre ++ old ++ post) = (Ok tt, pre ++ xs ++ post).
Proof. intros -> Hl. unfold lwrite. rewrite decide_True by len. by rewrite splice_app. Qed.

Lemma u8_shiftr n k : u8 (n ≫ (8 * Z.of_nat k)) = nth 0 (be_bytes (S k) n) x00.
Proof. done. Qed.

Lemma be_bytes_2 n : be_bytes 2 n = [u8 (n ≫ 8); u8 n].
Proof. cbn [be_bytes]. by rewrite Z.shiftr_0_r. Qed.
Lemma be_bytes_3 n : be_bytes 3 n = [u8 (n ≫ 16); u8 (n ≫ 8); u8 n].
Proof. cbn [be_bytes]. by rewrite Z.shiftr_0_r. Qed.

Lemma patch_u24_app pre t a b c post n pos :
  pos = length pre ->
  patch_u24 pos n (pre ++ t :: a :: b :: c :: post) = (Ok tt, pre ++ t :: be_bytes 3 n ++ post).
Proof.
  intros ->. unfold patch_u24. rewrite be_bytes_3.
  rewrite (cons_middle t), (assoc_L (++)).
  erewrite bind_Ok by (apply lset_app; len).
  rewrite (cons_middle (u8 (n ≫ 16))), (assoc_L (++)).
  erewrite bind_Ok by (apply lset_app; len).
  rewrite (cons_middle (u8 (n ≫ 8))), (assoc_L (++)).
  rewrite lset_app by len. by rewrite <-!(assoc_L (++)).
Qed.

Lemma patch_u16_app pre x y z a b post n pos :
  pos = length pre ->
  patch_u16 pos n (pre ++ x :: y :: z :: a :: b :: post)
  = (Ok tt, pre ++ x :: y :: z :: be_bytes 2 n ++ post).
Proof.
  intros ->. unfold patch_u16. rewrite be_bytes_2.
  change (pre ++ x :: y :: z :: a :: b :: post) with (pre ++ [x; y; z] ++ a :: b :: post).
  rewrite (assoc_L (++)).
  erewrite bind_Ok by (apply lset_app; len).
  rewrite (cons_middle (u8 (n ≫ 8))), (assoc_L (++)).
  rewrite lset_app by len. by rewrite <-!(assoc_L (++)).
Qed.

(** ** The writer *)

Definition W (ws tail : list byte) : OutWriter := mkOut (ws ++ tail) (length ws).

Lemma append_fits xs ws tail :
  length xs <= length tail -> append xs (W ws tail) = (Ok tt, W (ws ++ xs) (drop (length xs) tail)).
Proof.
  intros Hl. unfold append, W. simpl. rewrite decide_False by len.
  rewrite <-(take_drop (length xs) tail) at 1.
  rewrite splice_app by len. by rewrite length_app, <-(assoc_L (++)).
Qed.

Lemma append_full xs ws tail :
  length tail < length xs -> append xs (W ws tail) = (Err InsufficientSpace, W ws tail).
Proof. intros Hl. unfold append, W. simpl. by rewrite decide_True by len. Qed.

(** ** Record formats *)

(** A plaintext handshake record holding one message. *)
Definition handshake_message (t : HandshakeType) (body : list byte) : list byte :=
  hs_byte t :: vec24 body.
Definition plain_record (t : HandshakeType) (body : list byte) : list byte :=
  [ct_byte CT_Handshake; x03; x03] ++ vec16 (handshake_message t body).

Section Records.
Context `{CS : TlsCipherSuite, !TlsCipherSuiteLaws CS}.

(** Keys that can seal: sizes of the suite, a counter that is a u64. *)
Definition kss_wf (st : KeyScheduleState) : Prop :=
  length (key st) = KeyLen /\ length (iv st) = IvLen /\ (0 <= counter st < 2 ^ 64)%Z.

(** An encrypted record: [inner] with its content type, sealed under the keys of
    [st] at its current counter. *)
Definition sealed (st : KeyScheduleState) (inner : list byte) (t : ContentType) : list byte :=
  let p := inner ++ [ct_byte t] in
  let header := record_header (length p + TagLen) in
  match aead_seal (key st) (Record_Nonce (iv st) (counter st)) header p with
  | Some (c, tag) => header ++ c ++ tag
  | None => []
  end.

Definition bump (st : KeyScheduleState) : KeyScheduleState :=
  mkKSS (traffic_secret st) (counter st + 1) (key st) (iv st).

Lemma traffic_state_wf ts : HashLen <= length ts -> kss_wf (traffic_state ts).
Proof.
  intros H. split_and!; simpl; [| |lia|lia].
  - apply length_Expand; [done|apply key_len_bound].
  - apply length_Expand; [done|apply iv_len_bound].
Qed.

Lemma length_record_header n : length (record_header n) = 5.
Proof. done. Qed.

Lemma sealed_spec st inner t :
  kss_wf st -> (Z.of_nat (length inner) < 2 ^ 16 - 1)%Z ->
  exists c tag, aead_seal (key st) (Record_Nonce (iv st) (counter st))
      (record_header (length inner + 1 + TagLen)) (inner ++ [ct_byte t]) = Some (c, tag) /\
    length c = length inner + 1 /\ length tag = TagLen /\
    sealed st inner t = record_header (length inner + 1 + TagLen) ++ c ++ tag.
Proof.
  intros (Hk & Hi & _) Hl.
  destruct (seal_total (key st) (Record_Nonce (iv st) (counter st))
    (record_header (length inner + 1 + TagLen)) (inner ++ [ct_byte t])) as (c & tag & Hs & Hc & Ht).
  { done. } { by apply length_Record_Nonce. } { rewrite length_app. simpl. lia. }
  exists c, tag. rewrite length_app in Hc. simpl in Hc. split_and!; [done..|].
  unfold sealed. rewrite length_app. simpl length. by rewrite Hs.
Qed.

Lemma length_sealed st inner t :
  kss_wf st -> (Z.of_nat (length inner) < 2 ^ 16 - 1)%Z ->
  length (sealed st inner t) = 5 + (length inner + 1 + TagLen).
Proof.
  intros Hw Hl. destruct (sealed_spec st inner t Hw Hl) as (c & tag & _ & Hc & Ht & ->).
  rewrite !length_app, length_record_header. lia.
Qed.

Lemma with_region_encrypt k n a pre pt gap post c t :
  aead_seal k n a pt = Some (c, t) -> length c = length pt -> length gap = length t ->
  with_region (length pre) (length pre + (length pt + length t)) (length pt)
    (encrypt_in_place k n a) (pre ++ (pt ++ gap) ++ post)
  = (Ok tt, pre ++ (c ++ t) ++ post).
Proof.
  intros Hs Hc Hg. unfold with_region.
  replace (length pt + length t) with (length (pt ++ gap)) by len.
  pose proof (encrypt_in_place_spec k n a [] pt gap c t Hs Hc ltac:(lia)) as He.
  rewrite drop_ge, (app_nil_r t) in He by lia. simpl in He.
  rewrite sub_app. unfold wrap_with_pos. rewrite He. simpl.
  rewrite take_app_length, <-drop_drop, drop_app_length.
  by rewrite drop_app_length.
Qed.

(** ** Keys of the two directions *)

Definition server_keys (ks : KeySchedule) : KeyScheduleState := r_state (server_state ks).
Definition client_keys (ks : KeySchedule) : KeyScheduleState := w_state (client_state ks).

Definition with_server_keys (st : KeyScheduleState) (ks : KeySchedule) : KeySchedule :=
  mkKS (shared ks) (client_state ks) (mkRead st (r_transcript (server_state ks))).
Definition with_client_keys (st : KeyScheduleState) (ks : KeySchedule) : KeySchedule :=
  mkKS (shared ks) (mkWrite st (binder_key (client_state ks))) (server_state ks).

Lemma read_increment_spec ks :
  (counter (server_keys ks) + 1 < 2 ^ 64)%Z ->
  read_increment_counter ks = (Ok tt, with_server_keys (bump (server_keys ks)) ks).
Proof.
  intros H. unfold read_increment_counter, zoom, kss_increment_counter.
  rewrite bind_get. by rewrite decide_True.
Qed.

Lemma write_increment_spec ks :
  write_increment_counter ks
  = if decide (counter (client_keys ks) + 1 < 2 ^ 64)%Z
    then (Ok tt, with_client_keys (bump (client_keys ks)) ks) else (Panic, ks).
Proof.
  unfold write_increment_counter, zoom, kss_increment_counter. rewrite bind_get.
  unfold client_keys. case_decide; [done|]. simpl. by destruct ks as [? [] ?].
Qed.

(** ** Sealing a record *)

(** The parts of an output buffer: header, plaintext, marker, tag, rest. *)
Lemma split_out (out : list byte) n :
  5 + (n + 1 + TagLen) <= length out ->
  exists o1 o2 b gap, out = o1 ++ o2 ++ b :: gap ++ drop (5 + (n + 1 + TagLen)) out /\
    length o1 = 5 /\ length o2 = n /\ length gap = TagLen.
Proof.
  intros Hl. destruct (list_split3 out 5 n) as (o1 & o2 & o3 & -> & Ho1 & Ho2); [lia|].
  rewrite !length_app in Hl. destruct o3 as [|b o3]; [simpl in Hl; lia|]. simpl in Hl.
  exists o1, o2, b, (take TagLen o3). rewrite length_take. split_and!; [|done|done|lia].
  do 2 f_equal. replace (5 + (n + 1 + TagLen)) with (length (o1 ++ o2) + S TagLen) by len.
  rewrite (assoc_L (++)), <-drop_drop, drop_app_length. simpl. by rewrite take_drop.
Qed.

Lemma encrypt_record_spec inner t ks out :
  kss_wf (server_keys ks) -> (counter (server_keys ks) + 1 < 2 ^ 64)%Z ->
  (Z.of_nat (length inner) < 2 ^ 16 - 1)%Z ->
  5 + (length inner + 1 + TagLen) <= length out ->
  encrypt_record inner t (ks, out)
  = (Ok (sealed (server_keys ks) inner t),
     (with_server_keys (bump (server_keys ks)) ks,
      sealed (server_keys ks) inner t ++ drop (5 + (length inner + 1 + TagLen)) out)).
Proof.
  intros Hw Hctr Hl Hout.
  destruct (sealed_spec (server_keys ks) inner t Hw Hl) as (c & tag & Hs & Hc & Ht & Hsealed).
  set (n := length inner + 1 + TagLen) in *. set (hdr := record_header n) in *.
  destruct (split_out out (length inner) Hout) as (o1 & o2 & b4 & gap & Ho & Ho1 & Ho2 & Hgap).
  fold n in Ho. set (rest := drop (5 + n) out) in *. clearbody rest. subst out.
  unfold encrypt_record. fold n hdr.
  erewrite bind_Ok by (unfold on_snd, zoom; simpl snd;
    rewrite <-(app_nil_l (o1 ++ _)), (lwrite_app [] o1) by done; reflexivity).
  erewrite bind_Ok by (unfold on_snd, zoom; cbn [fst snd app];
    rewrite (lwrite_app hdr o2) by done; reflexivity).
  erewrite bind_Ok by (unfold on_snd, zoom; cbn [fst snd];
    rewrite (assoc_L (++) hdr inner), lset_app by (lens; done); reflexivity).
  rewrite bind_get. cbv beta iota. unfold server_handshake_aead_key. rewrite bind_ret.
  unfold server_handshake_aead_nonce, read_get_nonce, kss_get_nonce.
  rewrite (bind_Ok _ _ _ _ _ (get_nonce_spec _ _ _)). fold (server_keys ks).
  erewrite bind_Ok.
  2:{ unfold on_snd, zoom. cbn [fst snd].
      replace ((hdr ++ inner) ++ ct_byte t :: gap ++ rest)
        with (hdr ++ ((inner ++ [ct_byte t]) ++ gap) ++ rest) by (by rewrite <-!(assoc_L (++))).
      replace (length inner + 1) with (length (inner ++ [ct_byte t])) by len.
      replace (RECORD_HEADER_LEN + n)
        with (length hdr + (length (inner ++ [ct_byte t]) + length tag))
        by (unfold n; rewrite Ht; lens; reflexivity).
      change RECORD_HEADER_LEN with (length hdr). unfold crypto_error.
      erewrite map_err_Ok by (apply with_region_encrypt; [exact Hs|lens; lia|lia]).
      reflexivity. }
  erewrite bind_Ok by (unfold on_fst, zoom; cbn [fst snd]; rewrite read_increment_spec by done;
    reflexivity).
  rewrite bind_get. cbv beta iota. cbn [fst snd].
  assert (hdr ++ (c ++ tag) ++ rest = [] ++ sealed (server_keys ks) inner t ++ rest) as ->.
  { rewrite Hsealed. cbn [app]. by rewrite <-!(assoc_L (++)). }
  replace (RECORD_HEADER_LEN + n) with (length (@nil byte) + length (sealed (server_keys ks) inner t)).
  2:{ rewrite Hsealed. simpl. rewrite !length_app. simpl. unfold n. lia. }
  change (sub ?l 0 ?x) with (sub l (length (@nil byte)) x). by rewrite sub_app.
Qed.

(** ** Opening a record *)

(** What decryption of a whole record with the keys of [st] yields. *)
Definition open_record (st : KeyScheduleState) (r : list byte) : option (list byte) :=
  let body := drop 5 r in
  if decide (length body < TagLen) then None
  else let n := length body - TagLen in
       aead_open (key st) (Record_Nonce (iv st) (counter st)) (take 5 r) (take n body) (drop n body).

Lemma open_record_length st r p :
  open_record st r = Some p -> 5 + length p + TagLen = length r.
Proof.
  unfold open_record. case_decide as Hd; [done|]. intros Hp%open_length.
  pose proof tag_len. revert Hd Hp. rewrite length_take, !length_drop. lia.
Qed.

Lemma decrypt_client_record_spec r bl ks buf :
  length r = 5 + bl -> bl <= length buf ->
  decrypt_client_record r bl (ks, buf)
  = match open_record (client_keys ks) r with
    | None => (Err CryptoError, (ks, drop 5 r ++ drop bl buf))
    | Some p =>
        let buf' := p ++ drop (length p) (drop 5 r) ++ drop bl buf in
        if decide (counter (client_keys ks) + 1 < 2 ^ 64)%Z
        then (Ok (length p), (with_client_keys (bump (client_keys ks)) ks, buf'))
        else (Panic, (ks, buf'))
    end.
Proof.
  intros Hr Hbuf. unfold decrypt_client_record. set (body := drop 5 r).
  assert (length body = bl) as Hbody by (unfold body; len).
  assert (sub r RECORD_HEADER_LEN (length r) = Some body) as ->.
  { rewrite sub_Some by (unfold RECORD_HEADER_LEN; lia). f_equal.
    apply take_ge. unfold body, RECORD_HEADER_LEN. len. }
  rewrite bind_unwrap_Some, decide_True by done.
  pose proof (lwrite_app (E := TlsError) [] (take bl buf) (drop bl buf) body 0 eq_refl
    ltac:(len)) as Hcopy. cbn [app] in Hcopy. rewrite take_drop in Hcopy.
  erewrite bind_Ok by (unfold on_snd, zoom; cbn [snd fst]; rewrite Hcopy; reflexivity).
  rewrite bind_get. cbv beta iota. unfold client_handshake_aead_key. rewrite bind_ret.
  unfold client_handshake_aead_nonce, write_get_nonce, kss_get_nonce.
  rewrite (bind_Ok _ _ _ _ _ (get_nonce_spec _ _ _)). fold (client_keys ks).
  assert (sub r 0 RECORD_HEADER_LEN = Some (take 5 r)) as ->.
  { unfold RECORD_HEADER_LEN. by rewrite sub_Some by lia. }
  rewrite bind_unwrap_Some. cbn [app].
  assert (forall (m : M CryptoBuffer TlsError nat),
    with_region 0 bl bl m (body ++ drop bl buf)
    = let '(x, c) := m (wrap_with_pos body (length body)) in (x, cb_buf c ++ drop bl buf)) as Hreg.
  { intros m. unfold with_region. pose proof (sub_app [] body (drop bl buf)) as Hsub.
    simpl in Hsub. rewrite Hbody in Hsub. rewrite Hsub, Hbody.
    assert (drop bl (body ++ drop bl buf) = drop bl buf) as ->
      by (rewrite <-Hbody at 1; apply drop_app_length).
    by destruct (m _). }
  unfold mbind at 1, M_bind at 1, on_snd at 1, zoom at 1. cbn [fst snd]. rewrite Hreg.
  assert (Hopen : open_record (client_keys ks) r =
    if decide (length body < TagLen) then None
    else aead_open (key (client_keys ks)) (Record_Nonce (iv (client_keys ks)) (counter (client_keys ks)))
           (take 5 r) (take (length body - TagLen) body) (drop (length body - TagLen) body))
    by done.
  unfold mbind at 1, M_bind at 1, crypto_error, map_err.
  rewrite decrypt_in_place_spec.
  rewrite Hopen. case_decide as Htag; [done|]. cbv zeta.
  destruct (aead_open _ _ _ _ _) as [p|] eqn:Hp; [|done].
  apply open_length in Hp. rewrite length_take in Hp.
  assert (length p = length body - TagLen) as Hlp by lia. rewrite <-Hlp.
  rewrite bind_get. unfold mret at 1, M_ret at 1. cbn [cb_buf cb_len].
  unfold mbind, M_bind, on_fst, zoom. cbn [fst snd]. rewrite write_increment_spec, <-(assoc_L (++)).
  by case_decide.
Qed.

Lemma check_record_header_cases {S} r (s : S) :
  (exists bl, check_record_header r s = (Ok bl, s) /\ length r = 5 + bl) \/
  check_record_header r s = (Err InvalidRecord, s).
Proof.
  unfold check_record_header, RECORD_HEADER_LEN. case_decide as Hl; [by right|].
  destruct r as [|b0 [|b1 [|b2 [|b3 [|b4 rest]]]]]; simpl in Hl; try lia.
  cbn [lookup list_lookup]. rewrite bind_unwrap_Some. case_decide; [by right|].
  rewrite !bind_unwrap_Some. case_decide as Hb; [by right|]. left. eexists. split; [done|]. lia.
Qed.

Lemma check_record_header_ok {S} n body (s : S) :
  length body = n -> (Z.of_nat n < 2 ^ 16)%Z ->
  check_record_header (record_header n ++ body) s = (Ok n, s).
Proof.
  intros Hb Hn. unfold check_record_header, RECORD_HEADER_LEN, record_header.
  pose proof (from_be_be_bytes 2 (Z.of_nat n)) as Hf. rewrite be_bytes_2 in *.
  rewrite decide_False by (simpl; lia). cbn [app lookup list_lookup].
  rewrite bind_unwrap_Some, decide_False by (intros H; by apply H). rewrite !bind_unwrap_Some.
  rewrite Hf, Z.mod_small, Nat2Z.id by lia. by rewrite decide_False by (simpl; lia).
Qed.

Lemma rposition_app {A} (p : A -> bool) pre x post :
  p x = true -> Forall (fun y => p y = false) post ->
  rposition p (pre ++ x :: post) = Some (length pre).
Proof.
  intros Hx HF. assert (rposition p post = None) as Hpost.
  { induction HF as [|y l Hy _ IH]; simpl; [done|]. by rewrite IH, Hy. }
  induction pre as [|a pre IH]; simpl; [by rewrite Hpost, Hx|]. by rewrite IH.
Qed.

Lemma rposition_lt {A} (p : A -> bool) l i : rposition p l = Some i -> i < length l.
Proof.
  revert i. induction l as [|a l IH]; intros i; simpl; [done|].
  destruct (rposition p l) as [j|]; [intros [= <-]; specialize (IH j eq_refl); lia|].
  case_match; [intros [= <-]; lia|done].
Qed.

Lemma strip_padding_cases {S} p (s : S) :
  (exists n t, strip_padding p s = (Ok (n, t), s) /\ n < length p /\ p !! n = Some (ct_byte t)) \/
  strip_padding p s = (Err InvalidRecord, s).
Proof.
  unfold strip_padding. destruct (rposition nonzero p) as [n|] eqn:Hr; [|by right].
  apply rposition_lt in Hr. destruct (lookup_lt_is_Some_2 p n Hr) as [b Hb].
  rewrite bind_ok_or_Some, Hb, bind_unwrap_Some.
  destruct (ContentType_of b) as [t|] eqn:Ht; [|by right]. left. exists n, t.
  split_and!; [done..|]. apply ContentType_code_of in Ht. unfold ct_byte. by rewrite <-Ht.
Qed.

(** An inner plaintext: content, its type, any zero padding. *)
Lemma strip_padding_ok {S} content t k (s : S) :
  ct_byte t <> x00 ->
  strip_padding (content ++ ct_byte t :: zeros k) s = (Ok (length content, t), s).
Proof.
  intros Ht. unfold strip_padding. rewrite rposition_app.
  - rewrite bind_ok_or_Some, lookup_app_r, Nat.sub_diag by lia.
    cbn [lookup list_lookup]. rewrite bind_unwrap_Some. unfold ct_byte.
    by rewrite ContentType_of_code.
  - unfold nonzero. by apply bool_decide_true.
  - apply Forall_replicate. done.
Qed.

(** ** Sender and receiver in step *)

Definition same_keys (st st' : KeyScheduleState) : Prop :=
  key st = key st' /\ iv st = iv st' /\ counter st = counter st'.

Lemma open_sealed st st' inner t :
  same_keys st st' -> kss_wf st -> (Z.of_nat (length inner) < 2 ^ 16 - 1)%Z ->
  open_record st' (sealed st inner t) = Some (inner ++ [ct_byte t]).
Proof.
  intros (Hk & Hi & Hc) Hw Hl.
  destruct (sealed_spec st inner t Hw Hl) as (c & tag & Hs & Hlc & Ht & ->).
  unfold open_record. rewrite <-Hk, <-Hi, <-Hc.
  change 5 with (length (record_header (length inner + 1 + TagLen))).
  rewrite drop_app_length, take_app_length, length_app.
  rewrite decide_False by lia. replace (length c + length tag - TagLen) with (length c) by lia.
  rewrite take_app_length, drop_app_length. by apply open_seal.
Qed.

Lemma decrypt_record_sealed st inner t ks buf :
  same_keys st (client_keys ks) -> kss_wf st -> (counter st + 1 < 2 ^ 64)%Z ->
  ct_byte t <> x00 -> (Z.of_nat (length inner + 1 + TagLen) < 2 ^ 16)%Z ->
  length inner + 1 + TagLen <= length buf ->
  exists rest, decrypt_record (sealed st inner t) (ks, buf)
    = (Ok (length inner, t),
       (with_client_keys (bump (client_keys ks)) ks, inner ++ ct_byte t :: rest)) /\
    length (inner ++ ct_byte t :: rest) = length buf.
Proof.
  intros Hsync Hw Hctr Ht Hl Hbuf. pose proof (length_sealed st inner t Hw ltac:(lia)) as Hlen.
  pose proof (open_sealed st (client_keys ks) inner t Hsync Hw ltac:(lia)) as Hopen.
  unfold decrypt_record.
  rewrite (bind_Ok _ _ _ (length inner + 1 + TagLen) (ks, buf)).
  2:{ destruct (sealed_spec st inner t Hw ltac:(lia)) as (c & tag & _ & ? & ? & ->).
      apply check_record_header_ok; [len|lia]. }
  rewrite bind_get. cbv beta iota. rewrite decide_False by lia.
  erewrite bind_Ok.
  2:{ rewrite decrypt_client_record_spec by lia. rewrite Hopen. cbv zeta.
      destruct Hsync as (_ & _ & <-). rewrite decide_True by done. reflexivity. }
  rewrite bind_get. cbv beta iota. set (rest := drop _ (drop 5 _) ++ _). exists rest.
  split; [|rewrite length_app; cbn [length]; unfold rest; rewrite !length_app, !length_drop, Hlen;
           simpl; lia].
  pose proof (sub_app [] (inner ++ [ct_byte t]) rest) as Hsub. simpl in Hsub. rewrite Hsub.
  rewrite bind_unwrap_Some. pose proof (strip_padding_ok inner t 0
    (with_client_keys (bump (client_keys ks)) ks, (inner ++ [ct_byte t]) ++ rest) Ht) as Hstrip.
  change (zeros 0) with (@nil byte) in Hstrip. rewrite Hstrip. by rewrite <-(assoc_L (++)).
Qed.

(** What a peer sends after the handshake: data or an alert. *)
Definition item_inner (x : AppDataOrAlert) : list byte * ContentType :=
  match x with
  | AppData d => (d, CT_ApplicationData)
  | AlertRecord l d => ([u8 (AlertLevel_code l); u8 (AlertDescription_code d)], CT_Alert)
  end.

Definition send_item (x : AppDataOrAlert) : M (KeySchedule * list byte) TlsError (list byte) :=
  match x with
  | AppData d => encrypt_application_data d
  | AlertRecord l d => encrypt_alert_record l d
  end.

(** Sending and receiving sequences: the loop of a caller. *)
Fixpoint send_all (items : list AppDataOrAlert) :
    M (KeySchedule * list byte) TlsError (list (list byte)) :=
  match items with
  | [] => mret []
  | x :: items' => r ← send_item x; rs ← send_all items'; mret (r :: rs)
  end.

Fixpoint receive_all (records : list (list byte)) :
    M (KeySchedule * list byte) TlsError (list AppDataOrAlert) :=
  match records with
  | [] => mret []
  | r :: records' => x ← decrypt_app_data_or_alert r; xs ← receive_all records'; mret (x :: xs)
  end.

Definition item_ok (n : nat) (x : AppDataOrAlert) : Prop :=
  let '(inner, _) := item_inner x in
  (Z.of_nat (length inner + 1 + TagLen) <= 65535)%Z /\ 5 + (length inner + 1 + TagLen) <= n.

Lemma send_item_spec x ks out :
  kss_wf (server_keys ks) -> (counter (server_keys ks) + 1 < 2 ^ 64)%Z -> item_ok (length out) x ->
  exists rest, send_item x (ks, out)
    = (Ok (sealed (server_keys ks) (fst (item_inner x)) (snd (item_inner x))),
       (with_server_keys (bump (server_keys ks)) ks, rest)) /\ length rest = length out.
Proof.
  intros Hw Hctr. pose proof tag_len as Htag.
  destruct x as [d|l d]; unfold item_ok; cbn [item_inner fst snd length]; intros [Hl Hn].
  - unfold send_item, encrypt_application_data. rewrite bind_get. cbv beta iota.
    unfold RECORD_HEADER_LEN. rewrite decide_False, decide_False by lia.
    rewrite encrypt_record_spec by (done || lia). eexists. split; [done|].
    rewrite length_app, length_sealed, length_drop by (done || lia). lia.
  - unfold send_item, encrypt_alert_record. rewrite bind_get. cbv beta iota.
    unfold RECORD_HEADER_LEN. rewrite decide_False by lia.
    rewrite encrypt_record_spec by (done || (simpl; lia)). eexists. split; [done|].
    rewrite length_app, length_sealed, length_drop by (done || (simpl; lia)). simpl. lia.
Qed.

Lemma receive_item_spec x st ks buf :
  same_keys st (client_keys ks) -> kss_wf st -> (counter st + 1 < 2 ^ 64)%Z ->
  item_ok (5 + length buf) x ->
  exists buf', decrypt_app_data_or_alert (sealed st (fst (item_inner x)) (snd (item_inner x))) (ks, buf)
    = (Ok x, (with_client_keys (bump (client_keys ks)) ks, buf')) /\ length buf' = length buf.
Proof.
  intros Hsync Hw Hctr. destruct x as [d|l d]; unfold item_ok; cbn [item_inner fst snd];
    intros [Hl Hn]; unfold decrypt_app_data_or_alert.
  - destruct (decrypt_record_sealed st d CT_ApplicationData ks buf) as (rest & Hrest & Hlen);
      [done..|lia|lia|]. rewrite (bind_Ok _ _ _ _ _ Hrest). cbv beta iota.
    rewrite bind_get. cbv beta iota.
    pose proof (sub_app [] d (ct_byte CT_ApplicationData :: rest)) as Hsub. simpl in Hsub.
    rewrite Hsub. eauto.
  - destruct (decrypt_record_sealed st [u8 (AlertLevel_code l); u8 (AlertDescription_code d)]
      CT_Alert ks buf) as (rest & Hrest & Hlen); [done..|lia|lia|].
    rewrite (bind_Ok _ _ _ _ _ Hrest). cbv beta iota. rewrite bind_get. cbv beta iota.
    rewrite decide_False by (intros H; by apply H). cbn [app lookup list_lookup].
    rewrite bind_unwrap_Some, AlertLevel_of_code, bind_ok_or_Some, bind_unwrap_Some.
    rewrite AlertDescription_of_code. eauto.
Qed.

Lemma bump_wf st : kss_wf st -> (counter st + 1 < 2 ^ 64)%Z -> kss_wf (bump st).
Proof. unfold kss_wf. simpl. lia. Qed.

Lemma same_keys_bump st st' : same_keys st st' -> same_keys (bump st) (bump st').
Proof. unfold same_keys. simpl. intros (-> & -> & ->). done. Qed.

(** The records of a sequence, and the state it leaves. *)
Fixpoint sealed_all (st : KeyScheduleState) (items : list AppDataOrAlert) : list (list byte) :=
  match items with
  | [] => []
  | x :: items' => sealed st (fst (item_inner x)) (snd (item_inner x)) :: sealed_all (bump st) items'
  end.
Fixpoint bump_n (n : nat) (st : KeyScheduleState) : KeyScheduleState :=
  match n with O => st | S n' => bump_n n' (bump st) end.

Lemma send_all_spec items : forall ks out,
  kss_wf (server_keys ks) ->
  (counter (server_keys ks) + Z.of_nat (length items) < 2 ^ 64)%Z ->
  Forall (item_ok (length out)) items ->
  exists ks' out', send_all items (ks, out)
    = (Ok (sealed_all (server_keys ks) items), (ks', out')) /\
    server_keys ks' = bump_n (length items) (server_keys ks) /\ length out' = length out.
Proof.
  induction items as [|x items IH]; intros ks out Hw Hctr HF; simpl in *; [by eauto|].
  apply Forall_cons in HF as [Hx HF].
  destruct (send_item_spec x ks out) as (out1 & Hs & Ho); [done|lia|done|].
  rewrite (bind_Ok _ _ _ _ _ Hs).
  set (ks1 := with_server_keys _ ks) in *.
  destruct (IH ks1 out1) as (ks' & out' & Hr & Hk & Hl).
  - by apply bump_wf; [|lia].
  - simpl. lia.
  - by rewrite Ho.
  - rewrite (bind_Ok _ _ _ _ _ Hr). exists ks', out'. split_and!; [done|done|lia].
Qed.

Lemma receive_all_spec items : forall st ks buf,
  same_keys st (client_keys ks) -> kss_wf st ->
  (counter st + Z.of_nat (length items) < 2 ^ 64)%Z ->
  Forall (item_ok (5 + length buf)) items ->
  exists ks' buf', receive_all (sealed_all st items) (ks, buf) = (Ok items, (ks', buf')) /\
    client_keys ks' = bump_n (length items) (client_keys ks).
Proof.
  induction items as [|x items IH]; intros st ks buf Hsync Hw Hctr HF; simpl in *; [by eauto|].
  apply Forall_cons in HF as [Hx HF].
  destruct (receive_item_spec x st ks buf) as (buf1 & Hr & Hl); [done|done|lia|done|].
  rewrite (bind_Ok _ _ _ _ _ Hr).
  destruct (IH (bump st) (with_client_keys (bump (client_keys ks)) ks) buf1)
    as (ks' & buf' & Hrs & Hk).
  - by apply same_keys_bump.
  - apply bump_wf; [done|lia].
  - simpl. lia.
  - by rewrite Hl.
  - rewrite (bind_Ok _ _ _ _ _ Hrs). by eauto.
Qed.

Lemma bump_n_keys n : forall st, key (bump_n n st) = key st /\ iv (bump_n n st) = iv st /\
  counter (bump_n n st) = (counter st + Z.of_nat n)%Z.
Proof.
  induction n as [|n IH]; intros st; simpl bump_n; [split_and!; [done..|lia]|].
  destruct (IH (bump st)) as (-> & -> & ->). simpl. split_and!; [done..|lia].
Qed.

(** ** What decryption accepts *)

Lemma rposition_zeros l :
  match rposition nonzero l with
  | Some n => exists x, l = take n l ++ x :: zeros (length l - n - 1) /\ x <> x00
  | None => l = zeros (length l)
  end.
Proof.
  induction l as [|a l IH]; simpl; [done|]. destruct (rposition nonzero l) as [n|].
  - destruct IH as (x & Hl & Hx). exists x. split; [|done]. simpl. by f_equal.
  - destruct (nonzero a) eqn:Ha.
    + exists a. unfold nonzero in Ha. apply bool_decide_eq_true in Ha. split; [|done].
      simpl. rewrite Nat.sub_0_r. by f_equal.
    + unfold nonzero in Ha. apply bool_decide_eq_false in Ha. unfold zeros in *. simpl.
      f_equal; [|done]. destruct (decide (a = x00)); [done|by destruct Ha].
Qed.

Lemma strip_padding_sound {S} p n t (s s' : S) :
  strip_padding p s = (Ok (n, t), s') ->
  s' = s /\ n < length p /\ p = take n p ++ ct_byte t :: zeros (length p - n - 1).
Proof.
  unfold strip_padding. pose proof (rposition_zeros p) as Hz.
  destruct (rposition nonzero p) as [m|] eqn:Hr; [|done].
  pose proof (rposition_lt _ _ _ Hr) as Hlt. destruct Hz as (x & Hp & Hx).
  rewrite bind_ok_or_Some. assert (p !! m = Some x) as Hl.
  { rewrite Hp, lookup_app_r; rewrite length_take; [|lia].
    by replace (m - m `min` length p) with 0 by lia. }
  rewrite Hl, bind_unwrap_Some. destruct (ContentType_of x) as [t'|] eqn:Ht; [|done].
  intros [= <- <- <-]. split_and!; [done..|]. unfold ct_byte.
  by rewrite <-(ContentType_code_of _ _ Ht).
Qed.

(** The outcome of [decrypt_record] on any record, buffer and schedule. *)
Lemma decrypt_record_cases r ks buf :
  (counter (client_keys ks) + 1 < 2 ^ 64)%Z ->
  wp (decrypt_record r) (ks, buf)
    (fun '(n, t) '(ks', buf') => exists p k rest,
       open_record (client_keys ks) r = Some p /\ p = take n p ++ ct_byte t :: zeros k /\
       n < length p /\ buf' = p ++ rest /\ ks' = with_client_keys (bump (client_keys ks)) ks)
    (fun _ '(ks', _) => ks' = ks \/
       is_Some (open_record (client_keys ks) r) /\ ks' = with_client_keys (bump (client_keys ks)) ks).
Proof.
  intros Hctr. unfold decrypt_record.
  destruct (check_record_header_cases r (ks, buf)) as [(bl & Hc & Hl)|Hc]; unfold wp.
  2:{ rewrite (bind_Err _ _ _ _ _ Hc). by left. }
  rewrite (bind_Ok _ _ _ _ _ Hc), bind_get. cbv beta iota. case_decide as Hb; [by left|].
  unfold mbind at 1, M_bind at 1. rewrite decrypt_client_record_spec by lia.
  destruct (open_record (client_keys ks) r) as [p|] eqn:Ho; [|by left]. cbv zeta.
  rewrite decide_True by done. rewrite bind_get. cbv beta iota.
  set (rest := drop _ (drop 5 r) ++ _).
  pose proof (sub_app [] p rest) as Hsub. simpl in Hsub. rewrite Hsub, bind_unwrap_Some.
  destruct (strip_padding_cases p (with_client_keys (bump (client_keys ks)) ks, p ++ rest))
    as [(n & t & Hs & _ & _)|Hs]; rewrite Hs.
  - apply strip_padding_sound in Hs as (_ & Hn & Hp). by exists p, (length p - n - 1), rest.
  - right. by split; [eexists|].
Qed.

Lemma decrypt_item_cases r ks buf :
  (counter (client_keys ks) + 1 < 2 ^ 64)%Z ->
  wp (decrypt_app_data_or_alert r) (ks, buf)
    (fun x '(ks', _) => exists k,
       open_record (client_keys ks) r
       = Some (fst (item_inner x) ++ ct_byte (snd (item_inner x)) :: zeros k) /\
       ks' = with_client_keys (bump (client_keys ks)) ks)
    (fun _ '(ks', _) => ks' = ks \/
       is_Some (open_record (client_keys ks) r) /\ ks' = with_client_keys (bump (client_keys ks)) ks).
Proof.
  intros Hctr. apply wp_bind. eapply wp_mono; [by apply decrypt_record_cases| |done].
  intros [n t] [ks' buf'] (p & k & rest & Ho & Hp & Hn & -> & ->). cbv beta iota.
  apply wp_bind, wp_get. cbv beta iota.
  assert (is_Some (open_record (client_keys ks) r)) as Hsome by (rewrite Ho; eauto).
  destruct t; try (apply wp_err; by right).
  - case_decide as H2; [apply wp_err; by right|].
    assert (n = 2) as -> by (destruct (decide (n = 2)); [done|by destruct H2]).
    destruct p as [|b0 [|b1 p]]; simpl in Hn; try lia. cbn [app lookup list_lookup].
    rewrite bind_unwrap_Some_wp. apply wp_bind, wp_ok_or.
    destruct (AlertLevel_of b0) as [l|] eqn:Hlv; [|by right].
    rewrite bind_unwrap_Some_wp. apply wp_bind, wp_ok_or.
    destruct (AlertDescription_of b1) as [d|] eqn:Hd; [|by right].
    apply wp_ret. exists k. split; [|done]. rewrite Ho, Hp. simpl.
    by rewrite <-(AlertLevel_code_of _ _ Hlv), <-(AlertDescription_code_of _ _ Hd).
  - assert (sub (p ++ rest) 0 n = Some (take n p)) as ->.
    { rewrite sub_Some by (lens; lia). rewrite drop_0, Nat.sub_0_r. f_equal. apply take_app_le. lia. }
    rewrite bind_unwrap_Some_wp. apply wp_ret. exists k. split; [|done]. simpl. by rewrite Ho, Hp at 1.
Qed.

Lemma decrypt_data_cases r ks buf :
  (counter (client_keys ks) + 1 < 2 ^ 64)%Z ->
  wp (decrypt_application_data r) (ks, buf)
    (fun data '(ks', _) => exists k,
       open_record (client_keys ks) r = Some (data ++ ct_byte CT_ApplicationData :: zeros k) /\
       ks' = with_client_keys (bump (client_keys ks)) ks)
    (fun _ '(ks', _) => ks' = ks \/
       is_Some (open_record (client_keys ks) r) /\ ks' = with_client_keys (bump (client_keys ks)) ks).
Proof.
  intros Hctr. apply wp_bind. eapply wp_mono; [by apply decrypt_record_cases| |done].
  intros [n t] [ks' buf'] (p & k & rest & Ho & Hp & Hn & -> & ->). cbv beta iota.
  case_decide as Ht; [apply wp_err; rewrite Ho; right; eauto|].
  apply wp_bind, wp_get. cbv beta iota.
  assert (sub (p ++ rest) 0 n = Some (take n p)) as ->.
  { rewrite sub_Some by (lens; lia). rewrite drop_0, Nat.sub_0_r. f_equal. apply take_app_le. lia. }
  assert (t = CT_ApplicationData) as -> by (by destruct (decide (t = CT_ApplicationData)); [|destruct Ht]).
  exists k. split; [|done]. by rewrite Ho, Hp at 1.
Qed.

(** The record sealed under nonce [n] with key [k]. *)
Definition sealed_with (k n r : list byte) : Prop :=
  exists p c tag, aead_seal k n (take 5 r) p = Some (c, tag) /\ r = take 5 r ++ c ++ tag.

Lemma sealed_all_nonces N items : forall st c0 m,
  kss_wf st -> counter st = (c0 + Z.of_nat m)%Z ->
  (counter st + Z.of_nat (length items) < 2 ^ 64)%Z -> Forall (item_ok N) items ->
  Forall2 (sealed_with (key st))
    ((fun i => Record_Nonce (iv st) (c0 + Z.of_nat i)%Z) <$> seq m (length items))
    (sealed_all st items).
Proof.
  induction items as [|x items IH]; intros st c0 m Hw Hc Hctr HF; simpl; [constructor|].
  apply Forall_cons in HF as [Hx HF]. simpl in Hctr. constructor.
  - unfold item_ok in Hx. destruct (item_inner x) as [inner t]. simpl.
    destruct (sealed_spec st inner t Hw) as (c & tag & Hs & _ & _ & ->); [lia|].
    exists (inner ++ [ct_byte t]), c, tag.
    change 5 with (length (record_header (length inner + 1 + TagLen))).
    by rewrite take_app_length, <-Hc.
  - apply (IH (bump st) c0 (S m)); simpl; [apply bump_wf; [done|lia]|lia|lia|done].
Qed.
End Records.

(** ** Properties *)

(** C9: post-handshake records round-trip as a stream.  If the receiver's read keys
    equal the sender's write keys (key, IV and counter), then any sequence of
    application data and alerts that fits the buffers is encrypted without error,
    the records decrypt in order to exactly the sequence sent, and both sides end
    with equal keys and a counter advanced by the number of records. *)
Theorem record_stream_roundtrip `{CS : TlsCipherSuite, !TlsCipherSuiteLaws CS}
    items ks1 out ks2 buf :
  kss_wf (server_keys ks1) -> same_keys (server_keys ks1) (client_keys ks2) ->
  (counter (server_keys ks1) + Z.of_nat (length items) < 2 ^ 64)%Z ->
  Forall (item_ok (length out)) items -> Forall (item_ok (5 + length buf)) items ->
  exists records ks1' out' ks2' buf',
    send_all items (ks1, out) = (Ok records, (ks1', out')) /\
    receive_all records (ks2, buf) = (Ok items, (ks2', buf')) /\
    same_keys (server_keys ks1') (client_keys ks2') /\
    counter (server_keys ks1') = (counter (server_keys ks1) + Z.of_nat (length items))%Z.
Proof.
  intros Hw Hsync Hctr HF1 HF2.
  destruct (send_all_spec items ks1 out Hw Hctr HF1) as (ks1' & out' & Hs & Hk1 & _).
  destruct (receive_all_spec items (server_keys ks1) ks2 buf Hsync Hw Hctr HF2)
    as (ks2' & buf' & Hr & Hk2).
  exists (sealed_all (server_keys ks1) items), ks1', out', ks2', buf'.
  destruct (bump_n_keys (length items) (server_keys ks1)) as (Hk & Hi & Hc).
  destruct (bump_n_keys (length items) (client_keys ks2)) as (Hk' & Hi' & Hc').
  destruct Hsync as (Ek & Ei & Ec). unfold same_keys. rewrite Hk1, Hk2.
  split_and!; congruence.
Qed.

(** A schedule with sealing keys, for the concrete runs. *)
Definition demo_keys : KeyScheduleState (CS := Toy.suite) :=
  mkKSS (CS := Toy.suite) (Uninitialized (CS := Toy.suite)) 7 (replicate 16 x61) (replicate 12 x62).
Definition demo_schedule : KeySchedule (CS := Toy.suite) :=
  mkKS (CS := Toy.suite) (SharedState_new (CS := Toy.suite))
    (mkWrite (CS := Toy.suite) demo_keys (Uninitialized (CS := Toy.suite)))
    (mkRead (CS := Toy.suite) demo_keys []).
Definition demo_items : list AppDataOrAlert :=
  [AppData [x68; x69]; AppData [x00]; AlertRecord Warning CloseNotify].

Lemma record_stream_roundtrip_witness :
  exists records ks1' out' ks2' buf',
    send_all (CS := Toy.suite) demo_items (demo_schedule, zeros 64) = (Ok records, (ks1', out')) /\
    receive_all records (demo_schedule, zeros 64) = (Ok demo_items, (ks2', buf')) /\
    same_keys (server_keys ks1') (client_keys ks2') /\
    counter (server_keys ks1') = 10%Z.
Proof.
  apply (record_stream_roundtrip (CS := Toy.suite) demo_items demo_schedule (zeros 64)
    demo_schedule (zeros 64)).
  - unfold kss_wf. simpl. lia.
  - done.
  - done.
  - repeat constructor; vm_compute; (discriminate || lia).
  - repeat constructor; vm_compute; (discriminate || lia).
Defined.

(** C10: no nonce is used twice under one key.  Sending any sequence of records with
    one write key seals the i-th record with the nonce of the i-th counter value,
    and these nonces are pairwise distinct. *)
Theorem nonces_unique `{CS : TlsCipherSuite, !TlsCipherSuiteLaws CS} items ks out :
  kss_wf (server_keys ks) -> (counter (server_keys ks) + Z.of_nat (length items) < 2 ^ 64)%Z ->
  Forall (item_ok (length out)) items ->
  exists records st nonces,
    send_all items (ks, out) = (Ok records, st) /\ NoDup nonces /\
    Forall2 (sealed_with (key (server_keys ks))) nonces records.
Proof.
  intros Hw Hctr HF. destruct (send_all_spec items ks out Hw Hctr HF) as (ks' & out' & Hs & _ & _).
  exists (sealed_all (server_keys ks) items), (ks', out').
  exists ((fun i => Record_Nonce (iv (server_keys ks)) (counter (server_keys ks) + Z.of_nat i)%Z)
          <$> seq 0 (length items)).
  split; [done|]. split.
  - destruct Hw as (_ & Hi & Hc). apply NoDup_fmap_2_strong; [|apply NoDup_seq].
    intros i j Hii Hj Heq. apply list_elem_of_In, in_seq in Hii, Hj.
    apply Record_Nonce_inj in Heq; lia.
  - by eapply (sealed_all_nonces (length out)); [|lia|..].
Qed.

Lemma nonces_unique_witness :
  exists records st nonces,
    send_all (CS := Toy.suite) demo_items (demo_schedule, zeros 64) = (Ok records, st) /\
    NoDup nonces /\ Forall2 (sealed_with (key (server_keys demo_schedule))) nonces records.
Proof.
  apply (nonces_unique (CS := Toy.suite) demo_items demo_schedule (zeros 64)).
  - unfold kss_wf. simpl. lia.
  - done.
  - repeat constructor; vm_compute; (discriminate || lia).
Defined.

(** C11: what the server accepts after the handshake.  On any bytes, with any buffer
    and any schedule whose read counter is not exhausted, the permissive decryption
    returns: it yields data or an alert only if the AEAD opens the record, under the
    current read key and nonce with the record header as associated data, to
    exactly that content, its content type and zero padding, and then the read
    counter advances by one; an error changes the schedule at most by that step, and
    not at all when the AEAD rejects the record. *)
Theorem decrypt_accepts_only_opened `{CS : TlsCipherSuite, !TlsCipherSuiteLaws CS} r ks buf :
  (counter (client_keys ks) + 1 < 2 ^ 64)%Z ->
  exists res ks' buf', decrypt_app_data_or_alert r (ks, buf) = (res, (ks', buf')) /\
    match res with
    | Ok x => exists k,
        open_record (client_keys ks) r
        = Some (fst (item_inner x) ++ ct_byte (snd (item_inner x)) :: zeros k) /\
        ks' = with_client_keys (bump (client_keys ks)) ks
    | Err _ => (open_record (client_keys ks) r = None -> ks' = ks) /\
        (ks' = ks \/ ks' = with_client_keys (bump (client_keys ks)) ks)
    | _ => False
    end.
Proof.
  intros Hctr. pose proof (decrypt_item_cases r ks buf Hctr) as H. unfold wp in H.
  destruct (decrypt_app_data_or_alert r (ks, buf)) as [res [ks' buf']].
  exists res, ks', buf'. split; [done|]. destruct res as [x|e| |]; [done| |done..].
  destruct H as [->|[[p ->] ->]]; [by auto|]. split; [done|by right].
Qed.

Lemma decrypt_accepts_only_opened_witness :
  let r := sealed (CS := Toy.suite) demo_keys [x68; x69] CT_ApplicationData in
  exists res ks' buf', decrypt_app_data_or_alert r (demo_schedule, zeros 64) = (res, (ks', buf')) /\
    match res with
    | Ok x => exists k,
        open_record (client_keys demo_schedule) r
        = Some (fst (item_inner x) ++ ct_byte (snd (item_inner x)) :: zeros k) /\
        ks' = with_client_keys (bump (client_keys demo_schedule)) demo_schedule
    | Err _ => (open_record (client_keys demo_schedule) r = None -> ks' = demo_schedule) /\
        (ks' = demo_schedule \/ ks' = with_client_keys (bump (client_keys demo_schedule)) demo_schedule)
    | _ => False
    end.
Proof. apply (decrypt_accepts_only_opened (CS := Toy.suite)). done. Defined.
