(* ===== verification/ServerHandshake.v ===== *)
(** The server handshake: what [process_client_hello_inner] and
    [process_client_finished] write, derive and accept.

    The first part gives the exact bytes and state of each record writer; the second
    the outcome of the ClientHello step on every input, as one weakest-precondition
    lemma; the third the Finished step.  The properties at the end are consequences:
    PSK authentication, the flight a client can decrypt, at most one
    HelloRetryRequest, totality on arbitrary input, the negotiation table. *)

From S2P Require Import Prelude Errors CryptoBuffer ParseBuffer Wire ExtensionData Extensions.
From S2P Require Import CryptoSuite KeySchedule KeyScheduleProps ClientHello Handshake Server ServerRecords.
From Stdlib Require Import ZArith Lia.
From Stdlib Require Import Strings.Byte.
From Stdlib Require Strings.String.
From stdpp Require Import base list option numbers tactics sets.

Import Stdlib.Strings.String.StringSyntax.

(** ** Message formats *)

Definition hrr_extensions (g : NamedGroup) : list byte :=
  be_bytes 2 0x002b ++ be_bytes 2 2 ++ be_bytes 2 0x0304 ++
  be_bytes 2 0x0033 ++ be_bytes 2 2 ++ be_bytes 2 (NamedGroup_as_u16 g).

Definition hrr_body (sid : list byte) (g : NamedGroup) : list byte :=
  [x03; x03] ++ HRR_SPECIAL_RANDOM ++ vec8 sid ++ be_bytes 2 TLS_AES_128_GCM_SHA256 ++ [x00]
  ++ vec16 (hrr_extensions g).

Definition hrr_message (sid : list byte) (g : NamedGroup) : list byte :=
  handshake_message HT_ServerHello (hrr_body sid g).

Section Writers.
Context `{CS : TlsCipherSuite, !TlsCipherSuiteLaws CS, X : X25519Ops}.
Implicit Types ks : KeySchedule.

(** The message that replaces ClientHello1 in the transcript (section 4.4.1). *)
Definition message_hash (ch1 : list byte) : list byte :=
  hs_byte HT_MessageHash :: vec24 (digest_out ch1).

Definition with_transcript (t : list byte) ks : KeySchedule :=
  mkKS (shared ks) (client_state ks) (mkRead (r_state (server_state ks)) t).

Lemma wp_onw {A} (m : M OutWriter TlsError A) w ks Q R :
  wp m w (fun a w' => Q a (w', ks)) (fun e w' => R e (w', ks)) ->
  wp (on_fst m) (w, ks) Q R.
Proof. intros H. by apply wp_zoom. Qed.

Lemma wp_append xs ws tail Q (R : TlsError -> OutWriter -> Prop) :
  (forall tail', tail' = drop (length xs) tail -> length xs <= length tail -> Q tt (W (ws ++ xs) tail')) ->
  (length tail < length xs -> R InsufficientSpace (W ws tail)) ->
  wp (append xs) (W ws tail) Q R.
Proof.
  intros HQ HR. unfold wp. destruct (decide (length xs <= length tail)).
  - rewrite append_fits by done. auto.
  - rewrite append_full by lia. apply HR. lia.
Qed.

(** The blank record and message headers, and the patches of their lengths. *)
Definition blank_record : list byte := [ct_byte CT_Handshake; x03; x03; x00; x00].
Definition blank_message (t : HandshakeType) : list byte := [hs_byte t; x00; x00; x00].

Lemma wp_patch_u24 t rest pos ks n Q (R : TlsError -> OutWriter * KeySchedule -> Prop) :
  Q tt (mkOut (blank_record ++ (hs_byte t :: be_bytes 3 n) ++ rest) pos, ks) ->
  wp (on_fst (on_buf (patch_u24 5 (n mod 2 ^ 32))))
     (mkOut (blank_record ++ blank_message t ++ rest) pos, ks) Q R.
Proof.
  intros HQ. apply wp_onw, wp_zoom. cbn [ow_buf ow_pos]. unfold wp, blank_message. cbn [app].
  by rewrite (patch_u24_app blank_record) , be_bytes_3_mod by done.
Qed.

Lemma wp_patch_u16 rest pos ks n Q (R : TlsError -> OutWriter * KeySchedule -> Prop) :
  Q tt (mkOut ([ct_byte CT_Handshake; x03; x03] ++ be_bytes 2 n ++ rest) pos, ks) ->
  wp (on_fst (on_buf (patch_u16 0 (n mod 2 ^ 16)))) (mkOut (blank_record ++ rest) pos, ks) Q R.
Proof.
  intros HQ. apply wp_onw, wp_zoom. cbn [ow_buf ow_pos]. unfold wp, blank_record. cbn [app].
  pose proof (patch_u16_app [] (ct_byte CT_Handshake) x03 x03 x00 x00 rest (n mod 2 ^ 16) 0 eq_refl)
    as H. cbn [app] in H. by rewrite H, (be_bytes_mod 2).
Qed.

Lemma plain_record_eq t body :
  plain_record t body = [ct_byte CT_Handshake; x03; x03] ++
    be_bytes 2 (Z.of_nat (4 + length body)) ++
    (hs_byte t :: be_bytes 3 (Z.of_nat (length body))) ++ body.
Proof.
  unfold plain_record, handshake_message, vec16, vec24. cbn [length app].
  by replace (S (length (be_bytes 3 (Z.of_nat (length body)) ++ body))) with (4 + length body) by len.
Qed.

(** The common end of the two plaintext writers: patch the record length and hand
    the finished handshake message to the transcript. *)
Lemma wp_finish_record t body tail ks (k : list byte -> WM unit) Q R :
  wp (k (handshake_message t body)) (W (plain_record t body) tail, ks) Q R ->
  wp (payload ← unwrap (usub (9 + length body) 0 ≫= fun n => usub n RECORD_HEADER_LEN);
      on_fst (on_buf (patch_u16 0 (Z.of_nat payload mod 2 ^ 16)));;
      '(w, _) ← get;
      m ← unwrap (sub (ow_buf w) 5 (ow_pos w));
      k m)
     (mkOut (blank_record ++ (hs_byte t :: be_bytes 3 (Z.of_nat (length body))) ++ body ++ tail)
            (9 + length body), ks) Q R.
Proof.
  intros Hk. rewrite usub_Some by lia. cbn [mbind option_bind].
  rewrite usub_Some, bind_unwrap_Some_wp by (unfold RECORD_HEADER_LEN; lia).
  replace (9 + length body - 0 - RECORD_HEADER_LEN) with (4 + length body)
    by (unfold RECORD_HEADER_LEN; lia).
  apply wp_bind, wp_patch_u16. apply wp_bind, wp_get. cbv beta iota. cbn [ow_buf ow_pos].
  set (hdr := [ct_byte CT_Handshake; x03; x03] ++ be_bytes 2 (Z.of_nat (4 + length body))).
  assert (plain_record t body = hdr ++ handshake_message t body) as Hrec.
  { unfold hdr. rewrite plain_record_eq. by rewrite <-(assoc_L (++)). }
  replace ([ct_byte CT_Handshake; x03; x03] ++ _) with (hdr ++ handshake_message t body ++ tail).
  2:{ unfold hdr, handshake_message, vec24. by rewrite <-!(assoc_L (++)). }
  pose proof (sub_app hdr (handshake_message t body) tail) as Hsub.
  replace (9 + length body) with (length hdr + length (handshake_message t body)).
  2:{ unfold hdr, handshake_message. lens. lia. }
  change 5 with (length hdr). rewrite Hsub, bind_unwrap_Some_wp.
  unfold W in Hk. by rewrite Hrec, length_app, <-(assoc_L (++)) in Hk.
Qed.

Lemma be_bytes_3_HashLen :
  be_bytes 3 (Z.of_nat HashLen) = [x00; u8 (Z.of_nat HashLen ≫ 8); u8 (Z.of_nat HashLen)].
Proof.
  rewrite be_bytes_3. pose proof hash_len. f_equal.
  assert (Z.of_nat HashLen ≫ 16 = 0)%Z as ->; [|done].
  rewrite Z.shiftr_div_pow2 by lia. apply Z.div_small. lia.
Qed.

Lemma message_hash_eq ch1 :
  [hs_byte HT_MessageHash; x00; u8 (Z.of_nat HashLen ≫ 8); u8 (Z.of_nat HashLen)] ++ digest_out ch1
  = message_hash ch1.
Proof. unfold message_hash, vec24. by rewrite length_digest, be_bytes_3_HashLen. Qed.

Ltac len_step :=
  apply wp_bind, wp_onw; unfold ow_len at 1; apply wp_bind, wp_get, wp_ret; cbn [ow_pos W].
Ltac app_step :=
  repeat len_step;
  apply wp_bind, wp_onw, wp_append;
  [ let t := fresh "tail" in let E := fresh "Etail" in let H := fresh "Hfit" in
    intros t E H; rewrite <-?(assoc_L (++)) | try done ].

(** The space left after a chain of appends. *)
Ltac no_space :=
  repeat match goal with H : _ = drop _ _ |- _ => rewrite H in *; clear H end; lens; lia.

Lemma length_plain_record t body : length (plain_record t body) = 9 + length body.
Proof. rewrite plain_record_eq. lens. lia. Qed.

Lemma length_hrr_body sid g : length (hrr_body sid g) = 52 + length sid.
Proof. unfold hrr_body, hrr_extensions. lens. lia. Qed.

Lemma write_hrr_spec sid g ch1 out ks :
  length sid <= 32 ->
  wp (write_hello_retry_request_record sid g ch1) (W [] out, ks)
    (fun _ '(w, ks') =>
       let r := plain_record HT_ServerHello (hrr_body sid g) in
       length r <= length out /\ w = W r (drop (length r) out) /\
       ks' = with_transcript (message_hash ch1 ++ hrr_message sid g) ks)
    (fun e '(_, ks') => e = InsufficientSpace /\ ks' = ks /\
       length out < length (plain_record HT_ServerHello (hrr_body sid g))).
Proof.
  intros Hsid. unfold write_hello_retry_request_record.
  change [ct_byte CT_Handshake; x03; x03; x00; x00] with blank_record.
  change [hs_byte HT_ServerHello; x00; x00; x00] with (blank_message HT_ServerHello).
  rewrite length_plain_record, length_hrr_body.
  do 4 (app_step; [|intros ?; split_and!; [done|done|no_space]]). rewrite decide_False by lia.
  do 11 (app_step; [|intros ?; split_and!; [done|done|no_space]]). len_step.
  rewrite <-(length_hrr_body sid g).
  set (B := [x03; x03] ++ HRR_SPECIAL_RANDOM ++ [u8_of_nat (length sid)] ++ sid ++
              be_bytes 2 TLS_AES_128_GCM_SHA256 ++ [x00]).
  set (E := be_bytes 2 0x002b ++ be_bytes 2 2 ++ be_bytes 2 0x0304 ++ be_bytes 2 0x0033 ++
              be_bytes 2 2 ++ be_bytes 2 (NamedGroup_as_u16 g)).
  assert (hrr_body sid g = B ++ vec16 E) as Hbody.
  { unfold hrr_body, hrr_extensions, B, vec8. fold E. by rewrite <-!(assoc_L (++)). }
  assert (length (hrr_body sid g) = length B + 2 + length E) as Hlen
    by (rewrite Hbody; lens; lia).
  assert (tail13 = drop (9 + length (hrr_body sid g)) out /\
          9 + length (hrr_body sid g) <= length out) as [Ht Hout].
  { rewrite Hlen. unfold B, E. repeat match goal with H : _ = drop _ _ |- _ => rewrite H in * end.
    clear -Hfit Hfit0 Hfit1 Hfit2 Hfit3 Hfit4 Hfit5 Hfit6 Hfit7 Hfit8 Hfit9 Hfit10 Hfit11 Hfit12
      Hfit13. rewrite !drop_drop. lens. split; [f_equal; lia|lia]. }
  rename tail13 into t. clear - TlsCipherSuiteLaws0 Ht Hout Hbody Hlen.
  match goal with |- wp _ (W ?ws t, ks) _ _ =>
    replace (W ws t) with (mkOut ((blank_record ++ blank_message HT_ServerHello ++ B)
      ++ [x00; x00] ++ (E ++ t)) (9 + length (hrr_body sid g))) end.
  2:{ unfold W. f_equal; [unfold B, E; by rewrite <-!(assoc_L (++))|].
      rewrite Hlen. unfold B. lens. lia. }
  rewrite usub_Some, bind_unwrap_Some_wp by len.
  match goal with |- context [?x - ?y] => replace (x - y) with (length E) by len end.
  apply wp_bind, wp_onw, wp_zoom. cbn [ow_buf ow_pos]. unfold wp at 1.
  rewrite lwrite_app by (first [done | cbn [app]; by rewrite length_be_bytes]).
  replace ((blank_record ++ blank_message HT_ServerHello ++ B) ++ be_bytes 2 (Z.of_nat (length E)) ++ E ++ t)
    with (blank_record ++ blank_message HT_ServerHello ++ hrr_body sid g ++ t)
    by (rewrite Hbody; unfold vec16; by rewrite <-!(assoc_L (++))).
  clearbody B E. unfold hrr_message. generalize dependent (hrr_body sid g).
  intros body Hbody Hlen Ht Hout.
  len_step. rewrite (usub_Some _ (length ([] ++ _))), bind_unwrap_Some_wp by (simpl; lia).
  match goal with |- context [9 + length body - ?y] =>
    replace (9 + length body - y) with (length body) by (simpl; lia) end.
  apply wp_bind. change (length ([] ++ blank_record)) with 5. apply wp_patch_u24.
  apply wp_finish_record. unfold wp, on_snd, zoom, replace_transcript_hash, modify. cbn [fst snd].
  rewrite (assoc_L (++) _ (digest_out ch1)), message_hash_eq.
  by rewrite Ht.
Qed.

(** ** ServerHello *)

Definition sh_exts (cfg : TlsServerConfig) (idx : Z) (mode : KexMode) : list ServerHelloExtension :=
  [SH_SupportedVersions (mkVersionsSH TLS13)] ++
  match mode, dhe_keypair cfg with
  | KexPskDheKe _, Some d => [SH_KeyShare (mkKeyShareSH (mkKeyShareEntry X25519 (dhe_public d)))]
  | _, _ => []
  end ++ [SH_PreSharedKey (mkPskSH idx)].

Definition server_hello (cfg : TlsServerConfig) (sid : list byte) (idx : Z) (mode : KexMode) :
    ServerHelloEmit :=
  mkEmit (server_random cfg) sid TLS_AES_128_GCM_SHA256 (sh_exts cfg idx mode).

Definition sh_message (cfg : TlsServerConfig) (sid : list byte) (idx : Z) (mode : KexMode) :
    list byte :=
  handshake_message HT_ServerHello (server_hello_body (server_hello cfg sid idx mode)).

(** A mode is possible with a configuration: DHE needs a keypair and a share of
    the right size. *)
Definition mode_ok (cfg : TlsServerConfig) (mode : KexMode) : Prop :=
  match mode with
  | KexPskKe => True
  | KexPskDheKe pub => is_Some (dhe_keypair cfg) /\ length pub = X25519_LEN
  end.

Lemma server_hello_extensions_spec {S} cfg idx mode (s : S) :
  mode_ok cfg mode -> server_hello_extensions cfg idx mode s = (Ok (sh_exts cfg idx mode), s).
Proof. unfold server_hello_extensions, sh_exts. destruct mode; [done|]. intros [[d ->] _]. done. Qed.

Lemma wp_encode_region m xs pre tail pos ks Q (R : TlsError -> OutWriter * KeySchedule -> Prop) :
  encodes m xs ->
  (length xs <= length tail ->
   Q (length xs) (mkOut (pre ++ xs ++ drop (length xs) tail) pos, ks)) ->
  (forall e w, encode_err e -> length tail < length xs -> R e (w, ks)) ->
  wp (on_fst (on_buf (fun l =>
        with_region (length pre) (length l) 0 (m;; c ← get; mret (cb_len c)) l)))
     (mkOut (pre ++ tail) pos, ks) Q R.
Proof.
  intros Hm HQ HR. apply wp_onw, wp_zoom. cbn [ow_buf ow_pos]. unfold wp, with_region.
  assert (sub (pre ++ tail) (length pre) (length (pre ++ tail)) = Some tail) as ->.
  { rewrite sub_Some, drop_app_length by len. f_equal. apply take_ge. len. }
  assert (wrap_with_pos tail 0 = wrap tail) as -> by done.
  pose proof (wrap_wf tail) as Hwf. unfold mbind, M_bind.
  assert (room (wrap tail) = length tail) as Hroom by (unfold room, capacity; simpl; lia).
  destruct (decide (length xs <= length tail)) as [Hl|Hl].
  - rewrite (encodes_Ok m xs (wrap tail)) by (done || lia). simpl.
    rewrite take_app_length, drop_all by done. rewrite app_nil_r.
    unfold splice. simpl. by apply HQ.
  - destruct (encodes_Err m xs (wrap tail)) as (e & c' & -> & He & _); [done..|lia|]. apply HR; [done|lia].
Qed.

Lemma write_server_hello_spec cfg sid idx mode out ks :
  length sid <= 32 -> mode_ok cfg mode ->
  wp (write_server_hello_record cfg sid idx mode) (W [] out, ks)
    (fun _ '(w, ks') =>
       let r := plain_record HT_ServerHello (server_hello_body (server_hello cfg sid idx mode)) in
       length r <= length out /\ w = W r (drop (length r) out) /\
       ks' = with_transcript (transcript_hash ks ++ sh_message cfg sid idx mode) ks)
    (fun e '(_, ks') => encode_err e /\ ks' = ks /\
       length out < length (plain_record HT_ServerHello
                              (server_hello_body (server_hello cfg sid idx mode)))).
Proof.
  intros Hsid Hmode. rewrite length_plain_record. unfold write_server_hello_record.
  change [ct_byte CT_Handshake; x03; x03; x00; x00] with blank_record.
  change [hs_byte HT_ServerHello; x00; x00; x00] with (blank_message HT_ServerHello).
  repeat len_step. apply wp_bind, wp_onw, wp_append;
    [intros t1 E1 H1|intros; split_and!; [by left|done|no_space]].
  repeat len_step. apply wp_bind, wp_onw, wp_append;
    [intros t2 E2 H2|intros; split_and!; [by left|done|no_space]].
  repeat len_step. apply wp_bind. unfold wp at 1. rewrite server_hello_extensions_spec by done.
  fold (server_hello cfg sid idx mode). set (sh := server_hello cfg sid idx mode).
  set (body := server_hello_body sh). cbn [app].
  apply wp_bind. unfold W.
  change (length (blank_record ++ blank_message HT_ServerHello)) with 9.
  change 9 with (length (blank_record ++ blank_message HT_ServerHello)) at 1.
  apply (wp_encode_region _ body); [by apply ServerHelloEmit_encodes| |
    intros e w He Hlt; split_and!; [done|done|fold sh body; no_space]].
  intros Hfit. apply wp_bind, wp_onw, wp_modify. cbn [ow_buf ow_pos].
  rewrite <-(assoc_L (++)). apply wp_bind. change (length ([] ++ blank_record)) with 5.
  apply wp_patch_u24. len_step. apply wp_finish_record.
  unfold wp, on_snd, zoom, transcript_update. rewrite bind_get. cbn [fst snd].
  unfold replace_transcript_hash, modify.
  revert H1 H2 Hfit. rewrite E2, E1, !drop_drop, !length_drop. cbn [length blank_record blank_message].
  intros. rewrite length_plain_record. split_and!; [lia|unfold W; by rewrite length_plain_record|done].
Qed.

(** ** Encrypted handshake records *)

(** An inner encoder that writes [msg] at the front of its region. *)
Definition writes (enc : M (list byte * KeySchedule) TlsError nat) (msg : list byte) ks : Prop :=
  forall region, enc (region, ks) =
    if decide (length region < length msg) then (Err InsufficientSpace, (region, ks))
    else (Ok (length msg), (msg ++ drop (length msg) region, ks)).

(** The encoder writes the message at the front of the rest of the output. *)
Lemma on_region_writes enc msg ks pre tail k :
  writes enc msg ks -> length msg <= k <= length tail ->
  on_region (length pre) (length pre + k) enc (W pre tail, ks)
  = (Ok (length msg), (mkOut (pre ++ msg ++ drop (length msg) tail) (length pre), ks)).
Proof.
  intros Henc Hk. rewrite <-(take_drop k tail). set (reg := take k tail). set (post := drop k tail).
  assert (length reg = k) as Hreg by (unfold reg; rewrite length_take; lia).
  unfold on_region. cbn [ow_buf ow_pos W]. rewrite <-Hreg, sub_app, Henc.
  rewrite decide_False by lia. rewrite take_app_length, <-drop_drop, drop_app_length.
  rewrite drop_app_length, drop_app_le by lia. by rewrite <-(assoc_L (++)).
Qed.

(** The message and its marker are encrypted in place, and the tag written behind. *)
Lemma seal_in_place key nonce hdr pre msg m gap rest c tag pos ks :
  aead_seal key nonce hdr (msg ++ [m]) = Some (c, tag) -> length c = length msg + 1 ->
  length tag = TagLen -> length gap = TagLen ->
  on_fst (on_buf (crypto_error (with_region (length pre) (length pre + (length msg + 1 + TagLen))
    (length msg + 1) (encrypt_in_place key nonce hdr))))
    (mkOut (pre ++ msg ++ m :: gap ++ rest) pos, ks)
  = (Ok tt, (mkOut (pre ++ (c ++ tag) ++ rest) pos, ks)).
Proof.
  intros Hs Hc Ht Hg.
  assert (pre ++ msg ++ m :: gap ++ rest = pre ++ ((msg ++ [m]) ++ gap) ++ rest) as ->
    by (by rewrite <-!(assoc_L (++))).
  unfold on_fst, on_buf, zoom. cbn [fst snd ow_buf ow_pos].
  replace (length msg + 1) with (length (msg ++ [m])) by len.
  rewrite <-Ht. unfold crypto_error.
  by erewrite map_err_Ok by (apply with_region_encrypt; [exact Hs|lens; lia|lia]).
Qed.

Lemma write_encrypted_fits enc msg ks ws out :
  writes enc msg ks -> kss_wf (server_keys ks) -> (counter (server_keys ks) + 1 < 2 ^ 64)%Z ->
  (Z.of_nat (length msg) < 2 ^ 16 - 1)%Z ->
  5 + (length msg + 1 + TagLen) <= length out ->
  write_encrypted_handshake_record enc (W ws out, ks)
  = (Ok tt, (W (ws ++ sealed (server_keys ks) msg CT_Handshake)
               (drop (5 + (length msg + 1 + TagLen)) out),
             with_server_keys (bump (server_keys ks))
               (with_transcript (transcript_hash ks ++ msg) ks))).
Proof.
  intros Henc Hw Hctr Hl Hout.
  destruct (sealed_spec (server_keys ks) msg CT_Handshake Hw Hl)
    as (c & tag & Hs & Hc & Ht & Hsealed).
  set (n := length msg + 1 + TagLen) in *. set (hdr := record_header n) in *.
  destruct (split_out out (length msg) Hout) as (o1 & o2 & b & gap & Ho & Ho1 & Ho2 & Hgap).
  fold n in Ho. set (rest := drop (5 + n) out) in *. clearbody rest. subst out.
  set (blank := [ct_byte CT_ApplicationData; x03; x03; x00; x00]).
  set (pre := ws ++ blank). set (tail := o2 ++ b :: gap ++ rest).
  unfold write_encrypted_handshake_record. fold blank.
  rewrite (bind_Ok _ _ _ (length ws) (W ws (o1 ++ tail), ks)) by done.
  rewrite (bind_Ok _ _ _ tt (W pre tail, ks)).
  2:{ unfold on_fst, zoom. cbn [fst snd]. rewrite append_fits by len.
      change (length blank) with 5. rewrite <-Ho1, drop_app_length. done. }
  rewrite (bind_Ok _ _ _ (length pre) (W pre tail, ks)) by done.
  rewrite bind_get. cbv beta iota. cbn [ow_buf W].
  assert (length tail = n + length rest) as Htail by (unfold tail, n; rewrite length_app; cbn [length]; rewrite length_app; lia).
  assert (length (pre ++ tail) - length pre = n + length rest) as -> by (rewrite length_app; lia).
  assert (n + length rest - 1 - TagLen = length msg + length rest) as -> by (unfold n; lia).
  rewrite decide_False by (unfold n; lia).
  rewrite (bind_Ok _ _ _ _ _ (on_region_writes enc msg ks pre tail (length msg + length rest) Henc
    ltac:(unfold n in *; lia))).
  assert (drop (length msg) tail = b :: gap ++ rest) as ->
    by (unfold tail; rewrite <-Ho2; apply drop_app_length).
  rewrite (bind_Ok _ _ _ tt
    (mkOut (pre ++ msg ++ ct_byte CT_Handshake :: gap ++ rest) (length pre), ks)).
  2:{ unfold on_fst, on_buf, zoom. cbn [fst snd ow_buf ow_pos].
      rewrite (assoc_L (++) pre), lset_app by len. by rewrite <-(assoc_L (++)). }
  rewrite bind_get. cbv beta iota. cbn [ow_buf].
  rewrite sub_app, bind_unwrap_Some.
  set (ks1 := with_transcript (transcript_hash ks ++ msg) ks).
  rewrite (bind_Ok _ _ _ tt (mkOut (pre ++ msg ++ ct_byte CT_Handshake :: gap ++ rest) (length pre), ks1))
    by done.
  rewrite bind_get. cbv beta iota. unfold server_handshake_aead_key. rewrite bind_ret.
  unfold server_handshake_aead_nonce, read_get_nonce, kss_get_nonce.
  rewrite (bind_Ok _ _ _ _ _ (get_nonce_spec _ _ _)). cbn [ow_buf]. fold n.
  change ([ct_byte CT_ApplicationData; x03; x03] ++ be_bytes 2 (Z.of_nat n)) with hdr.
  change (r_state (server_state ks1)) with (server_keys ks). fold n.
  rewrite decide_False by (unfold n; lens; lia).
  rewrite (bind_Ok _ _ _ _ _ (seal_in_place _ _ hdr pre msg _ gap rest c tag _ ks1 Hs Hc Ht Hgap)).
  rewrite (bind_Ok _ _ _ tt (mkOut (pre ++ (c ++ tag) ++ rest) (length pre + n), ks1)) by done.
  rewrite (bind_Ok _ _ _ tt (mkOut (pre ++ (c ++ tag) ++ rest) (length pre + n),
    with_server_keys (bump (server_keys ks)) ks1)).
  2:{ unfold on_snd, zoom. cbn [fst snd]. by rewrite read_increment_spec. }
  unfold on_fst, on_buf, zoom. cbn [fst snd ow_buf ow_pos].
  assert (pre ++ (c ++ tag) ++ rest
    = (ws ++ [ct_byte CT_ApplicationData; x03; x03]) ++ [x00; x00] ++ (c ++ tag) ++ rest) as ->
    by (unfold pre, blank; by rewrite <-!(assoc_L (++))).
  rewrite lwrite_app by (lens; reflexivity).
  rewrite Hsealed. do 2 f_equal. apply (f_equal2 mkOut); unfold hdr, record_header, pre, blank, n.
  - by rewrite <-!(assoc_L (++)).
  - rewrite !length_app. simpl. lia.
Qed.

Lemma write_encrypted_spec enc msg ks ws out :
  writes enc msg ks -> kss_wf (server_keys ks) -> (counter (server_keys ks) + 1 < 2 ^ 64)%Z ->
  (Z.of_nat (length msg) < 2 ^ 16 - 1)%Z ->
  wp (write_encrypted_handshake_record enc) (W ws out, ks)
    (fun _ '(w, ks') =>
       let r := sealed (server_keys ks) msg CT_Handshake in
       length r <= length out /\ w = W (ws ++ r) (drop (length r) out) /\
       ks' = with_server_keys (bump (server_keys ks))
               (with_transcript (transcript_hash ks ++ msg) ks))
    (fun e '(_, ks') => e = InsufficientSpace /\ ks' = ks /\
       length out < length (sealed (server_keys ks) msg CT_Handshake)).
Proof.
  intros Henc Hw Hctr Hl.
  destruct (decide (5 + (length msg + 1 + TagLen) <= length out)) as [Hf|Hf].
  - unfold wp. rewrite (write_encrypted_fits _ msg) by done. cbv zeta. by rewrite length_sealed.
  - cbv zeta. rewrite <-(length_sealed (server_keys ks) msg CT_Handshake Hw Hl) in Hf.
    pose proof (length_sealed (server_keys ks) msg CT_Handshake Hw Hl) as Hr.
    set (r := sealed _ _ _) in *. clearbody r. assert (length out < length r) as Hlt by lia.
    unfold write_encrypted_handshake_record.
    app_step. len_step. apply wp_bind, wp_get. cbv beta iota. cbn [ow_buf W].
    case_decide; [by apply wp_err|]. apply wp_bind. unfold wp, on_region. cbn [ow_buf ow_pos W].
    pose proof (sub_app (ws ++ [ct_byte CT_ApplicationData; x03; x03; x00; x00])
      (take (length tail - 1 - TagLen) tail) (drop (length tail - 1 - TagLen) tail)) as Hsub.
    rewrite take_drop in Hsub. rewrite length_take in Hsub.
    rewrite !length_app in *. cbn [length] in *.
    replace (length ws + 5 + length tail - (length ws + 5)) with (length tail) in * by lia.
    rewrite Nat.min_l in Hsub by lia. rewrite Hsub, Henc.
    rewrite length_take, decide_True; [done|]. rewrite Etail, length_drop in *. cbn [length] in *. lia.
Qed.

Definition ee_message : list byte := handshake_message HT_EncryptedExtensions [x00; x00].
Definition finished_message (mac : list byte) : list byte := handshake_message HT_Finished mac.

Lemma lset_ok {E} i v l : i < length l -> lset (E := E) i v l = (Ok tt, <[i := v]> l).
Proof. intros. unfold lset. by rewrite decide_True. Qed.

Lemma writes_ee ks : writes encode_encrypted_extensions ee_message ks.
Proof.
  intros region. unfold encode_encrypted_extensions. rewrite bind_get. cbv beta iota.
  change (length ee_message) with (HANDSHAKE_HEADER_LEN + 2). case_decide as Hl; [done|].
  unfold HANDSHAKE_HEADER_LEN in Hl.
  destruct region as [|b0 [|b1 [|b2 [|b3 [|b4 [|b5 rest]]]]]]; simpl in Hl; try lia.
  erewrite bind_Ok; [reflexivity|]. unfold on_fst, zoom. cbn [fst snd].
  repeat (erewrite bind_Ok by (apply lset_ok; simpl; lia); cbn [insert list_insert]).
  by rewrite lset_ok by (simpl; lia).
Qed.

Lemma writes_finished base ks :
  HashLen <= length base -> traffic_secret (server_keys ks) = secret_of base ->
  writes encode_server_finished (finished_message (Finished_Mac base (transcript_hash ks))) ks.
Proof.
  intros Hb Hs region. unfold encode_server_finished. rewrite bind_get. cbv beta iota.
  set (mac := Finished_Mac base (transcript_hash ks)).
  assert (length mac = HashLen) as Hm by apply length_Finished_Mac.
  assert (length (finished_message mac) = HANDSHAKE_HEADER_LEN + HashLen) as ->
    by (unfold finished_message, handshake_message, vec24, HANDSHAKE_HEADER_LEN; lens; lia).
  case_decide as Hl; [done|]. unfold HANDSHAKE_HEADER_LEN in *.
  rewrite (bind_Ok _ _ _ (mkFinished mac None) (region, ks)).
  2:{ unfold crypto_error. apply map_err_Ok. by apply create_server_finished_spec. }
  cbn [verify]. rewrite decide_True by done.
  destruct region as [|b0 [|b1 [|b2 [|b3 rest]]]]; simpl in Hl; try lia.
  erewrite bind_Ok; [reflexivity|]. unfold on_fst, zoom. cbn [fst snd].
  do 4 (erewrite bind_Ok by (apply lset_ok; simpl; lia); cbn [insert list_insert]).
  rewrite <-(take_drop HashLen rest) at 1.
  match goal with |- context [lwrite 4 mac (?a :: ?b :: ?c :: ?d :: ?l ++ ?r)] =>
    change (a :: b :: c :: d :: l ++ r) with ([a; b; c; d] ++ l ++ r) end.
  rewrite lwrite_app by (first [done|rewrite length_take; lia]).
  do 2 f_equal. unfold finished_message, handshake_message, vec24. cbn [app].
  by rewrite Hm, be_bytes_3_HashLen.
Qed.
End Writers.
