(* ===== verification/ServerSteps.v ===== *)
(** The two handshake steps of the server: ClientHello and client Finished.

    [hello_step] gives the outcome of [process_client_hello_inner] on every input
    as one weakest-precondition lemma; [finished_step] that of
    [process_client_finished].  The properties of the server are consequences:
    totality on arbitrary input, PSK authentication, the exact flight and the keys
    it is protected with, at most one HelloRetryRequest, the negotiation table. *)

From S2P Require Import Prelude Errors CryptoBuffer ParseBuffer Wire ExtensionData Extensions.
From S2P Require Import CryptoSuite KeySchedule KeyScheduleProps ClientHello Handshake Server.
From S2P Require Import ServerRecords ServerHandshake.
From Stdlib Require Import ZArith Lia.
From Stdlib Require Import Strings.Byte.
From Stdlib Require Strings.String.
From stdpp Require Import base list option numbers tactics sets.

Import Stdlib.Strings.String.StringSyntax.

Section Flight.
Context `{CS : TlsCipherSuite, !TlsCipherSuiteLaws CS, X : X25519Ops}.
Implicit Types (ks : KeySchedule) (cfg : TlsServerConfig) (mode : KexMode).

(** ** The first flight *)

(** The (EC)DHE input of the handshake secret; [None] for an all-zero result. *)
Definition kex_ikm cfg mode : option (list byte) :=
  match mode with
  | KexPskKe => Some (zeros HashLen)
  | KexPskDheKe pub =>
      dhe_keypair cfg ≫= fun d =>
      let z := x25519 (dhe_secret d) pub in if all_zero z then None else Some z
  end.

Lemma derive_handshake_secret_spec cfg mode ks :
  mode_ok cfg mode ->
  derive_handshake_secret cfg mode ks
  = match kex_ikm cfg mode with
    | Some ikm => (Ok tt, with_traffic (Extract (sh_secret (shared ks)) ikm)
                           (b_ "c hs traffic") (b_ "s hs traffic") ks)
    | None => (Err (abort_fatal IllegalParameter), ks)
    end.
Proof.
  unfold derive_handshake_secret, kex_ikm, crypto_error. destruct mode as [|pub].
  - intros _. apply map_err_Ok. apply initialize_handshake_secret_spec.
  - intros [[d ->] Hpub]. rewrite bind_ok_or_Some. cbn [mbind option_bind].
    rewrite decide_False by (intros H; by apply H). cbv zeta. destruct (all_zero _); [done|].
    apply map_err_Ok, initialize_handshake_secret_spec.
Qed.

Record Flight : Type := mkFlight {
  fl_hs : list byte;          (* the handshake secret *)
  fl_transcript : list byte;  (* ClientHello .. ServerHello *)
  fl_hello : list byte;       (* the ServerHello record *)
}.

Definition fl_server_ts (f : Flight) := Derive_Secret (fl_hs f) (b_ "s hs traffic") (fl_transcript f).
Definition fl_client_ts (f : Flight) := Derive_Secret (fl_hs f) (b_ "c hs traffic") (fl_transcript f).
Definition fl_finished (f : Flight) : list byte :=
  finished_message (Finished_Mac (fl_server_ts f) (fl_transcript f ++ ee_message)).
Definition fl_bytes (f : Flight) : list byte :=
  let st := traffic_state (fl_server_ts f) in
  fl_hello f ++ sealed st ee_message CT_Handshake ++ sealed (bump st) (fl_finished f) CT_Handshake.

(** The schedule after the flight. *)
Definition fl_schedule (f : Flight) (bk : Secret) : KeySchedule :=
  mkKS (mkShared (Derive_Secret (fl_hs f) (b_ "derived") []) (secret_of (fl_hs f)))
       (mkWrite (traffic_state (fl_client_ts f)) bk)
       (mkRead (bump (bump (traffic_state (fl_server_ts f))))
               (fl_transcript f ++ ee_message ++ fl_finished f)).

(** The flight answering a hello, from the chain value [d] and transcript [t]. *)
Definition the_flight cfg sid idx mode (d t ikm : list byte) : Flight :=
  mkFlight (Extract d ikm) (t ++ sh_message cfg sid idx mode)
           (plain_record HT_ServerHello (server_hello_body (server_hello cfg sid idx mode))).

Lemma length_finished_message base t :
  length (finished_message (Finished_Mac base t)) = 4 + HashLen.
Proof. unfold finished_message, handshake_message, vec24. lens. by rewrite length_Finished_Mac. Qed.

(** Keys of the right size and counters up to [B]; [keys_ok]: kept by a step. *)
Definition ks_inv (B : Z) ks : Prop :=
  kss_wf (server_keys ks) /\ (counter (server_keys ks) <= B)%Z /\
  (0 <= counter (client_keys ks) <= B)%Z.
Definition keys_ok ks ks' : Prop := forall B, (2 <= B < 2 ^ 64)%Z -> ks_inv B ks -> ks_inv B ks'.

Lemma keys_ok_same ks ks' :
  server_keys ks' = server_keys ks -> client_keys ks' = client_keys ks -> keys_ok ks ks'.
Proof. intros Hs Hc B _. unfold ks_inv. by rewrite Hs, Hc. Qed.

Lemma keys_ok_traffic ks ks' ts st :
  HashLen <= length ts ->
  key st = key (traffic_state ts) -> iv st = iv (traffic_state ts) -> (0 <= counter st <= 2)%Z ->
  server_keys ks' = st -> counter (client_keys ks') = 0%Z -> keys_ok ks ks'.
Proof.
  intros Hts Hk Hi Hc Hs Hcl B HB _. unfold ks_inv, kss_wf. rewrite Hs, Hcl, Hk, Hi.
  destruct (traffic_state_wf ts Hts) as (? & ? & _). split_and!; (done || lia).
Qed.

Lemma write_first_flight_spec cfg hello idx mode out ks :
  length (legacy_session_id hello) <= 32 -> mode_ok cfg mode ->
  wp (write_first_flight cfg hello idx mode) (W [] out, ks)
    (fun n '(w, ks') => exists ikm, kex_ikm cfg mode = Some ikm /\
       let f := the_flight cfg (legacy_session_id hello) idx mode
                  (sh_secret (shared ks)) (transcript_hash ks) ikm in
       n = length (fl_bytes f) /\ n <= length out /\ w = W (fl_bytes f) (drop n out) /\
       ks' = fl_schedule f (binder_key (client_state ks)))
    (fun e '(_, ks') => keys_ok ks ks' /\ forall ikm, kex_ikm cfg mode = Some ikm ->
       length out < length (fl_bytes (the_flight cfg (legacy_session_id hello) idx mode
                                        (sh_secret (shared ks)) (transcript_hash ks) ikm))).
Proof.
  intros Hsid Hmode. unfold write_first_flight. pose proof hash_len as HH.
  apply wp_bind. eapply wp_mono; [by apply write_server_hello_spec| |].
  2:{ intros ? [? ?] (_ & -> & Hlt). split; [by apply keys_ok_same|]. intros ikm _.
      unfold fl_bytes, the_flight at 1. cbn [fl_hello]. rewrite length_app. lia. }
  intros _ [w1 ks1] (Hfit1 & -> & ->). set (r1 := plain_record _ _) in *.
  apply wp_bind, wp_zoom. cbn [snd fst]. unfold wp. rewrite derive_handshake_secret_spec by done.
  destruct (kex_ikm cfg mode) as [ikm|] eqn:Hikm; [|by split; [apply keys_ok_same|]].
  change (sh_secret (shared (with_transcript ?t ks))) with (sh_secret (shared ks)).
  set (f := the_flight cfg (legacy_session_id hello) idx mode (sh_secret (shared ks))
              (transcript_hash ks) ikm).
  set (st0 := traffic_state (fl_server_ts f)).
  assert (HashLen <= length (fl_hs f)) as Hhs by (cbn; by rewrite length_Extract).
  assert (length (fl_server_ts f) = HashLen) as Hts by (by apply length_Derive_Secret).
  assert (kss_wf st0) as Hw0 by (apply traffic_state_wf; lia).
  assert (kss_wf (bump st0)) as Hw1 by (destruct Hw0 as (? & ? & ?); split_and!; simpl; (done || lia)).
  set (ks2 := with_traffic _ _ _ _).
  assert (server_keys ks2 = st0) as Hk2 by done.
  apply wp_bind. eapply wp_mono;
    [apply (write_encrypted_spec _ ee_message); [apply writes_ee|by rewrite Hk2|done|done]| |].
  2:{ intros ? [? ?] (_ & -> & Hlt). split.
      - apply (keys_ok_traffic _ _ (fl_server_ts f) st0); [lia|done..].
      - intros ? [= <-]. fold f. unfold fl_bytes. rewrite !length_app. revert Hlt. rewrite Hk2.
        rewrite length_drop. change (fl_hello f) with r1. fold st0. lia. }
  rewrite Hk2. intros _ [w3 ks3] (Hfit3 & -> & ->). set (r3 := sealed _ _ _) in *.
  set (ks3 := with_server_keys _ _).
  assert (transcript_hash ks3 = fl_transcript f ++ ee_message) as Ht3 by reflexivity.
  assert (server_keys ks3 = bump st0) as Hk3 by reflexivity.
  assert (binder_key (client_state ks3) = binder_key (client_state ks)) as Hb3 by reflexivity.
  assert (writes encode_server_finished (fl_finished f) ks3) as Hwf3.
  { unfold fl_finished. rewrite <-Ht3. apply writes_finished; [lia|by rewrite Hk3]. }
  apply wp_bind. eapply wp_mono;
    [apply (write_encrypted_spec _ (fl_finished f)); rewrite ?Hk3; try done| |].
  3:{ intros ? [? ?] (_ & -> & Hlt). split.
      - apply (keys_ok_traffic _ _ (fl_server_ts f) (bump st0)); [lia|done|done|simpl; lia|done..].
      - intros ? [= <-]. fold f. unfold fl_bytes. rewrite !length_app. revert Hlt. rewrite Hk3.
        rewrite !length_drop. change (fl_hello f) with r1. fold st0 r3. lia. }
  { unfold fl_finished. rewrite length_finished_message. lia. }
  intros _ [w4 ks4] (Hfit4 & -> & ->). rewrite Hk3 in *.
  set (r4 := sealed _ (fl_finished f) _) in *.
  unfold on_fst, wp, zoom, ow_len. rewrite bind_get. cbn [fst snd].
  exists ikm. split; [done|]. cbv zeta. fold f.
  assert (fl_bytes f = (r1 ++ r3) ++ r4) as -> by (by rewrite <-(assoc_L (++))).
  assert (length ((r1 ++ r3) ++ r4) <= length out) as Hall
    by (rewrite !length_drop in *; rewrite !length_app; lia).
  cbn [ow_pos W]. split_and!; [done|done| |].
  - rewrite !drop_drop. f_equal. f_equal. rewrite !length_app. lia.
  - unfold fl_schedule, with_server_keys, with_transcript. cbn. by rewrite <-!(assoc_L (++)).
Qed.
End Flight.

Section Hello.
Context `{CS : TlsCipherSuite, !TlsCipherSuiteLaws CS, X : X25519Ops}.
Implicit Types (ks : KeySchedule) (cfg : TlsServerConfig) (hello : ClientHelloRef) (hrr : HrrState).

(** ** Reading the offer *)

Definition supports_tls13 hello : bool :=
  match find_map find_versions (extensions hello) with
  | Some v => existsb (fun v => bool_decide (v = TLS13)) (versions v)
  | None => false
  end.
Definition supports_suite hello : bool :=
  existsb (fun c => bool_decide (c = be_bytes 2 TLS_AES_128_GCM_SHA256))
    (chunks_exact_2 (cipher_suites hello)).

Lemma validate_supported_versions_wp {S} hello (s : S) :
  wp (validate_supported_versions hello) s
    (fun _ s' => s' = s /\ supports_tls13 hello = true)
    (fun _ s' => s' = s /\ supports_tls13 hello = false).
Proof.
  unfold validate_supported_versions, supports_tls13. apply wp_bind, wp_ok_or.
  destruct (find_map _ _) as [v|]; [|done]. by destruct (existsb _ _) eqn:?.
Qed.

Lemma validate_cipher_suites_wp {S} hello (s : S) :
  wp (validate_cipher_suites hello) s
    (fun _ s' => s' = s /\ supports_suite hello = true)
    (fun _ s' => s' = s /\ supports_suite hello = false).
Proof.
  unfold validate_cipher_suites, supports_suite. cbv zeta. by destruct (existsb _ _) eqn:?.
Qed.

(** The snapshot of the first ClientHello, and its invariant. *)
Definition snapshot_sid hrr : list byte :=
  take (Z.to_nat (byte_val (ch1_session_id_len hrr))) (ch1_session_id hrr).
Definition hrr_wf hrr : Prop :=
  length (ch1_session_id hrr) = 32 /\ (byte_val (ch1_session_id_len hrr) <= 32)%Z.

Lemma validate_ch2_wp {S} hello hrr (s : S) :
  hrr_wf hrr ->
  wp (validate_ch2_consistency hello hrr) s
    (fun _ s' => s' = s /\ random hello = ch1_random hrr /\ legacy_session_id hello = snapshot_sid hrr)
    (fun e s' => s' = s /\ e = abort_fatal IllegalParameter /\
       (random hello <> ch1_random hrr \/ legacy_session_id hello <> snapshot_sid hrr)).
Proof.
  intros [Hl Hb]. unfold validate_ch2_consistency. case_decide as Hr; [apply wp_err; by auto|].
  pose proof (byte_val_range (ch1_session_id_len hrr)).
  rewrite sub_Some, bind_unwrap_Some_wp, drop_0, Nat.sub_0_r by lia. fold (snapshot_sid hrr).
  case_decide as Hs; [apply wp_err; by auto|]. apply wp_ret.
  done.
Qed.

Lemma find_x25519_wp {S} shares (s : S) :
  wp (find_x25519 shares) s
    (fun o s' => s' = s /\ match o with Some pub => length pub = X25519_LEN | None => True end)
    (fun _ s' => s' = s).
Proof.
  induction shares as [|e shares IH]; simpl; [done|].
  by repeat case_decide.
Qed.

(** The key-exchange decision as a pure function. *)
Definition kex_choice hello cfg (already : bool) : result TlsError KexDecision :=
  fst (decide_kex hello cfg already tt).

Lemma find_x25519_pure {S} shares (s : S) :
  find_x25519 shares s = (fst (find_x25519 shares tt), s).
Proof. induction shares as [|e shares IH]; simpl; [done|]. by repeat case_decide. Qed.

Lemma decide_kex_pure {S} hello cfg already (s : S) :
  decide_kex hello cfg already s = (kex_choice hello cfg already, s).
Proof.
  unfold kex_choice, decide_kex. destruct (find_map find_modes _) as [ms|]; [|done].
  rewrite !bind_ok_or_Some. cbv zeta. case_match; [|by case_match].
  unfold find_client_x25519_share. destruct (find_map find_key_share _) as [sh|].
  - pose proof (find_x25519_pure (client_shares sh) s) as Hp. unfold mbind, M_bind. rewrite Hp.
    pose proof (find_x25519_pure (client_shares sh) tt) as Hp'. rewrite Hp'. cbn [fst].
    destruct (fst (find_x25519 (client_shares sh) tt)) as [[]| | |]; try done. by repeat case_match.
  - rewrite !bind_ret. by repeat case_match.
Qed.

Lemma decide_kex_wp {S} hello cfg already (s : S) :
  wp (decide_kex hello cfg already) s
    (fun dec s' => s' = s /\ kex_choice hello cfg already = Ok dec /\
       match dec with Use mode => mode_ok cfg mode | Retry g => g = X25519 /\ already = false end)
    (fun e s' => s' = s /\ kex_choice hello cfg already = Err e).
Proof.
  cut (wp (decide_kex hello cfg already) s (fun dec s' => s' = s /\
       match dec with Use mode => mode_ok cfg mode | Retry g => g = X25519 /\ already = false end)
      (fun _ s' => s' = s)).
  { unfold wp. rewrite decide_kex_pure. destruct (kex_choice _ _ _); naive_solver. }
  unfold decide_kex. apply wp_bind, wp_ok_or. destruct (find_map find_modes _) as [ms|]; [|done].
  cbv zeta. case_match eqn:Hd; [|by case_match].
  apply andb_true_iff in Hd as [_ Hd%bool_decide_eq_true]. apply wp_bind.
  apply (wp_mono _ _ (fun o s' => s' = s /\ match o with Some pub => length pub = X25519_LEN | None => True end)
    _ (fun _ s' => s' = s)); [| |done].
  - unfold find_client_x25519_share. destruct (find_map find_key_share _); [apply find_x25519_wp|done].
  - intros [pub|] s' [-> Hpub]; [by apply wp_ret|]. case_match; [done|].
    destruct already; simpl; [done|]. by case_match.
Qed.

Lemma find_map_elem {A B} (f : A -> option B) l b :
  find_map f l = Some b -> exists a, a ∈ l /\ f a = Some b.
Proof.
  induction l as [|a l IH]; simpl; [done|]. destruct (f a) eqn:Ha.
  - intros [= ->]. exists a. split; [set_solver|done].
  - intros (a' & ? & ?)%IH. exists a'. split; [set_solver|done].
Qed.

Lemma position_Some {A} (p : A -> bool) l i :
  position p l = Some i ->
  (exists a, l !! i = Some a /\ p a = true) /\
  (forall j a, j < i -> l !! j = Some a -> p a = false).
Proof.
  revert i. induction l as [|a l IH]; intros i; simpl; [done|]. destruct (p a) eqn:Ha.
  - intros [= <-]. split; [by exists a|]. intros; lia.
  - destruct (position p l) as [j|] eqn:Hj; [|done]. intros [= <-].
    destruct (IH j eq_refl) as [Hs Hn]. split; [done|]. intros [|k] b Hk; simpl; [by intros [= <-]|].
    apply Hn. lia.
Qed.

(** The identity the server selects: the first that is its own. *)
Record Selected cfg hello (psk : PreSharedKeyClientHello) (idx : nat) (binder : list byte) : Prop := {
  sel_ext : find_map find_psk (extensions hello) = Some psk;
  sel_identity : identities psk !! idx = Some (psk_identity cfg);
  sel_first j id : j < idx -> identities psk !! j = Some id -> id <> psk_identity cfg;
  sel_binder : binders psk !! idx = Some binder;
}.

Lemma Selected_unique cfg hello psk psk' i i' b b' :
  Selected cfg hello psk i b -> Selected cfg hello psk' i' b' -> psk = psk' /\ i = i' /\ b = b'.
Proof.
  intros [He Hi Hf Hb] [He' Hi' Hf' Hb']. rewrite He in He'. injection He' as <-.
  assert (i = i') as <-; [|by simplify_eq].
  destruct (Nat.lt_trichotomy i i') as [Hlt|[?|Hlt]]; [|done|].
  - by destruct (Hf' _ _ Hlt Hi).
  - by destruct (Hf _ _ Hlt Hi').
Qed.

Lemma position_None {A} (p : A -> bool) l : position p l = None -> Forall (fun a => p a = false) l.
Proof.
  induction l as [|a l IH]; simpl; [done|]. destruct (p a) eqn:Ha; [done|].
  destruct (position p l); [done|]. constructor; auto.
Qed.

Lemma locate_wp {S} NEXT f hello cfg (s : S) :
  hello_of NEXT f = Ok hello ->
  wp (locate_our_identity hello cfg) s
    (fun '(idx16, binder) s' => s' = s /\ exists psk idx,
       Selected cfg hello psk idx binder /\ idx16 = (Z.of_nat idx mod 2 ^ 16)%Z)
    (fun _ s' => s' = s /\ forall psk idx binder, ~ Selected cfg hello psk idx binder).
Proof.
  intros Hof. unfold locate_our_identity. apply wp_bind, wp_ok_or.
  destruct (find_map find_psk _) as [psk|] eqn:Hpsk.
  2:{ split; [done|]. intros psk idx binder []. congruence. }
  apply wp_bind, wp_ok_or. destruct (position _ _) as [idx|] eqn:Hpos.
  2:{ split; [done|]. intros psk' idx binder [He Hi _ _]. simplify_eq.
      apply position_None in Hpos. eapply Forall_lookup_1 in Hpos; [|done].
      by apply bool_decide_eq_false in Hpos. }
  apply position_Some in Hpos as [(id & Hid & Heq%bool_decide_eq_true) Hfirst]. subst id.
  pose proof Hpsk as (e & Hin & He)%find_map_elem. destruct e; try done. injection He as ->.
  pose proof (hello_of_psk _ _ _ _ Hof Hin) as Hlen.
  apply lookup_lt_Some in Hid as Hlt. rewrite <-Hlen in Hlt.
  destruct (lookup_lt_is_Some_2 _ _ Hlt) as [binder Hb]. rewrite Hb, bind_unwrap_Some_wp.
  apply wp_ret. split; [done|]. exists psk, idx. split; [|done]. split; [done..| |done].
  intros j id Hj Hl. by specialize (Hfirst j id Hj Hl) as ?%bool_decide_eq_false.
Qed.

(** ** The binder check *)

(** The schedule once the early secret is in place. *)
Definition early_schedule (psk : list byte) ks : KeySchedule :=
  let es := Extract (sh_secret (shared ks)) psk in
  mkKS (mkShared (Derive_Secret es (b_ "derived") []) (secret_of es))
       (mkWrite (w_state (client_state ks)) (secret_of (Derive_Secret es (b_ "ext binder") [])))
       (server_state ks).
Definition early cfg hrr ks : KeySchedule :=
  if sent hrr then ks else early_schedule (psk_secret cfg) ks.

(** The bytes under the binder MAC: the transcript so far and the truncated hello. *)
Definition binder_input ks hrr (ch : list byte) hello : list byte :=
  (if sent hrr then transcript_hash ks else []) ++ take (binders_start_offset hello) ch.

(** Verification depends on the schedule only, and always returns. *)
Lemma verify_psk_binder_cases {S} ks t r (s : S) :
  (exists b, verify_psk_binder ks t r s = (Ok b, s) /\ verify_psk_binder ks t r tt = (Ok b, tt)) \/
  (exists e, verify_psk_binder ks t r s = (Err e, s) /\ verify_psk_binder ks t r tt = (Err e, tt)).
Proof.
  unfold verify_psk_binder, mbind, M_bind. rewrite !make_expanded_label by (simpl; lia).
  destruct (binder_key (client_state ks)) as [|h]; [by right; eexists|]. left.
  unfold mbind, M_bind. simpl. destruct (expand_total h (HkdfLabel HashLen (b_ "finished") []) HashLen)
    as (k & Hk & _); [apply hash_len_bound|]. rewrite Hk. simpl.
  destruct (hmac_total k (digest_out t)) as (v & -> & _). by eexists.
Qed.

Lemma check_binder_wp ch cfg hello binder st :
  binders_start_offset hello <= length ch ->
  let ks1 := early cfg (hl_hrr st) (hl_schedule st) in
  wp (check_binder ch cfg hello binder) st
    (fun _ st' => st' = mkHelloState ks1 (hl_hrr st) (hl_out st) /\
       verify_psk_binder ks1 (binder_input ks1 (hl_hrr st) ch hello) binder tt = (Ok true, tt))
    (fun _ st' => st' = mkHelloState ks1 (hl_hrr st) (hl_out st) /\
       verify_psk_binder ks1 (binder_input ks1 (hl_hrr st) ch hello) binder tt <> (Ok true, tt)).
Proof.
  intros Hoff ks1. destruct st as [ks hrr out]. cbn [hl_schedule hl_hrr hl_out] in *.
  unfold check_binder. apply wp_bind, wp_get. cbn [hl_hrr].
  apply wp_bind. set (st1 := mkHelloState ks1 hrr out).
  assert (forall Q (R : TlsError -> HelloState -> Prop), Q tt st1 ->
    wp (if sent hrr then mret tt else on_schedule (crypto_error (initialize_early_secret (Some (psk_secret cfg)))))
      (mkHelloState ks hrr out) Q R) as Hinit.
  { intros Q R HQ. unfold st1, ks1, early in HQ. destruct (sent hrr); [done|].
    apply wp_zoom. unfold wp, crypto_error.
    by erewrite map_err_Ok by apply initialize_early_secret_spec. }
  apply Hinit. apply wp_bind, wp_get. cbv zeta. cbn [hl_schedule hl_hrr st1].
  rewrite sub_Some, bind_unwrap_Some_wp, drop_0, Nat.sub_0_r by lia.
  fold (binder_input ks1 hrr ch hello). apply wp_bind. unfold crypto_error. apply wp_map_err.
  unfold wp at 1.
  destruct (verify_psk_binder_cases ks1 (binder_input ks1 hrr ch hello) binder st1)
    as [(b & Hb & Ht)|(e & Hb & Ht)]; rewrite Hb; [|by rewrite Ht].
  destruct b; [done|]. by rewrite Ht.
Qed.

(** ** The outcome of the ClientHello step *)

Lemma wp_with_writer {A} (m : WM A) st Q (R : TlsError -> HelloState -> Prop) :
  wp m (W [] (hl_out st), hl_schedule st)
    (fun a '(w, ks) => Q a (mkHelloState ks (hl_hrr st) (ow_buf w)))
    (fun e '(w, ks) => R e (mkHelloState ks (hl_hrr st) (ow_buf w))) ->
  wp (with_writer m) st Q R.
Proof. intros H. apply wp_zoom. eapply wp_mono; [exact H|by intros ? []..]. Qed.

Definition after_hrr hello hrr : HrrState :=
  mkHrr true (random hello) (u8_of_nat (length (legacy_session_id hello)))
    (splice (ch1_session_id hrr) 0 (legacy_session_id hello)).

Lemma after_hrr_wf hello hrr :
  hrr_wf hrr -> length (legacy_session_id hello) <= 32 ->
  hrr_wf (after_hrr hello hrr) /\ snapshot_sid (after_hrr hello hrr) = legacy_session_id hello.
Proof.
  intros [Hl _] Hsid. unfold hrr_wf, snapshot_sid, after_hrr. cbn [ch1_session_id ch1_session_id_len].
  rewrite byte_val_u8_of_nat by lia. rewrite Nat2Z.id. split; [split; [|lia]|].
  - by rewrite length_splice by lia.
  - unfold splice. rewrite take_0. cbn [app]. apply take_app_length.
Qed.

(** The message is a ClientHello that reads as [h]. *)
Definition reads_as (ch : list byte) (h : ClientHelloRef) : Prop :=
  exists f, hello_fields_ok f /\ ch = hello_message f /\ hello_of CLIENT_HELLO_MAX_EXTENSIONS f = Ok h.

(** What the server checked before it answered: the hello is well formed and
    offers TLS 1.3 and the suite, a second hello repeats the first, the key
    exchange is decided, and the binder of the server's identity verifies. *)
Record Accepted cfg hrr ks1 (ch : list byte) hello (dec : KexDecision) (idx : nat)
    (binder : list byte) : Prop := {
  acc_message : reads_as ch hello;
  acc_version : supports_tls13 hello = true;
  acc_suite : supports_suite hello = true;
  acc_repeat : sent hrr = true ->
    random hello = ch1_random hrr /\ legacy_session_id hello = snapshot_sid hrr;
  acc_kex : kex_choice hello cfg (sent hrr) = Ok dec;
  acc_mode : match dec with
             | Use mode => mode_ok cfg mode
             | Retry g => g = X25519 /\ sent hrr = false
             end;
  acc_selected : exists psk, Selected cfg hello psk idx binder;
  acc_binder : verify_psk_binder ks1 (binder_input ks1 hrr ch hello) binder tt = (Ok true, tt);
}.

(** The answer and the state after it. *)
Definition answer cfg hrr ks1 (ch : list byte) hello (dec : KexDecision) (idx : nat)
    (out : list byte) (o : HandshakeOutput) (st' : HelloState) : Prop :=
  let sid := legacy_session_id hello in
  match dec with
  | Retry g =>
      let r := plain_record HT_ServerHello (hrr_body sid g) in
      length r <= length out /\ o = HelloRetryRequest r /\
      st' = mkHelloState (with_transcript (message_hash ch ++ hrr_message sid g) ks1)
              (after_hrr hello hrr) (r ++ drop (length r) out)
  | Use mode => exists ikm, kex_ikm cfg mode = Some ikm /\
      let f := the_flight cfg sid (Z.of_nat idx mod 2 ^ 16) mode
                 (sh_secret (shared ks1)) (transcript_hash ks1 ++ ch) ikm in
      length (fl_bytes f) <= length out /\ o = FirstFlight (fl_bytes f) /\
      st' = mkHelloState (fl_schedule f (binder_key (client_state ks1))) hrr
              (fl_bytes f ++ drop (length (fl_bytes f)) out)
  end.

Lemma sub_0_app {A} (l1 l2 : list A) : sub (l1 ++ l2) 0 (length l1) = Some l1.
Proof. exact (sub_app [] l1 l2). Qed.

Lemma retry_wp ch hello g st :
  length (legacy_session_id hello) <= 32 -> hrr_wf (hl_hrr st) ->
  wp (len ← with_writer
        (write_hello_retry_request_record (legacy_session_id hello) g ch;; on_fst ow_len);
      on_hrr (record_hrr hello);;
      st' ← get;
      bytes ← unwrap (sub (hl_out st') 0 len);
      mret (HelloRetryRequest bytes)) st
    (fun o st' => let sid := legacy_session_id hello in
       let r := plain_record HT_ServerHello (hrr_body sid g) in
       length r <= length (hl_out st) /\ o = HelloRetryRequest r /\
       st' = mkHelloState (with_transcript (message_hash ch ++ hrr_message sid g) (hl_schedule st))
               (after_hrr hello (hl_hrr st)) (r ++ drop (length r) (hl_out st)))
    (fun _ st' => hl_hrr st' = hl_hrr st /\ keys_ok (hl_schedule st) (hl_schedule st') /\
       length (hl_out st) < length (plain_record HT_ServerHello (hrr_body (legacy_session_id hello) g))).
Proof.
  intros Hsid [Hl Hb]. apply wp_bind, wp_with_writer, wp_bind.
  eapply wp_mono; [by apply write_hrr_spec| |].
  2:{ intros ? [? ?] (_ & -> & Hlt). split_and!; [done|by apply keys_ok_same|done]. }
  intros _ [w ks] (Hfit & -> & ->). set (r := plain_record _ _) in *.
  unfold wp at 1, on_fst, zoom, ow_len. rewrite bind_get. cbn [fst snd ow_buf ow_pos W].
  apply wp_bind, wp_zoom. cbn [hl_hrr]. unfold record_hrr. apply wp_bind, wp_get. cbv zeta.
  rewrite decide_True by lia. apply wp_put, wp_bind, wp_get. cbn [hl_out W ow_buf ow_pos].
  by rewrite sub_0_app, bind_unwrap_Some_wp.
Qed.

Lemma use_wp ch cfg hello idx mode st :
  length (legacy_session_id hello) <= 32 -> mode_ok cfg mode ->
  wp (on_schedule (transcript_update ch);;
      len ← with_writer (write_first_flight cfg hello idx mode);
      st' ← get;
      bytes ← unwrap (sub (hl_out st') 0 len);
      mret (FirstFlight bytes)) st
    (fun o st' => exists ikm, kex_ikm cfg mode = Some ikm /\
       let f := the_flight cfg (legacy_session_id hello) idx mode
                  (sh_secret (shared (hl_schedule st))) (transcript_hash (hl_schedule st) ++ ch) ikm in
       length (fl_bytes f) <= length (hl_out st) /\ o = FirstFlight (fl_bytes f) /\
       st' = mkHelloState (fl_schedule f (binder_key (client_state (hl_schedule st)))) (hl_hrr st)
               (fl_bytes f ++ drop (length (fl_bytes f)) (hl_out st)))
    (fun _ st' => hl_hrr st' = hl_hrr st /\ keys_ok (hl_schedule st) (hl_schedule st') /\
       forall ikm, kex_ikm cfg mode = Some ikm ->
       length (hl_out st) < length (fl_bytes (the_flight cfg (legacy_session_id hello) idx mode
         (sh_secret (shared (hl_schedule st))) (transcript_hash (hl_schedule st) ++ ch) ikm))).
Proof.
  intros Hsid Hmode. apply wp_bind. unfold wp at 1, on_schedule, zoom, transcript_update.
  rewrite bind_get. cbn. apply wp_bind, wp_with_writer.
  eapply wp_mono; [by apply write_first_flight_spec| |by intros ? [] []].
  intros n [w ks] (ikm & Hikm & Hn & Hfit & -> & ->). cbn [hl_out hl_hrr hl_schedule] in *.
  apply wp_bind, wp_get. cbn [hl_out W ow_buf]. rewrite Hn, sub_0_app, bind_unwrap_Some_wp.
  apply wp_ret. exists ikm. split; [done|]. cbv zeta. rewrite Hn in Hfit. by split_and!.
Qed.

Lemma reads_as_parse ch h :
  reads_as ch h ->
  ClientHelloRef_parse CLIENT_HELLO_MAX_EXTENSIONS (pb_new ch) = (Ok h, mkPB (length ch) ch).
Proof. intros (f & Hf & -> & Hh). by rewrite hello_parse_complete, Hh. Qed.

Lemma reads_as_unique ch h h' : reads_as ch h -> reads_as ch h' -> h = h'.
Proof. intros H%reads_as_parse H'%reads_as_parse. congruence. Qed.

(** Parsing, with the check that nothing is left. *)
Lemma parse_hello_wp {S} ch (s : S) Q (R : TlsError -> S -> Prop) :
  (forall e, (forall h, ~ reads_as ch h) -> R e s) ->
  (forall h b, (is_empty b = true -> reads_as ch h) ->
     (is_empty b = false -> forall h', ~ reads_as ch h') -> Q (h, b) s) ->
  wp (run_on (pb_new ch) (h ← ClientHelloRef_parse CLIENT_HELLO_MAX_EXTENSIONS; b ← get; mret (h, b)))
     s Q R.
Proof.
  intros HR HQ. apply wp_run_on, wp_bind.
  pose proof (hello_parse_sound CLIENT_HELLO_MAX_EXTENSIONS ch) as Hs. unfold wp in Hs |- *.
  destruct (ClientHelloRef_parse _ (pb_new ch)) as [[h|e| |] b] eqn:Hp; [| |done..].
  - destruct Hs as (Hwf & f & Hf & (_ & _ & Hc) & Hh). apply wp_bind, wp_get, wp_ret, HQ.
    + intros He. apply (is_empty_spec b Hwf) in He. rewrite He, app_nil_r, unread_new in Hc.
      exists f. eauto.
    + intros He h' Hh'%reads_as_parse. rewrite Hp in Hh'. injection Hh' as -> ->.
      unfold is_empty in He. by apply bool_decide_eq_false in He.
  - apply HR. intros h Hh%reads_as_parse. congruence.
Qed.

(** The output buffer is too small for the answer. *)
Definition too_small cfg ks1 (ch : list byte) hello (dec : KexDecision) (idx : nat)
    (out : list byte) : Prop :=
  let sid := legacy_session_id hello in
  match dec with
  | Retry g => length out < length (plain_record HT_ServerHello (hrr_body sid g))
  | Use mode => forall ikm, kex_ikm cfg mode = Some ikm ->
      length out < length (fl_bytes (the_flight cfg sid (Z.of_nat idx mod 2 ^ 16) mode
        (sh_secret (shared ks1)) (transcript_hash ks1 ++ ch) ikm))
  end.

Lemma early_keys cfg hrr ks : keys_ok ks (early cfg hrr ks).
Proof. apply keys_ok_same; unfold early; by destruct (sent hrr). Qed.

(** A check failed: no reading of the message can be accepted.  [Huniq] says that
    an accepted hello is the parsed one; [tac] finds the contradiction. *)
Ltac rejected Huniq tac :=
  let Hx := fresh "Hx" in let Hacc := fresh "Hacc" in
  intros ? ? (-> & Hx); split_and!; [done..|]; intros ? ? ? ? Hacc;
  rewrite <-(Huniq _ _ _ _ Hacc) in Hx; destruct Hacc; tac.

(** What was read, chosen and selected on the way is what an accepted hello has. *)
Lemma accepted_is cfg hrr ks1 ch hello dec psk idx binder :
  reads_as ch hello -> kex_choice hello cfg (sent hrr) = Ok dec -> Selected cfg hello psk idx binder ->
  forall hello' dec' idx' binder', Accepted cfg hrr ks1 ch hello' dec' idx' binder' ->
    hello' = hello /\ dec' = dec /\ idx' = idx /\ binder' = binder.
Proof.
  intros Hr Hkex Hsel h' dec' idx' binder' [Hr' _ _ _ Hk' _ [psk' Hsel'] _].
  pose proof (reads_as_unique _ _ _ Hr' Hr) as ->. rewrite Hkex in Hk'. injection Hk' as <-.
  by destruct (Selected_unique _ _ _ _ _ _ _ _ Hsel Hsel') as (_ & -> & ->).
Qed.

(** After a HelloRetryRequest the second hello repeats the first. *)
Lemma repeat_wp {S} hello hrr (s : S) :
  hrr_wf hrr ->
  wp (if sent hrr then validate_ch2_consistency hello hrr else mret tt) s
    (fun _ s' => s' = s /\ (sent hrr = true ->
       random hello = ch1_random hrr /\ legacy_session_id hello = snapshot_sid hrr))
    (fun _ s' => s' = s /\ sent hrr = true /\
       (random hello <> ch1_random hrr \/ legacy_session_id hello <> snapshot_sid hrr)).
Proof.
  intros Hwf. destruct (sent hrr); [|by apply wp_ret].
  eapply wp_mono; [by apply validate_ch2_wp| |]; naive_solver.
Qed.

Lemma hello_step ch cfg st :
  hrr_wf (hl_hrr st) ->
  let ks1 := early cfg (hl_hrr st) (hl_schedule st) in
  wp (process_client_hello_inner ch cfg) st
    (fun o st' => exists hello dec idx binder,
       Accepted cfg (hl_hrr st) ks1 ch hello dec idx binder /\
       answer cfg (hl_hrr st) ks1 ch hello dec idx (hl_out st) o st')
    (fun _ st' => hl_hrr st' = hl_hrr st /\ keys_ok (hl_schedule st) (hl_schedule st') /\
       forall hello dec idx binder,
         Accepted cfg (hl_hrr st) ks1 ch hello dec idx binder ->
         too_small cfg ks1 ch hello dec idx (hl_out st)).
Proof.
  intros Hwf ks1. unfold process_client_hello_inner. apply wp_bind.
  assert (keys_ok (hl_schedule st) (hl_schedule st)) as Hk by (by apply keys_ok_same).
  apply parse_hello_wp.
  { intros e Hno. split_and!; [done..|]. intros hello ? ? ? []. by destruct (Hno hello). }
  intros hello b Hyes Hno. cbv beta iota.
  destruct (is_empty b).
  2:{ apply wp_err. split_and!; [done..|]. intros h' ? ? ? []. by destruct (Hno eq_refl h'). }
  specialize (Hyes eq_refl). clear Hno. cbn [negb].
  assert (forall hello' dec idx binder, Accepted cfg (hl_hrr st) ks1 ch hello' dec idx binder ->
    hello' = hello) as Huniq.
  { intros ? ? ? ? []. by eapply reads_as_unique. }
  apply wp_bind. eapply wp_mono; [apply validate_supported_versions_wp| |rejected Huniq ltac:(congruence)].
  intros _ ? [-> Hv].
  apply wp_bind. eapply wp_mono; [apply validate_cipher_suites_wp| |rejected Huniq ltac:(congruence)].
  intros _ ? [-> Hcs]. apply wp_bind, wp_get. apply wp_bind.
  eapply wp_mono; [by apply repeat_wp| |rejected Huniq ltac:(naive_solver)].
  intros _ ? [-> Hrep].
  apply wp_bind. eapply wp_mono; [apply decide_kex_wp| |rejected Huniq ltac:(congruence)].
  intros dec ? (-> & Hkex & Hmode).
  pose proof Hyes as (f & Hf & Hch & Hof).
  apply wp_bind. eapply wp_mono; [by eapply locate_wp| |rejected Huniq ltac:(naive_solver)].
  intros [idx16 binder] ? (-> & psk & idx & Hsel & ->).
  pose proof (accepted_is cfg (hl_hrr st) ks1 ch hello dec psk idx binder Hyes Hkex Hsel) as Huniq'.
  apply wp_bind. eapply wp_mono; [apply check_binder_wp| |].
  { rewrite Hch. by eapply hello_of_offset. }
  2:{ intros ? ? (-> & Hno). split_and!; [done|apply early_keys|]. intros h' ? ? ? Hacc.
      destruct (Huniq' _ _ _ _ Hacc) as (-> & _ & _ & ->). by destruct Hacc. }
  intros _ ? (-> & Hbinder). fold ks1 in Hbinder |- *.
  assert (length (legacy_session_id hello) <= 32) as Hsid.
  { destruct (hello_of_session_id _ _ _ Hof) as [-> _]. apply Hf. }
  assert (Accepted cfg (hl_hrr st) ks1 ch hello dec idx binder) as Hacc
    by (split; [by exists f|by eauto..]).
  assert (keys_ok (hl_schedule st) ks1) as Hk1 by apply early_keys.
  assert (forall ks', keys_ok ks1 ks' -> keys_ok (hl_schedule st) ks') as Htrans.
  { intros ks' H' B HB Hinv. apply H', Hk1; done. }
  apply (wp_mono _ _ (answer cfg (hl_hrr st) ks1 ch hello dec idx (hl_out st)) _
    (fun _ st' => hl_hrr st' = hl_hrr st /\ keys_ok ks1 (hl_schedule st') /\
       too_small cfg ks1 ch hello dec idx (hl_out st))).
  { destruct dec; [by apply use_wp|by apply retry_wp]. }
  - intros o st' Hans. by exists hello, dec, idx, binder.
  - intros e st' (Hh & Hks & Hsm). split_and!; [done|by apply Htrans|].
    intros h' dec' idx' b' (-> & -> & -> & _)%Huniq'. done.
Qed.
End Hello.

Section FinishedStep.
Context `{CS : TlsCipherSuite, !TlsCipherSuiteLaws CS, X : X25519Ops}.
Implicit Types ks : KeySchedule.

(** ** The outcome of the Finished step *)

Lemma parse_finished_sound inner :
  wp parse_finished (pb_new inner)
    (fun v _ => length v = HashLen /\ inner = finished_message v) (fun _ _ => True).
Proof.
  unfold parse_finished. pose proof (pb_new_wf inner) as Hw0.
  pose proof (consumed_refl (pb_new inner)) as Hc0. pose proof hash_len.
  eapply wp_step; [apply psound_inv_hs, psound_u8|done..|]. intros ty b1 ? -> Hw1 Hc1.
  case_decide as Hty; [done|].
  eapply wp_step; [apply psound_inv_hs, psound_u24|done..|]. intros bl b2 ? (-> & Hbl) Hw2 Hc2.
  case_decide as Hlen; [done|].
  eapply wp_step; [apply psound_inv_hs, psound_fill|done..|]. intros ? b3 v (-> & Hv) Hw3 Hc3.
  apply wp_bind, wp_get. destruct (is_empty b3) eqn:He; [|done]. apply wp_ret. split; [done|].
  apply (is_empty_spec b3 Hw3) in He. destruct Hc3 as (_ & _ & Hu).
  rewrite He, app_nil_r, unread_new in Hu. rewrite Hu, Hty.
  unfold finished_message, handshake_message, vec24. rewrite Hv, <-Hlen, Z2Nat.id by lia. done.
Qed.

Lemma parse_finished_complete v :
  length v = HashLen -> exists b, parse_finished (pb_new (finished_message v)) = (Ok v, b).
Proof.
  intros Hv. pose proof hash_len. unfold parse_finished, pb_new.
  assert (finished_message v = [hs_byte HT_Finished] ++ be_bytes 3 (Z.of_nat (length v)) ++ v ++ [])
    as -> by (by rewrite app_nil_r).
  eexists. change (mkPB 0 ?x) with (mkPB (length (@nil byte)) ([] ++ x)).
  step_over ltac:(apply parses_u8). rewrite decide_False by (by intros []).
  step_over ltac:(apply parses_u24; lia). rewrite Nat2Z.id, decide_False by lia.
  step_over ltac:(by apply parses_fill). rewrite bind_get. unfold is_empty. cbn [pb_pos pb_buffer].
  rewrite bool_decide_true by (by rewrite app_nil_r). reflexivity.
Qed.

(** The keys after the handshake: the application traffic keys of the chain, and
    the transcript with the client's Finished. *)
Definition after_finished (inner : list byte) ks : KeySchedule :=
  with_transcript (transcript_hash ks ++ inner)
    (with_traffic (Extract (sh_secret (shared ks)) (zeros HashLen))
       (b_ "c ap traffic") (b_ "s ap traffic") ks).

Lemma verify_client_finished_cases {S} ks v m (s : S) :
  (exists b, verify_client_finished ks (mkFinished v (Some m)) s = (Ok b, s) /\
             verify_client_finished ks (mkFinished v (Some m)) tt = (Ok b, tt)) \/
  (exists e, verify_client_finished ks (mkFinished v (Some m)) s = (Err e, s) /\
             verify_client_finished ks (mkFinished v (Some m)) tt = (Err e, tt)).
Proof.
  unfold verify_client_finished, mbind, M_bind. rewrite !make_expanded_label by (simpl; lia).
  destruct (traffic_secret (w_state (client_state ks))) as [|h]; [by right; eexists|]. left.
  unfold mbind, M_bind. simpl. destruct (expand_total h (HkdfLabel HashLen (b_ "finished") []) HashLen)
    as (k & Hk & _); [apply hash_len_bound|]. rewrite Hk. simpl.
  destruct (hmac_total k m) as (t & -> & _). by eexists.
Qed.

Lemma decrypt_for_finished r bl ks :
  length r = 5 + bl -> bl <= 256 -> (counter (client_keys ks) + 1 < 2 ^ 64)%Z ->
  zoom (fun ks => (ks, zeros 256)) (fun p _ => fst p)
    (n ← decrypt_client_record r bl; st ← get; unwrap (sub (snd st) 0 n)) ks
  = match open_record (client_keys ks) r with
    | Some p => (Ok p, with_client_keys (bump (client_keys ks)) ks)
    | None => (Err CryptoError, ks)
    end.
Proof.
  intros Hr Hbl Hctr. unfold zoom, mbind, M_bind.
  rewrite decrypt_client_record_spec by (unfold zeros; rewrite ?length_replicate; lia).
  destruct (open_record (client_keys ks) r) as [p|]; [|done]. cbv zeta. rewrite decide_True by done.
  unfold get. cbn [snd fst]. by rewrite sub_0_app.
Qed.

(** A TLSCiphertext record of at most 256 bytes of payload. *)
Definition framed (r : list byte) : Prop :=
  exists v1 v2 body, r = [ct_byte CT_ApplicationData; v1; v2] ++ vec16 body /\ length body <= 256.

Lemma framed_header r bl (s : KeySchedule) :
  check_record_header r s = (Ok bl, s) -> bl <= 256 -> framed r.
Proof.
  unfold check_record_header, RECORD_HEADER_LEN. intros H Hbl. revert H. case_decide as Hl; [done|].
  destruct r as [|b0 [|b1 [|b2 [|b3 [|b4 body]]]]]; simpl in Hl; try lia.
  cbn [lookup list_lookup]. rewrite bind_unwrap_Some. case_decide as Ht; [done|].
  rewrite !bind_unwrap_Some. case_decide as Hb; [done|]. intros [= <-].
  pose proof (from_be_range [b3; b4]) as Hr. simpl length in *.
  exists b1, b2, body. unfold vec16. replace (length body) with (Z.to_nat (from_be [b3; b4])) by lia.
  rewrite Z2Nat.id by lia. pose proof (be_bytes_from_be [b3; b4]) as Hbe. simpl length in Hbe. by rewrite Hbe, Ht.
Qed.

Lemma header_framed {S} r (s : S) :
  framed r -> exists bl, check_record_header r s = (Ok bl, s) /\ length r = 5 + bl /\ bl <= 256.
Proof.
  intros (v1 & v2 & body & -> & Hb). exists (length body). split_and!; [|lens; lia|done].
  unfold check_record_header, RECORD_HEADER_LEN, vec16.
  pose proof (from_be_be_bytes 2 (Z.of_nat (length body))) as Hf. rewrite be_bytes_2 in *.
  rewrite decide_False by (simpl; lia). cbn [app lookup list_lookup].
  rewrite bind_unwrap_Some, decide_False by (intros H; by apply H). rewrite !bind_unwrap_Some.
  rewrite Hf, Z.mod_small, Nat2Z.id by lia. by rewrite decide_False by (simpl; lia).
Qed.

(** The record carries a Finished message whose MAC [v] verifies. *)
Definition valid_finished ks (r v : list byte) : Prop :=
  framed r /\ length v = HashLen /\
  (exists k, open_record (client_keys ks) r
             = Some (finished_message v ++ ct_byte CT_Handshake :: zeros k)) /\
  verify_client_finished ks (mkFinished v (Some (digest_out (transcript_hash ks)))) tt = (Ok true, tt).

Lemma finished_complete r v ks :
  (counter (client_keys ks) + 1 < 2 ^ 64)%Z -> valid_finished ks r v ->
  process_client_finished r ks
  = (Ok tt, after_finished (finished_message v) (with_client_keys (bump (client_keys ks)) ks)).
Proof.
  intros Hctr (Hfr & Hv & (k & Ho) & Hver). unfold process_client_finished.
  destruct (header_framed r ks Hfr) as (bl & Hc & Hl & Hbl).
  rewrite (bind_Ok _ _ _ _ _ Hc), bind_get. cbv zeta. rewrite decide_False by lia.
  set (ks1 := with_client_keys (bump (client_keys ks)) ks).
  set (p := finished_message v ++ ct_byte CT_Handshake :: zeros k) in *.
  erewrite bind_Ok by (rewrite decrypt_for_finished, Ho by done; reflexivity). fold ks1.
  erewrite bind_Ok by (apply strip_padding_ok; done). cbv beta iota.
  rewrite decide_False by (intros H; by apply H). unfold p. rewrite take_app_length.
  destruct (parse_finished_complete v Hv) as [b Hp].
  rewrite (bind_Ok _ _ _ v ks1) by (unfold run_on; by rewrite Hp). rewrite bind_get.
  unfold crypto_error.
  destruct (verify_client_finished_cases ks1 v (digest_out (transcript_hash ks)) ks1)
    as [(b' & Hb & Hb')|(e & Hb & Hb')].
  2:{ change (verify_client_finished ks1) with (verify_client_finished ks) in Hb'. congruence. }
  assert (b' = true) as ->.
  { change (verify_client_finished ks1) with (verify_client_finished ks) in Hb'. congruence. }
  rewrite (bind_Ok _ _ _ true ks1) by (by apply map_err_Ok). cbn [negb].
  erewrite bind_Ok by (apply map_err_Ok, initialize_master_secret_spec). done.
Qed.

Lemma finished_step r ks :
  (counter (client_keys ks) + 1 < 2 ^ 64)%Z ->
  let ks1 := with_client_keys (bump (client_keys ks)) ks in
  wp (process_client_finished r) ks
    (fun _ ks' => exists v, valid_finished ks r v /\ ks' = after_finished (finished_message v) ks1)
    (fun _ ks' => (forall v, ~ valid_finished ks r v) /\
       (ks' = ks \/ is_Some (open_record (client_keys ks) r) /\ ks' = ks1)).
Proof.
  intros Hctr ks1.
  cut (wp (process_client_finished r) ks
    (fun _ ks' => exists v, valid_finished ks r v /\ ks' = after_finished (finished_message v) ks1)
    (fun _ ks' => ks' = ks \/ is_Some (open_record (client_keys ks) r) /\ ks' = ks1)).
  { unfold wp. destruct (process_client_finished r ks) as [[] ks'] eqn:Hp; try done.
    intros H. split; [|done]. intros v Hv. rewrite (finished_complete r v) in Hp by done. congruence. }
  unfold process_client_finished.
  destruct (check_record_header_cases r ks) as [(bl & Hc & Hl)|Hc]; apply wp_bind; unfold wp at 1;
    rewrite Hc; [|by left].
  apply wp_bind, wp_get. cbv zeta. case_decide as Hbl; [by left|].
  apply wp_bind. unfold wp at 1. rewrite decrypt_for_finished by lia.
  destruct (open_record (client_keys ks) r) as [p|] eqn:Ho; [|by left]. fold ks1.
  assert (forall (k : nat * ContentType -> M KeySchedule TlsError unit) (Q : unit -> KeySchedule -> Prop)
      (R : TlsError -> KeySchedule -> Prop),
    R InvalidRecord ks1 ->
    (forall n t, n < length p -> p = take n p ++ ct_byte t :: zeros (length p - n - 1) ->
       wp (k (n, t)) ks1 Q R) ->
    wp (strip_padding p ≫= k) ks1 Q R) as Hstrip.
  { intros k Q R HR Hk. apply wp_bind. unfold wp at 1.
    destruct (strip_padding_cases p ks1) as [(n & t & Hs & _ & _)|Hs]; rewrite Hs; [|done].
    apply strip_padding_sound in Hs as (_ & Hn & Hp). by apply Hk. }
  apply Hstrip; [by right; split; [eexists|]|]. clear Hstrip. intros n t Hn Hp. cbv beta iota.
  assert (is_Some (Some p) /\ ks1 = ks1) as Hsome by (split; [by eexists|done]).
  case_decide as Ht; [by right|]. rewrite Ht in Hp.
  apply wp_bind, wp_run_on. eapply wp_mono; [apply parse_finished_sound| |by right].
  intros v _ (Hv & Hin). rewrite Hin in *.
  apply wp_bind, wp_get, wp_bind. unfold crypto_error. apply wp_map_err. unfold wp at 1.
  destruct (verify_client_finished_cases ks1 v (digest_out (transcript_hash ks)) ks1)
    as [(b & -> & Hver)|(e & -> & _)]; [|by right].
  destruct b; [|by right]. cbn [negb]. apply wp_bind, wp_map_err. unfold wp at 1.
  rewrite initialize_master_secret_spec. unfold wp, transcript_update. rewrite bind_get.
  exists v. split; [|done]. split_and!; [eapply (framed_header _ bl); [exact Hc|lia]|done| |done].
  exists (length p - n - 1). by rewrite Ho, Hp at 1.
Qed.
End FinishedStep.
