(* ===== verification/ServerSpec.v ===== *)
(** The handshake the server promises, and the proof that server.rs implements it.

    [hs_step] is the PSK handshake of RFC 8446 as a transition relation on abstract
    states, with the secrets of section 7.1 and the messages as byte strings.
    [session_of] gives the [TlsServerSession] that represents an abstract state.
    The refinement theorems say that the two handshake methods take exactly the
    transitions of [hs_step]; the others follow a session through any sequence of
    calls. *)

From S2P Require Import Prelude Errors CryptoBuffer ParseBuffer Wire ExtensionData Extensions.
From S2P Require Import CryptoSuite KeySchedule KeyScheduleProps ClientHello Handshake Server.
From S2P Require Import ServerRecords ServerHandshake ServerSteps.
From Stdlib Require Import ZArith Lia.
From Stdlib Require Import Strings.Byte.
From Stdlib Require Strings.String.
From stdpp Require Import base list option numbers tactics sets.

Import Stdlib.Strings.String.StringSyntax.

Section Spec.
Context `{CS : TlsCipherSuite, !TlsCipherSuiteLaws CS, X : X25519Ops}.
Implicit Types (cfg : TlsServerConfig) (hello : ClientHelloRef).

(** ** The abstract handshake *)

(** A first ClientHello that was answered with a HelloRetryRequest, if any. *)
Abbreviation FirstHello := (option (list byte * ClientHelloRef)).

Inductive abs : Type :=
| Start (first : FirstHello)
| AwaitFinished (first : FirstHello) (f : Flight)
| Connected (first : FirstHello) (f : Flight).

(** Section 4.4.1: the transcript a ClientHello is appended to. *)
Definition hello_base (first : FirstHello) : list byte :=
  match first with
  | None => []
  | Some (ch1, h1) => message_hash ch1 ++ hrr_message (legacy_session_id h1) X25519
  end.

(** A ClientHello the server must accept. *)
Record Offer cfg (first : FirstHello) (ch : list byte) hello (dec : KexDecision) (idx : nat)
    (binder : list byte) : Prop := {
  of_message : reads_as ch hello;
  of_version : supports_tls13 hello = true;
  of_suite : supports_suite hello = true;
  of_repeat ch1 h1 : first = Some (ch1, h1) ->
    random hello = random h1 /\ legacy_session_id hello = legacy_session_id h1;
  of_kex : kex_choice hello cfg (bool_decide (is_Some first)) = Ok dec;
  of_selected : exists psk, Selected cfg hello psk idx binder;
  of_binder : binder = Finished_Mac (Binder_Key (psk_secret cfg))
                (hello_base first ++ take (binders_start_offset hello) ch);
}.

Definition early_chain cfg : list byte :=
  Derive_Secret (Early_Secret (psk_secret cfg)) (b_ "derived") [].

Definition flight cfg (first : FirstHello) (ch : list byte) hello (mode : KexMode) (idx : nat)
    (ikm : list byte) : Flight :=
  the_flight cfg (legacy_session_id hello) (Z.of_nat idx mod 2 ^ 16) mode
    (early_chain cfg) (hello_base first ++ ch) ikm.

(** The messages up to the server's Finished, and the client's Finished for them. *)
Definition fl_messages (f : Flight) : list byte := fl_transcript f ++ ee_message ++ fl_finished f.
Definition client_finished (f : Flight) : list byte :=
  finished_message (Finished_Mac (fl_client_ts f) (fl_messages f)).

Inductive hs_step cfg : abs -> list byte -> list byte -> abs -> Prop :=
| hs_retry ch hello g idx binder :
    Offer cfg None ch hello (Retry g) idx binder ->
    hs_step cfg (Start None) ch
      (plain_record HT_ServerHello (hrr_body (legacy_session_id hello) g))
      (Start (Some (ch, hello)))
| hs_flight first ch hello mode idx binder ikm :
    Offer cfg first ch hello (Use mode) idx binder -> kex_ikm cfg mode = Some ikm ->
    hs_step cfg (Start first) ch
      (fl_bytes (flight cfg first ch hello mode idx ikm))
      (AwaitFinished first (flight cfg first ch hello mode idx ikm))
| hs_finished first f r k :
    framed r ->
    open_record (traffic_state (fl_client_ts f)) r
    = Some (client_finished f ++ ct_byte CT_Handshake :: zeros k) ->
    hs_step cfg (AwaitFinished first f) r [] (Connected first f).

Inductive reach cfg : abs -> Prop :=
| reach_start : reach cfg (Start None)
| reach_step a i o a' : reach cfg a -> hs_step cfg a i o a' -> reach cfg a'.

(** A retried hello is a ClientHello, and its retry was for X25519. *)
Lemma reach_first cfg a :
  reach cfg a -> forall first, a = Start first ->
  match first with Some (ch1, h1) => reads_as ch1 h1 | None => True end.
Proof.
  induction 1 as [|a i o a' Hr IH Hs]; intros first Heq; [by injection Heq as <-|].
  destruct Hs as [ch hello g idx binder [] | |]; [|done..]. by injection Heq as <-.
Qed.

(** ** The representation *)

Definition hrr_of (first : FirstHello) : HrrState :=
  match first with
  | None => HrrState_default
  | Some (_, h1) => after_hrr h1 HrrState_default
  end.
Definition bk_of cfg : Secret := secret_of (Binder_Key (psk_secret cfg)).
Definition await_schedule cfg (f : Flight) : KeySchedule := fl_schedule f (bk_of cfg).

Definition session_of cfg (a : abs) : TlsServerSession :=
  match a with
  | Start None => TlsServerSession_new
  | Start (Some (ch1, h1)) =>
      mkSession (with_transcript (hello_base (Some (ch1, h1)))
                   (early_schedule (psk_secret cfg) KeySchedule_new))
                (hrr_of (Some (ch1, h1)))
  | AwaitFinished first f => mkSession (await_schedule cfg f) (hrr_of first)
  | Connected first f =>
      mkSession (after_finished (client_finished f)
                   (with_client_keys (bump (traffic_state (fl_client_ts f))) (await_schedule cfg f)))
                (hrr_of first)
  end.

Definition bytes_of (o : HandshakeOutput) : list byte :=
  match o with FirstFlight bs => bs | HelloRetryRequest bs => bs end.
Definition is_retry (o : HandshakeOutput) : bool :=
  match o with HelloRetryRequest _ => true | FirstFlight _ => false end.

(** ** Implementation and specification agree *)

Lemma kex_choice_mode hello cfg already dec :
  kex_choice hello cfg already = Ok dec ->
  match dec with Use mode => mode_ok cfg mode | Retry g => g = X25519 /\ already = false end.
Proof.
  intros H. pose proof (decide_kex_wp hello cfg already tt) as Hw. unfold wp in Hw.
  rewrite decide_kex_pure, H in Hw. naive_solver.
Qed.

Definition first_ok (first : FirstHello) : Prop :=
  match first with Some (ch1, h1) => reads_as ch1 h1 | None => True end.

Lemma reads_as_sid ch h : reads_as ch h -> length (legacy_session_id h) <= 32.
Proof. intros (f & Hf & _ & Hh). destruct (hello_of_session_id _ _ _ Hh) as [-> _]. apply Hf. Qed.

Lemma HrrState_default_wf : hrr_wf HrrState_default.
Proof. split; [done|]. by cbv. Qed.

Lemma hrr_of_wf first : first_ok first -> hrr_wf (hrr_of first).
Proof.
  destruct first as [[ch1 h1]|]; intros H; [|apply HrrState_default_wf].
  apply after_hrr_wf; [apply HrrState_default_wf|by eapply reads_as_sid].
Qed.

Lemma sent_hrr_of first : sent (hrr_of first) = bool_decide (is_Some first).
Proof. destruct first as [[]|]; [by rewrite bool_decide_true|by rewrite bool_decide_false]. Qed.

(** The schedule the binder is checked with. *)
Definition start_schedule cfg (first : FirstHello) : KeySchedule :=
  with_transcript (hello_base first) (early_schedule (psk_secret cfg) KeySchedule_new).

Lemma early_start cfg first :
  early cfg (hrr_of first) (ses_schedule (session_of cfg (Start first))) = start_schedule cfg first.
Proof. by destruct first as [[]|]. Qed.

Lemma length_Binder_Key psk : length (Binder_Key psk) = HashLen.
Proof. unfold Binder_Key. rewrite length_Derive_Secret; [done|]. unfold Early_Secret. by rewrite length_Extract. Qed.

Lemma accepted_offer cfg first ch hello dec idx binder :
  first_ok first ->
  Accepted cfg (hrr_of first) (start_schedule cfg first) ch hello dec idx binder <->
  Offer cfg first ch hello dec idx binder.
Proof.
  intros Hok. set (ks := start_schedule cfg first).
  assert (forall s : unit, verify_psk_binder ks (binder_input ks (hrr_of first) ch hello) binder s
    = (Ok (bool_decide (binder = Finished_Mac (Binder_Key (psk_secret cfg))
        (hello_base first ++ take (binders_start_offset hello) ch))), s)) as Hver.
  { intros s. rewrite (verify_psk_binder_spec (Binder_Key (psk_secret cfg)));
      [|by rewrite length_Binder_Key|done].
    unfold binder_input. rewrite sent_hrr_of. by destruct first as [[]|]. }
  assert ((sent (hrr_of first) = true -> random hello = ch1_random (hrr_of first) /\
      legacy_session_id hello = snapshot_sid (hrr_of first)) <->
    (forall ch1 h1, first = Some (ch1, h1) ->
      random hello = random h1 /\ legacy_session_id hello = legacy_session_id h1)) as Hrep.
  { destruct first as [[ch1 h1]|]; [|by split].
    destruct (after_hrr_wf h1 HrrState_default HrrState_default_wf (reads_as_sid _ _ Hok)) as [_ Hs].
    cbn [hrr_of]. rewrite Hs. cbn. naive_solver. }
  pose proof (sent_hrr_of first) as Hsent. split.
  - intros [Hm Hv Hs Hr Hk _ Hsel Hb]. rewrite Hver in Hb.
    split; [done..| |by rewrite <-Hsent|done|].
    + by apply Hrep.
    + by injection Hb as ?%bool_decide_eq_true.
  - intros [Hm Hv Hs Hr Hk Hsel Hb]. rewrite <-Hsent in Hk. 
    split; [done..| |done| |done|by rewrite Hver, bool_decide_true].
    + by apply Hrep.
    + by apply kex_choice_mode in Hk.
Qed.

Lemma hello_call cfg first ch out :
  first_ok first ->
  wp (session_process_client_hello ch cfg) (session_of cfg (Start first), out)
    (fun o '(ses', out') => exists a', hs_step cfg (Start first) ch (bytes_of o) a' /\
       ses' = session_of cfg a' /\ (is_retry o = true <-> exists h, a' = Start (Some (ch, h))) /\
       out' = bytes_of o ++ drop (length (bytes_of o)) out)
    (fun _ '(ses', _) => ses_hrr ses' = hrr_of first /\
       forall bs a', hs_step cfg (Start first) ch bs a' -> length out < length bs).
Proof.
  intros Hok. apply wp_zoom. cbn [fst snd].
  assert (ses_hrr (session_of cfg (Start first)) = hrr_of first) as Hh by (by destruct first as [[]|]).
  eapply wp_mono; [apply hello_step; cbn [hl_hrr]; rewrite Hh; by apply hrr_of_wf| |]; cbn [hl_hrr hl_schedule hl_out];
    rewrite Hh, early_start.
  - intros o st' (hello & dec & idx & binder & Hacc & Hans).
    pose proof (acc_mode _ _ _ _ _ _ _ _ Hacc) as Hm.
    apply (accepted_offer cfg first) in Hacc; [|done].
    destruct dec as [mode|g].
    + destruct Hans as (ikm & Hikm & _ & -> & ->). eexists. split; [by eapply hs_flight|].
      split_and!; [done|by split; [|intros [? ?]]|done].
    + destruct Hm as [-> Hs]. rewrite sent_hrr_of in Hs. apply bool_decide_eq_false in Hs.
      destruct first as [p|]; [by destruct Hs|]. destruct Hans as (_ & -> & ->).
      eexists. split; [by eapply hs_retry|]. split_and!; [done|by split; [exists hello|]|done].
  - intros e st' (Hhrr & _ & Hsm). split; [done|]. intros bs a' Hstep.
    inversion Hstep as [? hello g idx binder Hof|? ? hello mode idx binder ikm Hof Hikm|]; subst.
    + apply (accepted_offer cfg None) in Hof; [|done]. apply (Hsm _ _ _ _ Hof).
    + apply (accepted_offer cfg first) in Hof; [|done]. by apply (Hsm _ _ _ _ Hof).
Qed.

Lemma reach_flight cfg a :
  reach cfg a -> forall first f, a = AwaitFinished first f ->
  length (fl_client_ts f) = HashLen /\ length (fl_server_ts f) = HashLen.
Proof.
  induction 1 as [|a i o a' Hr IH Hs]; intros first f Heq; [done|].
  destruct Hs; [done| |done]. injection Heq as <- <-.
  split; apply length_Derive_Secret; cbn; by rewrite length_Extract.
Qed.

Lemma finished_call cfg first f r :
  length (fl_client_ts f) = HashLen ->
  let st := session_of cfg (AwaitFinished first f) in
  wp (session_process_client_finished r) st
    (fun _ ses' => hs_step cfg (AwaitFinished first f) r [] (Connected first f) /\
       ses' = session_of cfg (Connected first f))
    (fun _ ses' => (forall o a', ~ hs_step cfg (AwaitFinished first f) r o a') /\
       (open_record (traffic_state (fl_client_ts f)) r = None -> ses' = st)).
Proof.
  intros Hts st. set (ks := await_schedule cfg f).
  assert (forall v s, verify_client_finished ks (mkFinished v (Some (digest_out (transcript_hash ks)))) s
    = (Ok (bool_decide (v = Finished_Mac (fl_client_ts f) (fl_messages f))), s : unit)) as Hver.
  { intros v s. by rewrite (verify_client_finished_spec (fl_client_ts f)) by (first [lia|done]). }
  apply wp_zoom. cbn [st session_of ses_schedule]. fold ks.
  eapply wp_mono; [by apply finished_step| |].
  - intros _ ks' (v & (Hfr & Hv & (k & Ho) & Hok) & ->). rewrite Hver in Hok.
    injection Hok as Hok%bool_decide_eq_true. subst v. split; [|done]. by eapply hs_finished.
  - intros _ ks' (Hno & Hks). split.
    + intros o a' Hstep. inversion Hstep as [| |? ? ? k Hfr Ho]; subst.
      destruct (Hno (Finished_Mac (fl_client_ts f) (fl_messages f))). split_and!; [done| |by exists k|].
      * apply length_Finished_Mac.
      * by rewrite Hver, bool_decide_true.
    + intros Hn. destruct Hks as [->|[[p Hp] _]]; [done|].
      change (client_keys ks) with (traffic_state (fl_client_ts f)) in Hp. congruence.
Qed.
(** ** An honest client *)

Lemma length_client_finished f : length (client_finished f) = 4 + HashLen.
Proof. apply length_finished_message. Qed.

Lemma sealed_framed st inner t :
  kss_wf st -> length inner + 1 + TagLen <= 256 -> framed (sealed st inner t).
Proof.
  intros Hw Hl. destruct (sealed_spec st inner t Hw) as (c & tag & _ & Hc & Ht & ->); [lia|].
  exists x03, x03, (c ++ tag). split; [|rewrite length_app; lia].
  unfold record_header, vec16. rewrite length_app, Hc, Ht. done.
Qed.

Lemma finished_step_exists cfg first f :
  length (fl_client_ts f) = HashLen ->
  hs_step cfg (AwaitFinished first f)
    (sealed (traffic_state (fl_client_ts f)) (client_finished f) CT_Handshake) [] (Connected first f).
Proof.
  intros Hts. pose proof hash_len. pose proof tag_len. pose proof (length_client_finished f).
  assert (kss_wf (traffic_state (fl_client_ts f))) as Hw by (apply traffic_state_wf; lia).
  apply (hs_finished _ _ _ _ 0).
  - apply sealed_framed; [done|lia].
  - apply open_sealed; [done|done|lia].
Qed.
End Spec.

(** ** Properties *)

(** C1: the ClientHello step refines the RFC handshake.  In a session that stands
    for a reachable abstract state (fresh, or after one HelloRetryRequest), on any
    input bytes and any output buffer, [process_client_hello] returns; when it
    returns an answer, the abstract handshake takes the same input to the same
    output bytes and the new session stands for the new abstract state; when it
    returns an error, either the abstract handshake has no step for this input or
    the output buffer is too small for its answer. *)
Theorem hello_refines `{CS : TlsCipherSuite, !TlsCipherSuiteLaws CS, X : X25519Ops}
    cfg first ch out :
  reach cfg (Start first) ->
  exists r ses' out',
    session_process_client_hello ch cfg (session_of cfg (Start first), out) = (r, (ses', out')) /\
    match r with
    | Ok o => exists a', hs_step cfg (Start first) ch (bytes_of o) a' /\ ses' = session_of cfg a' /\
        (is_retry o = true <-> exists h, a' = Start (Some (ch, h))) /\
        out' = bytes_of o ++ drop (length (bytes_of o)) out
    | Err _ => forall bs a', hs_step cfg (Start first) ch bs a' -> length out < length bs
    | _ => False
    end.
Proof.
  intros Hr. pose proof (hello_call cfg first ch out (reach_first cfg _ Hr first eq_refl)) as H.
  unfold wp in H. destruct (session_process_client_hello ch cfg _) as [r [ses' out']].
  exists r, ses', out'. split; [done|]. destruct r; naive_solver.
Qed.

(** C2: the Finished step refines the RFC handshake.  In a session that stands for a
    reachable state awaiting the client's Finished, on any input bytes
    [process_client_finished] returns; it succeeds exactly when the record opens
    under the client handshake traffic key to the Finished message whose MAC is
    computed over the transcript, and then the session stands for the connected
    state; otherwise it is an error, and a record the AEAD rejects leaves the
    session unchanged. *)
Theorem finished_refines `{CS : TlsCipherSuite, !TlsCipherSuiteLaws CS, X : X25519Ops}
    cfg first f r :
  reach cfg (AwaitFinished first f) ->
  exists res ses',
    session_process_client_finished r (session_of cfg (AwaitFinished first f)) = (res, ses') /\
    match res with
    | Ok _ => hs_step cfg (AwaitFinished first f) r [] (Connected first f) /\
        ses' = session_of cfg (Connected first f)
    | Err _ => (forall o a', ~ hs_step cfg (AwaitFinished first f) r o a') /\
        (open_record (traffic_state (fl_client_ts f)) r = None ->
         ses' = session_of cfg (AwaitFinished first f))
    | _ => False
    end.
Proof.
  intros Hr. destruct (reach_flight cfg _ Hr first f eq_refl) as [Hts _].
  pose proof (finished_call cfg first f r Hts) as H. unfold wp in H.
  destruct (session_process_client_finished r _) as [res ses']. exists res, ses'.
  split; [done|]. by destruct res.
Qed.

(** The negotiation, read off the lists of the hello: what is offered, and the first
    X25519 share. *)
Section Negotiation.
Context `{CS : TlsCipherSuite}.

Definition offers (hello : ClientHelloRef) (m : PskKeyExchangeMode) : Prop :=
  exists ms, find_map find_modes (extensions hello) = Some ms /\ m ∈ modes ms.
Definition x25519_share (hello : ClientHelloRef) : option (list byte) :=
  ks ← find_map find_key_share (extensions hello);
  ks_opaque <$> head (filter (fun e => ks_group e = X25519) (client_shares ks)).
Definition lists_x25519 (hello : ClientHelloRef) : Prop :=
  exists g, find_map find_groups (extensions hello) = Some g /\ X25519 ∈ supported_groups g.

Lemma existsb_elem {A} `{!EqDecision A} (x : A) l :
  existsb (fun y => bool_decide (y = x)) l = bool_decide (x ∈ l).
Proof.
  apply eq_true_iff_eq. rewrite existsb_exists, bool_decide_eq_true. split.
  - intros (y & Hy & ->%bool_decide_eq_true). by apply list_elem_of_In.
  - intros H. exists x. split; [by apply list_elem_of_In|by apply bool_decide_true].
Qed.

Lemma find_x25519_spec shares :
  fst (find_x25519 shares tt)
  = match head (filter (fun e => ks_group e = X25519) shares) with
    | Some e => if decide (length (ks_opaque e) = X25519_LEN) then Ok (Some (ks_opaque e))
                else Err (abort_fatal IllegalParameter)
    | None => Ok None
    end.
Proof.
  induction shares as [|e shares IH]; [done|]. rewrite filter_cons. simpl.
  case_decide; [|done]. simpl. by repeat case_decide.
Qed.

Lemma find_share_spec hello :
  find_client_x25519_share hello tt
  = (match x25519_share hello with
     | Some pub => if decide (length pub = X25519_LEN) then Ok (Some pub)
                   else Err (abort_fatal IllegalParameter)
     | None => Ok None
     end, tt).
Proof.
  unfold find_client_x25519_share, x25519_share. destruct (find_map find_key_share _) as [ks|]; [|done].
  rewrite find_x25519_pure, find_x25519_spec. simpl. by destruct (head _).
Qed.

Lemma client_supports_spec hello :
  client_supports_group hello X25519 = true <-> lists_x25519 hello.
Proof.
  unfold client_supports_group, lists_x25519. destruct (find_map find_groups _) as [g|].
  - rewrite existsb_elem, bool_decide_eq_true. naive_solver.
  - naive_solver.
Qed.
End Negotiation.

(** C12: the key-exchange negotiation.  For every parsed ClientHello, configuration
    and retry flag: (EC)DHE is used exactly when the client offers psk_dhe_ke, the
    server has a key pair and the first X25519 share has 32 bytes; plain PSK is used
    exactly when the client offers psk_ke and (EC)DHE is not possible for want of
    the mode, the key pair or a share; a retry is asked for exactly when no retry was
    sent, the client offers only (EC)DHE, lists X25519 and sent no share for it, and
    then it asks for X25519. *)
Theorem negotiation_table `{CS : TlsCipherSuite} hello cfg already :
  let dhe := offers hello PskDheKe /\ is_Some (dhe_keypair cfg) in
  (forall pub, kex_choice hello cfg already = Ok (Use (KexPskDheKe pub)) <->
     dhe /\ x25519_share hello = Some pub /\ length pub = 32) /\
  (kex_choice hello cfg already = Ok (Use KexPskKe) <->
     offers hello PskKe /\ (~ dhe \/ x25519_share hello = None)) /\
  (forall g, kex_choice hello cfg already = Ok (Retry g) <->
     g = X25519 /\ already = false /\ dhe /\ ~ offers hello PskKe /\
     x25519_share hello = None /\ lists_x25519 hello).
Proof.
  cbv zeta. unfold kex_choice, decide_kex, offers.
  destruct (find_map find_modes _) as [ms|]; [|simpl; naive_solver].
  rewrite bind_ok_or_Some. cbv zeta. rewrite !existsb_elem.
  pose proof (client_supports_spec hello) as Hg. pose proof (find_share_spec hello) as Hshare.
  change 32 with X25519_LEN. unfold mbind, M_bind.
  destruct (bool_decide_reflect (PskDheKe ∈ modes ms)), (bool_decide_reflect (PskKe ∈ modes ms)),
    (bool_decide_reflect (is_Some (dhe_keypair cfg))), (x25519_share hello) as [pub|], already,
    (client_supports_group hello X25519); simpl; rewrite ?Hshare; simpl;
    try case_decide; simpl;
    (split_and!; intros; split; intros; destruct_and?; simplify_eq; try done; split_and?; try done; try tauto;
     naive_solver).
Qed.

(** A concrete client and server, on the toy suite. *)
Module Demo.
Existing Instance Toy.suite.
Existing Instance Toy.suite_laws.
Existing Instance Toy.x25519_toy.

Definition cfg : TlsServerConfig :=
  mkServerConfig (b_ "id") (b_ "secret") (replicate 32 x11)
    (Some (DheKeyShare_from_secret (replicate 32 x22))).

(** A ClientHello with or without an X25519 share. *)
Definition raws (share : bool) (binder : list byte) : list RawExtension :=
  [mkRaw 43 [x02; x03; x04]; mkRaw 45 [x01; x01]; mkRaw 10 [x00; x02; x00; x1d];
   mkRaw 51 (if share then vec16 ([x00; x1d] ++ vec16 (replicate 32 x33)) else [x00; x00]);
   mkRaw 41 (psk_wire [(b_ "id", 0%Z)] [binder])].
Definition fields (share : bool) (binder : list byte) : HelloFields :=
  mkFields 0x0303 (replicate 32 x44) [x05; x06] [x13; x01] [x00] (raws share binder).
Definition hello (base : list byte) (share : bool) : list byte :=
  let m := hello_message (fields share (zeros 32)) in
  let prefix := take (length m - 35) m in
  hello_message (fields share (Finished_Mac (Binder_Key (psk_secret cfg)) (base ++ prefix))).

Abbreviation first_call := (session_process_client_hello (hello [] true) cfg (TlsServerSession_new, zeros 400)).
Abbreviation retry_call := (session_process_client_hello (hello [] false) cfg (TlsServerSession_new, zeros 400)).

Definition kind {A} (r : result TlsError HandshakeOutput * A) : option (bool * nat) :=
  match fst r with Ok o => Some (is_retry o, length (bytes_of o)) | _ => None end.

(** The server answers the first with its flight, the second with a retry. *)
Example demo_flight : kind first_call = Some (false, 189).
Proof. vm_compute. reflexivity. Qed.
Example demo_retry : kind retry_call = Some (true, 63).
Proof. vm_compute. reflexivity. Qed.

(** The state the flight leads to is reachable. *)
Lemma demo_awaits : exists f, reach cfg (AwaitFinished None f).
Proof.
  pose proof (hello_call cfg None (hello [] true) (zeros 400) I) as H. pose proof demo_flight as Hk.
  assert (session_of cfg (Start None) = TlsServerSession_new) as Hnew by reflexivity. rewrite Hnew in H.
  destruct first_call as [[o| | |] [ses out']] eqn:He; [|discriminate Hk..]. apply (wp_Ok _ _ _ _ _ _ H) in He. clear H.
  destruct He as (a' & Hs & _ & Hret & _). simpl in Hk. injection Hk as Hk _. rewrite Hk in Hret.
  inversion Hs as [? h| |]; subst; [by destruct Hret as [_ Hret]; discriminate Hret; eauto|].
  eexists. eapply reach_step; [constructor|done].
Qed.
End Demo.

Lemma hello_refines_witness :
  reach Demo.cfg (Start None) /\
  exists r ses' out',
    session_process_client_hello (Demo.hello [] true) Demo.cfg
      (session_of Demo.cfg (Start None), zeros 400) = (r, (ses', out')) /\
    match r with
    | Ok o => exists a', hs_step Demo.cfg (Start None) (Demo.hello [] true) (bytes_of o) a' /\
        ses' = session_of Demo.cfg a' /\
        (is_retry o = true <-> exists h, a' = Start (Some (Demo.hello [] true, h))) /\
        out' = bytes_of o ++ drop (length (bytes_of o)) (zeros 400)
    | Err _ => forall bs a', hs_step Demo.cfg (Start None) (Demo.hello [] true) bs a' ->
        length (zeros 400) < length bs
    | _ => False
    end.
Proof. split; [constructor|]. apply (hello_refines Demo.cfg None). constructor. Defined.

Lemma finished_refines_witness :
  exists f, reach Demo.cfg (AwaitFinished None f) /\
  exists res ses',
    session_process_client_finished [x17; x03; x03; x00; x00]
      (session_of Demo.cfg (AwaitFinished None f)) = (res, ses') /\
    match res with
    | Ok _ => hs_step Demo.cfg (AwaitFinished None f) [x17; x03; x03; x00; x00] [] (Connected None f) /\
        ses' = session_of Demo.cfg (Connected None f)
    | Err _ => (forall o a', ~ hs_step Demo.cfg (AwaitFinished None f) [x17; x03; x03; x00; x00] o a') /\
        (open_record (traffic_state (fl_client_ts f)) [x17; x03; x03; x00; x00] = None ->
         ses' = session_of Demo.cfg (AwaitFinished None f))
    | _ => False
    end.
Proof.
  destruct Demo.demo_awaits as [f Hf]. exists f. split; [done|]. by apply (finished_refines Demo.cfg None f).
Defined.

(** C3: PSK authentication.  A session that is fresh or has sent one
    HelloRetryRequest answers a ClientHello (with a flight or with a retry) only if
    the message offers the server's identity with a binder that is the RFC 8446 MAC,
    under the binder key of the configured PSK, of the transcript so far and the
    ClientHello truncated before its binders. *)
Theorem psk_authentication
    `{CS : TlsCipherSuite, !TlsCipherSuiteLaws CS, X : X25519Ops}
    cfg first ch out o st' :
  reach cfg (Start first) ->
  session_process_client_hello ch cfg (session_of cfg (Start first), out) = (Ok o, st') ->
  exists hello psk idx binder,
    reads_as ch hello /\ CH_PreSharedKey psk ∈ extensions hello /\
    identities psk !! idx = Some (psk_identity cfg) /\ binders psk !! idx = Some binder /\
    binder = Finished_Mac (Binder_Key (psk_secret cfg))
               (hello_base first ++ take (binders_start_offset hello) ch).
Proof.
  intros Hr Hp. pose proof (hello_call cfg first ch out (reach_first cfg _ Hr first eq_refl)) as H.
  apply (wp_Ok _ _ _ _ _ _ H) in Hp. destruct st' as [ses' out'], Hp as (a' & Hs & _).
  assert (exists hello dec idx binder, Offer cfg first ch hello dec idx binder)
    as (hello & dec & idx & binder & [Hm _ _ _ _ [psk [He Hi _ Hb]] Hmac]).
  { inversion Hs; subst; eauto. }
  apply find_map_elem in He as (e & Hin & He). destruct e; try done. injection He as ->.
  by exists hello, psk, idx, binder.
Qed.

Lemma psk_authentication_witness :
  exists o st', session_process_client_hello (Demo.hello [] true) Demo.cfg
    (session_of Demo.cfg (Start None), zeros 400) = (Ok o, st') /\
  exists hello psk idx binder,
    reads_as (Demo.hello [] true) hello /\ CH_PreSharedKey psk ∈ extensions hello /\
    identities psk !! idx = Some (psk_identity Demo.cfg) /\ binders psk !! idx = Some binder /\
    binder = Finished_Mac (Binder_Key (psk_secret Demo.cfg))
               (hello_base None ++ take (binders_start_offset hello) (Demo.hello [] true)).
Proof.
  pose proof Demo.demo_flight as Hk.
  assert (session_of Demo.cfg (Start None) = TlsServerSession_new) as Hnew by reflexivity.
  rewrite <-Hnew in Hk.
  destruct (session_process_client_hello _ Demo.cfg _) as [[o| | |] st'] eqn:He; [|discriminate Hk..].
  exists o, st'. split; [reflexivity|]. apply (psk_authentication Demo.cfg None _ (zeros 400) o st'); [constructor|done].
Defined.

(** An honest client is let in.  In a session awaiting the Finished, the record a
    client makes of its Finished (RFC MAC over the transcript, sealed with the client
    handshake traffic keys at counter zero) is accepted, and the session is
    connected. *)
Theorem honest_client_connects
    `{CS : TlsCipherSuite, !TlsCipherSuiteLaws CS, X : X25519Ops} cfg first f :
  reach cfg (AwaitFinished first f) ->
  session_process_client_finished
    (sealed (traffic_state (fl_client_ts f)) (client_finished f) CT_Handshake)
    (session_of cfg (AwaitFinished first f))
  = (Ok tt, session_of cfg (Connected first f)).
Proof.
  intros Hr. destruct (reach_flight cfg _ Hr first f eq_refl) as [Hts _].
  set (r := sealed _ _ _). pose proof (finished_call cfg first f r Hts) as H. unfold wp in H.
  destruct (session_process_client_finished r _) as [[[]|e| |] ses']; try done.
  - by destruct H as [_ ->].
  - destruct H as [Hno _]. destruct (Hno [] (Connected first f)). by apply finished_step_exists.
Qed.

Lemma honest_client_connects_witness :
  exists f, session_process_client_finished
    (sealed (traffic_state (fl_client_ts f)) (client_finished f) CT_Handshake)
    (session_of Demo.cfg (AwaitFinished None f))
  = (Ok tt, session_of Demo.cfg (Connected None f)).
Proof.
  destruct Demo.demo_awaits as [f Hf]. exists f. by apply (honest_client_connects Demo.cfg None f).
Defined.

(** ClientHello, ServerHello, EncryptedExtensions and the server's Finished of a
    handshake without retry, written with the RFC's functions. *)
Definition rfc_messages `{CS : TlsCipherSuite, X : X25519Ops} (cfg : TlsServerConfig) (ch : list byte)
    (hello : ClientHelloRef) (mode : KexMode) (idx : nat) (ikm : list byte) : list byte :=
  let hellos := ch ++ sh_message cfg (legacy_session_id hello) (Z.of_nat idx mod 2 ^ 16) mode in
  let s_hs := Derive_Secret (Handshake_Secret (psk_secret cfg) ikm) (b_ "s hs traffic") hellos in
  hellos ++ ee_message ++ finished_message (Finished_Mac s_hs (hellos ++ ee_message)).

(** C4: the keys of a completed handshake.  If a fresh session answers a ClientHello
    with a flight and then accepts a Finished, the two directions are keyed by the
    RFC 8446 application traffic secrets: HKDF from the master secret of the PSK and
    the (EC)DHE value of the negotiated mode, over the transcript ClientHello,
    ServerHello, EncryptedExtensions, server Finished; the counters are zero. *)
Theorem handshake_keys_rfc
    `{CS : TlsCipherSuite, !TlsCipherSuiteLaws CS, X : X25519Ops}
    cfg ch out bs ses1 out1 r ses2 :
  session_process_client_hello ch cfg (TlsServerSession_new, out) = (Ok (FirstFlight bs), (ses1, out1)) ->
  session_process_client_finished r ses1 = (Ok tt, ses2) ->
  exists hello mode idx ikm,
    reads_as ch hello /\ kex_choice hello cfg false = Ok (Use mode) /\ kex_ikm cfg mode = Some ikm /\
    let t := rfc_messages cfg ch hello mode idx ikm in
    let ms := Master_Secret (psk_secret cfg) ikm in
    server_keys (ses_schedule ses2) = traffic_state (Derive_Secret ms (b_ "s ap traffic") t) /\
    client_keys (ses_schedule ses2) = traffic_state (Derive_Secret ms (b_ "c ap traffic") t).
Proof.
  intros Hh Hf. pose proof (hello_call cfg None ch out I) as H.
  change TlsServerSession_new with (session_of cfg (Start None)) in Hh.
  apply (wp_Ok _ _ _ _ _ _ H) in Hh as (a' & Hs & -> & Hret & _).
  inversion Hs as [? hello g idx binder|? ? hello mode idx binder ikm Hof Hikm|]; subst.
  { by destruct Hret as [_ Hret]; discriminate Hret; eauto. }
  set (f := flight cfg None ch hello mode idx ikm) in *.
  assert (length (fl_client_ts f) = HashLen) as Hts
    by (apply length_Derive_Secret; cbn; by rewrite length_Extract).
  apply (wp_Ok _ _ _ _ _ _ (finished_call cfg None f r Hts)) in Hf as [_ ->].
  exists hello, mode, idx, ikm. destruct Hof as [Hm _ _ _ Hk _ _].
  rewrite bool_decide_false in Hk by (by intros [? ?]). by split_and!.
Qed.

(** A whole handshake on the toy suite: the client's Finished is computed from the
    flight's secrets. *)
Definition demo_flight_state : Flight :=
  flight Demo.cfg None (Demo.hello [] true)
    (mkHello 0x0303 (replicate 32 x44) [x05; x06] [x13; x01] [x00] [] 0)
    (KexPskDheKe (replicate 32 x33)) 0 (x25519 (replicate 32 x22) (replicate 32 x33)).
Definition demo_finished : list byte :=
  sealed (traffic_state (fl_client_ts demo_flight_state)) (client_finished demo_flight_state) CT_Handshake.

Definition finishes_after {A} (finished : list byte) (r : result TlsError HandshakeOutput * (TlsServerSession * A)) : bool :=
  match r with
  | (Ok (FirstFlight _), (ses1, _)) =>
      match session_process_client_finished finished ses1 with (Ok _, _) => true | _ => false end
  | _ => false
  end.
Lemma finishes_after_Ok {A} finished (r : result TlsError HandshakeOutput * (TlsServerSession * A)) :
  finishes_after finished r = true -> exists bs ses1 out1 ses2,
    r = (Ok (FirstFlight bs), (ses1, out1)) /\ session_process_client_finished finished ses1 = (Ok tt, ses2).
Proof.
  destruct r as [[[bs|bs]| | |] [ses1 out1]]; simpl; try done.
  destruct (session_process_client_finished finished ses1) as [[[]| | |] ses2] eqn:Hf; try done. intros _.
  by exists bs, ses1, out1, ses2.
Qed.
Example demo_run_ok :
  finishes_after demo_finished (session_process_client_hello (Demo.hello [] true) Demo.cfg (TlsServerSession_new, zeros 400)) = true.
Proof. vm_compute. reflexivity. Qed.

Lemma handshake_keys_rfc_witness :
  exists bs ses1 out1 ses2,
  session_process_client_hello (Demo.hello [] true) Demo.cfg (TlsServerSession_new, zeros 400)
  = (Ok (FirstFlight bs), (ses1, out1)) /\
  session_process_client_finished demo_finished ses1 = (Ok tt, ses2) /\
  exists hello mode idx ikm,
    reads_as (Demo.hello [] true) hello /\ kex_choice hello Demo.cfg false = Ok (Use mode) /\
    kex_ikm Demo.cfg mode = Some ikm /\
    let t := rfc_messages Demo.cfg (Demo.hello [] true) hello mode idx ikm in
    let ms := Master_Secret (psk_secret Demo.cfg) ikm in
    server_keys (ses_schedule ses2) = traffic_state (Derive_Secret ms (b_ "s ap traffic") t) /\
    client_keys (ses_schedule ses2) = traffic_state (Derive_Secret ms (b_ "c ap traffic") t).
Proof.
  destruct (finishes_after_Ok _ _ demo_run_ok) as (bs & ses1 & out1 & ses2 & H1 & H2).
  exists bs, ses1, out1, ses2. split; [exact H1|]. split; [exact H2|].
  exact (handshake_keys_rfc Demo.cfg _ _ bs ses1 out1 demo_finished ses2 H1 H2).
Defined.

(** The client can read the flight.  The bytes after the ServerHello record are
    two framed records; under the server handshake traffic keys the first opens, at
    counter zero, to EncryptedExtensions and the second, at counter one, to a
    Finished message whose MAC [verify_server_finished] accepts against the
    transcript hash before it. *)
Theorem client_reads_flight
    `{CS : TlsCipherSuite, !TlsCipherSuiteLaws CS, X : X25519Ops} cfg first f t :
  reach cfg (AwaitFinished first f) ->
  let st := traffic_state (fl_server_ts f) in
  exists r1 r2 mac,
    fl_bytes f = fl_hello f ++ r1 ++ r2 /\ framed r1 /\ framed r2 /\
    open_record st r1 = Some (ee_message ++ [ct_byte CT_Handshake]) /\
    open_record (bump st) r2 = Some (finished_message mac ++ [ct_byte CT_Handshake]) /\
    verify_server_finished (mkRead st t)
      (mkFinished mac (Some (digest_out (fl_transcript f ++ ee_message)))) tt = (Ok true, tt).
Proof.
  intros Hr st. destruct (reach_flight cfg _ Hr first f eq_refl) as [_ Hts].
  pose proof hash_len. pose proof tag_len.
  assert (length (fl_finished f) = 4 + HashLen) as Hl by apply length_finished_message.
  assert (length ee_message = 6) as Hee by done.
  assert (kss_wf st) as Hw by (apply traffic_state_wf; lia).
  assert (kss_wf (bump st)) as Hw1 by (by apply bump_wf).
  exists (sealed st ee_message CT_Handshake), (sealed (bump st) (fl_finished f) CT_Handshake).
  exists (Finished_Mac (fl_server_ts f) (fl_transcript f ++ ee_message)). split_and!.
  - done.
  - apply sealed_framed; [done|lia].
  - apply sealed_framed; [done|lia].
  - by apply open_sealed.
  - apply (open_sealed _ _ (fl_finished f)); [done|done|lia].
  - rewrite (verify_server_finished_spec (fl_server_ts f)) by (first [lia|done]).
    by rewrite bool_decide_true.
Qed.

Lemma client_reads_flight_witness :
  exists f, let st := traffic_state (fl_server_ts f) in
  exists r1 r2 mac,
    fl_bytes f = fl_hello f ++ r1 ++ r2 /\ framed r1 /\ framed r2 /\
    open_record st r1 = Some (ee_message ++ [ct_byte CT_Handshake]) /\
    open_record (bump st) r2 = Some (finished_message mac ++ [ct_byte CT_Handshake]) /\
    verify_server_finished (mkRead st [])
      (mkFinished mac (Some (digest_out (fl_transcript f ++ ee_message)))) tt = (Ok true, tt).
Proof.
  destruct Demo.demo_awaits as [f Hf]. exists f. by apply (client_reads_flight Demo.cfg None f []).
Defined.
