(* ===== verification/ServerRuns.v ===== *)
(** A server session over time: whole handshakes, and any sequence of calls.

    The first part follows one handshake to its end: the keys both sides hold, the
    flight as the client sees it, and that an honest client is let in.  The second
    part runs arbitrary sequences of method calls, with any input, errors
    included. *)

From S2P Require Import Prelude Errors CryptoBuffer ParseBuffer Wire ExtensionData Extensions.
From S2P Require Import CryptoSuite KeySchedule KeyScheduleProps ClientHello Handshake Server.
From S2P Require Import ServerRecords ServerHandshake ServerSteps ServerSpec.
From Stdlib Require Import ZArith Lia.
From Stdlib Require Import Strings.Byte.
From Stdlib Require Strings.String.
From stdpp Require Import base list option numbers tactics sets.

Import Stdlib.Strings.String.StringSyntax.

Section Runs.
Context `{CS : TlsCipherSuite, !TlsCipherSuiteLaws CS, X : X25519Ops}.
Implicit Types (cfg : TlsServerConfig) (ks : KeySchedule) (ses : TlsServerSession).

(** ** The calls of a session *)

(** One constructor for each public method of [TlsServerSession], with all its
    arguments: the configuration is an argument of [process_client_hello], so each
    ClientHello of a run may come with another one. *)
Inductive call : Type :=
| CallHello (ch : list byte) (cfg : TlsServerConfig) (out : list byte)
| CallFinished (r : list byte)
| CallEncrypt (plaintext out : list byte)
| CallAlert (level : AlertLevel) (description : AlertDescription) (out : list byte)
| CallDecryptData (r buf : list byte)
| CallDecrypt (r buf : list byte).

Inductive reply : Type :=
| RHello (o : HandshakeOutput)
| RDone
| RRecord (bytes : list byte)
| RData (bytes : list byte)
| RItem (x : AppDataOrAlert).

(** A method on the session and a buffer of the caller, as a call. *)
Definition with_buf {A} (buf : list byte) (f : A -> reply)
    (m : M (TlsServerSession * list byte) TlsError A) : M TlsServerSession TlsError reply :=
  zoom (fun ses => (ses, buf)) (fun p _ => fst p) (a ← m; mret (f a)).

Definition run_call (c : call) : M TlsServerSession TlsError reply :=
  match c with
  | CallHello ch cfg out => with_buf out RHello (session_process_client_hello ch cfg)
  | CallFinished r => session_process_client_finished r;; mret RDone
  | CallEncrypt pt out => with_buf out RRecord (session_encrypt_app_data pt)
  | CallAlert l d out => with_buf out RRecord (session_encrypt_alert l d)
  | CallDecryptData r buf => with_buf buf RData (session_decrypt_app_data r)
  | CallDecrypt r buf => with_buf buf RItem (session_decrypt_app_data_or_alert r)
  end.

(** Every call is made whatever the previous ones returned. *)
Fixpoint run_calls (cs : list call) ses : list (result TlsError reply) * TlsServerSession :=
  match cs with
  | [] => ([], ses)
  | c :: cs' => let '(r, ses1) := run_call c ses in
                let '(rs, ses2) := run_calls cs' ses1 in (r :: rs, ses2)
  end.

(** ** The session invariant *)

Definition ses_inv (B : Z) ses : Prop := ks_inv B (ses_schedule ses) /\ hrr_wf (ses_hrr ses).

Definition retry_reply (r : result TlsError reply) : bool :=
  match r with Ok (RHello o) => is_retry o | _ => false end.

(** What one call does to the retry flag: a retry needs it unset and sets it. *)
Definition flag_ok ses (r : result TlsError reply) ses' : Prop :=
  if retry_reply r then sent (ses_hrr ses) = false /\ sent (ses_hrr ses') = true
  else sent (ses_hrr ses') = sent (ses_hrr ses).

Definition call_ok (B : Z) ses (r : result TlsError reply) ses' : Prop :=
  r <> Panic /\ r <> Diverge /\ ses_inv (B + 1) ses' /\ flag_ok ses r ses'.

Lemma wp_call_ok B m ses :
  wp m ses (fun a ses' => ses_inv (B + 1) ses' /\ flag_ok ses (Ok a) ses')
           (fun e ses' => ses_inv (B + 1) ses' /\ sent (ses_hrr ses') = sent (ses_hrr ses)) ->
  call_ok B ses (fst (m ses)) (snd (m ses)).
Proof. unfold wp, call_ok. destruct (m ses) as [[] ses']; cbn; naive_solver. Qed.

Lemma wp_with_buf {A} buf (f : A -> reply) m ses Q (R : TlsError -> TlsServerSession -> Prop) :
  wp m (ses, buf) (fun a '(ses', _) => Q (f a) ses') (fun e '(ses', _) => R e ses') ->
  wp (with_buf buf f m) ses Q R.
Proof. intros H. apply wp_zoom, wp_bind. eapply wp_mono; [exact H|by intros ? []..]. Qed.

Lemma ks_inv_le B B' ks : (B <= B')%Z -> ks_inv B ks -> ks_inv B' ks.
Proof. unfold ks_inv. intros ? (? & ? & ?). split_and!; (done || lia). Qed.

Lemma ks_inv_client B ks :
  ks_inv B ks -> ks_inv (B + 1) (with_client_keys (bump (client_keys ks)) ks).
Proof.
  unfold ks_inv. change (server_keys (with_client_keys ?st ks)) with (server_keys ks).
  change (client_keys (with_client_keys ?st ks)) with st. cbn [bump counter].
  intros (Hw & Hs & Hc). split_and!; (done || lia).
Qed.

Lemma ks_inv_server B ks :
  (B + 1 < 2 ^ 64)%Z -> ks_inv B ks -> ks_inv (B + 1) (with_server_keys (bump (server_keys ks)) ks).
Proof.
  unfold ks_inv, kss_wf. change (server_keys (with_server_keys ?st ks)) with st.
  change (client_keys (with_server_keys ?st ks)) with (client_keys ks). cbn [bump counter key iv].
  intros HB ((Hk & Hi & Hr) & Hs & Hc). split_and!; (done || lia).
Qed.

(** Keys derived from a traffic secret, with a small counter. *)
Lemma ks_inv_traffic B ks ts st :
  (2 <= B < 2 ^ 64)%Z -> HashLen <= length ts -> server_keys ks = st ->
  key st = key (traffic_state ts) -> iv st = iv (traffic_state ts) -> (0 <= counter st <= 2)%Z ->
  counter (client_keys ks) = 0%Z -> ks_inv B ks.
Proof.
  intros HB Hts Hs Hk Hi Hc Hcl. unfold ks_inv, kss_wf. rewrite Hs, Hk, Hi, Hcl.
  destruct (traffic_state_wf ts Hts) as (? & ? & _). split_and!; (done || lia).
Qed.

(** ** Each call keeps the invariant *)

Lemma call_hello B cfg ch out ses :
  (2 <= B)%Z -> (B + 1 < 2 ^ 64)%Z -> ses_inv B ses ->
  let m := run_call (CallHello ch cfg out) in call_ok B ses (fst (m ses)) (snd (m ses)).
Proof.
  intros HB HB' [Hks Hwf] m. apply wp_call_ok, wp_with_buf, wp_zoom. cbn [fst snd].
  eapply wp_mono; [by apply hello_step| |]; cbn [hl_hrr hl_schedule hl_out].
  - intros o st' (hello & dec & idx & binder & Hacc & Hans).
    pose proof (early_keys cfg (ses_hrr ses) (ses_schedule ses) B ltac:(lia) Hks) as Hk1.
    destruct Hacc as [Hm _ _ _ _ Hmode _ _]. pose proof (reads_as_sid _ _ Hm) as Hsid.
    destruct dec as [mode|g].
    + destruct Hans as (ikm & _ & _ & -> & ->). split; [|done]. split; [|done].
      set (f := the_flight _ _ _ _ _ _ _).
      assert (length (fl_server_ts f) = HashLen)
        by (apply length_Derive_Secret; cbn; by rewrite length_Extract).
      eapply (ks_inv_traffic _ _ (fl_server_ts f)); [lia|lia|done|done..].
    + destruct Hans as (_ & -> & ->). destruct Hmode as [_ Hs]. split; [|by split].
      split; [|by apply after_hrr_wf]. apply (ks_inv_le B); [lia|done].
  - intros e st' (Hh & Hk & _). cbn [ses_hrr ses_schedule]. rewrite Hh. split; [|done].
    split; [|done]. apply (ks_inv_le B); [lia|]. by apply Hk; [lia|].
Qed.

Lemma call_finished B r ses :
  (2 <= B)%Z -> (B + 1 < 2 ^ 64)%Z -> ses_inv B ses ->
  let m := run_call (CallFinished r) in call_ok B ses (fst (m ses)) (snd (m ses)).
Proof.
  intros HB HB' [Hks Hwf] m. apply wp_call_ok, wp_bind, wp_zoom.
  eapply wp_mono; [apply finished_step; destruct Hks; lia| |].
  - intros _ ks' (v & _ & ->). apply wp_ret. split; [|done]. split; [|done]. cbn [ses_schedule].
    set (ks1 := with_client_keys _ _).
    set (ts := Derive_Secret (Extract (sh_secret (shared ks1)) (zeros HashLen))
                 (b_ "s ap traffic") (transcript_hash ks1)).
    assert (length ts = HashLen) by (apply length_Derive_Secret; by rewrite length_Extract).
    eapply (ks_inv_traffic _ _ ts); [lia|lia|done..].
  - intros e ks' (_ & Hk). cbn [ses_schedule ses_hrr]. split; [|done]. split; [|done].
    destruct Hk as [->|[_ ->]]; [apply (ks_inv_le B); [lia|done]|by apply ks_inv_client].
Qed.

Lemma send_item_full x ks out :
  ~ item_ok (length out) x -> exists e, send_item x (ks, out) = (Err e, (ks, out)).
Proof.
  pose proof tag_len as Htag. destruct x as [d|l d]; unfold item_ok; cbn [item_inner length]; intros Hno.
  - unfold send_item, encrypt_application_data. rewrite bind_get. cbv beta iota.
    unfold RECORD_HEADER_LEN. case_decide; [by eexists|]. case_decide; [by eexists|].
    destruct Hno. lia.
  - unfold send_item, encrypt_alert_record. rewrite bind_get. cbv beta iota.
    unfold RECORD_HEADER_LEN. case_decide; [by eexists|]. destruct Hno. simpl in *. lia.
Qed.

Lemma call_send B x ses out :
  (B + 1 < 2 ^ 64)%Z -> ses_inv B ses ->
  let m := with_buf out RRecord (on_session (send_item x)) in
  call_ok B ses (fst (m ses)) (snd (m ses)).
Proof.
  intros HB' [Hks Hwf] m. apply wp_call_ok, wp_with_buf, wp_zoom. cbn [fst snd]. unfold wp.
  assert (item_ok (length out) x \/ ~ item_ok (length out) x) as [Hok|Hno].
  { unfold item_ok. destruct (item_inner x). lia. }
  - destruct (send_item_spec x (ses_schedule ses) out) as (rest & -> & _); [apply Hks|destruct Hks; lia|done|].
    split; [|done]. split; [|done]. by apply ks_inv_server.
  - destruct (send_item_full x (ses_schedule ses) out Hno) as [e ->]. split; [|done].
    split; [|done]. apply (ks_inv_le B); [lia|done].
Qed.

(** A record that is refused leaves the keys alone or counts one record. *)
Lemma failed_decrypt B (P : Prop) ks' ses :
  ses_inv B ses -> ks' = ses_schedule ses \/
    P /\ ks' = with_client_keys (bump (client_keys (ses_schedule ses))) (ses_schedule ses) ->
  ses_inv (B + 1) (mkSession ks' (ses_hrr ses)) /\ sent (ses_hrr (mkSession ks' (ses_hrr ses))) = sent (ses_hrr ses).
Proof.
  intros [Hks Hwf] Hk. split; [|done]. split; [|done]. cbn [ses_schedule].
  destruct Hk as [->|[_ ->]]; [apply (ks_inv_le B); [lia|done]|by apply ks_inv_client].
Qed.

Lemma call_decrypt B r buf ses :
  (B + 1 < 2 ^ 64)%Z -> ses_inv B ses ->
  let m := run_call (CallDecrypt r buf) in call_ok B ses (fst (m ses)) (snd (m ses)).
Proof.
  intros HB' [Hks Hwf] m. apply wp_call_ok, wp_with_buf, wp_zoom. cbn [fst snd].
  eapply wp_mono; [apply decrypt_item_cases; destruct Hks; lia| |].
  - intros x [ks' buf'] (k & _ & ->). split; [|done]. split; [|done]. by apply ks_inv_client.
  - intros e [ks' buf'] Hk. by eapply failed_decrypt.
Qed.

Lemma call_decrypt_data B r buf ses :
  (B + 1 < 2 ^ 64)%Z -> ses_inv B ses ->
  let m := run_call (CallDecryptData r buf) in call_ok B ses (fst (m ses)) (snd (m ses)).
Proof.
  intros HB' [Hks Hwf] m. apply wp_call_ok, wp_with_buf, wp_zoom. cbn [fst snd].
  eapply wp_mono; [apply decrypt_data_cases; destruct Hks; lia| |].
  - intros x [ks' buf'] (k & _ & ->). split; [|done]. split; [|done]. by apply ks_inv_client.
  - intros e [ks' buf'] Hk. by eapply failed_decrypt.
Qed.

Lemma run_call_ok B c ses :
  (2 <= B)%Z -> (B + 1 < 2 ^ 64)%Z -> ses_inv B ses ->
  call_ok B ses (fst (run_call c ses)) (snd (run_call c ses)).
Proof.
  intros HB HB' Hinv. destruct c as [ch cfg out|r|pt out|l d out|r buf|r buf].
  - by apply call_hello.
  - by apply call_finished.
  - by apply (call_send B (AppData pt)).
  - by apply (call_send B (AlertRecord l d)).
  - by apply call_decrypt_data.
  - by apply call_decrypt.
Qed.

Lemma new_session_inv : ses_inv 2 TlsServerSession_new.
Proof.
  pose proof HrrState_default_wf. split; [|done]. unfold ks_inv, kss_wf. cbn.
  unfold zeros. rewrite !length_replicate. split_and!; (done || lia).
Qed.

(** The replies of a run from the invariant: none is a panic, and the retries are
    bounded by the flag. *)
Lemma run_calls_ok cs : forall B ses,
  (2 <= B)%Z -> (B + Z.of_nat (length cs) < 2 ^ 64)%Z -> ses_inv B ses ->
  let '(rs, ses') := run_calls cs ses in
  Forall (fun r => r <> Panic /\ r <> Diverge) rs /\ ses_inv (B + Z.of_nat (length cs)) ses' /\
  length (filter (fun r => retry_reply r = true) rs) + Nat.b2n (sent (ses_hrr ses)) <= 1.
Proof.
  induction cs as [|c cs IH]; intros B ses HB HB' Hinv; cbn [run_calls].
  - split_and!; [done|by rewrite Z.add_0_r|]. simpl. by destruct (sent _); simpl; lia.
  - simpl length in HB'. pose proof (run_call_ok B c ses HB ltac:(lia) Hinv) as (HP & HD & Hi & Hf).
    destruct (run_call c ses) as [r ses1]. cbn [fst snd] in *.
    specialize (IH (B + 1)%Z ses1 ltac:(lia) ltac:(lia) Hi).
    destruct (run_calls cs ses1) as [rs ses2]. destruct IH as (HF & Hi2 & Hlen).
    split_and!; [by constructor| |].
    + simpl length. by replace (B + Z.of_nat (S (length cs)))%Z with (B + 1 + Z.of_nat (length cs))%Z by lia.
    + rewrite filter_cons. unfold flag_ok in Hf. destruct (retry_reply r).
      * rewrite decide_True by done. destruct Hf as [-> Hs]. rewrite Hs in Hlen. simpl in *. lia.
      * rewrite decide_False by done. by rewrite Hf in Hlen.
Qed.
End Runs.

(** ** Properties *)

(** C5: the server never panics.  Over any sequence of calls of the public methods of
    a fresh session (ClientHellos, each with any configuration, Finished records,
    application data and alerts to encrypt, records to decrypt with decrypt_app_data
    or decrypt_app_data_or_alert, with arbitrary bytes and buffers of any size,
    whatever the earlier calls returned), every call returns a result or an error, as
    long as there are fewer than 2^64 - 2 calls (the record counters). *)
Theorem session_never_panics
    `{CS : TlsCipherSuite, !TlsCipherSuiteLaws CS, X : X25519Ops} cs :
  (Z.of_nat (length cs) < 2 ^ 64 - 2)%Z ->
  Forall (fun r => r <> Panic /\ r <> Diverge) (fst (run_calls cs TlsServerSession_new)).
Proof.
  intros Hl. pose proof (run_calls_ok cs 2 TlsServerSession_new ltac:(lia) ltac:(lia)
    new_session_inv) as H. destruct (run_calls cs TlsServerSession_new). apply H.
Qed.

(** One call of each method, the record read being too short to open. *)
Definition demo_session_calls : list call :=
  [CallHello (Demo.hello [] false) Demo.cfg (zeros 400); CallFinished [x16];
   CallEncrypt [x68; x69] (zeros 64); CallAlert Warning CloseNotify (zeros 64);
   CallDecryptData [x17; x03; x03; x00; x01; x00] (zeros 64); CallDecrypt [x17] (zeros 64)].

Lemma session_never_panics_witness :
  Forall (fun r => r <> Panic /\ r <> Diverge)
    (fst (run_calls demo_session_calls TlsServerSession_new)).
Proof. apply (session_never_panics demo_session_calls). done. Defined.

(** C6: at most one HelloRetryRequest.  In any sequence of calls on a fresh session,
    whatever the inputs, the configurations and the errors in between, at most one
    ClientHello is answered with a HelloRetryRequest. *)
Theorem at_most_one_retry
    `{CS : TlsCipherSuite, !TlsCipherSuiteLaws CS, X : X25519Ops} cs :
  (Z.of_nat (length cs) < 2 ^ 64 - 2)%Z ->
  length (filter (fun r => retry_reply r = true) (fst (run_calls cs TlsServerSession_new))) <= 1.
Proof.
  intros Hl. pose proof (run_calls_ok cs 2 TlsServerSession_new ltac:(lia) ltac:(lia)
    new_session_inv) as H. destruct (run_calls cs TlsServerSession_new).
  destruct H as (_ & _ & H). simpl in *. lia.
Qed.

Lemma at_most_one_retry_witness :
  length (filter (fun r => retry_reply r = true)
    (fst (run_calls [CallHello (Demo.hello [] false) Demo.cfg (zeros 400);
                     CallHello (Demo.hello [] false) Demo.cfg (zeros 400)] TlsServerSession_new))) <= 1.
Proof.
  apply (at_most_one_retry [CallHello (Demo.hello [] false) Demo.cfg (zeros 400);
                            CallHello (Demo.hello [] false) Demo.cfg (zeros 400)]). done.
Defined.
