(* ===== verification/Record.v ===== *)
(** Records of the client (record.rs, application_data.rs, change_cipher_spec.rs).

    A record read from the server is decoded in place: [ApplicationData] borrows a
    region of the receive buffer, which is later decrypted and handed to the user
    from that same buffer.  The model keeps the aliasing: the record holds the bounds
    of the region, and the bytes stay in the receive buffer. *)

From S2P Require Import Prelude Errors CryptoBuffer ParseBuffer Wire ExtensionData Extensions.
From S2P Require Import CryptoSuite KeySchedule KeyScheduleProps ClientHello Handshake Server.
From Stdlib Require Import ZArith Lia.
From Stdlib Require Import Strings.Byte.
From stdpp Require Import base list option numbers tactics sets.

(** ** Records written by the client *)

Inductive ClientRecordHeader : Type :=
| CRH_Handshake (encrypted : bool)
| CRH_Alert (encrypted : bool)
| CRH_ApplicationData.

#[global] Instance ClientRecordHeader_eq_dec : EqDecision ClientRecordHeader.
Proof. solve_decision. Defined.

Definition is_encrypted (h : ClientRecordHeader) : bool :=
  match h with
  | CRH_Handshake encrypted | CRH_Alert encrypted => encrypted
  | CRH_ApplicationData => true
  end.

Definition header_content_type (h : ClientRecordHeader) : ContentType :=
  match h with
  | CRH_Handshake false => CT_Handshake
  | CRH_Alert false => CT_ChangeCipherSpec
  | CRH_Handshake true | CRH_Alert true | CRH_ApplicationData => CT_ApplicationData
  end.

Definition trailer_content_type (h : ClientRecordHeader) : ContentType :=
  match h with
  | CRH_Handshake _ => CT_Handshake
  | CRH_Alert _ => CT_Alert
  | CRH_ApplicationData => CT_ApplicationData
  end.

Definition version (h : ClientRecordHeader) : list byte :=
  match h with
  | CRH_Handshake true | CRH_Alert true | CRH_ApplicationData => [x03; x03]
  | CRH_Handshake false | CRH_Alert false => [x03; x01]
  end.

Definition ClientRecordHeader_encode (h : ClientRecordHeader) : EncM unit :=
  encode_error (push (ct_byte (header_content_type h)));;
  encode_error (extend_from_slice (version h)).

(** The length field of an ApplicationData header, decoded without validation. *)
Record RecordHeader : Type := mkRecordHeader { rh_data : list byte }.

Definition RecordHeader_LEN : nat := 5.

Definition RecordHeader_content_type {S E} (h : RecordHeader) : M S E ContentType :=
  b ← unwrap (rh_data h !! 0);
  unwrap (ContentType_of b).

Definition content_length {S E} (h : RecordHeader) : M S E nat :=
  hi ← unwrap (rh_data h !! 3);
  lo ← unwrap (rh_data h !! 4);
  mret (Z.to_nat (from_be [hi; lo])).

Definition RecordHeader_decode {S} (header : list byte) : M S TlsError RecordHeader :=
  b ← unwrap (header !! 0);
  match ContentType_of b with
  | None => err InvalidRecord
  | Some _ => mret (mkRecordHeader header)
  end.

(** [ApplicationData { header, data }]: [data] is a [CryptoBuffer] at offset 0 over
    the bytes [ad_start .. ad_start + ad_size] of the receive buffer, of which the
    first [ad_len] are in use. *)
Record ApplicationData : Type := mkAppData {
  ad_header : RecordHeader;
  ad_start : nat;
  ad_size : nat;
  ad_len : nat;
}.

(** [ChangeCipherSpec::read] looks at none of the bytes. *)
Definition ChangeCipherSpec_read {S} (rx_buf : list byte) : M S TlsError unit := mret tt.

Section Records.
Context `{CS : TlsCipherSuite}.

Inductive ClientRecord : Type :=
| CR_Handshake (handshake : ClientHandshake) (encrypted : bool)
| CR_Alert (alert : Alert) (encrypted : bool).

Definition ClientRecord_header (r : ClientRecord) : ClientRecordHeader :=
  match r with
  | CR_Handshake _ encrypted => CRH_Handshake encrypted
  | CR_Alert _ encrypted => CRH_Alert encrypted
  end.

Definition close_notify (opened : bool) : ClientRecord :=
  CR_Alert (mkAlert Warning CloseNotify) opened.

Definition encode_payload (r : ClientRecord) : EncM nat :=
  c0 ← get;
  match r with
  | CR_Handshake handshake _ => ClientHandshake_encode handshake
  | CR_Alert alert _ => Alert_encode alert
  end;;
  c1 ← get;
  unwrap (usub (cb_len c1) (cb_len c0)).

(** [buf.as_mut_slice()] edited by [m]; the rest of the buffer stays. *)
Definition on_slice {T} (m : M (list byte * T) TlsError unit) : M (CryptoBuffer * T) TlsError unit :=
  fun '(c, t) =>
  match sub (cb_buf c) (cb_offset c) (cb_offset c + cb_len c) with
  | Some s =>
      let '(r, (s', t')) := m (s, t) in
      (r, (mkCB (splice (cb_buf c) (cb_offset c) s') (cb_offset c) (cb_len c), t'))
  | None => (Panic, (c, t))
  end.

(** [ClientHandshake::finalize_encrypted(buf, transcript)] *)
Definition finalize_encrypted : M (CryptoBuffer * list byte) TlsError unit :=
  enc_buf ← on_fst as_slice;
  '(c, transcript) ← get;
  put (c, transcript ++ enc_buf).

(** The state is the buffer and the transcript. *)
Definition finish_record (r : ClientRecord) (wks : WriteKeySchedule) :
    M (CryptoBuffer * list byte) TlsError unit :=
  match r with
  | CR_Handshake handshake false => on_slice (ClientHandshake_finalize handshake wks)
  | CR_Handshake _ true => finalize_encrypted
  | CR_Alert _ _ => mret tt
  end.

(** ** Records read by the client *)

Inductive ServerRecord : Type :=
| SR_Handshake (handshake : ServerHandshake)
| SR_ChangeCipherSpec
| SR_Alert (alert : Alert)
| SR_ApplicationData (data : ApplicationData).

Definition ServerRecord_content_type (r : ServerRecord) : ContentType :=
  match r with
  | SR_Handshake _ => CT_Handshake
  | SR_ChangeCipherSpec => CT_ChangeCipherSpec
  | SR_Alert _ => CT_Alert
  | SR_ApplicationData _ => CT_ApplicationData
  end.

(** [decode(header, data, digest)], where [data] lies at [start] in the receive
    buffer; the state is the digest. *)
Definition ServerRecord_decode (header : RecordHeader) (start : nat) (data : list byte) :
    M (list byte) TlsError ServerRecord :=
  n ← content_length header;
  if decide (n <> length data) then panic
  else
    t ← RecordHeader_content_type header;
    match t with
    | CT_Invalid => err UnimplementedError
    | CT_ChangeCipherSpec => ChangeCipherSpec_read data;; mret SR_ChangeCipherSpec
    | CT_Alert => a ← run_on (pb_new data) Alert_parse; mret (SR_Alert a)
    | CT_Handshake =>
        h ← zoom (fun digest => (pb_new data, digest)) (fun st _ => snd st) ServerHandshake_read;
        mret (SR_Handshake h)
    | CT_ApplicationData =>
        mret (SR_ApplicationData (mkAppData header start (length data) (length data)))
    end.
End Records.
