(* ===== verification/WriteBuffer.v ===== *)
(** The client's write buffer (write_buffer.rs) and the encryption of a record in it
    ([encrypt] of connection.rs).

    A record is built in the front of the buffer: [start_record] writes the header
    with an empty length, the payload is appended or encoded behind it, and
    [close_record] adds the content type, encrypts in place, patches the length and
    returns the bytes to send.  [client_frame] is the record format the buffer must
    produce. *)

From S2P Require Import Prelude Errors CryptoBuffer ParseBuffer Wire ExtensionData Extensions.
From S2P Require Import CryptoSuite KeySchedule KeyScheduleProps ClientHello Handshake Server.
From S2P Require Import ServerRecords Record.
From Stdlib Require Import ZArith Lia.
From Stdlib Require Import Strings.Byte.
From stdpp Require Import base list option numbers tactics sets.

Definition TLS_RECORD_OVERHEAD : nat := 128.
Definition HEADER_SIZE : nat := 5.

Record WriteBuffer : Type := mkWB {
  wb_buffer : list byte;
  wb_pos : nat;
  current_header : option ClientRecordHeader;
}.

(** [WriteBuffer::new]; the debug assertion is a panic. *)
Definition WriteBuffer_new (buffer : list byte) : option WriteBuffer :=
  if decide (TLS_RECORD_OVERHEAD < length buffer) then Some (mkWB buffer 0 None) else None.

Definition max_block_size (w : WriteBuffer) : option nat :=
  usub (length (wb_buffer w)) TLS_RECORD_OVERHEAD.

Definition is_full {E} : M WriteBuffer E bool :=
  w ← get; m ← unwrap (max_block_size w); mret (bool_decide (wb_pos w = m)).

Definition wb_is_empty (w : WriteBuffer) : bool := bool_decide (wb_pos w = 0).

Definition wb_space {E} : M WriteBuffer E nat :=
  w ← get; m ← unwrap (max_block_size w); unwrap (usub m (wb_pos w)).

Definition contains (w : WriteBuffer) (header : ClientRecordHeader) : bool :=
  bool_decide (current_header w = Some header).

Definition wb_append {E} (buf : list byte) : M WriteBuffer E nat :=
  sp ← wb_space;
  let buffered := min (length buf) sp in
  w ← get;
  (if decide (0 < buffered) then
     if decide (wb_pos w + buffered <= length (wb_buffer w))
     then put (mkWB (splice (wb_buffer w) (wb_pos w) (take buffered buf)) (wb_pos w + buffered)
                    (current_header w))
     else panic
   else mret tt);;
  mret buffered.

(** [with_buffer(buffer, pos, op)]: [op] works on a [CryptoBuffer] over the bytes, and
    the position moves only when it succeeds. *)
Definition with_buffer {X} (op : M (CryptoBuffer * X) TlsError unit) :
    M (WriteBuffer * X) TlsError unit := fun '(w, x) =>
  let '(r, (c, x')) := op (wrap_with_pos (wb_buffer w) (wb_pos w), x) in
  (r, (mkWB (cb_buf c) (match r with Ok _ => cb_len c | _ => wb_pos w end) (current_header w), x')).

(** [op] that needs nothing but the buffer. *)
Definition with_buffer_only (op : EncM unit) : M WriteBuffer TlsError unit :=
  zoom (fun w => (w, tt)) (fun p _ => fst p) (with_buffer (on_fst op)).

(** [let buf = buf.rewind()] and the like: the moved buffer replaces the state. *)
Definition cb_move {E} (f : CryptoBuffer -> option CryptoBuffer) : M CryptoBuffer E unit :=
  c ← get; c' ← unwrap (f c); put c'.

(** [start_record]; the debug assertion is a panic. *)
Definition start_record (header : ClientRecordHeader) : M WriteBuffer TlsError unit :=
  w ← get;
  match current_header w with
  | Some _ => panic
  | None =>
      put (mkWB (wb_buffer w) (wb_pos w) (Some header));;
      with_buffer_only (ClientRecordHeader_encode header;; push_u16 0;; cb_move rewind)
  end.

Section WriteRecord.
Context `{CS : TlsCipherSuite}.

Definition encrypt (wks : WriteKeySchedule) : EncM unit :=
  nonce ← kss_get_nonce (w_state wks);
  c ← get;
  let len := cb_len c + TagLen in
  if decide (capacity c < len) then err InsufficientSpace
  else
    let additional_data := [ct_byte CT_ApplicationData; x03; x03] ++ be_bytes 2 (Z.of_nat len) in
    map_err (fun _ => InvalidApplicationData)
      (encrypt_in_place (key (w_state wks)) nonce additional_data).

Definition close_record (wks : WriteKeySchedule) : M WriteBuffer TlsError (list byte) :=
  w ← get;
  header ← unwrap (current_header w);
  put (mkWB (wb_buffer w) (wb_pos w) None);;
  with_buffer_only
    (if negb (is_encrypted header) then mret tt
     else
       encode_error (push (ct_byte (trailer_content_type header)));;
       cb_move (fun c => offset c HEADER_SIZE);;
       encrypt wks;;
       cb_move rewind);;
  w ← get;
  n ← unwrap (usub (wb_pos w) HEADER_SIZE);
  zoom wb_buffer (fun b w => mkWB b (wb_pos w) (current_header w))
    (lset 3 (nth 0 (be_bytes 2 (Z.of_nat n)) x00);; lset 4 (nth 1 (be_bytes 2 (Z.of_nat n)) x00));;
  w ← get;
  slice ← unwrap (sub (wb_buffer w) 0 (wb_pos w));
  put (mkWB (wb_buffer w) 0 None);;
  mret slice.

(** The state is the buffer and the read half of the key schedule, when given. *)
Definition write_record (record : ClientRecord) (wks : WriteKeySchedule) :
    M (WriteBuffer * option ReadKeySchedule) TlsError (list byte) :=
  '(w, _) ← get;
  if decide (is_Some (current_header w)) then err InternalError
  else
    on_fst (start_record (ClientRecord_header record));;
    with_buffer
      (on_fst (cb_move forward);;
       on_fst (encode_payload record);;
       '(_, read_key_schedule) ← get;
       rks ← ok_or read_key_schedule InternalError;
       zoom (fun p => (fst p, r_transcript rks))
            (fun '(c, t) _ => (c, Some (mkRead (r_state rks) t)))
            (finish_record record wks);;
       on_fst (cb_move rewind));;
    on_fst (close_record wks).
End WriteRecord.

(** ** The record format *)

Definition header_bytes (h : ClientRecordHeader) (n : nat) : list byte :=
  ct_byte (header_content_type h) :: version h ++ be_bytes 2 (Z.of_nat n).

#[global] Arguments header_bytes : simpl never.

Lemma length_header_bytes h n : length (header_bytes h n) = 5.
Proof. by destruct h as [[]|[]|]. Qed.
#[export] Hint Rewrite length_header_bytes : tls_len.

Lemma header_bytes_encrypted h n : is_encrypted h = true -> header_bytes h n = record_header n.
Proof. by destruct h as [[]|[]|]. Qed.

(** ** Moving the cursor *)

Lemma move_rewind {E} c :
  cb_move (E := E) rewind c = (Ok tt, mkCB (cb_buf c) 0 (cb_len c + cb_offset c)).
Proof.
  unfold cb_move, rewind, offset. rewrite bind_get, usub_Some by lia. cbn [mbind option_bind].
  by rewrite bind_unwrap_Some, Nat.sub_0_r.
Qed.

Lemma move_offset {E} b len off :
  off <= len ->
  cb_move (E := E) (fun c => offset c off) (mkCB b 0 len) = (Ok tt, mkCB b off (len - off)).
Proof.
  intros H. unfold cb_move, offset. rewrite bind_get. simpl. rewrite Nat.add_0_r, usub_Some by lia. done.
Qed.

Lemma move_forward {E} b len :
  cb_move (E := E) forward (mkCB b 0 len) = (Ok tt, mkCB b len 0).
Proof.
  unfold cb_move, forward, offset. rewrite bind_get. simpl. rewrite Nat.add_0_r, usub_Some by lia.
  by rewrite Nat.sub_diag.
Qed.

(** An encoder run at the end of a region. *)
Lemma encodes_at m xs pre body tail :
  encodes m xs -> length xs <= length tail ->
  m (mkCB (pre ++ body ++ tail) (length pre) (length body))
  = (Ok tt, mkCB (pre ++ (body ++ xs) ++ drop (length xs) tail) (length pre) (length (body ++ xs))).
Proof.
  intros Hm Hl. rewrite (encodes_Ok m xs) by (done || (unfold cb_wf, room, capacity; simpl; len)).
  unfold cb_append. simpl. f_equal. rewrite <-length_app. f_equal.
  - rewrite <-(take_drop (length xs) tail) at 1. rewrite !(assoc_L (++)), <-(assoc_L (++) (pre ++ body)).
    rewrite splice_app by len. by rewrite <-!(assoc_L (++)).
  - by rewrite length_app.
Qed.

Lemma encodes_at_full m xs pre body tail :
  encodes m xs -> length tail < length xs ->
  exists e c', m (mkCB (pre ++ body ++ tail) (length pre) (length body)) = (Err e, c') /\
    encode_err e /\ capacity c' = length (pre ++ body ++ tail).
Proof.
  intros Hm Hl. destruct (encodes_Err m xs (mkCB (pre ++ body ++ tail) (length pre) (length body)) Hm)
    as (e & c' & He & Hee & _ & Hc & _); [unfold cb_wf, room, capacity; simpl; len..|].
  by exists e, c'.
Qed.

(** ** start_record and append *)

Lemma header_encodes h : encodes (ClientRecordHeader_encode h;; push_u16 0) (header_bytes h 0).
Proof.
  replace (header_bytes h 0) with (([ct_byte (header_content_type h)] ++ version h) ++ be_bytes 2 0)
    by (by destruct h as [[]|[]|]).
  apply encodes_bind; [|auto with tls]. apply encodes_bind; auto with tls.
Qed.

Lemma start_record_spec h buf :
  5 <= length buf ->
  start_record h (mkWB buf 0 None) = (Ok tt, mkWB (header_bytes h 0 ++ drop 5 buf) 5 (Some h)).
Proof.
  intros Hb. unfold start_record. rewrite bind_get. simpl. rewrite bind_put.
  unfold with_buffer_only, zoom, with_buffer, on_fst, zoom. simpl.
  pose proof (encodes_at _ _ [] [] buf (header_encodes h)) as He.
  rewrite length_header_bytes in He. specialize (He Hb). simpl in He.
  rewrite <-(bind_assoc (ClientRecordHeader_encode h)).
  rewrite (bind_Ok _ _ _ _ _ He), move_rewind. cbn [cb_buf cb_len cb_offset].
  by destruct h as [[]|[]|].
Qed.

Lemma start_record_small h buf :
  length buf < 5 ->
  exists e w', start_record h (mkWB buf 0 None) = (Err e, w') /\ encode_err e /\
    length (wb_buffer w') = length buf.
Proof.
  intros Hb. unfold start_record. rewrite bind_get. simpl. rewrite bind_put.
  unfold with_buffer_only, zoom, with_buffer, on_fst, zoom. simpl.
  destruct (encodes_at_full _ _ [] [] buf (header_encodes h)) as (e & c' & He & Hee & Hc);
    [by rewrite length_header_bytes|].
  rewrite <-(bind_assoc (ClientRecordHeader_encode h)), (bind_Err _ _ _ _ _ He).
  by exists e, (mkWB (cb_buf c') 0 (Some h)).
Qed.

(** A record under construction: header, payload so far, free space. *)
Definition building (h : ClientRecordHeader) (payload tail : list byte) : WriteBuffer :=
  mkWB (header_bytes h 0 ++ payload ++ tail) (5 + length payload) (Some h).

(** Free space that [append] may use. *)
Definition usable (tail : list byte) : nat := length tail - TLS_RECORD_OVERHEAD.

Lemma wb_append_spec {E} h payload tail xs :
  TLS_RECORD_OVERHEAD <= length tail ->
  let n := min (length xs) (usable tail) in
  wb_append (E := E) xs (building h payload tail)
  = (Ok n, building h (payload ++ take n xs) (drop n tail)).
Proof.
  intros Ht n. unfold TLS_RECORD_OVERHEAD, usable in *. unfold wb_append, wb_space, max_block_size.
  rewrite !bind_assoc, bind_get. unfold TLS_RECORD_OVERHEAD. cbn [wb_buffer wb_pos building].
  rewrite usub_Some by len. rewrite bind_assoc, bind_unwrap_Some, usub_Some by len.
  rewrite bind_unwrap_Some, bind_get. cbn [wb_buffer wb_pos current_header building].
  replace (length (header_bytes h 0 ++ payload ++ tail) - 128 - (5 + length payload))
    with (length tail - 128) by len.
  fold TLS_RECORD_OVERHEAD. fold n. case_decide as Hn.
  - rewrite decide_True by (unfold n, TLS_RECORD_OVERHEAD in *; len).
    rewrite bind_put. unfold building. f_equal. f_equal.
    + rewrite <-(take_drop n tail) at 1. rewrite !(assoc_L (++)).
      rewrite <-(assoc_L (++) (header_bytes h 0 ++ payload)).
      replace (5 + length payload) with (length (header_bytes h 0 ++ payload)) by len.
      rewrite splice_app; [by rewrite <-!(assoc_L (++))|]. unfold n, TLS_RECORD_OVERHEAD. len.
    + rewrite length_app, length_take. unfold n. lia.
  - rewrite bind_ret. assert (n = 0) as -> by lia. rewrite take_0, drop_0, app_nil_r. done.
Qed.

(** ** close_record *)

Section Close.
Context `{CS : TlsCipherSuite, !TlsCipherSuiteLaws CS}.
Implicit Types (wks : WriteKeySchedule) (h : ClientRecordHeader).

(** The record with header [h] and this payload. *)
Definition client_frame wks h (payload : list byte) : list byte :=
  if is_encrypted h then sealed (w_state wks) payload (trailer_content_type h)
  else header_bytes h (length payload) ++ payload.

(** The bytes that closing a record adds behind its payload. *)
Definition closing h : nat := if is_encrypted h then 1 + TagLen else 0.

Lemma encrypt_spec wks pre payload t gap c tag :
  kss_wf (w_state wks) ->
  aead_seal (key (w_state wks)) (Record_Nonce (iv (w_state wks)) (counter (w_state wks)))
    (record_header (length payload + 1 + TagLen)) (payload ++ [ct_byte t]) = Some (c, tag) ->
  length c = length payload + 1 -> length tag = TagLen -> TagLen <= length gap ->
  encrypt wks (mkCB (pre ++ (payload ++ [ct_byte t]) ++ gap) (length pre) (length (payload ++ [ct_byte t])))
  = (Ok tt, mkCB (pre ++ c ++ tag ++ drop TagLen gap) (length pre) (length payload + 1 + TagLen)).
Proof.
  intros (_ & Hi & Hc) Hs Hlc Hlt Hg. unfold encrypt, kss_get_nonce.
  rewrite (bind_Ok _ _ _ _ _ (get_nonce_spec _ _ _)), bind_get. unfold capacity. cbn [cb_len cb_buf].
  rewrite decide_False by len. apply map_err_Ok. rewrite length_app. simpl length.
  pose proof (encrypt_in_place_spec _ _ _ pre _ gap _ _ Hs ltac:(len) ltac:(lia)) as He.
  rewrite length_app in He. simpl length in He. rewrite Hlt in He. exact He.
Qed.

Lemma encrypt_full wks pre payload t gap c tag :
  kss_wf (w_state wks) ->
  aead_seal (key (w_state wks)) (Record_Nonce (iv (w_state wks)) (counter (w_state wks)))
    (record_header (length payload + 1 + TagLen)) (payload ++ [ct_byte t]) = Some (c, tag) ->
  length c = length payload + 1 -> length tag = TagLen -> length gap < TagLen ->
  exists e c', encrypt wks (mkCB (pre ++ (payload ++ [ct_byte t]) ++ gap) (length pre)
                              (length (payload ++ [ct_byte t]))) = (Err e, c') /\
    (e = InsufficientSpace \/ e = InvalidApplicationData) /\
    capacity c' = length (pre ++ (payload ++ [ct_byte t]) ++ gap).
Proof.
  intros (_ & Hi & Hc) Hs Hlc Hlt Hg. unfold encrypt, kss_get_nonce.
  rewrite (bind_Ok _ _ _ _ _ (get_nonce_spec _ _ _)), bind_get. unfold capacity at 1. cbn [cb_len cb_buf].
  case_decide; [by do 2 eexists; split_and!; [|left|]|].
  destruct (encrypt_in_place_full _ _ _ pre _ gap _ _ Hs ltac:(len) ltac:(lia)) as (c' & He & Hcap).
  eexists _, c'. split_and!; [|by right|done].
  rewrite length_app in *. simpl length in *. by rewrite (map_err_Err _ _ _ _ _ He).
Qed.

Lemma lset_length (pre : list byte) hi lo a b post :
  length pre = 3 ->
  (lset (E := TlsError) 3 a;; lset 4 b) (pre ++ [hi; lo] ++ post) = (Ok tt, pre ++ [a; b] ++ post).
Proof.
  intros Hp. simpl. rewrite (bind_Ok _ _ _ tt (pre ++ a :: lo :: post)) by (by apply lset_app).
  rewrite (cons_middle a), (assoc_L (++)), lset_app by len. by rewrite <-(assoc_L (++)).
Qed.

(** The last steps of [close_record]: patch the length, cut out the record. *)
Lemma close_patch h body post w :
  w = mkWB (header_bytes h 0 ++ body ++ post) (5 + length body) None ->
  (w ← get;
   n ← unwrap (usub (wb_pos w) HEADER_SIZE);
   zoom wb_buffer (fun b w => mkWB b (wb_pos w) (current_header w))
     (lset 3 (nth 0 (be_bytes 2 (Z.of_nat n)) x00);; lset 4 (nth 1 (be_bytes 2 (Z.of_nat n)) x00));;
   w ← get;
   slice ← unwrap (sub (wb_buffer w) 0 (wb_pos w));
   put (mkWB (wb_buffer w) 0 None);;
   mret slice) w
  = (Ok (header_bytes h (length body) ++ body),
     mkWB (header_bytes h (length body) ++ body ++ post) 0 None : WriteBuffer)
    :> result TlsError _ * _.
Proof.
  intros ->. rewrite bind_get. cbn [wb_pos]. unfold HEADER_SIZE. rewrite usub_Some by lia.
  rewrite bind_unwrap_Some. replace (5 + length body - 5) with (length body) by lia.
  set (z := Z.of_nat (length body)).
  assert (forall n, header_bytes h n = take 3 (header_bytes h 0) ++
    [nth 0 (be_bytes 2 (Z.of_nat n)) x00; nth 1 (be_bytes 2 (Z.of_nat n)) x00]) as Hh.
  { intros n. by destruct h as [[]|[]|]. }
  rewrite (bind_Ok _ _ _ tt (mkWB (header_bytes h (length body) ++ body ++ post) (5 + length body) None)).
  2:{ unfold zoom. cbn [wb_buffer]. rewrite (Hh 0), (Hh (length body)), <-!(assoc_L (++)).
      rewrite lset_length; [done|]. by destruct h as [[]|[]|]. }
  rewrite bind_get. cbn [wb_pos wb_buffer].
  rewrite (assoc_L (++) _ body post), sub_Some by len.
  rewrite bind_unwrap_Some, bind_put, Nat.sub_0_r, drop_0.
  replace (5 + length body) with (length (header_bytes h (length body) ++ body)) by len.
  by rewrite take_app_length.
Qed.

(** The closure of [close_record] on an encrypted record. *)
Definition close_op wks (t : ContentType) : EncM unit :=
  encode_error (push (ct_byte t));;
  cb_move (fun c => offset c HEADER_SIZE);;
  encrypt wks;;
  cb_move rewind.

Lemma push_type t hb payload tail :
  1 <= length tail ->
  encode_error (push (ct_byte t)) (mkCB (hb ++ payload ++ tail) 0 (length hb + length payload))
  = (Ok tt, mkCB (hb ++ (payload ++ [ct_byte t]) ++ drop 1 tail) 0
              (length hb + length (payload ++ [ct_byte t]))).
Proof.
  intros Ht. pose proof (encodes_at (encode_error (push (ct_byte t))) [ct_byte t] []
    (hb ++ payload) tail ltac:(auto with tls) ltac:(simpl; lia)) as Hp.
  cbn [app length] in Hp.
  rewrite <-!(assoc_L (++) hb) in Hp. rewrite (length_app hb), (length_app hb (_ ++ _)) in Hp. exact Hp.
Qed.

Lemma close_encrypt wks hb payload t tail c tag :
  length hb = 5 -> kss_wf (w_state wks) ->
  aead_seal (key (w_state wks)) (Record_Nonce (iv (w_state wks)) (counter (w_state wks)))
    (record_header (length payload + 1 + TagLen)) (payload ++ [ct_byte t]) = Some (c, tag) ->
  length c = length payload + 1 -> length tag = TagLen -> 1 + TagLen <= length tail ->
  close_op wks t (mkCB (hb ++ payload ++ tail) 0 (5 + length payload))
  = (Ok tt, mkCB (hb ++ (c ++ tag) ++ drop (1 + TagLen) tail) 0 (5 + length (c ++ tag))).
Proof.
  intros Hb Hw Hs Hlc Hlt Ht. unfold close_op. rewrite <-Hb.
  rewrite (bind_Ok _ _ _ _ _ (push_type t hb payload tail ltac:(lia))).
  unfold HEADER_SIZE. erewrite bind_Ok by (apply move_offset; lia).
  rewrite <-Hb, Nat.add_comm, Nat.add_sub.
  rewrite (bind_Ok _ _ _ _ _ (encrypt_spec wks hb payload t (drop 1 tail) c tag Hw Hs Hlc Hlt ltac:(len))).
  rewrite move_rewind. cbn [cb_buf cb_len cb_offset]. rewrite drop_drop, <-(assoc_L (++) c tag).
  do 2 f_equal. len.
Qed.

Lemma close_record_spec wks h payload tail :
  kss_wf (w_state wks) -> (Z.of_nat (length payload) < 2 ^ 16 - 1)%Z -> closing h <= length tail ->
  close_record wks (building h payload tail)
  = (Ok (client_frame wks h payload),
     mkWB (client_frame wks h payload ++ drop (closing h) tail) 0 None).
Proof.
  intros Hw Hl Ht. unfold close_record, building, client_frame, closing in *. rewrite bind_get.
  cbn [current_header wb_buffer wb_pos]. rewrite bind_unwrap_Some, bind_put.
  destruct (is_encrypted h) eqn:He; cbn [negb].
  - destruct (sealed_spec (w_state wks) payload (trailer_content_type h) Hw Hl)
      as (c & tag & Hs & Hlc & Hlt & ->).
    rewrite (bind_Ok _ _ _ tt (mkWB (header_bytes h 0 ++ (c ++ tag) ++ drop (1 + TagLen) tail)
                                 (5 + length (c ++ tag)) None)).
    + rewrite (close_patch h (c ++ tag) (drop (1 + TagLen) tail) _ eq_refl).
      rewrite header_bytes_encrypted by done.
      replace (length (c ++ tag)) with (length payload + 1 + TagLen) by len.
      by rewrite <-!(assoc_L (++)).
    + unfold with_buffer_only, zoom, with_buffer, on_fst, zoom. cbn [fst snd wb_buffer wb_pos].
      unfold wrap_with_pos.
      fold (close_op wks (trailer_content_type h)).
      by rewrite (close_encrypt wks _ payload (trailer_content_type h) tail c tag) by (len || done).
  - rewrite (bind_Ok _ _ _ tt (mkWB (header_bytes h 0 ++ payload ++ tail) (5 + length payload) None)) by done.
    rewrite (close_patch h payload tail _ eq_refl). by rewrite drop_0, <-(assoc_L (++)).
Qed.

(** ** write_record *)

Definition payload_encoder (r : ClientRecord) : EncM unit :=
  match r with
  | CR_Handshake handshake _ => ClientHandshake_encode handshake
  | CR_Alert alert _ => Alert_encode alert
  end.

Lemma encode_payload_spec r xs pre tail :
  encodes (payload_encoder r) xs -> length xs <= length tail ->
  encode_payload r (mkCB (pre ++ tail) (length pre) 0)
  = (Ok (length xs), mkCB (pre ++ xs ++ drop (length xs) tail) (length pre) (length xs)).
Proof.
  intros He Hl. unfold encode_payload. rewrite bind_get.
  rewrite (bind_Ok _ _ _ tt (mkCB (pre ++ xs ++ drop (length xs) tail) (length pre) (length xs))).
  - rewrite bind_get. cbn [cb_len]. by rewrite usub_Some, Nat.sub_0_r by lia.
  - destruct r; exact (encodes_at _ _ pre [] tail He Hl).
Qed.

(** [finish_record] turns the payload [xs] into [ys] and the transcript [t] into [t']. *)
Definition finishes wks (r : ClientRecord) (xs t ys t' : list byte) : Prop :=
  length ys = length xs /\ forall pre tail,
    finish_record r wks (mkCB (pre ++ xs ++ tail) (length pre) (length xs), t)
    = (Ok tt, (mkCB (pre ++ ys ++ tail) (length pre) (length ys), t')).

(** The buffer after a record of [n] payload bytes was cut out of it. *)
Definition written (frame : list byte) (buf : list byte) : WriteBuffer :=
  mkWB (frame ++ drop (length frame) buf) 0 None.

Lemma length_client_frame wks h payload :
  kss_wf (w_state wks) -> (Z.of_nat (length payload) < 2 ^ 16 - 1)%Z ->
  length (client_frame wks h payload) = 5 + length payload + closing h.
Proof.
  intros Hw Hl. unfold client_frame, closing. destruct (is_encrypted h).
  - rewrite length_sealed by done. lia.
  - rewrite length_app, length_header_bytes. lia.
Qed.

Lemma write_record_spec wks r xs ys buf rks t' :
  kss_wf (w_state wks) -> encodes (payload_encoder r) xs ->
  finishes wks r xs (r_transcript rks) ys t' -> (Z.of_nat (length xs) < 2 ^ 16 - 1)%Z ->
  5 + length xs + closing (ClientRecord_header r) <= length buf ->
  let frame := client_frame wks (ClientRecord_header r) ys in
  write_record r wks (mkWB buf 0 None, Some rks)
  = (Ok frame, (written frame buf, Some (mkRead (r_state rks) t'))).
Proof.
  intros Hw He [Hly Hf] Hl Hb frame. unfold write_record. rewrite bind_get. cbn [current_header].
  rewrite decide_False by (by intros []). set (h := ClientRecord_header r) in *.
  rewrite (bind_Ok _ _ _ _ _ (on_fst_run _ _ _ _ _ (start_record_spec h buf ltac:(lia)))).
  set (tail := drop (length xs) (drop 5 buf)).
  rewrite (bind_Ok _ _ _ tt (building h ys tail, Some (mkRead (r_state rks) t'))).
  - assert (closing h <= length tail) as Ht by (unfold tail; len).
    rewrite (on_fst_run _ _ _ _ _ (close_record_spec wks h ys tail Hw ltac:(lia) Ht)). fold frame.
    unfold written. do 4 f_equal. unfold tail, frame.
    rewrite length_client_frame by (done || lia). rewrite !drop_drop. f_equal. lia.
  - unfold with_buffer, wrap_with_pos. cbn [wb_buffer wb_pos current_header].
    rewrite (bind_Ok _ _ _ _ _ (on_fst_run _ _ _ _ _ (move_forward _ _))).
    pose proof (encode_payload_spec r xs (header_bytes h 0) (drop 5 buf) He ltac:(len)) as Hp.
    rewrite length_header_bytes in Hp. rewrite (bind_Ok _ _ _ _ _ (on_fst_run _ _ _ _ _ Hp)).
    rewrite bind_get, bind_ok_or_Some. fold tail.
    pose proof (Hf (header_bytes h 0) tail) as Hf'. rewrite length_header_bytes in Hf'.
    rewrite (bind_Ok _ _ _ tt (mkCB (header_bytes h 0 ++ ys ++ tail) 5 (length ys),
                               Some (mkRead (r_state rks) t'))).
    2:{ unfold zoom. cbn [fst]. by rewrite Hf'. }
    rewrite (on_fst_run _ _ _ _ _ (move_rewind _)). cbn [cb_buf cb_len cb_offset].
    unfold building. by rewrite (Nat.add_comm (length ys)).
Qed.

(** A record that was written fitted the buffer. *)
Lemma write_record_fits wks r xs buf x record st :
  encodes (payload_encoder r) xs -> write_record r wks (mkWB buf 0 None, x) = (Ok record, st) ->
  5 + length xs <= length buf.
Proof.
  intros He Hw. destruct (decide (5 + length xs <= length buf)) as [|Hn]; [done|exfalso].
  unfold write_record in Hw. rewrite bind_get in Hw. cbn [current_header] in Hw.
  rewrite decide_False in Hw by (by intros []). set (h := ClientRecord_header r) in *.
  destruct (decide (5 <= length buf)) as [H5|H5].
  - rewrite (bind_Ok _ _ _ _ _ (on_fst_run _ _ _ _ _ (start_record_spec h buf H5))) in Hw.
    apply bind_inv_Ok in Hw as (u & st1 & Hw & _). revert Hw.
    unfold with_buffer, wrap_with_pos. cbn [wb_buffer wb_pos current_header].
    rewrite (bind_Ok _ _ _ _ _ (on_fst_run _ _ _ _ _ (move_forward _ _))).
    destruct (encodes_at_full _ _ (header_bytes h 0) [] (drop 5 buf) He) as (e & c' & Hf & _);
      [rewrite length_drop; lia|].
    rewrite length_header_bytes in Hf.
    assert (encode_payload r (mkCB (header_bytes h 0 ++ drop 5 buf) 5 0) = (Err e, c')) as Hp.
    { unfold encode_payload. rewrite bind_get. apply bind_Err. by destruct r. }
    unfold mbind at 1, M_bind at 1. unfold on_fst at 1, zoom at 1. cbn [fst snd]. by rewrite Hp.
  - destruct (start_record_small h buf ltac:(lia)) as (e & w' & Hs & _).
    rewrite (bind_Err _ _ _ e (w', x)) in Hw; [done|]. unfold on_fst, zoom. cbn [fst]. by rewrite Hs.
Qed.

Lemma finishes_alert wks a e xs t : finishes wks (CR_Alert a e) xs t xs t.
Proof. by split. Qed.

Lemma finishes_encrypted wks m xs t : finishes wks (CR_Handshake m true) xs t xs (t ++ xs).
Proof.
  split; [done|]. intros pre tail. simpl. unfold finalize_encrypted.
  by rewrite (bind_Ok _ _ _ _ _ (on_fst_run _ _ _ _ _ (in_place_message pre xs tail))), bind_get.
Qed.
End Close.
