(* ===== verification/ClientOffer.v ===== *)
(** The client's ClientHello on the wire (handshake/client_hello.rs): the bytes that
    [encode] writes, what [finalize] patches into them and feeds to the transcript, and
    how the server of this crate reads and answers the result. *)

From S2P Require Import Prelude Errors CryptoBuffer ParseBuffer Wire ExtensionData Extensions.
From S2P Require Import CryptoSuite KeySchedule KeyScheduleProps ClientHello Handshake Server.
From S2P Require Import ServerRecords ServerHandshake ServerSteps ServerSpec Record WriteBuffer.
From Stdlib Require Import ZArith Lia.
From Stdlib Require Import Strings.Byte.
From Stdlib Require Strings.String.
From stdpp Require Import base list option numbers tactics sets.

Import Stdlib.Strings.String.StringSyntax.

Section Offer.
Context `{CS : TlsCipherSuite, !TlsCipherSuiteLaws CS}.
Implicit Types h : ClientHello.

(** ** The message *)

(** The extensions before the PSK offer. *)
Definition plain_extensions h : list ClientHelloExtension :=
  [CH_SupportedVersions (mkVersionsCH [TLS13]);
   CH_SignatureAlgorithms (mkSigAlgs (signature_schemes (config h)))]
  ++ match max_fragment_length (config h) with
     | Some m => [CH_MaxFragmentLength m] | None => [] end
  ++ [CH_SupportedGroups (mkGroups (named_groups (config h)));
      CH_PskKeyExchangeModes (mkPskModes [PskDheKe]);
      CH_KeyShare (mkKeyShareCH [mkKeyShareEntry Secp256r1 (public_key h)])]
  ++ match server_name (config h) with
     | Some n => [CH_ServerName (ServerNameList_single n)] | None => [] end
  ++ match alpn_config (config h) with
     | Some l => [CH_ApplicationLayerProtocolNegotiation (mkAlpn l)] | None => [] end.

Definition psk_ids h : list (list byte) :=
  match psk (config h) with Some (_, ids) => ids | None => [] end.
Definition psk_items h : list (list byte * Z) := (fun id => (id, 0%Z)) <$> psk_ids h.

(** The PSK extension up to its binders, when [n] bytes of binders follow. *)
Definition psk_front h (n : nat) : list byte :=
  let ids := vec16 (mjoin (psk_identity_bytes <$> psk_items h)) in
  be_bytes 2 (ExtensionType_code ET_PreSharedKey) ++ be_bytes 2 (Z.of_nat (length ids + n)) ++ ids.

(** The message around its extensions. *)
Definition hello_wire h (exts : list byte) : list byte :=
  u8 (HandshakeType_code HT_ClientHello) ::
  vec24 (be_bytes 2 LEGACY_VERSION ++ ch_random h ++ [x00] ++ be_bytes 2 2 ++ be_bytes 2 CODE_POINT
         ++ [x01] ++ [x00] ++ vec16 exts).

Definition plain_bytes h : list byte := mjoin (ext_bytes <$> plain_extensions h).

(** The message with [binders] at its end. *)
Definition offer_message h (binders : list byte) : list byte :=
  hello_wire h (plain_bytes h ++ psk_front h (length binders) ++ binders).

(** Everything before [n] bytes of binders. *)
Definition offer_prefix h (n : nat) : list byte :=
  let exts := plain_bytes h ++ psk_front h n in
  let front := be_bytes 2 LEGACY_VERSION ++ ch_random h ++ [x00] ++ be_bytes 2 2
               ++ be_bytes 2 CODE_POINT ++ [x01] ++ [x00] in
  u8 (HandshakeType_code HT_ClientHello)
  :: be_bytes 3 (Z.of_nat (length front + 2 + length exts + n))
  ++ front ++ be_bytes 2 (Z.of_nat (length exts + n)) ++ exts.

Lemma offer_message_split h binders :
  offer_message h binders = offer_prefix h (length binders) ++ binders.
Proof.
  unfold offer_message, offer_prefix, hello_wire, vec24. cbv zeta.
  set (exts := plain_bytes h ++ psk_front h (length binders)). rewrite (assoc_L (++) (plain_bytes h)). fold exts.
  unfold vec16. set (front := be_bytes 2 LEGACY_VERSION ++ _ ++ _ ++ _ ++ _ ++ _ ++ [x00]).
  replace (be_bytes 2 LEGACY_VERSION ++ _) with
    (front ++ be_bytes 2 (Z.of_nat (length (exts ++ binders))) ++ exts ++ binders)
    by (unfold front; by rewrite <-!(assoc_L (++))).
  rewrite <-app_comm_cons. f_equal. rewrite <-!(assoc_L (++)), !length_app, length_be_bytes.
  do 3 f_equal. lia.
Qed.

(** ** encode *)

Lemma ClientHello_encodes h :
  encodes (ClientHandshake_encode (CHS_ClientHello h))
    (hello_wire h (mjoin (ext_bytes <$> client_extensions h))).
Proof.
  unfold ClientHandshake_encode, hello_wire. cbn [client_handshake_type encode_inner].
  change (?b :: ?l) with ([b] ++ l). apply encodes_bind; [auto with tls|].
  apply encodes_with_u24_length. unfold ClientHello_encode.
  repeat (apply encodes_bind; [auto with tls|]). apply ext_vector_encodes.
Qed.

(** The placeholder that [encode] leaves for the binders. *)
Definition binders_hole h : list byte := psk_hole (length (psk_ids h)) HashLen.

Lemma client_exts_psk h key ids :
  psk (config h) = Some (key, ids) ->
  mjoin (ext_bytes <$> client_extensions h)
  = plain_bytes h ++ psk_front h (length (binders_hole h)) ++ binders_hole h.
Proof.
  intros Hp. unfold client_extensions. rewrite Hp, !(assoc_L (++)).
  rewrite fmap_app, join_app. unfold plain_bytes, plain_extensions. rewrite <-!(assoc_L (++)). f_equal.
  cbn [fmap list_fmap mjoin list_join]. rewrite app_nil_r. unfold ext_bytes.
  unfold psk_front, psk_items, binders_hole, psk_ids. rewrite Hp. cbv zeta.
  change (data_bytes _) with (PskCH_bytes (mkPskCH ids [] HashLen)).
  unfold PskCH_bytes. cbn [identities hash_size extension_type ClientHelloExtension_group].
  set (a := vec16 (mjoin _)). unfold vec16. rewrite <-!(assoc_L (++)). by rewrite length_app.
Qed.

Lemma client_exts_none h :
  psk (config h) = None -> mjoin (ext_bytes <$> client_extensions h) = plain_bytes h.
Proof. intros Hp. unfold client_extensions, plain_bytes, plain_extensions. by rewrite Hp, app_nil_r. Qed.

(** ** finalize *)

Lemma PskBinder_encodes b : encodes (PskBinder_encode b) (vec8 (binder_verify b)).
Proof.
  unfold PskBinder_encode, vec8. change (?b :: ?l) with ([b] ++ l). apply encodes_bind; auto with tls.
Qed.

Definition binders_of h (mac : list byte) : list (list byte) := replicate (length (psk_ids h)) mac.

Lemma length_binders_mjoin n mac : length (mjoin (vec8 <$> replicate n mac)) = n * (1 + length mac).
Proof.
  induction n as [|n IH]; [done|].
  change (mjoin _) with (vec8 mac ++ mjoin (vec8 <$> replicate n mac)).
  rewrite length_app, IH. unfold vec8. simpl. lia.
Qed.

(** The binders have the size of the placeholder, length field included. *)
Lemma binders_bytes_eq h mac :
  length mac = HashLen ->
  psk_binders_bytes (binders_of h mac)
  = be_bytes 2 (Z.of_nat ((1 + HashLen) * length (psk_ids h))) ++ mjoin (vec8 <$> binders_of h mac).
Proof.
  intros Hm. unfold psk_binders_bytes, vec16, binders_of. do 2 f_equal.
  rewrite length_binders_mjoin, Hm. lia.
Qed.

Lemma length_binders_hole h : length (binders_hole h) = 2 + (1 + HashLen) * length (psk_ids h).
Proof. unfold binders_hole, psk_hole. rewrite length_app, length_be_bytes, length_replicate. done. Qed.

Lemma length_binders_bytes h mac :
  length mac = HashLen -> length (psk_binders_bytes (binders_of h mac)) = length (binders_hole h).
Proof.
  intros Hm. rewrite binders_bytes_eq, length_binders_hole, length_app, length_be_bytes by done.
  unfold binders_of. rewrite length_binders_mjoin, Hm. lia.
Qed.

(** The loop that writes one binder per identity. *)
Lemma binder_loop wks base t (ids : list (list byte)) : forall c,
  HashLen <= length base -> binder_key wks = secret_of base -> cb_wf c ->
  let out := mjoin (vec8 <$> replicate (length ids) (Finished_Mac base t)) in
  length out <= room c ->
  for_each ids (fun _ =>
    st ← get; binder ← create_psk_binder wks (snd st); on_fst (PskBinder_encode binder)) (c, t)
  = (Ok tt, (cb_append c out, t)).
Proof.
  induction ids as [|id ids IH]; intros c Hb Hk Hwf out Hr; cbn [for_each].
  - unfold out. simpl. by rewrite cb_append_nil.
  - set (mac := Finished_Mac base t) in *.
    assert (out = vec8 mac ++ mjoin (vec8 <$> replicate (length ids) mac)) as Ho by done.
    rewrite Ho, length_app in Hr.
    rewrite (bind_Ok _ _ _ tt (cb_append c (vec8 mac), t)).
    + rewrite IH; [|done..|by apply wf_append; [|lia]|rewrite room_append by (done || lia); lia].
      rewrite Ho, cb_append_append by (done || lia). done.
    + rewrite bind_get. cbn [snd]. rewrite (bind_Ok _ _ _ _ _ (create_psk_binder_spec base wks t _ Hb Hk)).
      apply on_fst_run. apply (encodes_Ok _ _ c (PskBinder_encodes (mkBinder mac))); [done|simpl in *; lia].
Qed.

Lemma finalize_psk h wks key ids base t pre :
  psk (config h) = Some (key, ids) -> HashLen <= length base -> binder_key wks = secret_of base ->
  let bs := psk_binders_bytes (binders_of h (Finished_Mac base (t ++ pre))) in
  finalize h wks (pre ++ binders_hole h, t) = (Ok tt, (pre ++ bs, t ++ pre ++ bs)).
Proof.
  intros Hp Hb Hk bs. unfold finalize. rewrite bind_get. cbv beta iota. rewrite Hp.
  assert (psk_ids h = ids) as Hids by (unfold psk_ids; by rewrite Hp).
  pose proof (length_binders_hole h) as Hlh. rewrite Hids in Hlh.
  set (mac := Finished_Mac base (t ++ pre)) in *.
  assert (length mac = HashLen) as Hm by apply length_Finished_Mac.
  set (lenb := be_bytes 2 (Z.of_nat ((1 + HashLen) * length ids))).
  set (L := (1 + HashLen) * length ids) in *.
  assert (pre ++ binders_hole h = (pre ++ lenb) ++ replicate L x00) as Henc.
  { unfold binders_hole, psk_hole. rewrite Hids. by rewrite (assoc_L (++)). }
  assert (length (pre ++ lenb) = length pre + 2) as Hpl by (unfold lenb; len).
  replace (length ids * (1 + HashLen)) with L by (unfold L; lia).
  rewrite usub_Some, bind_unwrap_Some by (rewrite length_app, Hlh; lia).
  replace (length (pre ++ binders_hole h) - L) with (length pre + 2) by (rewrite length_app, Hlh; lia).
  rewrite usub_Some, bind_unwrap_Some by lia. rewrite Nat.add_sub.
  rewrite (sub_0_app pre), bind_unwrap_Some, bind_put.
  rewrite (bind_Ok _ _ _ tt (pre ++ bs, t ++ pre)).
  - rewrite bind_get. cbv beta iota. rewrite sub_Some by (rewrite length_app; lia).
    rewrite bind_unwrap_Some, drop_app_length, take_ge by (rewrite length_app; lia).
    by rewrite <-(assoc_L (++)).
  - erewrite zoom_run.
    2:{ cbn [fst snd]. rewrite Henc, <-Hpl, drop_app_length.
        apply (binder_loop wks base (t ++ pre) ids (wrap (replicate L x00)) Hb Hk (wrap_wf _)).
        rewrite length_binders_mjoin. fold mac. rewrite Hm. unfold room, capacity. simpl.
        rewrite length_replicate. unfold L. lia. }
    cbn [fst snd]. fold mac. rewrite Henc, <-Hpl, take_app_length.
    unfold bs. rewrite binders_bytes_eq by done. rewrite Hids. fold L lenb. rewrite (assoc_L (++) pre).
    do 3 f_equal. unfold binders_of. rewrite Hids. unfold cb_append, wrap. simpl. unfold splice. simpl.
    rewrite drop_ge, app_nil_r; [done|]. rewrite length_replicate, length_binders_mjoin, Hm. unfold L. lia.
Qed.

(** ** The record of the hello *)

(** What the client sends, and what it absorbs: the same bytes. *)
Definition hello_sent h (base t : list byte) : list byte :=
  match psk (config h) with
  | Some _ =>
      let pre := offer_prefix h (length (binders_hole h)) in
      pre ++ psk_binders_bytes (binders_of h (Finished_Mac base (t ++ pre)))
  | None => hello_wire h (plain_bytes h)
  end.

(** The encoded message before [finalize]. *)
Definition hello_unsigned h : list byte := hello_wire h (mjoin (ext_bytes <$> client_extensions h)).

Lemma hello_finishes h wks base t :
  HashLen <= length base -> binder_key wks = secret_of base ->
  finishes wks (CR_Handshake (CHS_ClientHello h) false) (hello_unsigned h) t
    (hello_sent h base t) (t ++ hello_sent h base t).
Proof.
  intros Hb Hk. unfold finishes, hello_sent, hello_unsigned.
  destruct (psk (config h)) as [[key ids]|] eqn:Hp.
  - cbv zeta. set (pre := offer_prefix h (length (binders_hole h))).
    pose proof (offer_message_split h (binders_hole h)) as Hsp. unfold offer_message in Hsp. fold pre in Hsp.
    rewrite (client_exts_psk h key ids Hp), Hsp.
    set (bs := psk_binders_bytes _).
    assert (length bs = length (binders_hole h)) as Hl
      by (apply length_binders_bytes, length_Finished_Mac).
    split; [rewrite !length_app; lia|]. intros front tail. cbn [finish_record].
    unfold on_slice. cbn [cb_buf cb_offset cb_len].
    rewrite sub_app. cbn [ClientHandshake_finalize].
    rewrite (finalize_psk h wks key ids base t pre Hp Hb Hk). fold bs.
    rewrite splice_app by (rewrite !length_app; lia).
    by replace (length (pre ++ binders_hole h)) with (length (pre ++ bs)) by (rewrite !length_app; lia).
  - split; [by rewrite client_exts_none|]. intros front tail. rewrite client_exts_none by done.
    cbn [finish_record]. unfold on_slice. cbn [cb_buf cb_offset cb_len]. rewrite sub_app.
    cbn [ClientHandshake_finalize]. unfold finalize. rewrite bind_get, Hp. cbn [put].
    by rewrite splice_app.
Qed.

(** ** How the server reads it *)

(** The value the server's parser makes of an extension: it validates the ALPN names
    and drops them. *)
Definition seen (e : ClientHelloExtension) : ClientHelloExtension :=
  match e with
  | CH_ApplicationLayerProtocolNegotiation _ => CH_ApplicationLayerProtocolNegotiation (mkAlpn [])
  | e => e
  end.

Definition ext_fits (e : ClientHelloExtension) : Prop :=
  match e with
  | CH_ApplicationLayerProtocolNegotiation a =>
      Forall (fun p => 1 <= length p < 256) (alpn_protocols a) /\
      (Z.of_nat (length (Alpn_bytes a)) < 2 ^ 16)%Z
  | e => data_ok e
  end.

Lemma ext_fits_raw e : ext_fits e -> raw_ok (raw_of e) /\ ext_of_raw (raw_of e) = Ok (seen e).
Proof.
  intros H. assert (data_ok e -> raw_ok (raw_of e) /\ ext_of_raw (raw_of e) = Ok e) as Hgen
    by (intros Hd; by split; [apply raw_of_ok|apply ext_of_raw_of]).
  destruct e as [d|d|d|d|d|d|d|d|d|d|d|d|d|d|d|d|d|d|d|d|d|d]; try by apply Hgen.
  destruct H as [HF Hl]. split; [split; [simpl; lia|done]|].
  unfold ext_of_raw, raw_of. cbn [raw_type raw_data extension_type ClientHelloExtension_group].
  rewrite type_of_code_code. cbn [data_parse ClientHelloExtension_group].
  assert (Z.of_nat (length (mjoin (vec8 <$> alpn_protocols d))) < 2 ^ 16)%Z as Hl'.
  { unfold Alpn_bytes, vec16 in Hl. rewrite length_app, length_be_bytes in Hl. lia. }
  destruct (pmap_whole CH_ApplicationLayerProtocolNegotiation _ _ _ (Alpn_parses d Hl' HF)) as [b Hb].
  unfold map_err. change (data_bytes _) with (Alpn_bytes d). by rewrite Hb.
Qed.

Lemma vector_of_raws_seen N es : forall acc,
  Forall ext_fits es -> length acc + length es <= N ->
  vector_of_raws N acc (raw_of <$> es) = Ok (acc ++ (seen <$> es)).
Proof.
  induction es as [|e es IH]; intros acc HF HN; [by rewrite app_nil_r|].
  apply Forall_cons in HF as [He HF]. cbn [fmap list_fmap vector_of_raws length] in *.
  unfold add_raw. destruct (ext_fits_raw e He) as [_ ->]. rewrite decide_True by lia.
  rewrite IH; [by rewrite <-(assoc_L (++))|done|rewrite length_app; simpl; lia].
Qed.

(** A hello within the capacities of the format and the size of a record, whose suite is
    the server's. *)
Record offer_ok h (key : list byte) : Prop := {
  oo_random : length (ch_random h) = 32;
  oo_psk : psk (config h) = Some (key, psk_ids h);
  oo_ids : 1 <= length (psk_ids h) <= 4;
  oo_id : Forall (fun id => 1 <= length id /\ (Z.of_nat (length id) < 2 ^ 16)%Z) (psk_ids h);
  oo_plain : Forall ext_fits (plain_extensions h);
  oo_size : (Z.of_nat (length (hello_unsigned h)) <= 2 ^ 14)%Z;
  oo_suite : CODE_POINT = TLS_AES_128_GCM_SHA256;
}.

Lemma offer_size h key :
  offer_ok h key ->
  (Z.of_nat (length (plain_bytes h ++ psk_front h (length (binders_hole h)) ++ binders_hole h)) < 2 ^ 16)%Z.
Proof.
  intros [_ Hp _ _ _ Hsz _]. unfold hello_unsigned in Hsz. rewrite (client_exts_psk h _ _ Hp) in Hsz.
  revert Hsz. set (exts := plain_bytes h ++ _). unfold hello_wire, vec24, vec16.
  cbn [length]. rewrite !length_app, !length_be_bytes. lia.
Qed.

Definition client_fields h (bs : list (list byte)) : HelloFields :=
  mkFields LEGACY_VERSION (ch_random h) [] (be_bytes 2 CODE_POINT) [x00]
    ((raw_of <$> plain_extensions h)
     ++ [mkRaw (ExtensionType_code ET_PreSharedKey) (psk_wire (psk_items h) bs)]).

Definition client_psk h (bs : list (list byte)) : PreSharedKeyClientHello :=
  mkPskCH (psk_ids h) bs HashLen.

(** The hello as the server sees it. *)
Definition client_ref h (bs : list (list byte)) : ClientHelloRef :=
  mkHello LEGACY_VERSION (ch_random h) [] (be_bytes 2 CODE_POINT) [x00]
    ((seen <$> plain_extensions h) ++ [CH_PreSharedKey (client_psk h bs)])
    (length (offer_prefix h (length (psk_binders_bytes bs)))).

Lemma raws_bytes_of (es : list ClientHelloExtension) :
  raws_bytes (raw_of <$> es) = mjoin (ext_bytes <$> es).
Proof. unfold raws_bytes. by rewrite <-list_fmap_compose. Qed.

Lemma client_raws h bs :
  raws_bytes (f_extensions (client_fields h bs))
  = plain_bytes h ++ psk_front h (length (psk_binders_bytes bs)) ++ psk_binders_bytes bs.
Proof.
  unfold client_fields. cbn [f_extensions]. unfold raws_bytes. rewrite fmap_app, join_app.
  fold (raws_bytes (raw_of <$> plain_extensions h)). rewrite raws_bytes_of. fold (plain_bytes h). f_equal.
  cbn [fmap list_fmap mjoin list_join]. rewrite app_nil_r. unfold raw_bytes, psk_front, psk_wire, vec16.
  cbn [raw_type raw_data]. by rewrite <-!(assoc_L (++)), !length_app.
Qed.

Lemma client_message h bs :
  hello_message (client_fields h bs) = offer_message h (psk_binders_bytes bs).
Proof.
  unfold hello_message, hello_body, offer_message, hello_wire. rewrite client_raws.
  reflexivity.
Qed.

Lemma client_fields_ok h key mac :
  offer_ok h key -> length mac = HashLen -> hello_fields_ok (client_fields h (binders_of h mac)).
Proof.
  intros Hok Hm. pose proof (offer_size h key Hok) as Hsz. destruct Hok as [Hr Hp Hn Hid Hpl _ Hsu].
  unfold hello_fields_ok. rewrite client_raws.
  rewrite (length_binders_bytes h mac Hm). cbn [f_version f_random f_session_id f_suites f_compression client_fields].
  rewrite !length_app, (length_binders_bytes h mac Hm), <-!length_app in *.
  split_and!; try done; rewrite ?length_be_bytes; try (simpl; lia).
  apply Forall_app. split.
  - apply Forall_fmap. eapply Forall_impl; [done|]. intros e He. by apply ext_fits_raw.
  - apply Forall_singleton. split; [done|]. cbn [raw_data]. unfold psk_wire.
    unfold psk_front in Hsz. cbv zeta in Hsz. rewrite !length_app in *.
    rewrite (length_binders_bytes h mac Hm). rewrite !length_be_bytes in Hsz. lia.
Qed.

Lemma client_psk_ok h key mac :
  offer_ok h key -> length mac = HashLen ->
  psk_wire_ok 4 (psk_items h) (client_psk h (binders_of h mac)).
Proof.
  intros Hok Hm. pose proof (offer_size h key Hok) as Hsz. destruct Hok as [Hr Hp Hn Hid Hpl _ Hsu].
  pose proof hash_len. pose proof (length_binders_bytes h mac Hm) as Hb.
  unfold psk_wire_ok, psk_items, client_psk, binders_of, binders_ok. cbn [identities binders hash_size].
  rewrite length_fmap, length_replicate. split_and!; try lia.
  - rewrite <-list_fmap_compose. symmetry. apply list_fmap_id.
  - apply Forall_fmap. eapply Forall_impl; [done|]. intros id [? ?]. split_and!; simpl; (done || lia).
  - apply Forall_replicate. done.
  - unfold psk_front, vec16, psk_items in Hsz. cbv zeta in Hsz. rewrite !length_app, !length_be_bytes in Hsz. lia.
  - unfold psk_binders_bytes, vec16 in Hb. rewrite length_app, length_be_bytes in Hb.
    rewrite !length_app in Hsz. fold (binders_of h mac). lia.
Qed.

Lemma client_reads_as h key mac :
  offer_ok h key -> length mac = HashLen ->
  reads_as (offer_message h (psk_binders_bytes (binders_of h mac))) (client_ref h (binders_of h mac)).
Proof.
  intros Hok Hm. set (bs := binders_of h mac). exists (client_fields h bs).
  split_and!; [by eapply client_fields_ok|by rewrite client_message|].
  rewrite (hello_of_last_psk _ _ (raw_of <$> plain_extensions h) (seen <$> plain_extensions h)
             (psk_items h) (client_psk h bs)).
  - cbn [binders client_psk]. rewrite client_message, offer_message_split, length_app, Nat.add_sub. done.
  - done.
  - by eapply client_psk_ok.
  - apply (vector_of_raws_seen _ _ []); [apply Hok|]. unfold plain_extensions. rewrite !length_app. simpl.
    unfold CLIENT_HELLO_MAX_EXTENSIONS. repeat case_match; simpl; lia.
  - apply Forall_fmap. unfold plain_extensions. repeat case_match; by repeat constructor.
  - rewrite length_fmap. unfold plain_extensions. rewrite !length_app. simpl.
    unfold CLIENT_HELLO_MAX_EXTENSIONS. repeat case_match; simpl; lia.
Qed.
End Offer.

(** ** The checks of the server *)

Section Checks.
Context `{CS : TlsCipherSuite, !TlsCipherSuiteLaws CS, X : X25519Ops}.
Implicit Types (h : ClientHello) (cfg : TlsServerConfig).

(** What the server's lookups find. *)
Lemma client_ref_lookups h bs :
  let exts := extensions (client_ref h bs) in
  find_map find_versions exts = Some (mkVersionsCH [TLS13]) /\
  find_map find_modes exts = Some (mkPskModes [PskDheKe]) /\
  find_map find_groups exts = Some (mkGroups (named_groups (config h))) /\
  find_map find_key_share exts = Some (mkKeyShareCH [mkKeyShareEntry Secp256r1 (public_key h)]) /\
  find_map find_psk exts = Some (client_psk h bs).
Proof.
  cbv zeta. unfold client_ref, plain_extensions. cbn [extensions].
  destruct (max_fragment_length (config h)), (server_name (config h)), (alpn_config (config h)); done.
Qed.

(** The hello on the wire, as the client leaves it. *)
Lemma hello_sent_offer h key base :
  psk (config h) = Some (key, psk_ids h) ->
  let pre := offer_prefix h (length (binders_hole h)) in
  let bs := binders_of h (Finished_Mac base pre) in
  hello_sent h base [] = offer_message h (psk_binders_bytes bs) /\
  hello_sent h base [] = pre ++ psk_binders_bytes bs.
Proof.
  intros Hp pre bs. unfold hello_sent. rewrite Hp. cbv zeta. cbn [app]. fold pre bs.
  split; [|done]. rewrite offer_message_split. unfold bs at 2.
  by rewrite length_binders_bytes by apply length_Finished_Mac.
Qed.
(** The server's PSK checks on a hello, in its order (the key-exchange decision comes
    before them). *)
Definition psk_checks (ch : list byte) cfg : M HelloState TlsError Z :=
  hello ← run_on (pb_new ch) (ClientHelloRef_parse CLIENT_HELLO_MAX_EXTENSIONS);
  validate_supported_versions hello;;
  validate_cipher_suites hello;;
  '(idx, binder) ← locate_our_identity hello cfg;
  check_binder ch cfg hello binder;;
  mret idx.

Lemma client_selected h key mac cfg i :
  offer_ok h key -> psk_ids h !! i = Some (psk_identity cfg) ->
  (forall j id, j < i -> psk_ids h !! j = Some id -> id <> psk_identity cfg) ->
  let bs := binders_of h mac in Selected cfg (client_ref h bs) (client_psk h bs) i mac.
Proof.
  intros Hok Hi Hfirst bs. destruct (client_ref_lookups h bs) as (_ & _ & _ & _ & Hpsk).
  split; [done..|]. unfold bs, binders_of. cbn [binders client_psk].
  apply lookup_replicate. split; [done|]. by eapply lookup_lt_Some.
Qed.

Lemma psk_checks_pass h cfg ch out i base :
  offer_ok h (psk_secret cfg) -> base = Binder_Key (psk_secret cfg) -> ch = hello_sent h base [] ->
  psk_ids h !! i = Some (psk_identity cfg) ->
  (forall j id, j < i -> psk_ids h !! j = Some id -> id <> psk_identity cfg) ->
  exists st, psk_checks ch cfg (mkHelloState KeySchedule_new HrrState_default out) = (Ok (Z.of_nat i), st).
Proof.
  intros Hok Hbase Hch Hi Hfirst. pose proof (oo_ids _ _ Hok) as Hids. pose proof (oo_suite _ _ Hok) as Hsu.
  destruct (hello_sent_offer h _ base (oo_psk _ _ Hok)) as [Hch1 Hch2]. cbv zeta in *.
  rewrite <-Hch in Hch1, Hch2. set (pre := offer_prefix h _) in *. set (mac := Finished_Mac base pre) in *.
  assert (length mac = HashLen) as Hm by apply length_Finished_Mac.
  pose proof (client_reads_as h _ mac Hok Hm) as Hread. rewrite <-Hch1 in Hread.
  pose proof (client_selected h _ mac cfg i Hok Hi Hfirst) as Hsel. cbv zeta in Hsel.
  assert (binders_start_offset (client_ref h (binders_of h mac)) = length pre) as Hoff.
  { cbn [binders_start_offset client_ref]. by rewrite length_binders_bytes. }
  set (bs := binders_of h mac) in *. set (hello := client_ref h bs) in *.
  destruct (client_ref_lookups h bs) as (Hv & _). cbv zeta in Hv. fold hello in Hv.
  set (st0 := mkHelloState _ _ _). unfold psk_checks.
  rewrite (bind_Ok _ _ st0 hello st0) by (unfold run_on; by rewrite (reads_as_parse _ _ Hread)).
  rewrite (bind_Ok _ _ st0 tt st0) by (unfold validate_supported_versions; by rewrite Hv, bind_ok_or_Some).
  rewrite (bind_Ok _ _ st0 tt st0) by (unfold validate_cipher_suites; cbn [cipher_suites hello client_ref];
    by rewrite Hsu).
  destruct Hread as (f & _ & _ & Hf). pose proof (locate_wp _ f hello cfg st0 Hf) as Hloc. unfold wp in Hloc.
  destruct (locate_our_identity hello cfg st0) as [[[idx b]|e| |] st1] eqn:Hl; [| |done..].
  2:{ destruct Hloc as [_ Hno]. by destruct (Hno _ _ _ Hsel). }
  destruct Hloc as (-> & psk' & i' & Hsel' & ->).
  destruct (Selected_unique _ _ _ _ _ _ _ _ Hsel Hsel') as (_ & <- & <-).
  rewrite (bind_Ok _ _ _ _ _ Hl). cbv beta iota.
  pose proof (check_binder_wp ch cfg hello mac st0) as Hcb. cbv zeta in Hcb.
  specialize (Hcb ltac:(rewrite Hoff, Hch2, length_app; lia)). unfold wp in Hcb.
  assert (verify_psk_binder (early_schedule (psk_secret cfg) KeySchedule_new)
    (take (binders_start_offset hello) ch) mac tt = (Ok true, tt)) as Hver.
  { rewrite (verify_psk_binder_spec base) by (first [done | rewrite Hbase, ?length_Binder_Key; done]).
    by rewrite Hoff, Hch2, take_app_length, bool_decide_true. }
  destruct (check_binder ch cfg hello mac st0) as [[[]|e| |] st1] eqn:Hc; [| |done..].
  - rewrite (bind_Ok _ _ _ _ _ Hc). apply lookup_lt_Some in Hi.
    rewrite Z.mod_small by lia. by eexists.
  - destruct Hcb as [_ Hne]. by destruct Hne.
Qed.
End Checks.

(** ** Every hello of the client *)

(** The configurations an application can make: the fields of [TlsConfig] are private to
    the crate, so these are its constructors and builders. *)
Inductive built : TlsConfig -> Prop :=
| built_new : built TlsConfig_new
| built_new_alloc c : TlsConfig_new_alloc (S := unit) (E := TlsError) tt = (Ok c, tt) -> built c
| built_rsa c c' : built c -> enable_rsa_signatures (S := unit) (E := TlsError) c tt = (Ok c', tt) -> built c'
| built_server_name name c : built c -> built (with_server_name name c)
| built_alpn protocols c : built c -> built (with_alpn protocols c)
| built_max_fragment m c : built c -> built (with_max_fragment_length m c)
| built_no_max_fragment c : built c -> built (reset_max_fragment_length c)
| built_psk key ids c c' : built c -> with_psk (S := unit) (E := TlsError) key ids c tt = (Ok c', tt) -> built c'.

(** All of them list one group. *)
Lemma built_groups c : built c -> named_groups c = [Secp256r1].
Proof.
  induction 1 as [|c Hc|c c' _ IH Hc| | | | |key ids c c' _ IH Hc]; try done.
  - by injection Hc as <-.
  - unfold enable_rsa_signatures in Hc. apply bind_inv_Ok in Hc as (l & [] & _ & Hc). by injection Hc as <-.
  - unfold with_psk in Hc. case_decide; [|done]. by injection Hc as <-.
Qed.

Section Refused.
Context `{CS : TlsCipherSuite, !TlsCipherSuiteLaws CS, X : X25519Ops}.
Implicit Types (h : ClientHello) (cfg : TlsServerConfig).

Lemma ext_of_raw_type r (e : ClientHelloExtension) :
  ext_of_raw r = Ok e -> type_of_code (raw_type r) = Some (extension_type e).
Proof.
  unfold ext_of_raw. destruct (type_of_code (raw_type r)) as [t|]; [|done].
  destruct (data_parse t) as [q|] eqn:Hq; [|done]. intros Hp.
  destruct (map_err _ q (pb_new (raw_data r))) as [res b] eqn:He. simpl in Hp. subst res.
  apply map_err_inv_Ok in He. pose proof (data_parse_sound t q Hq) as Hs.
  apply (wp_Ok _ _ _ _ _ _ (Hs _ (pb_new_wf _))) in He as (_ & _ & _ & <-). done.
Qed.

Lemma raw_data_le raws r : r ∈ raws -> length (raw_data r) <= length (raws_bytes raws).
Proof.
  induction raws as [|r' raws IH]; [by intros ?%not_elem_of_nil|]. unfold raws_bytes in *.
  cbn [fmap list_fmap mjoin list_join]. rewrite length_app.
  intros [->|Hr%IH]%elem_of_cons; [unfold raw_bytes, vec16; rewrite !length_app; lia|]. etrans; [exact Hr|]. apply Nat.le_add_l.
Qed.

(** The message with any extensions, as fields. *)
Definition wire_fields h (raws : list RawExtension) : HelloFields :=
  mkFields LEGACY_VERSION (ch_random h) [] (be_bytes 2 CODE_POINT) [x00] raws.

Lemma wire_fields_ok h raws :
  length (ch_random h) = 32 -> Forall (fun r => is_Some (type_of_code (raw_type r))) raws ->
  (Z.of_nat (length (raws_bytes raws)) < 2 ^ 16)%Z -> hello_fields_ok (wire_fields h raws).
Proof.
  intros Hr HF Hl. unfold hello_fields_ok, wire_fields.
  cbn [f_version f_random f_session_id f_suites f_compression f_extensions].
  split_and!; try done; rewrite ?length_be_bytes; try (simpl; lia).
  apply Forall_forall. intros r Hin. split; [|pose proof (raw_data_le _ _ Hin); lia].
  rewrite Forall_forall in HF. destruct (HF r Hin) as [t Ht].
  apply find_some in Ht as [_ <-%Z.eqb_eq]. by destruct t.
Qed.

(** What is sent are the plain extensions and, with a PSK, its offer. *)
Lemma hello_sent_raws h base : exists offer,
  Forall (fun r => raw_type r = ExtensionType_code ET_PreSharedKey) offer /\
  hello_sent h base [] = hello_message (wire_fields h ((raw_of <$> plain_extensions h) ++ offer)).
Proof.
  destruct (psk (config h)) as [[key ids]|] eqn:Hp.
  - assert (psk (config h) = Some (key, psk_ids h)) as Hp' by (unfold psk_ids; by rewrite Hp).
    destruct (hello_sent_offer h key base Hp') as [-> _]. cbv zeta. rewrite <-client_message.
    eexists. split; [|reflexivity]. by repeat constructor.
  - exists []. split; [constructor|]. unfold hello_sent, hello_message, hello_body. rewrite Hp, app_nil_r.
    cbn [f_extensions wire_fields]. rewrite raws_bytes_of. done.
Qed.

Lemma plain_types h raws :
  Forall (fun r => raw_type r = ExtensionType_code ET_PreSharedKey) raws ->
  Forall (fun r => is_Some (type_of_code (raw_type r))) ((raw_of <$> plain_extensions h) ++ raws).
Proof.
  intros HF. apply Forall_app. split.
  - apply Forall_fmap, Forall_forall. intros e _. exists (extension_type e). apply type_of_code_code.
  - eapply Forall_impl; [done|]. intros r ->. by exists ET_PreSharedKey.
Qed.

(** The extensions that decide the key exchange: each type occurs once in the hello. *)
Definition kex_extensions h : list ClientHelloExtension :=
  [CH_SupportedGroups (mkGroups (named_groups (config h)));
   CH_PskKeyExchangeModes (mkPskModes [PskDheKe]);
   CH_KeyShare (mkKeyShareCH [mkKeyShareEntry Secp256r1 (public_key h)])].

Lemma kex_extensions_unique h e e' :
  e ∈ kex_extensions h ->
  e ∈ plain_extensions h /\ extension_type e <> ET_PreSharedKey /\
  (e' ∈ plain_extensions h -> extension_type e' = extension_type e -> e' = e).
Proof.
  unfold kex_extensions. rewrite !elem_of_cons, elem_of_nil.
  intros [->|[->|[->|[]]]]; (split; [unfold plain_extensions; set_solver|split; [done|]]);
    unfold plain_extensions; rewrite !elem_of_app; repeat case_match; set_solver.
Qed.

(** They read back when the message has a size the length fields can hold. *)
Lemma kex_extensions_ok h e :
  named_groups (config h) = [Secp256r1] -> e ∈ kex_extensions h ->
  (Z.of_nat (length (CH_bytes e)) < 2 ^ 16)%Z -> data_ok e.
Proof.
  unfold kex_extensions. rewrite !elem_of_cons, elem_of_nil.
  intros Hg [->|[->|[->|[]]]] Hl; (split; [done|]); cbn [CH_payload_ok].
  - rewrite Hg. simpl. lia.
  - simpl. lia.
  - cbn [CH_bytes] in Hl. unfold KeyShareClientHello_bytes, vec16 in Hl.
    rewrite length_app, length_be_bytes in Hl. unfold KeyShareClientHello_ok. cbn [client_shares] in *.
    split_and!; [lia|simpl; lia|]. repeat constructor. unfold KeyShareEntry_ok. cbn [ks_opaque].
    cbn [fmap list_fmap mjoin list_join] in Hl. rewrite app_nil_r in Hl.
    unfold KeyShareEntry_bytes, vec16 in Hl. cbn [ks_opaque] in Hl. rewrite !length_app in Hl. lia.
Qed.

(** When the server reads them at all, they are the ones the client wrote. *)
Lemma sent_extension h offer hello e e0 :
  Forall (fun r => raw_type r = ExtensionType_code ET_PreSharedKey) offer ->
  named_groups (config h) = [Secp256r1] ->
  let raws := (raw_of <$> plain_extensions h) ++ offer in
  (Z.of_nat (length (raws_bytes raws)) < 2 ^ 16)%Z ->
  hello_of CLIENT_HELLO_MAX_EXTENSIONS (wire_fields h raws) = Ok hello ->
  e0 ∈ kex_extensions h -> e ∈ extensions hello -> extension_type e = extension_type e0 -> e = e0.
Proof.
  intros HF Hg raws Hsz Hh He0 He Ht. unfold hello_of in Hh. cbn [f_extensions wire_fields] in Hh.
  destruct (vector_of_raws _ _ _) as [exts| | |] eqn:Hv; try done. revert Hh. case_match; try done.
  intros [= <-]. cbn [extensions] in He.
  destruct (vector_of_raws_elems _ _ _ _ Hv _ He) as [[]%not_elem_of_nil|(r & Hr & Hre)].
  pose proof (ext_of_raw_type _ _ Hre) as Hty. pose proof (raw_data_le _ _ Hr) as Hle.
  apply elem_of_app in Hr as [Hr|Hr].
  - apply list_elem_of_fmap in Hr as (e' & -> & He'). unfold raw_of at 1 in Hty. cbn [raw_type] in Hty.
    rewrite type_of_code_code in Hty. destruct (kex_extensions_unique h e0 e' He0) as (_ & _ & Hu).
    rewrite (Hu He') in Hre, Hle by congruence.
    rewrite ext_of_raw_of in Hre; [by injection Hre|]. apply (kex_extensions_ok h); [done|done|].
    change (CH_bytes e0) with (raw_data (raw_of e0)). lia.
  - rewrite Forall_forall in HF. rewrite (HF r Hr), type_of_code_code in Hty.
    destruct (kex_extensions_unique h e0 e0 He0) as (_ & Hn & _). destruct Hn. congruence.
Qed.

(** The key exchange of this client: only psk_dhe_ke, with a share and a group that the
    server does not do. *)
Lemma sent_kex h offer hello cfg :
  Forall (fun r => raw_type r = ExtensionType_code ET_PreSharedKey) offer ->
  named_groups (config h) = [Secp256r1] ->
  let raws := (raw_of <$> plain_extensions h) ++ offer in
  (Z.of_nat (length (raws_bytes raws)) < 2 ^ 16)%Z ->
  hello_of CLIENT_HELLO_MAX_EXTENSIONS (wire_fields h raws) = Ok hello ->
  exists e, kex_choice hello cfg false = Err e.
Proof.
  intros HF Hg raws Hsz Hh. pose proof (fun e e0 => sent_extension h offer hello e e0 HF Hg Hsz Hh) as Hone.
  unfold kex_choice, decide_kex.
  destruct (find_map find_modes _) as [m|] eqn:Hm; [|by eexists]. rewrite bind_ok_or_Some.
  apply find_map_elem in Hm as (e & He & Hf). destruct e; try done. injection Hf as ->.
  injection (Hone _ (CH_PskKeyExchangeModes (mkPskModes [PskDheKe]))
    ltac:(unfold kex_extensions; set_solver) He eq_refl) as ->.
  cbn [modes existsb].
  rewrite (bool_decide_false (PskDheKe = PskKe)), (bool_decide_true (PskDheKe = PskDheKe)) by done.
  destruct (dhe_keypair cfg) as [d|]; [|by eexists]. rewrite bool_decide_true by done. cbn [andb orb].
  assert (find_client_x25519_share hello tt = (Ok None, tt)) as Hshare.
  { unfold find_client_x25519_share. destruct (find_map find_key_share _) as [k|] eqn:Hk; [|done].
    apply find_map_elem in Hk as (e & He' & Hf). destruct e; try done. injection Hf as ->.
    by injection (Hone _ (CH_KeyShare (mkKeyShareCH [mkKeyShareEntry Secp256r1 (public_key h)]))
      ltac:(unfold kex_extensions; set_solver) He' eq_refl) as ->. }
  assert (client_supports_group hello X25519 = false) as Hgroup.
  { unfold client_supports_group. destruct (find_map find_groups _) as [g|] eqn:Hgr; [|done].
    apply find_map_elem in Hgr as (e & He' & Hf). destruct e; try done. injection Hf as ->.
    injection (Hone _ (CH_SupportedGroups (mkGroups (named_groups (config h))))
      ltac:(unfold kex_extensions; set_solver) He' eq_refl) as ->. cbn [supported_groups]. by rewrite Hg. }
  rewrite (bind_Ok _ _ _ _ _ Hshare), Hgroup. by eexists.
Qed.
(** The record of the hello: the header and [hello_sent]. *)
Lemma client_record_written h buf :
  5 + length (hello_unsigned h) <= length buf -> (Z.of_nat (length buf) < 2 ^ 16)%Z ->
  exists ks base st, initialize_early_secret (fst <$> psk (config h)) KeySchedule_new = (Ok tt, ks) /\
    length (hello_sent h base []) = length (hello_unsigned h) /\
    write_record (CR_Handshake (CHS_ClientHello h) false) (client_state ks)
      (mkWB buf 0 None, Some (server_state ks))
    = (Ok (header_bytes (CRH_Handshake false) (length (hello_sent h base [])) ++ hello_sent h base []), st).
Proof.
  intros Hfit Hbuf. eexists _, _, _. split; [apply initialize_early_secret_spec|].
  set (ks := mkKS _ _ _). set (base := Derive_Secret _ (b_ "ext binder") []) in ks.
  assert (HashLen <= length base) as Hb
    by (unfold base; rewrite length_Derive_Secret; [done|by rewrite length_Extract]).
  pose proof (hello_finishes h (client_state ks) base [] Hb eq_refl) as Hfin.
  split; [exact (proj1 Hfin)|].
  eapply (write_record_spec (client_state ks) (CR_Handshake (CHS_ClientHello h) false));
    [split_and!; [apply length_replicate|apply length_replicate|done..]|apply ClientHello_encodes|exact Hfin
     |fold (hello_unsigned h); lia|change (5 + length (hello_unsigned h) + 0 <= length buf); lia].
Qed.

Lemma client_record_sent h ks buf record st :
  initialize_early_secret (fst <$> psk (config h)) KeySchedule_new = (Ok tt, ks) ->
  (Z.of_nat (length buf) < 2 ^ 16)%Z ->
  write_record (CR_Handshake (CHS_ClientHello h) false) (client_state ks)
    (mkWB buf 0 None, Some (server_state ks)) = (Ok record, st) ->
  exists base, drop 5 record = hello_sent h base [] /\ (Z.of_nat (length (hello_sent h base [])) < 2 ^ 16)%Z.
Proof.
  intros Hks Hbuf Hw.
  pose proof (write_record_fits _ (CR_Handshake (CHS_ClientHello h) false) _ _ _ _ _ (ClientHello_encodes h) Hw) as Hfit.
  fold (hello_unsigned h) in Hfit. destruct (client_record_written h buf Hfit Hbuf) as (ks' & base & st' & Hks' & Hl & Hw').
  rewrite Hks in Hks'. injection Hks' as <-. rewrite Hw in Hw'. injection Hw' as -> _. exists base. split; [|lia].
  reflexivity.
Qed.
End Refused.

(** ** Properties *)

(** C34: the server accepts the PSK offer of this crate's client.  The client derives
    its binder key, encodes the ClientHello, patches the binders over the placeholder
    and frames the record; the transcript it keeps is the message it sent.  When the
    client's PSK is the server's and the server's identity is among the offered ones,
    the server parses that message, finds TLS 1.3, the cipher suite and its identity,
    and the binder verifies. *)
Theorem client_offer_verifies `{CS : TlsCipherSuite, !TlsCipherSuiteLaws CS, X : X25519Ops}
    h cfg buf out i :
  offer_ok h (psk_secret cfg) ->
  psk_ids h !! i = Some (psk_identity cfg) ->
  (forall j id, j < i -> psk_ids h !! j = Some id -> id <> psk_identity cfg) ->
  5 + length (hello_unsigned h) <= length buf ->
  exists ks ch w rks st,
    initialize_early_secret (fst <$> psk (config h)) KeySchedule_new = (Ok tt, ks) /\
    write_record (CR_Handshake (CHS_ClientHello h) false) (client_state ks)
      (mkWB buf 0 None, Some (server_state ks))
    = (Ok (header_bytes (CRH_Handshake false) (length ch) ++ ch), (w, Some rks)) /\
    r_transcript rks = ch /\
    psk_checks ch cfg (mkHelloState KeySchedule_new HrrState_default out) = (Ok (Z.of_nat i), st).
Proof.
  intros Hok Hi Hfirst Hbuf. set (base := Binder_Key (psk_secret cfg)).
  assert (HashLen <= length base) as Hb by (unfold base; by rewrite length_Binder_Key).
  set (ks := early_schedule (psk_secret cfg) KeySchedule_new). set (ch := hello_sent h base []).
  pose proof (hello_finishes h (client_state ks) base [] Hb eq_refl) as Hfin. fold ch in Hfin.
  destruct (psk_checks_pass h cfg ch out i base Hok eq_refl eq_refl Hi Hfirst) as [st Hst].
  eexists ks, ch, _, (mkRead (r_state (server_state ks)) ([] ++ ch)), st.
  split_and!; [| |reflexivity|exact Hst].
  - rewrite (oo_psk _ _ Hok). apply initialize_early_secret_spec.
  - eapply (write_record_spec (client_state ks) (CR_Handshake (CHS_ClientHello h) false));
      [|apply ClientHello_encodes|exact Hfin| |
       change (5 + length (hello_unsigned h) + 0 <= length buf); lia].
    + split_and!; [apply length_replicate|apply length_replicate|done..].
    + pose proof (oo_size _ _ Hok). fold (hello_unsigned h). lia.
Qed.

(** C35: the server of this crate refuses every client of this crate.  Take any
    configuration an application can build (with or without a PSK, a server name, ALPN, a
    fragment length, RSA), any random and key share, and any write buffer of less than
    2^16 bytes; whatever record the client writes for its ClientHello, a fresh session
    answers the message in it with an error, for every server configuration and output
    buffer.  The client offers only psk_dhe_ke, a P-256 key share and the group P-256; the
    server does psk_dhe_ke with X25519 alone. *)
Theorem own_client_refused `{CS : TlsCipherSuite, !TlsCipherSuiteLaws CS, X : X25519Ops}
    h ks buf record st cfg out :
  built (config h) -> length (ch_random h) = 32 -> (Z.of_nat (length buf) < 2 ^ 16)%Z ->
  initialize_early_secret (fst <$> psk (config h)) KeySchedule_new = (Ok tt, ks) ->
  write_record (CR_Handshake (CHS_ClientHello h) false) (client_state ks)
    (mkWB buf 0 None, Some (server_state ks)) = (Ok record, st) ->
  exists e s, session_process_client_hello (drop 5 record) cfg (TlsServerSession_new, out) = (Err e, s).
Proof.
  intros Hbuilt Hr Hbuf Hks Hw. destruct (client_record_sent h ks buf record st Hks Hbuf Hw) as (base & Hsent & Hsz).
  destruct (hello_sent_raws h base) as (offer & HF & Hraws). rewrite Hraws in Hsent, Hsz. rewrite Hsent.
  set (raws := (raw_of <$> plain_extensions h) ++ offer) in *.
  assert (Z.of_nat (length (raws_bytes raws)) < 2 ^ 16)%Z as Hl.
  { unfold hello_message, hello_body, vec24, vec16 in Hsz. cbn [length f_extensions wire_fields] in Hsz.
    rewrite !length_app in Hsz. lia. }
  pose proof (wire_fields_ok h raws Hr (plain_types h offer HF) Hl) as Hf.
  pose proof (hello_call cfg None (hello_message (wire_fields h raws)) out I) as Hc. unfold wp in Hc.
  change (session_of cfg (Start None)) with TlsServerSession_new in Hc.
  destruct (session_process_client_hello _ _ _) as [[o|e| |] [ses' out']]; [|by do 2 eexists|done..].
  exfalso. destruct Hc as (a' & Hstep & _).
  assert (exists hello d, reads_as (hello_message (wire_fields h raws)) hello /\
    kex_choice hello cfg false = Ok d) as (hello & d & Hread & Hk).
  { inversion Hstep as [? hello g idx b Hof|? ? hello mode idx b ikm Hof _|]; subst;
      destruct Hof as [Hm _ _ _ Hkex _ _]; by exists hello; eexists. }
  apply reads_as_parse in Hread. rewrite hello_parse_complete in Hread by done.
  injection Hread as Hh. destruct (sent_kex h offer hello cfg HF (built_groups _ Hbuilt) Hl Hh) as [e He]. congruence.
Qed.

(** The client of [TlsConfig::new().with_psk(..).with_server_name(..)]. *)
Definition demo_hello : ClientHello :=
  mkClientHello (mkConfig (Some (b_ "host")) (Some [b_ "mqtt"]) (Some (b_ "secret", [b_ "no"; b_ "id"]))
    (signature_schemes TlsConfig_new) (named_groups TlsConfig_new) None)
    (replicate 32 x77) (x04 :: replicate 64 x55).

Lemma demo_offer_ok : offer_ok (CS := Toy.suite) demo_hello (b_ "secret").
Proof.
  split; try done; try (simpl; lia).
  - repeat constructor; simpl; lia.
  - repeat constructor; try (vm_compute; by auto); try (cbn; lia).
Qed.

Definition demo_server : TlsServerConfig :=
  mkServerConfig (b_ "id") (b_ "secret") (replicate 32 x11) (Some (mkDhe (replicate 32 x22) (replicate 32 x23))).

Lemma client_offer_verifies_witness :
  exists ks ch w rks st,
    initialize_early_secret (CS := Toy.suite) (fst <$> psk (config demo_hello)) KeySchedule_new = (Ok tt, ks) /\
    write_record (CR_Handshake (CHS_ClientHello demo_hello) false) (client_state ks)
      (mkWB (zeros 500) 0 None, Some (server_state ks))
    = (Ok (header_bytes (CRH_Handshake false) (length ch) ++ ch), (w, Some rks)) /\
    r_transcript rks = ch /\
    psk_checks ch demo_server (mkHelloState KeySchedule_new HrrState_default (zeros 400)) = (Ok (Z.of_nat 1), st).
Proof.
  apply (client_offer_verifies (CS := Toy.suite) demo_hello demo_server (zeros 500) (zeros 400) 1).
  - apply demo_offer_ok.
  - done.
  - intros [|j] id Hj; [|lia]. by intros [= <-].
  - apply Nat.leb_le. by vm_compute.
Defined.

(** The client of [TlsConfig::new()], without a PSK. *)
Definition demo_default : ClientHello :=
  mkClientHello TlsConfig_new (replicate 32 x77) (x04 :: replicate 64 x55).

Lemma demo_built : built (config demo_hello) /\ built (config demo_default).
Proof.
  split; [|apply built_new].
  apply (built_psk (b_ "secret") [b_ "no"; b_ "id"]
           (with_alpn [b_ "mqtt"] (with_server_name (b_ "host") TlsConfig_new))); [|reflexivity].
  apply built_alpn, built_server_name, built_new.
Qed.

Lemma demo_records h :
  h = demo_hello \/ h = demo_default -> exists ks record st,
    initialize_early_secret (CS := Toy.suite) (fst <$> psk (config h)) KeySchedule_new = (Ok tt, ks) /\
    write_record (CR_Handshake (CHS_ClientHello h) false) (client_state ks)
      (mkWB (zeros 500) 0 None, Some (server_state ks)) = (Ok record, st).
Proof.
  intros Hh. destruct (client_record_written (CS := Toy.suite) h (zeros 500)) as (ks & base & st & Hk & _ & Hw).
  - apply Nat.leb_le. destruct Hh as [->| ->]; by vm_compute.
  - done.
  - eexists ks, _, st. split; [exact Hk|exact Hw].
Qed.

(** Both are written, and refused. *)
Lemma own_client_refused_witness :
  exists record1 record2 e1 e2 s1 s2,
    session_process_client_hello (CS := Toy.suite) (drop 5 record1) demo_server (TlsServerSession_new, zeros 400)
    = (Err e1, s1) /\
    session_process_client_hello (CS := Toy.suite) (drop 5 record2) demo_server (TlsServerSession_new, zeros 400)
    = (Err e2, s2).
Proof.
  destruct (demo_records demo_hello (or_introl eq_refl)) as (ks1 & record1 & st1 & Hk1 & Hw1).
  destruct (demo_records demo_default (or_intror eq_refl)) as (ks2 & record2 & st2 & Hk2 & Hw2).
  destruct demo_built as [B1 B2].
  destruct (own_client_refused (CS := Toy.suite) demo_hello ks1 (zeros 500) record1 st1 demo_server (zeros 400))
    as (e1 & s1 & H1); [exact B1|reflexivity|reflexivity|exact Hk1|exact Hw1|].
  destruct (own_client_refused (CS := Toy.suite) demo_default ks2 (zeros 500) record2 st2 demo_server (zeros 400))
    as (e2 & s2 & H2); [exact B2|reflexivity|reflexivity|exact Hk2|exact Hw2|].
  exists record1, record2, e1, e2, s1, s2. split; [exact H1|exact H2].
Defined.
