(* ===== verification/RecordReader.v ===== *)
(** Reading records from a transport (record_reader.rs).

    The transport is the [embedded_io] trait object the user supplies: a parameter
    ([Socket]) with its documented contract ([SocketLaws]).  These are the
    blocking functions; AsyncHandshake has the asynchronous ones.  The two loops take fuel: the number of bytes they are
    waiting for, enough because a read that returns no byte ends them. *)

From S2P Require Import Prelude Errors CryptoBuffer ParseBuffer Wire ExtensionData Extensions.
From S2P Require Import CryptoSuite KeySchedule KeyScheduleProps ClientHello Handshake Server.
From S2P Require Import Record.
From Stdlib Require Import ZArith Lia.
From Stdlib Require Import Strings.Byte.
From stdpp Require Import base list option numbers tactics sets relations.

(** ** The transport *)

(** [sock_read n] is [read(&mut buf)] on a buffer of [n] bytes: the bytes stored at
    its front. *)
Class Socket (T : Type) : Type := {
  sock_read : nat -> M T ErrorKind (list byte);
  sock_write_all : list byte -> M T ErrorKind unit;
  sock_flush : M T ErrorKind unit;
}.

(** The contract of [embedded_io::Read] and [Write]: [incoming] is what the peer has
    sent and was not read yet, [outgoing] what was written.  A read returns a prefix
    of the incoming bytes that fits the buffer, and no bytes only for an empty
    buffer or at the end of the stream; it may fail, and then consumes nothing. *)
Class SocketLaws (T : Type) `{Socket T} : Type := {
  incoming : T -> list byte;
  outgoing : T -> list byte;
  sock_read_law n s : wp (sock_read n) s
    (fun xs s' => length xs <= n /\ incoming s = xs ++ incoming s' /\ outgoing s' = outgoing s /\
                  (xs = [] -> n = 0 \/ incoming s = []))
    (fun _ s' => incoming s' = incoming s /\ outgoing s' = outgoing s);
  sock_write_law xs s : wp (sock_write_all xs) s
    (fun _ s' => incoming s' = incoming s /\ outgoing s' = outgoing s ++ xs)
    (fun _ s' => incoming s' = incoming s /\ exists n, outgoing s' = outgoing s ++ take n xs);
  sock_flush_law s : wp sock_flush s
    (fun _ s' => incoming s' = incoming s /\ outgoing s' = outgoing s)
    (fun _ s' => incoming s' = incoming s /\ outgoing s' = outgoing s);
}.

(** A transport that reports no I/O error. *)
Class Reliable (T : Type) `{Socket T} : Prop := {
  read_reliable n s : wp (sock_read n) s (fun _ _ => True) (fun _ _ => False);
  write_reliable xs s : wp (sock_write_all xs) s (fun _ _ => True) (fun _ _ => False);
  flush_reliable s : wp sock_flush s (fun _ _ => True) (fun _ _ => False);
}.

(** A transport in memory that delivers at most [chunk + 1] bytes at a time. *)
Record Chunked : Type := mkChunked { ch_in : list byte; ch_out : list byte; chunk : nat }.

#[global] Instance chunked_socket : Socket Chunked := {|
  sock_read n s :=
    let k := min n (S (chunk s)) in
    (Ok (take k (ch_in s)), mkChunked (drop k (ch_in s)) (ch_out s) (chunk s));
  sock_write_all xs s := (Ok tt, mkChunked (ch_in s) (ch_out s ++ xs) (chunk s));
  sock_flush s := (Ok tt, s);
|}.

#[global] Program Instance chunked_laws : SocketLaws Chunked := {|
  incoming := ch_in; outgoing := ch_out;
|}.
Next Obligation.
  intros n [i o k]. unfold wp. simpl. rewrite length_take, take_drop. split_and!; [lia|done..|].
  destruct i as [|b i]; [by right|]. destruct n; simpl; [by left|done].
Qed.
Next Obligation. by intros xs [i o k]. Qed.
Next Obligation. by intros [i o k]. Qed.

#[global] Instance chunked_reliable : Reliable Chunked.
Proof. by split. Qed.

(** A transport in memory that reports one error, after [fl_ok] bytes. *)
Record Flaky : Type := mkFlaky { fl_in : list byte; fl_ok : nat; fl_failed : bool }.

#[global] Instance flaky_socket : Socket Flaky := {|
  sock_read n s :=
    if fl_failed s then (Ok (take n (fl_in s)), mkFlaky (drop n (fl_in s)) (fl_ok s) true)
    else match fl_ok s with
    | O => (Err 5%Z, mkFlaky (fl_in s) 0 true)
    | S k => let m := min n (S k) in
             (Ok (take m (fl_in s)), mkFlaky (drop m (fl_in s)) (S k - m) false)
    end;
  sock_write_all xs s := (Err 5%Z, s);
  sock_flush s := (Ok tt, s);
|}.

#[global] Program Instance flaky_laws : SocketLaws Flaky := {|
  incoming := fl_in; outgoing := fun _ => [];
|}.
Next Obligation.
  intros n [i k f]. unfold wp. cbn [sock_read flaky_socket fl_failed fl_ok fl_in].
  destruct f; [|destruct k as [|k]]; cbn [fl_in].
  - rewrite length_take, take_drop. split_and!; [lia|done..|].
    destruct n; [by left|]. destruct i; [by right|done].
  - done.
  - rewrite length_take, take_drop. split_and!; [lia|done..|].
    destruct n; [by left|]. destruct i; [by right|done].
Qed.
Next Obligation. intros xs s. split; [done|]. by exists 0. Qed.
Next Obligation. done. Qed.

(** ** The reader *)

Record RecordReader : Type := mkReader {
  rr_buf : list byte;
  decoded : nat;
  pending : nat;
}.

Definition RecordReader_new (buf : list byte) : RecordReader := mkReader buf 0 0.

Definition ensure_contiguous (len : nat) : M RecordReader TlsError unit :=
  r ← get;
  if decide (length (rr_buf r) < decoded r + len) then
    if decide (length (rr_buf r) < len) then err InsufficientSpace
    else
      kept ← unwrap (sub (rr_buf r) (decoded r) (decoded r + pending r));
      put (mkReader (splice (rr_buf r) 0 kept) 0 (pending r))
  else mret tt.

Section Reader.
Context {T : Type} `{Sock : Socket T}.

Definition io {A} (m : M T ErrorKind A) : M T TlsError A := map_err Io m.

(** [while total_read != RecordHeader::LEN { .. }] *)
Fixpoint header_loop (fuel : nat) (buf : list byte) (total_read : nat) : M T TlsError (list byte) :=
  if decide (total_read = RecordHeader_LEN) then mret buf
  else match fuel with
  | O => diverge
  | S fuel' =>
      n ← unwrap (usub (length buf) total_read);
      xs ← io (sock_read n);
      if decide (length xs = 0) then err IoError
      else header_loop fuel' (splice buf total_read xs) (total_read + length xs)
  end.

Definition next_record_header : M T TlsError RecordHeader :=
  buf ← header_loop RecordHeader_LEN (zeros RecordHeader_LEN) 0;
  RecordHeader_decode buf.

(** [while *pending < amount { .. }] *)
Fixpoint advance_loop (fuel remain amount : nat) : M (RecordReader * T) TlsError unit :=
  '(r, _) ← get;
  if decide (amount <= pending r) then mret tt
  else match fuel with
  | O => diverge
  | S fuel' =>
      if decide (decoded r + pending r + remain <= length (rr_buf r)) then
        xs ← on_snd (io (sock_read remain));
        if decide (length xs = 0) then err IoError
        else
          remain' ← unwrap (usub remain (length xs));
          on_fst (put (mkReader (splice (rr_buf r) (decoded r + pending r) xs) (decoded r)
                                (pending r + length xs)));;
          advance_loop fuel' remain' amount
      else panic
  end.

Definition advance (amount : nat) : M (RecordReader * T) TlsError unit :=
  on_fst (ensure_contiguous amount);;
  advance_loop amount amount amount.

Context `{CS : TlsCipherSuite}.

(** The state is the reader and the digest. *)
Definition consume (header : RecordHeader) : M (RecordReader * list byte) TlsError ServerRecord :=
  content_len ← content_length header;
  '(r, _) ← get;
  slice ← unwrap (sub (rr_buf r) (decoded r) (decoded r + content_len));
  pending' ← unwrap (usub (pending r) content_len);
  on_fst (put (mkReader (rr_buf r) (decoded r + content_len) pending'));;
  on_snd (ServerRecord_decode header (decoded r) slice).

(** [read(transport, key_schedule)]: the state is the reader, the transport and the
    transcript of the read key schedule. *)
Definition read : M (RecordReader * T * list byte) TlsError ServerRecord :=
  header ← on_fst (on_snd next_record_header);
  n ← content_length header;
  on_fst (advance n);;
  zoom (fun st => (fst (fst st), snd st)) (fun c st => (fst c, snd (fst st), snd c))
    (consume header).
End Reader.

(** ** What a stream of bytes holds

    The reference reading of a stream: the first record's header and payload and the
    rest of the stream, or the error for a receive buffer of [cap] bytes. *)
Definition payload_length (hdr : list byte) : nat := Z.to_nat (from_be (drop 3 hdr)).

Definition frame (cap : nat) (stream : list byte) :
    TlsError + list byte * list byte * list byte :=
  let hdr := take 5 stream in
  if decide (length stream < 5) then inl IoError
  else match hdr !! 0 ≫= ContentType_of with
  | None => inl InvalidRecord
  | Some _ =>
      let n := payload_length hdr in
      if decide (cap < n) then inl InsufficientSpace
      else if decide (length stream < 5 + n) then inl IoError
      else inr (hdr, take n (drop 5 stream), drop (5 + n) stream)
  end.

(** Where the next record of [n] bytes is stored. *)
Definition next_start (r : RecordReader) (n : nat) : nat :=
  if decide (length (rr_buf r) < decoded r + n) then 0 else decoded r.

(** Between two records: everything read has been decoded. *)
Definition reader_ready (r : RecordReader) : Prop :=
  pending r = 0 /\ decoded r <= length (rr_buf r).

Lemma splice_id {A} (l : list A) a : splice l a [] = l.
Proof. unfold splice. simpl. rewrite Nat.add_0_r. apply take_drop. Qed.

Lemma splice_splice {A} (l xs ys : list A) a :
  a + length xs + length ys <= length l ->
  splice (splice l a xs) (a + length xs) ys = splice l a (xs ++ ys).
Proof.
  intros Hl. destruct (list_split3 l a (length xs + length ys)) as (l1 & l2 & l3 & -> & <- & H2); [lia|].
  destruct (list_split3 l2 0 (length xs)) as ([|] & m1 & m2 & -> & Hm0 & Hm); [lia| |done].
  simpl in *. rewrite length_app in H2.
  assert (length m2 = length ys) as Hy by lia.
  rewrite <-!(assoc_L (++)), splice_app by done.
  rewrite <-length_app, (assoc_L (++) l1 xs), splice_app by done.
  rewrite (assoc_L (++) m1 m2 l3), splice_app by len. by rewrite <-!(assoc_L (++)).
Qed.

Section ReaderProps.
Context {T : Type} `{Sock : Socket T, !SocketLaws T}.

(** [s'] is reached from [s] by reads that succeed. *)
Definition reads_to : T -> T -> Prop := rtc (fun s s' => exists n xs, sock_read n s = (Ok xs, s')).

(** The error [e] is one that the transport itself reported: it was reached from [s]
    by successful reads, and the next read, the last thing done, failed. *)
Definition transport_failed (s : T) (e : TlsError) (s' : T) : Prop :=
  exists k n s1, e = Io k /\ reads_to s s1 /\ sock_read n s1 = (Err k, s').

Lemma reliable_no_error `{!Reliable T} s e s' : ~ transport_failed s e s'.
Proof.
  intros (k & n & s1 & _ & _ & H). pose proof (read_reliable n s1) as Hr. unfold wp in Hr.
  by rewrite H in Hr.
Qed.

Lemma transport_failed_after s s1 e s' :
  reads_to s s1 -> transport_failed s1 e s' -> transport_failed s e s'.
Proof. intros H (k & n & s2 & -> & H2 & Hk). exists k, n, s2. split_and!; [done|by etrans|done]. Qed.

Lemma io_read_wp n s :
  wp (io (sock_read n)) s
    (fun xs s' => length xs <= n /\ incoming s = xs ++ incoming s' /\ outgoing s' = outgoing s /\
                  (xs = [] -> n = 0 \/ incoming s = []) /\ reads_to s s')
    (fun e s' => transport_failed s e s' /\ incoming s' = incoming s /\ outgoing s' = outgoing s).
Proof.
  unfold io. apply wp_map_err. pose proof (sock_read_law n s) as H. unfold wp in *.
  destruct (sock_read n s) as [[xs|e| |] s'] eqn:Hr; [| |done..].
  - destruct H as (? & ? & ? & ?). split_and!; [done..|]. apply rtc_once. eauto.
  - split; [|done]. exists e, n, s. split_and!; [done|apply rtc_refl|done].
Qed.

(** The error of a loop that waits for [n] more bytes. *)
Definition short (n : nat) (s : T) (e : TlsError) (s' : T) : Prop :=
  outgoing s' = outgoing s /\ (transport_failed s e s' \/ e = IoError /\ length (incoming s) < n).

Lemma short_skip s xs s1 n e s' :
  incoming s = xs ++ incoming s1 -> outgoing s1 = outgoing s -> reads_to s s1 -> length xs <= n ->
  short (n - length xs) s1 e s' -> short n s e s'.
Proof.
  intros Hi Ho Hr Hn (Ho' & [Hf|[-> Hl]]); split;
    [congruence|left; by eapply transport_failed_after|congruence|].
  right. split; [done|]. rewrite Hi, length_app. lia.
Qed.

Lemma header_loop_wp fuel buf total s :
  length buf = 5 -> total <= 5 -> 5 - total <= fuel ->
  wp (header_loop fuel buf total) s
    (fun b s' => exists xs, length xs = 5 - total /\ incoming s = xs ++ incoming s' /\
       outgoing s' = outgoing s /\ b = take total buf ++ xs /\ reads_to s s')
    (short (5 - total) s).
Proof.
  intros Hb. revert buf total s Hb. induction fuel as [|fuel IH]; intros buf total s Hb Ht Hf;
    cbn [header_loop]; unfold RecordHeader_LEN in *.
  - rewrite decide_True by lia. apply wp_ret. exists []. simpl. rewrite app_nil_r, take_ge by lia.
    split_and!; [lia|done..|apply rtc_refl].
  - case_decide as Hd.
    { apply wp_ret. exists []. simpl. rewrite app_nil_r, take_ge by lia.
      split_and!; [lia|done..|apply rtc_refl]. }
    rewrite usub_Some by lia. apply wp_bind, wp_ret, wp_bind.
    eapply wp_mono; [apply io_read_wp| |].
    2:{ intros e s' (He & _ & Ho). split; [done|by left]. }
    intros xs s1 (Hl & Hi & Ho & He & Hrd). rewrite Hb in *. case_decide as Hx.
    { apply wp_err. split; [done|]. right. split; [done|].
      destruct He as [|He]; [by apply length_zero_iff_nil|lia|]. rewrite He. simpl. lia. }
    eapply wp_mono; [apply (IH (splice buf total xs)); [rewrite length_splice|..]; lia| |].
    + intros b s' (ys & Hys & Hi' & Ho' & -> & Hrd'). exists (xs ++ ys).
      rewrite length_app, Hi, Hi', (assoc_L (++)). split_and!; [lia|done|congruence| |by etrans].
      rewrite (assoc_L (++)). f_equal. unfold splice. rewrite (assoc_L (++)), take_app_le by len.
      by rewrite take_ge by len.
    + intros e s' Hs. eapply short_skip; [done|done|done|done|].
      by replace (5 - total - length xs) with (5 - (total + length xs)) by lia.
Qed.

Lemma advance_loop_wp fuel (r : RecordReader) (s : T) remain amount :
  remain = amount - pending r -> pending r <= amount -> remain <= fuel ->
  decoded r + amount <= length (rr_buf r) ->
  wp (advance_loop fuel remain amount) (r, s)
    (fun _ '(r', s') => exists xs, length xs = remain /\ incoming s = xs ++ incoming s' /\
       outgoing s' = outgoing s /\
       r' = mkReader (splice (rr_buf r) (decoded r + pending r) xs) (decoded r) amount)
    (fun e '(_, s') => short remain s e s').
Proof.
  revert r s remain. induction fuel as [|fuel IH]; intros r s remain Hr Hp Hf Hb; cbn [advance_loop];
    apply wp_bind, wp_get; cbv beta iota.
  - rewrite decide_True by lia. apply wp_ret. exists []. rewrite splice_id. simpl.
    split_and!; [lia|done..|]. destruct r; simpl in *. f_equal. lia.
  - case_decide as Hd.
    { apply wp_ret. exists []. rewrite splice_id. simpl.
      split_and!; [lia|done..|]. destruct r; simpl in *. f_equal. lia. }
    rewrite decide_True by lia. apply wp_bind. unfold on_snd. apply wp_zoom. simpl.
    eapply wp_mono; [apply io_read_wp| |].
    2:{ intros e s' (He & _ & Ho). split; [done|by left]. }
    intros xs s1 (Hl & Hi & Ho & He & Hrd). case_decide as Hx.
    { apply wp_err. split; [done|]. right. split; [done|].
      destruct He as [|He]; [by apply length_zero_iff_nil|lia|]. rewrite He. simpl. lia. }
    rewrite usub_Some by lia. apply wp_bind, wp_ret, wp_bind. unfold on_fst. apply wp_zoom, wp_put.
    eapply wp_mono; [apply IH|intros _ [r' s']|intros e [r' s']]; simpl; try lia.
    + rewrite length_splice by lia. lia.
    + intros (ys & Hys & Hi' & Ho' & ->). exists (xs ++ ys).
      rewrite length_app, Hi, Hi', (assoc_L (++)). split_and!; [lia|done|congruence|].
      by rewrite Nat.add_assoc, splice_splice by lia.
    + intros Hs. by eapply short_skip.
Qed.

Lemma next_record_header_wp s :
  wp next_record_header s
    (fun h s' => exists b t, rh_data h !! 0 = Some b /\ ContentType_of b = Some t /\
       length (rh_data h) = 5 /\ incoming s = rh_data h ++ incoming s' /\ outgoing s' = outgoing s /\
       reads_to s s')
    (fun e s' => outgoing s' = outgoing s /\
       (transport_failed s e s' \/ forall cap, frame cap (incoming s) = inl e)).
Proof.
  unfold next_record_header, RecordHeader_LEN. apply wp_bind.
  eapply wp_mono; [by apply header_loop_wp; [|lia..]| |].
  - intros buf s' (xs & Hl & Hi & Ho & -> & Hrd). simpl. unfold RecordHeader_decode.
    destruct xs as [|b xs]; [done|]. apply wp_bind. simpl. apply wp_ret.
    destruct (ContentType_of b) as [t|] eqn:Hb.
    + apply wp_ret. exists b, t. by split_and!.
    + apply wp_err. split; [done|]. right. intros cap. unfold frame. rewrite Hi.
      rewrite decide_False by len. simpl. by rewrite Hb.
  - intros e s' (Ho & [He|[-> Hl]]); (split; [done|]); [by left|]. right. intros cap.
    unfold frame. by rewrite decide_True by lia.
Qed.

Lemma advance_wp (r : RecordReader) (s : T) n :
  reader_ready r ->
  wp (advance n) (r, s)
    (fun _ '(r', s') => exists xs, length xs = n /\ incoming s = xs ++ incoming s' /\
       outgoing s' = outgoing s /\ n <= length (rr_buf r) /\
       r' = mkReader (splice (rr_buf r) (next_start r n) xs) (next_start r n) n)
    (fun e '(_, s') => outgoing s' = outgoing s /\
       (transport_failed s e s' \/ e = InsufficientSpace /\ length (rr_buf r) < n \/
        e = IoError /\ n <= length (rr_buf r) /\ length (incoming s) < n)).
Proof.
  intros [Hp Hd]. unfold advance. apply wp_bind. unfold on_fst. apply wp_zoom. simpl.
  unfold ensure_contiguous, next_start. apply wp_bind, wp_get.
  assert (forall r1, rr_buf r1 = rr_buf r -> pending r1 = 0 -> decoded r1 + n <= length (rr_buf r) ->
    wp (advance_loop n n n) (r1, s)
      (fun _ '(r', s') => exists xs, length xs = n /\ incoming s = xs ++ incoming s' /\
         outgoing s' = outgoing s /\ n <= length (rr_buf r) /\
         r' = mkReader (splice (rr_buf r) (decoded r1) xs) (decoded r1) n)
      (fun e '(_, s') => outgoing s' = outgoing s /\
         (transport_failed s e s' \/ e = InsufficientSpace /\ length (rr_buf r) < n \/
          e = IoError /\ n <= length (rr_buf r) /\ length (incoming s) < n))) as Hgo.
  { intros r1 Hb Hp1 Hd1. eapply wp_mono; [apply advance_loop_wp; rewrite ?Hb; lia| |].
    - intros _ [r' s'] (xs & ? & ? & ? & ->). exists xs.
      rewrite Hb, Hp1, Nat.add_0_r. split_and!; [done..|lia|done].
    - intros e [r' s'] (Ho & [He|[-> Hl]]); (split; [done|]); [by left|]. right. right.
      split_and!; [done|lia|done]. }
  case_decide.
  - case_decide.
    + apply wp_err. split; [done|]. right. by left.
    + rewrite Hp, Nat.add_0_r, sub_Some by lia. apply wp_bind, wp_ret, wp_put.
      rewrite Nat.sub_diag, take_0, splice_id. apply Hgo; simpl; [done|done|lia].
  - apply wp_ret. apply Hgo; [done|done|lia].
Qed.
End ReaderProps.

Lemma content_length_spec {S E} h (s : S) :
  length (rh_data h) = 5 ->
  content_length (E := E) h s = (Ok (payload_length (rh_data h)), s).
Proof. by destruct h as [[|h0 [|h1 [|h2 [|h3 [|h4 [|]]]]]]]. Qed.

Section Decode.
Context `{CS : TlsCipherSuite}.

Lemma decode_wp h b t start data digest :
  rh_data h !! 0 = Some b -> ContentType_of b = Some t -> length (rh_data h) = 5 ->
  length data = payload_length (rh_data h) ->
  wp (ServerRecord_decode h start data) digest (fun _ _ => True) (fun _ _ => True).
Proof.
  intros Hb Ht Hh Hl. unfold ServerRecord_decode, RecordHeader_content_type.
  eapply wp_bind_Ok; [by apply content_length_spec|]. rewrite decide_False by lia.
  eapply wp_bind_Ok; [by rewrite Hb, bind_unwrap_Some, Ht|]. destruct t; cbv beta iota.
  - done.
  - apply wp_bind, wp_ret. done.
  - apply wp_bind, wp_run_on. eapply wp_mono; [apply Alert_sound, pb_new_wf|done|done].
  - apply wp_bind, wp_zoom. eapply wp_mono; [apply read_spec, pb_new_wf|done|done].
  - done.
Qed.
End Decode.

(** The state after the record [payload] was stored. *)
Definition stored (r : RecordReader) (payload : list byte) : RecordReader :=
  let start := next_start r (length payload) in
  mkReader (splice (rr_buf r) start payload) (start + length payload) 0.

Lemma stored_ready r payload :
  reader_ready r -> length payload <= length (rr_buf r) ->
  reader_ready (stored r payload) /\ length (rr_buf (stored r payload)) = length (rr_buf r).
Proof.
  intros [Hp Hd] Hl. unfold reader_ready, stored, next_start. simpl.
  case_decide; rewrite length_splice by lia; split_and!; (done || lia).
Qed.

Lemma frame_inr cap hdr payload rest b t :
  length hdr = 5 -> hdr !! 0 = Some b -> ContentType_of b = Some t ->
  length payload = payload_length hdr -> payload_length hdr <= cap ->
  frame cap (hdr ++ payload ++ rest) = inr (hdr, payload, rest).
Proof.
  intros Hh Hb Ht Hp Hc. unfold frame. rewrite decide_False by len.
  rewrite <-Hh, take_app_length, Hb. simpl. rewrite Ht, decide_False by lia.
  rewrite <-Hp, decide_False by len.
  by rewrite drop_app_length, take_app_length, <-drop_drop, !drop_app_length.
Qed.

Lemma read_wp `{Sock : Socket T, !SocketLaws T, CS : TlsCipherSuite} r (s : T) digest :
  reader_ready r ->
  let framed := frame (length (rr_buf r)) (incoming s) in
  wp read (r, s, digest)
    (fun rec '(r', s', d') => outgoing s' = outgoing s /\ exists hdr payload,
       framed = inr (hdr, payload, incoming s') /\
       ServerRecord_decode (mkRecordHeader hdr) (next_start r (length payload)) payload digest
         = (Ok rec, d') /\
       r' = stored r payload /\ reader_ready r')
    (fun e '(r', s', d') => outgoing s' = outgoing s /\
       (transport_failed s e s' \/ framed = inl e \/ exists hdr payload,
          framed = inr (hdr, payload, incoming s') /\
          ServerRecord_decode (mkRecordHeader hdr) (next_start r (length payload)) payload digest
            = (Err e, d') /\
          r' = stored r payload /\ reader_ready r')).
Proof.
  intros Hr framed. unfold read. apply wp_bind. unfold on_fst at 1, on_snd at 1.
  apply wp_zoom, wp_zoom. simpl. eapply wp_mono; [apply next_record_header_wp| |].
  2:{ intros e s' (Ho & He). split; [done|]. destruct He as [|He]; [by left|]. right. left. apply He. }
  intros [hdr] s1 (b & t & Hb & Ht & Hh & Hi & Ho1 & Hrd). simpl in *.
  eapply wp_bind_Ok; [by apply content_length_spec|]. apply wp_bind. unfold on_fst. apply wp_zoom.
  simpl. eapply wp_mono; [by apply advance_wp| |].
  2:{ intros e [r' s'] (Ho & He). split; [congruence|].
      destruct He as [He|He]; [left; by eapply transport_failed_after|]. right. left. unfold framed, frame. rewrite Hi, decide_False by len.
      rewrite <-Hh, take_app_length, Hb. simpl. rewrite Ht.
      destruct He as [[-> ?]|(-> & ? & ?)]; [by rewrite decide_True by lia|].
      rewrite decide_False by lia. by rewrite decide_True by len. }
  intros _ [r1 s2] (xs & Hx & Hi2 & Ho2 & Hle & ->). simpl. apply wp_zoom. simpl.
  assert (framed = inr (hdr, xs, incoming s2)) as Hf.
  { unfold framed. rewrite Hi, Hi2. by eapply frame_inr. }
  unfold consume. eapply wp_bind_Ok; [by apply content_length_spec|]. simpl.
  apply wp_bind, wp_get. cbn [rr_buf decoded pending].
  assert (next_start r (length xs) + length xs <= length (rr_buf r)) as Hfit.
  { unfold next_start. case_decide; lia. }
  rewrite <-Hx, sub_Some by (rewrite length_splice; lia).
  apply wp_bind, wp_ret. rewrite usub_Some, Nat.sub_diag by lia. apply wp_bind, wp_ret.
  apply wp_bind. unfold on_fst, on_snd. apply wp_zoom, wp_put, wp_zoom. simpl.
  replace (take _ (drop (next_start r (length xs)) _)) with xs.
  2:{ destruct (list_split3 (rr_buf r) (next_start r (length xs)) (length xs)) as
        (l1 & l2 & l3 & -> & H1 & H2); [done|].
      rewrite <-H1, splice_app, drop_app_length by done.
      by rewrite Nat.add_comm, Nat.add_sub, take_app_length. }
  pose proof (decode_wp (mkRecordHeader hdr) b t (next_start r (length xs)) xs digest Hb Ht Hh Hx) as Hd.
  unfold wp in Hd |- *. pose proof (stored_ready r xs Hr ltac:(lia)) as [Hst _].
  destruct (ServerRecord_decode _ _ xs digest) as [[rec|e| |] d'] eqn:Hdec; [| |done..].
  - split; [congruence|]. exists hdr, xs. by split_and!.
  - split; [congruence|]. right. right. exists hdr, xs. by split_and!.
Qed.

(** On a transport without errors, the reading of a complete record is an equation. *)
Lemma read_framed `{Sock : Socket T, !SocketLaws T, !Reliable T, CS : TlsCipherSuite}
    r (s : T) digest hdr payload rest res d' :
  reader_ready r -> frame (length (rr_buf r)) (incoming s) = inr (hdr, payload, rest) ->
  ServerRecord_decode (mkRecordHeader hdr) (next_start r (length payload)) payload digest = (res, d') ->
  exists s', read (r, s, digest) = (res, (stored r payload, s', d')) /\
    incoming s' = rest /\ outgoing s' = outgoing s.
Proof.
  intros Hr Hf Hd. pose proof (read_wp r s digest Hr) as H. cbv zeta in H. rewrite Hf in H.
  unfold wp in H. destruct (read (r, s, digest)) as [[rec|e| |] [[r' s'] d'']]; [| |done..].
  - destruct H as (Ho & h & p & [= -> -> ->] & Hd' & -> & _). exists s'. rewrite Hd in Hd'.
    by simplify_eq.
  - destruct H as (Ho & [He|[[=]|(h & p & [= -> -> ->] & Hd' & -> & _)]]).
    + by apply reliable_no_error in He.
    + exists s'. rewrite Hd in Hd'. by simplify_eq.
Qed.

(** ** Properties *)

(** C20: reading a record is exact and independent of how the transport cuts the
    stream.  For every transport that meets its contract and every reader between two
    records, [read] returns a record or an error, writes nothing, and one of two things
    happened.  Either a read of the transport failed, and that error, the last thing
    done, is the result.  Or the result is determined by the unread stream alone,
    whatever the sizes of the single reads: the error of the reference reading [frame]
    (end of stream, unknown content type, record larger than the buffer), or, when
    [frame] finds a record, what decoding its payload gives, record or error; then the
    transport is at the byte after the record, the payload lies in the receive buffer
    where the decoded record points, and the reader is ready for the next record. *)
Theorem reader_exact `{Sock : Socket T, !SocketLaws T, CS : TlsCipherSuite} r (s : T) digest :
  reader_ready r ->
  exists res r' s' d', read (r, s, digest) = (res, (r', s', d')) /\
    res <> Panic /\ res <> Diverge /\ outgoing s' = outgoing s /\
    ((exists e, res = Err e /\ transport_failed s e s') \/
     match frame (length (rr_buf r)) (incoming s) with
     | inl e => res = Err e
     | inr (hdr, payload, rest) =>
         ServerRecord_decode (mkRecordHeader hdr) (next_start r (length payload)) payload digest
           = (res, d') /\
         incoming s' = rest /\ r' = stored r payload /\ reader_ready r'
     end).
Proof.
  intros Hr. pose proof (read_wp r s digest Hr) as H. cbv zeta in H. unfold wp in H.
  destruct (read (r, s, digest)) as [res [[r' s'] d']]. exists res, r', s', d'.
  split; [done|]. destruct res as [rec|e| |]; [| |done..]; destruct H as [Ho H].
  - destruct H as (hdr & payload & -> & Hd & -> & Hr'). split_and!; [done..|]. by right.
  - split_and!; [done..|]. destruct H as [Ht|[->|(hdr & payload & -> & Hd & -> & Hr')]]; eauto.
Qed.

(** An application record and an alert record, delivered byte by byte. *)
Definition demo_stream : list byte :=
  [x17; x03; x03; x00; x02; xaa; xbb; x15; x03; x03; x00; x02; x01; x00].

Lemma reader_exact_witness :
  exists r' s' d', read (CS := Toy.suite) (RecordReader_new (zeros 4), mkChunked demo_stream [] 0, [])
    = (Ok (SR_ApplicationData (mkAppData (mkRecordHeader [x17; x03; x03; x00; x02]) 0 2 2)), (r', s', d')) /\
    rr_buf r' = [xaa; xbb; x00; x00] /\ ch_in s' = [x15; x03; x03; x00; x02; x01; x00].
Proof.
  destruct (reader_exact (CS := Toy.suite) (RecordReader_new (zeros 4)) (mkChunked demo_stream [] 0) [])
    as (res & r' & s' & d' & Hread & _ & _ & _ & [(e & _ & He)|H]).
  - split; simpl; lia.
  - exfalso. exact (reliable_no_error _ _ _ He).
  - change (frame _ _) with (frame 4 demo_stream) in H.
    assert (frame 4 demo_stream = inr ([x17; x03; x03; x00; x02], [xaa; xbb], drop 7 demo_stream)) as Hf
      by reflexivity.
    rewrite Hf in H. destruct H as (Hd & Hs & -> & _). injection Hd as <- <-.
    exists (stored (RecordReader_new (zeros 4)) [xaa; xbb]), s', [].
    split; [exact Hread|]. split; [reflexivity|exact Hs].
Defined.

(** Reading again after a transport error can panic.  A read that fails in the
    middle of a record keeps the bytes of the payload as pending but forgets the
    header; when the bytes that follow look like a header, the next read asks for the
    whole record behind the pending bytes and indexes past the end of the receive
    buffer. *)
Theorem reader_retry_panics `{CS : TlsCipherSuite} :
  let stream := [x17; x03; x03; x00; x04; xaa; xbb; xcc; x17; x03; x03; x00; x04] in
  exists st, read (RecordReader_new (zeros 4), mkFlaky stream 8 false, []) = (Err (Io 5%Z), st) /\
    pending (fst (fst st)) = 3 /\ exists st', read st = (Panic, st').
Proof. eexists. split; [reflexivity|]. split; [done|]. eexists. reflexivity. Qed.
