(* ===== verification/ReadBuffer.v ===== *)
(** Handing decrypted bytes to the user (read_buffer.rs,
    common/decrypted_buffer_info.rs, common/decrypted_read_handler.rs).

    A [ReadBuffer] is a cursor over decrypted bytes of the receive buffer; dropping it
    adds what it consumed to the [DecryptedBufferInfo] it was created from. *)

From S2P Require Import Prelude Errors CryptoBuffer ParseBuffer Wire ExtensionData Extensions.
From S2P Require Import CryptoSuite KeySchedule KeyScheduleProps ClientHello Handshake Server.
From S2P Require Import Record RecordReader.
From Stdlib Require Import ZArith Lia.
From Stdlib Require Import Strings.Byte.
From stdpp Require Import base list option numbers tactics sets.

(** ** DecryptedBufferInfo and ReadBuffer *)

Record DecryptedBufferInfo : Type := mkInfo {
  dbi_offset : nat;
  dbi_len : nat;
  dbi_consumed : nat;
}.

Definition DecryptedBufferInfo_default : DecryptedBufferInfo := mkInfo 0 0 0.

(** [None] when [self.len - self.consumed] underflows. *)
Definition info_len (i : DecryptedBufferInfo) : option nat := usub (dbi_len i) (dbi_consumed i).
Definition info_is_empty {S E} (i : DecryptedBufferInfo) : M S E bool :=
  n ← unwrap (info_len i); mret (bool_decide (n = 0)).

Record ReadBuffer : Type := mkRB {
  rb_data : list byte;
  rb_consumed : nat;
  rb_used : bool;
}.

Definition ReadBuffer_new (buffer : list byte) : ReadBuffer := mkRB buffer 0 false.

Definition create_read_buffer (i : DecryptedBufferInfo) (buffer : list byte) : option ReadBuffer :=
  data ← sub buffer (dbi_offset i + dbi_consumed i) (dbi_offset i + dbi_len i);
  Some (ReadBuffer_new data).

Definition rb_len {E} : M ReadBuffer E nat :=
  b ← get; unwrap (usub (length (rb_data b)) (rb_consumed b)).

Definition peek {E} (count : nat) : M ReadBuffer E (list byte) :=
  len ← rb_len;
  let count := min len count in
  b ← get;
  put (mkRB (rb_data b) (rb_consumed b) true);;
  unwrap (sub (rb_data b) (rb_consumed b) (rb_consumed b + count)).

Definition peek_all {E} : M ReadBuffer E (list byte) := len ← rb_len; peek len.

Definition pop {E} (count : nat) : M ReadBuffer E (list byte) :=
  len ← rb_len;
  let count := min len count in
  b ← get;
  put (mkRB (rb_data b) (rb_consumed b + count) true);;
  unwrap (sub (rb_data b) (rb_consumed b) (rb_consumed b + count)).

Definition pop_all {E} : M ReadBuffer E (list byte) := len ← rb_len; pop len.

(** [pop_into(buf)]: the user's buffer with the bytes copied to its front, and their
    number. *)
Definition pop_into {E} (buf : list byte) : M ReadBuffer E (list byte * nat) :=
  to_copy ← pop (length buf);
  if decide (length to_copy <= length buf)
  then mret (splice buf 0 to_copy, length to_copy)
  else panic.

(** [Drop]: the buffer's effect on [decrypted_consumed]. *)
Definition drop_buffer (b : ReadBuffer) (i : DecryptedBufferInfo) : DecryptedBufferInfo :=
  mkInfo (dbi_offset i) (dbi_len i)
    (dbi_consumed i + (if rb_used b then rb_consumed b else length (rb_data b))).

(** [revert]: [core::mem::forget(self)], so that [Drop] does not run. *)
Definition revert (b : ReadBuffer) (i : DecryptedBufferInfo) : DecryptedBufferInfo := i.

(** ** DecryptedReadHandler *)

Section Handler.
Context `{CS : TlsCipherSuite}.

(** The state is the buffer information and the [is_open] flag; [source_len] is the
    size of the receive buffer.  The pointer arithmetic of the source is on offsets
    into it: the debug assertion requires both ends of the slice strictly inside. *)
Definition handle (source_len : nat) (record : ServerRecord) :
    M (DecryptedBufferInfo * bool) TlsError unit :=
  match record with
  | SR_ApplicationData data =>
      if decide (ad_start data < source_len /\ ad_start data + ad_len data < source_len)
      then on_fst (put (mkInfo (ad_start data) (ad_len data) 0))
      else panic
  | SR_Alert alert =>
      match alert_description alert with
      | CloseNotify => on_snd (put false);; err ConnectionClosed
      | _ => err InternalError
      end
  | SR_ChangeCipherSpec => err InternalError
  | SR_Handshake SHS_NewSessionTicket => mret tt
  | SR_Handshake _ => panic
  end.
End Handler.

(** ** Invariant and lemmas *)

(** The decrypted region lies in the receive buffer. *)
Definition info_wf (cap : nat) (i : DecryptedBufferInfo) : Prop :=
  dbi_consumed i <= dbi_len i /\ dbi_offset i + dbi_len i <= cap.

(** The decrypted bytes the user has not consumed. *)
Definition available (i : DecryptedBufferInfo) (buf : list byte) : list byte :=
  take (dbi_len i - dbi_consumed i) (drop (dbi_offset i + dbi_consumed i) buf).

Lemma length_available i buf :
  info_wf (length buf) i -> length (available i buf) = dbi_len i - dbi_consumed i.
Proof. intros [Hc Hl]. unfold available. rewrite length_take, length_drop. lia. Qed.

Lemma create_read_buffer_spec i buf :
  info_wf (length buf) i -> create_read_buffer i buf = Some (mkRB (available i buf) 0 false).
Proof.
  intros [Hc Hl]. unfold create_read_buffer. rewrite sub_Some by lia. simpl. unfold available.
  unfold ReadBuffer_new. do 3 f_equal. lia.
Qed.

(** What is left of a [ReadBuffer]. *)
Definition rb_rest (b : ReadBuffer) : list byte := drop (rb_consumed b) (rb_data b).
Definition rb_wf (b : ReadBuffer) : Prop := rb_consumed b <= length (rb_data b).

Lemma rb_len_spec {E} b : rb_wf b -> rb_len (E := E) b = (Ok (length (rb_rest b)), b).
Proof.
  intros Hb. unfold rb_len, rb_rest. rewrite bind_get, usub_Some by done. by rewrite length_drop.
Qed.

Lemma sub_rest b n :
  rb_wf b -> sub (rb_data b) (rb_consumed b) (rb_consumed b + min (length (rb_rest b)) n)
             = Some (take n (rb_rest b)).
Proof.
  intros Hb. unfold rb_rest, rb_wf in *. rewrite length_drop, sub_Some by lia. f_equal.
  replace (_ + _ - _) with (min n (length (drop (rb_consumed b) (rb_data b)))) by (rewrite length_drop; lia).
  by rewrite <-take_take, firstn_all.
Qed.

Lemma peek_spec {E} n b :
  rb_wf b -> peek (E := E) n b = (Ok (take n (rb_rest b)), mkRB (rb_data b) (rb_consumed b) true).
Proof.
  intros Hb. unfold peek. rewrite (bind_Ok _ _ _ _ _ (rb_len_spec b Hb)), bind_get, bind_put.
  by rewrite sub_rest.
Qed.

Lemma pop_spec {E} n b :
  rb_wf b -> pop (E := E) n b = (Ok (take n (rb_rest b)),
    mkRB (rb_data b) (rb_consumed b + length (take n (rb_rest b))) true).
Proof.
  intros Hb. unfold pop. rewrite (bind_Ok _ _ _ _ _ (rb_len_spec b Hb)), bind_get, bind_put.
  rewrite sub_rest by done. do 3 f_equal. rewrite length_take. lia.
Qed.

Lemma pop_into_spec {E} out b :
  rb_wf b -> pop_into (E := E) out b =
    let xs := take (length out) (rb_rest b) in
    (Ok (splice out 0 xs, length xs), mkRB (rb_data b) (rb_consumed b + length xs) true).
Proof.
  intros Hb. unfold pop_into. rewrite (bind_Ok _ _ _ _ _ (pop_spec _ b Hb)).
  by rewrite decide_True by len.
Qed.
