(* ===== verification/Connection.v ===== *)
(** The client's handshake (connection.rs): decrypting a record and dispatching its
    messages, the [State] machine, and the handlers of its states.

    Certificates, signatures, random numbers and P-256 come from the user's
    [CryptoProvider] and from crates: they are parameters ([CryptoProvider] below).
    [process] is the blocking function; AsyncHandshake has the asynchronous one. *)

From S2P Require Import Prelude Errors CryptoBuffer ParseBuffer Wire ExtensionData Extensions.
From S2P Require Import CryptoSuite KeySchedule KeyScheduleProps ClientHello Handshake Server.
From S2P Require Import ServerRecords Record WriteBuffer RecordReader.
From Stdlib Require Import ZArith Lia.
From Stdlib Require Import Strings.Byte.
From Stdlib Require Strings.String.
From stdpp Require Import base list option numbers tactics sets.

Import Stdlib.Strings.String.StringSyntax.

(** ** decrypt_record *)

Section Decrypt.
Context `{CS : TlsCipherSuite} {X : Type}.

(** The state is the read half of the key schedule, the receive buffer, and what the
    callback [cb] works on. *)
Abbreviation DM := (M (ReadKeySchedule * list byte * X) TlsError).
Context (cb : ServerRecord -> M (ReadKeySchedule * X) TlsError unit).

Definition callback (r : ServerRecord) : DM unit :=
  zoom (fun st => (fst (fst st), snd st)) (fun p st => (fst p, snd (fst st), snd p)) (cb r).

(** Remove the padding and the content type from the decrypted record; returns the
    type and the length of the content. *)
Definition strip_content_type : M CryptoBuffer TlsError (ContentType * nat) :=
  s ← as_slice;
  match rposition nonzero s with
  | Some index => truncate (index + 1)
  | None => mret tt
  end;;
  s ← as_slice;
  b ← unwrap (last s);
  content_type ← ok_or (ContentType_of b) InvalidRecord;
  c ← get;
  n ← unwrap (usub (cb_len c) 1);
  truncate n;;
  c ← get;
  mret (content_type, cb_len c).

(** [while buf.remaining() > 0 { .. }]; every message takes at least four bytes, so
    the number of bytes is enough fuel. *)
Fixpoint messages_loop (fuel : nat) (buf : ParseBuffer) : DM unit :=
  if decide (length (pb_buffer buf) <= pb_pos buf) then mret tt
  else match fuel with
  | O => diverge
  | S fuel' =>
      '(inner, buf') ←
        zoom (fun st => (buf, r_transcript (fst (fst st))))
             (fun p st => (mkRead (r_state (fst (fst st))) (snd p), snd (fst st), snd st))
             (inner ← ServerHandshake_read; '(buf', _) ← get; mret (inner, buf'));
      callback (SR_Handshake inner);;
      messages_loop fuel' buf'
  end.

Definition kss_read_increment : M ReadKeySchedule TlsError unit :=
  zoom r_state (fun st rks => mkRead st (r_transcript rks)) kss_increment_counter.

Definition decrypt_record (record : ServerRecord) : DM unit :=
  match record with
  | SR_ApplicationData app =>
      '(rks, _, _) ← get;
      nonce ← kss_get_nonce (r_state rks);
      '(content_type, len) ← on_fst (on_snd
        (with_region (ad_start app) (ad_start app + ad_size app) (ad_len app)
           (map_err (fun _ => CryptoError)
              (decrypt_in_place (key (r_state rks)) nonce (rh_data (ad_header app)));;
            strip_content_type)));
      '(_, rx, _) ← get;
      content ← unwrap (sub rx (ad_start app) (ad_start app + len));
      match content_type with
      | CT_Handshake => messages_loop (length content) (pb_new content)
      | CT_ApplicationData =>
          callback (SR_ApplicationData (mkAppData (ad_header app) (ad_start app) (ad_size app) len))
      | CT_Alert => alert ← run_on (pb_new content) Alert_parse; callback (SR_Alert alert)
      | _ => err UnimplementedError
      end;;
      on_fst (on_fst kss_read_increment)
  | _ => callback record
  end.
End Decrypt.

(** ** The user's provider *)

(** [Esk] is an ephemeral P-256 secret, [ecdh] the shared secret with a point in SEC1
    encoding ([None] when it is not one), [draw] the random bytes, the secret and its
    public point of a new ClientHello.  [has_verifier] says whether [verifier()] is
    [Ok]; the operations on the verifier and the signer may change the provider. *)
Class CryptoProvider (P : Type) : Type := {
  Esk : Type;
  ecdh : Esk -> list byte -> option (list byte);
  draw : M P TlsError (list byte * Esk * list byte);
  has_verifier : P -> bool;
  set_hostname_verification : list byte -> M P TlsError unit;
  verify_certificate : list byte -> CertificateRef -> M P TlsError unit;
  verify_signature : CertificateVerifyRef -> M P TlsError unit;
  signer : M P TlsError SignatureScheme;
  sign : list byte -> M P TlsError (list byte);
  SIGNATURE_SIZE : nat;
  client_certificate : P -> option CertificateEntryRef;
}.

Inductive State : Type :=
| St_ClientHello
| St_ServerHello
| St_ServerVerify
| St_ClientCert
| St_ClientCertVerify
| St_ClientFinished
| St_ApplicationData.

#[global] Instance State_eq_dec : EqDecision State.
Proof. solve_decision. Defined.

Section Client.
Context `{CS : TlsCipherSuite} {T P : Type} `{Sock : Socket T, CP : CryptoProvider P}.

Record Handshake : Type := mkHandshake {
  traffic_hash : option (list byte);
  hs_secret : option Esk;
  certificate_request : option (list byte);
}.

Definition Handshake_new : Handshake := mkHandshake None None None.

(** What [process] works on. *)
Record Client : Type := mkClient {
  cl_transport : T;
  cl_handshake : Handshake;
  cl_reader : RecordReader;
  cl_tx : WriteBuffer;
  cl_ks : KeySchedule;
  cl_provider : P;
}.

Abbreviation CM := (M Client TlsError).

Definition on_transport {A} (m : M T TlsError A) : CM A :=
  zoom cl_transport (fun t c => mkClient t (cl_handshake c) (cl_reader c) (cl_tx c) (cl_ks c)
                                  (cl_provider c)) m.
Definition on_handshake {A} (m : M Handshake TlsError A) : CM A :=
  zoom cl_handshake (fun h c => mkClient (cl_transport c) h (cl_reader c) (cl_tx c) (cl_ks c)
                                  (cl_provider c)) m.
Definition on_ks {A} (m : KM A) : CM A :=
  zoom cl_ks (fun k c => mkClient (cl_transport c) (cl_handshake c) (cl_reader c) (cl_tx c) k
                           (cl_provider c)) m.
Definition on_provider {A} (m : M P TlsError A) : CM A :=
  zoom cl_provider (fun p c => mkClient (cl_transport c) (cl_handshake c) (cl_reader c) (cl_tx c)
                                 (cl_ks c) p) m.

(** [record_reader.read(transport, key_schedule.read_state())] *)
Definition read_record : CM ServerRecord :=
  zoom (fun c => (cl_reader c, cl_transport c, transcript_hash (cl_ks c)))
       (fun '(r, t, d) c => mkClient t (cl_handshake c) r (cl_tx c)
          (mkKS (shared (cl_ks c)) (client_state (cl_ks c)) (mkRead (r_state (server_state (cl_ks c))) d))
          (cl_provider c))
       read.

(** [tx_buf.write_record(record, write_key_schedule, Some(read_key_schedule))] *)
Definition write_tx (record : ClientRecord) : CM (list byte) :=
  c ← get;
  zoom (fun c => (cl_tx c, Some (server_state (cl_ks c))))
       (fun '(w, rks) c => mkClient (cl_transport c) (cl_handshake c) (cl_reader c) w
          (mkKS (shared (cl_ks c)) (client_state (cl_ks c)) (default (server_state (cl_ks c)) rks))
          (cl_provider c))
       (write_record record (client_state (cl_ks c))).

Definition respond (tx : list byte) : CM unit :=
  on_transport (io (sock_write_all tx));;
  on_ks write_increment_counter;;
  on_transport (io sock_flush).

(** [handle_processing_error(result, ..)] *)
Definition handle_processing_error (m : CM State) : CM State :=
  result ← try_ m;
  match result with
  | inl st => mret st
  | inr (AbortHandshake level description as e) =>
      tx ← write_tx (CR_Alert (mkAlert level description) false);
      respond tx;;
      err e
  | inr e => err e
  end.

(** ** The handlers *)

Definition client_hello (config : TlsConfig) : CM (State * list byte) :=
  on_ks (initialize_early_secret (fst <$> psk config));;
  '(random, secret, public) ← on_provider draw;
  slice ← write_tx (CR_Handshake (CHS_ClientHello (mkClientHello config random public)) false);
  on_handshake (modify (fun h => mkHandshake (traffic_hash h) (Some secret) (certificate_request h)));;
  mret (St_ServerHello, slice).

(** [server_hello.calculate_shared_secret(&secret)] *)
Definition calculate_shared_secret (h : ServerHello) (secret : Esk) : option (list byte) :=
  share ← sh_key_share h;
  ecdh secret (ks_opaque share).

(** crypto_engine.rs, and the method that makes an engine; no caller. *)
Inductive CryptoEngine : Type := mkCryptoEngine.
Definition CryptoEngine_new (_group : NamedGroup) (_shared : list byte) : CryptoEngine := mkCryptoEngine.
Definition CryptoEngine_decrypt (self : CryptoEngine) (_ : ApplicationData) : unit := tt.

Definition initialize_crypto_engine (h : ServerHello) (secret : Esk) : option CryptoEngine :=
  server_key_share ← sh_key_share h;
  let group := ks_group server_key_share in
  shared ← ecdh secret (ks_opaque server_key_share);
  Some (CryptoEngine_new group shared).

Definition process_server_hello (record : ServerRecord) : CM State :=
  match record with
  | SR_Handshake (SHS_ServerHello server_hello) =>
      c ← get;
      on_handshake (modify (fun h => mkHandshake (traffic_hash h) None (certificate_request h)));;
      secret ← ok_or (hs_secret (cl_handshake c)) InvalidHandshake;
      shared ← ok_or (calculate_shared_secret server_hello secret) InvalidKeyShare;
      on_ks (initialize_handshake_secret shared);;
      mret St_ServerVerify
  | SR_Handshake _ => err InvalidHandshake
  | SR_Alert alert => err (HandshakeAborted (alert_level alert) (alert_description alert))
  | _ => err InvalidRecord
  end.

(** The callback of [process_server_verify]; the state is the read half of the key
    schedule, the handshake, the provider and the local variable [state]. *)
Definition verify_callback (record : ServerRecord) :
    M (ReadKeySchedule * (Handshake * P * State)) TlsError unit :=
  match record with
  | SR_Handshake SHS_EncryptedExtensions => mret tt
  | SR_Handshake (SHS_Certificate certificate) =>
      '(rks, (_, p, _)) ← get;
      if has_verifier p
      then on_snd (on_fst (on_snd (verify_certificate (r_transcript rks) certificate)))
      else mret tt
  | SR_Handshake (SHS_CertificateVerify verify) =>
      '(_, (_, p, _)) ← get;
      if has_verifier p then on_snd (on_fst (on_snd (verify_signature verify))) else mret tt
  | SR_Handshake (SHS_CertificateRequest request) =>
      ctx ← CertificateRequest_try_from request;
      on_snd (on_fst (on_fst (modify (fun h => mkHandshake (traffic_hash h) (hs_secret h) (Some ctx)))))
  | SR_Handshake (SHS_Finished finished) =>
      '(rks, (h, p, _)) ← get;
      ok ← verify_server_finished rks finished;
      if negb ok then err InvalidSignature
      else if decide (is_Some (certificate_request h))
      then put (rks, (h, p, St_ClientCert))
      else put (rks, (mkHandshake (Some (r_transcript rks)) (hs_secret h) (certificate_request h), p,
                      St_ClientFinished))
  | SR_Handshake _ => err InvalidHandshake
  | SR_ChangeCipherSpec => mret tt
  | _ => err InvalidRecord
  end.

Definition process_server_verify (record : ServerRecord) : CM State :=
  zoom (fun c => (server_state (cl_ks c), rr_buf (cl_reader c),
                  (cl_handshake c, cl_provider c, St_ServerVerify)))
       (fun '(rks, rx, (h, p, _)) c =>
          mkClient (cl_transport c) h (mkReader rx (decoded (cl_reader c)) (pending (cl_reader c)))
            (cl_tx c) (mkKS (shared (cl_ks c)) (client_state (cl_ks c)) rks) p)
       (decrypt_record verify_callback record;; '(_, (_, _, st)) ← get; mret st).

Definition client_cert : CM (State * list byte) :=
  c ← get;
  on_handshake (modify (fun h => mkHandshake (Some (transcript_hash (cl_ks c))) (hs_secret h)
                                   (certificate_request h)));;
  request_context ← ok_or (certificate_request (cl_handshake c)) InvalidHandshake;
  '(certificate, next_state) ←
    match client_certificate (cl_provider c) with
    | Some cert =>
        certificate ← run_on (CertificateRef_with_context request_context)
                        (CertificateRef_add cert;; get);
        mret (certificate, St_ClientCertVerify)
    | None => mret (CertificateRef_with_context request_context, St_ClientFinished)
    end;
  slice ← write_tx (CR_Handshake (ClientCert certificate) true);
  mret (next_state, slice).

(** The message that is signed: a vector of capacity 146. *)
Definition signed_message (hash : list byte) {S} : M S TlsError (list byte) :=
  m1 ← ok_or (vec_extend 146 [] (replicate 64 x20)) EncodeError;
  m2 ← ok_or (vec_extend 146 m1 (b_ "TLS 1.3, client CertificateVerify" ++ [x00])) EncodeError;
  ok_or (vec_extend 146 m2 hash) EncodeError.

(** Returns the state or the error to report once the record is sent. *)
Definition client_cert_verify : CM ((State + TlsError) * list byte) :=
  s ← try_ (on_provider signer);
  '(result, record) ←
    match s with
    | inl scheme =>
        c ← get;
        msg ← signed_message (digest_out (transcript_hash (cl_ks c)));
        signature ← on_provider (sign msg);
        sig ← unwrap (vec_extend SIGNATURE_SIZE [] signature);
        mret (inl St_ClientFinished, CR_Handshake (ClientCertVerify (mkCertVerify scheme sig)) true)
    | inr e => mret (inr e, CR_Alert (mkAlert Warning CloseNotify) true)
    end;
  slice ← write_tx record;
  mret (result, slice).

Definition client_finished : CM (list byte) :=
  c ← get;
  f ← map_err (fun _ => InvalidHandshake) (create_client_finished (cl_ks c));
  write_tx (CR_Handshake (CHS_Finished f) true).

Definition client_finished_finalize : CM State :=
  c ← get;
  on_handshake (modify (fun h => mkHandshake None (hs_secret h) (certificate_request h)));;
  hash ← ok_or (traffic_hash (cl_handshake c)) InvalidHandshake;
  on_ks (replace_transcript_hash hash);;
  on_ks initialize_master_secret;;
  mret St_ApplicationData.

(** ** The state machine *)

Definition process (config : TlsConfig) (self : State) : CM State :=
  match self with
  | St_ClientHello =>
      '(state, tx) ← client_hello config;
      respond tx;;
      mret state
  | St_ServerHello =>
      record ← read_record;
      handle_processing_error (process_server_hello record)
  | St_ServerVerify =>
      record ← read_record;
      handle_processing_error (process_server_verify record)
  | St_ClientCert =>
      '(state, tx) ← client_cert;
      respond tx;;
      mret state
  | St_ClientCertVerify =>
      '(result, tx) ← client_cert_verify;
      respond tx;;
      match result with inl state => mret state | inr e => err e end
  | St_ClientFinished =>
      tx ← client_finished;
      respond tx;;
      client_finished_finalize
  | St_ApplicationData => mret St_ApplicationData
  end.
End Client.
