(* ===== verification/ClientRecords.v ===== *)
(** What the client makes of an encrypted record: decryption in the receive buffer,
    removal of padding and content type, and the dispatch of the messages inside
    ([decrypt_record] of connection.rs).  The lemmas reduce [decrypt_record] to the
    reference functions [open_record] and [inner_view]; the property at the end says on
    which records it returns. *)

From S2P Require Import Prelude Errors CryptoBuffer ParseBuffer Wire ExtensionData Extensions.
From S2P Require Import CryptoSuite KeySchedule KeyScheduleProps ClientHello Handshake Server.
From S2P Require Import ServerRecords Record WriteBuffer RecordReader ReadBuffer Connection.
From Stdlib Require Import ZArith Lia.
From Stdlib Require Import Strings.Byte.
From stdpp Require Import base list option numbers tactics sets.

(** The content type and the length of the content of a decrypted record. *)
Definition inner_view (p : list byte) : result TlsError (ContentType * nat) :=
  match rposition nonzero p with
  | Some i => match p !! i ≫= ContentType_of with
              | Some t => Ok (t, i)
              | None => Err InvalidRecord
              end
  | None => match p with
            | [] => Panic
            | _ => Ok (CT_Invalid, length p - 1)
            end
  end.

Lemma last_take_S {A} (l : list A) i x : l !! i = Some x -> last (take (S i) l) = Some x.
Proof. intros H. by rewrite (take_S_r _ _ _ H), last_snoc. Qed.

Lemma rposition_None_zeros l : rposition nonzero l = None -> Forall (fun b => b = x00) l.
Proof.
  induction l as [|b l IH]; simpl; [done|]. destruct (rposition nonzero l); [done|].
  case_match eqn:Hb; [done|]. intros _. constructor; [|by apply IH].
  unfold nonzero in Hb. by apply bool_decide_eq_false, dec_stable in Hb.
Qed.

Lemma strip_content_type_spec p post :
  exists n, strip_content_type (mkCB (p ++ post) 0 (length p)) = (inner_view p, mkCB (p ++ post) 0 n).
Proof.
  unfold strip_content_type, inner_view.
  assert (forall n, n <= length p ->
    as_slice (E := TlsError) (mkCB (p ++ post) 0 n) = (Ok (take n p), mkCB (p ++ post) 0 n)) as Has.
  { intros n Hn. rewrite as_slice_spec by (unfold cb_wf, capacity; simpl; len).
    unfold contents. simpl. by rewrite drop_0, take_app_le. }
  assert (forall m n, m <= length p -> n <= length p ->
    truncate (E := TlsError) n (mkCB (p ++ post) 0 m) = (Ok tt, mkCB (p ++ post) 0 n)) as Htr.
  { intros m n Hm Hn. rewrite truncate_spec by (unfold cb_wf, capacity; simpl; len).
    rewrite decide_True by (unfold capacity; simpl; len). done. }
  rewrite (bind_Ok _ _ _ _ _ (Has (length p) ltac:(lia))), firstn_all.
  destruct (rposition nonzero p) as [i|] eqn:Hr.
  - pose proof (rposition_lt _ _ _ Hr) as Hi. destruct (lookup_lt_is_Some_2 p i Hi) as [b Hb].
    rewrite (bind_Ok _ _ _ _ _ (Htr (length p) (i + 1) ltac:(lia) ltac:(lia))).
    rewrite (bind_Ok _ _ _ _ _ (Has (i + 1) ltac:(lia))), Hb. cbn [mbind option_bind].
    rewrite Nat.add_1_r, (last_take_S _ _ _ Hb), bind_unwrap_Some.
    destruct (ContentType_of b) as [t|]; [|by eexists].
    rewrite bind_ok_or_Some, bind_get. cbn [cb_len]. rewrite usub_Some by lia.
    rewrite bind_unwrap_Some, (bind_Ok _ _ _ _ _ (Htr (S i) (S i - 1) ltac:(lia) ltac:(lia))).
    rewrite bind_get. cbn [cb_len]. replace (S i - 1) with i by lia. by eexists.
  - rewrite bind_ret, (bind_Ok _ _ _ _ _ (Has (length p) ltac:(lia))), firstn_all.
    pose proof (rposition_None_zeros _ Hr) as HF.
    destruct (last p) as [b|] eqn:Hl; [|apply last_None in Hl as ->; by eexists].
    apply last_Some in Hl as [l' ->]. apply Forall_app in HF as [_ HF]. apply Forall_cons in HF as [-> _].
    rewrite bind_unwrap_Some. change (ContentType_of x00) with (Some CT_Invalid).
    rewrite bind_ok_or_Some, bind_get. cbn [cb_len]. rewrite usub_Some by len.
    rewrite bind_unwrap_Some. erewrite bind_Ok by (apply Htr; lia).
    rewrite bind_get. cbn [cb_len]. by destruct l'; eexists.
Qed.

Section ClientRecords.
Context `{CS : TlsCipherSuite, !TlsCipherSuiteLaws CS}.

(** The AEAD and the inner format on the record at [length pre] of the receive buffer. *)
Lemma decrypt_region st hdr pre body post :
  length hdr = 5 ->
  let n := length body in
  with_region (length pre) (length pre + n) n
    (map_err (fun _ => CryptoError)
       (decrypt_in_place (key st) (Record_Nonce (iv st) (counter st)) hdr);;
     strip_content_type) (pre ++ body ++ post)
  = match open_record st (hdr ++ body) with
    | None => (Err CryptoError, pre ++ body ++ post)
    | Some p => (inner_view p, pre ++ (p ++ drop (length p) body) ++ post)
    end.
Proof.
  intros Hh n. unfold with_region, n. rewrite sub_app, take_app_length, <-drop_drop, !drop_app_length.
  unfold open_record. rewrite <-Hh, drop_app_length, take_app_length.
  unfold mbind, M_bind, map_err. rewrite decrypt_in_place_spec. case_decide as Hd; [done|]. cbv zeta.
  destruct (aead_open _ _ _ _ _) as [p|] eqn:Hp; [|done].
  apply open_length in Hp. rewrite length_take in Hp.
  assert (length body - TagLen = length p) as Hlp by lia. rewrite Hlp.
  destruct (strip_content_type_spec p (drop (length p) body)) as [k ->]. done.
Qed.

Lemma inner_view_ok inner t k :
  ct_byte t <> x00 -> inner_view (inner ++ ct_byte t :: zeros k) = Ok (t, length inner).
Proof.
  intros Ht. unfold inner_view. rewrite rposition_app.
  - rewrite lookup_app_r, Nat.sub_diag by lia. cbn [lookup list_lookup mbind option_bind].
    unfold ct_byte. by rewrite ContentType_of_code.
  - unfold nonzero. by apply bool_decide_true.
  - by apply Forall_replicate.
Qed.

Lemma inner_view_plain inner t :
  ct_byte t <> x00 -> inner_view (inner ++ [ct_byte t]) = Ok (t, length inner).
Proof. apply (inner_view_ok inner t 0). Qed.

(** ** decrypt_record on an opened record *)

Context {X : Type}.
Context (cb : ServerRecord -> M (ReadKeySchedule * X) TlsError unit).

Lemma callback_run r rks rx x res rks' x' :
  cb r (rks, x) = (res, (rks', x')) -> callback cb r (rks, rx, x) = (res, (rks', rx, x')).
Proof. intros H. unfold callback. by erewrite zoom_run by exact H. Qed.

Definition bump_read (rks : ReadKeySchedule) : ReadKeySchedule :=
  mkRead (bump (r_state rks)) (r_transcript rks).

Lemma kss_read_increment_spec rks :
  (counter (r_state rks) + 1 < 2 ^ 64)%Z ->
  kss_read_increment rks = (Ok tt, bump_read rks).
Proof.
  intros Hc. unfold kss_read_increment, zoom, kss_increment_counter. rewrite bind_get.
  by rewrite decide_True by done.
Qed.

(** What happens with the content of an opened record. *)
Definition dispatch (app : ApplicationData) (t : ContentType) (content : list byte) :
    M (ReadKeySchedule * list byte * X) TlsError unit :=
  match t with
  | CT_Handshake => messages_loop cb (length content) (pb_new content)
  | CT_ApplicationData =>
      callback cb (SR_ApplicationData
        (mkAppData (ad_header app) (ad_start app) (ad_size app) (length content)))
  | CT_Alert => alert ← run_on (pb_new content) Alert_parse; callback cb (SR_Alert alert)
  | _ => err UnimplementedError
  end.

Lemma inner_view_length p t n : inner_view p = Ok (t, n) -> n < length p.
Proof.
  unfold inner_view. destruct (rposition nonzero p) as [i|] eqn:Hr.
  - apply rposition_lt in Hr. case_match; [|done]. by intros [= _ <-].
  - destruct p; [done|]. intros [= _ <-]. simpl. lia.
Qed.

Lemma decrypt_record_view rks x hdr pre body post :
  length hdr = 5 ->
  let app := mkAppData (mkRecordHeader hdr) (length pre) (length body) (length body) in
  decrypt_record cb (SR_ApplicationData app) (rks, pre ++ body ++ post, x)
  = match open_record (r_state rks) (hdr ++ body) with
    | None => (Err CryptoError, (rks, pre ++ body ++ post, x))
    | Some p =>
        let rx := pre ++ (p ++ drop (length p) body) ++ post in
        match inner_view p with
        | Ok (t, n) => (dispatch app t (take n p);; on_fst (on_fst kss_read_increment)) (rks, rx, x)
        | Err e => (Err e, (rks, rx, x))
        | Panic => (Panic, (rks, rx, x))
        | Diverge => (Diverge, (rks, rx, x))
        end
    end.
Proof.
  intros Hh app. unfold decrypt_record. rewrite bind_get. cbv beta iota.
  unfold kss_get_nonce. rewrite (bind_Ok _ _ _ _ _ (get_nonce_spec _ _ _)).
  cbn [ad_start ad_size ad_len ad_header rh_data app].
  pose proof (decrypt_region (r_state rks) hdr pre body post Hh) as Hreg. cbv zeta in Hreg.
  destruct (open_record (r_state rks) (hdr ++ body)) as [p|] eqn:Hp.
  2:{ by rewrite (bind_Err _ _ _ _ _ (on_fst_run _ _ _ _ _ (on_snd_run _ _ _ _ _ Hreg))). }
  cbv zeta. destruct (inner_view p) as [[t n]|e| |] eqn:Hv;
    unfold mbind at 1, M_bind at 1; rewrite (on_fst_run _ _ _ _ _ (on_snd_run _ _ _ _ _ Hreg));
    [|done..].
  rewrite bind_get. cbv beta iota. apply inner_view_length in Hv.
  rewrite sub_Some by (rewrite !length_app; lia). rewrite bind_unwrap_Some, drop_app_length.
  rewrite <-!(assoc_L (++)), (Nat.add_comm (length pre)), Nat.add_sub, take_app_le by lia.
  unfold dispatch. rewrite length_take, Nat.min_l by lia. by destruct t.
Qed.

(** ** Invariants of the dispatch *)

(** [I] holds before and after every message that is handled, [J] after an error. *)
Context (I J : ReadKeySchedule -> X -> Prop).

Definition handles : Prop := forall m rks x xs,
  I rks x -> (forall f, m = SHS_Finished f -> hash f = Some (digest_out (r_transcript rks))) ->
  wp (cb (SR_Handshake m)) (mkRead (r_state rks) (r_transcript rks ++ xs), x)
    (fun _ s => I (fst s) (snd s)) (fun _ s => J (fst s) (snd s)).

Lemma messages_wp : handles -> (forall rks x, I rks x -> J rks x) -> forall fuel buf rks rx x,
  pb_wf buf -> length (pb_buffer buf) - pb_pos buf <= fuel -> I rks x ->
  wp (messages_loop cb fuel buf) (rks, rx, x)
    (fun _ s => I (fst (fst s)) (snd s) /\ snd (fst s) = rx) (fun _ s => J (fst (fst s)) (snd s)).
Proof.
  intros Hcb HIJ fuel. induction fuel as [|fuel IH]; intros buf rks rx x Hwf Hf HI; cbn [messages_loop];
    case_decide as Hend; try (by apply wp_ret); [lia|].
  apply wp_bind, wp_zoom, wp_bind. cbn [fst snd].
  eapply wp_mono; [apply read_spec, Hwf| |].
  2:{ intros e [b' d'] [_ ->]. cbn [fst snd]. destruct rks. by apply HIJ. }
  intros m [b' d'] (Hwf' & xs & (Hb & Hp & _) & Hx%message_wire_length & -> & Hh).
  apply wp_bind, wp_get, wp_ret. cbn [fst snd]. apply wp_bind. unfold callback. apply wp_zoom.
  eapply wp_mono; [apply (Hcb m rks x xs HI Hh)| |done].
  intros _ [rks' x'] HI'. cbn [fst snd] in *. apply IH; [done| |done]. rewrite Hb, Hp. lia.
Qed.

End ClientRecords.

(** A record that opens to the empty string. *)
Definition opens_empty `{CS : TlsCipherSuite} (st : KeyScheduleState) (record : list byte) : bool :=
  match open_record st record with Some [] => true | _ => false end.

Section Total.
Context `{CS : TlsCipherSuite, !TlsCipherSuiteLaws CS} {X : Type}.
Context (cb : ServerRecord -> M (ReadKeySchedule * X) TlsError unit).

(** A handler that returns on every record and leaves the keys alone. *)
Definition well_behaved : Prop := forall r rks x,
  wp (cb r) (rks, x) (fun _ s => r_state (fst s) = r_state rks) (fun _ _ => True).

Lemma dispatch_wp app t content rks rx x :
  well_behaved ->
  wp (dispatch cb app t content) (rks, rx, x)
    (fun _ s => r_state (fst (fst s)) = r_state rks) (fun _ _ => True).
Proof.
  intros Hcb. destruct t; cbn [dispatch]; try done.
  - apply wp_bind, wp_run_on. eapply wp_mono; [|intros a b _; unfold callback; apply wp_zoom, Hcb|done].
    eapply wp_mono; [by eapply (ptotal_of _ _ Alert_sound), pb_new_wf|done|done].
  - eapply wp_mono; [apply (messages_wp cb (fun rks' _ => r_state rks' = r_state rks) (fun _ _ => True))
      |by intros ? ? []|done]; try done.
    + intros m rks' x' xs <- _. eapply wp_mono; [apply Hcb|done|done].
    + apply pb_new_wf.
    + simpl. lia.
  - unfold callback. apply wp_zoom, Hcb.
Qed.
End Total.


(** ** Sealed records on the stream *)

Lemma payload_length_header n :
  (Z.of_nat n <= 65535)%Z -> payload_length (record_header n) = n.
Proof.
  intros Hn. unfold payload_length, record_header. cbn [app drop].
  change (drop 0 (be_bytes 2 (Z.of_nat n))) with (be_bytes 2 (Z.of_nat n)).
  rewrite from_be_be_bytes, Z.mod_small by (simpl; lia). lia.
Qed.

Section Sealed.
Context `{CS : TlsCipherSuite, !TlsCipherSuiteLaws CS}.

(** A sealed record: its header and body, how they are framed, and what opens them. *)
Lemma sealed_parts st inner t :
  kss_wf st -> (Z.of_nat (length inner + 1 + TagLen) <= 65535)%Z ->
  exists body, sealed st inner t = record_header (length inner + 1 + TagLen) ++ body /\
    length body = length inner + 1 + TagLen /\
    (forall cap rest, length body <= cap ->
       frame cap (sealed st inner t ++ rest)
       = inr (record_header (length inner + 1 + TagLen), body, rest)) /\
    (forall st', same_keys st st' ->
       open_record st' (record_header (length inner + 1 + TagLen) ++ body) = Some (inner ++ [ct_byte t])).
Proof.
  intros Hw Hl. pose proof tag_len as Htag.
  destruct (sealed_spec st inner t Hw ltac:(lia)) as (c & tag & Hs & Hc & Ht & Heq).
  exists (c ++ tag). assert (length (c ++ tag) = length inner + 1 + TagLen) as Hb by (rewrite length_app; lia).
  split_and!; [done|done| |].
  - intros cap rest Hcap. rewrite Heq, <-(assoc_L (++)).
    eapply (frame_inr _ _ _ _ x17 CT_ApplicationData); [done|done|done| |]; rewrite payload_length_header; lia.
  - intros st' Hsync. rewrite <-Heq. apply (open_sealed st st'); [done|done|lia].
Qed.

(** The record an opened application record decodes to. *)
Lemma decode_app_record n start body digest :
  (Z.of_nat n <= 65535)%Z -> length body = n ->
  ServerRecord_decode (mkRecordHeader (record_header n)) start body digest
  = (Ok (SR_ApplicationData (mkAppData (mkRecordHeader (record_header n)) start n n)), digest).
Proof.
  intros Hn Hb. unfold ServerRecord_decode.
  rewrite (bind_Ok _ _ _ _ _ (content_length_spec (mkRecordHeader (record_header n)) _ eq_refl)). cbn [rh_data].
  rewrite payload_length_header by done. rewrite Hb, decide_False by lia. done.
Qed.

(** The receive buffer around a stored record. *)
Lemma stored_split r body :
  reader_ready r -> length body <= length (rr_buf r) ->
  exists pre post, rr_buf (stored r body) = pre ++ body ++ post /\
    length pre = next_start r (length body) /\
    length (pre ++ body ++ post) = length (rr_buf r).
Proof.
  intros [Hp Hd] Hl. unfold stored, next_start. cbn [rr_buf].
  set (start := if decide _ then 0 else _).
  destruct (list_split3 (rr_buf r) start (length body)) as (l1 & l2 & l3 & Heq & H1 & H2).
  { unfold start. case_decide; lia. }
  exists l1, l3. rewrite Heq, <-H1, splice_app by done. split_and!; [done|done|].
  rewrite !length_app. lia.
Qed.
End Sealed.

(** ** Properties *)

(** C23: decrypting and dispatching a record returns on every input but one.  With
    handlers that return and leave the keys alone, whatever the bytes of the record the
    client neither panics nor loops, except on a record that opens to the empty string:
    there is no byte that could be the content type, and the client unwraps [None].
    Whoever holds the server's write keys can seal such a record. *)
Theorem decrypt_record_total `{CS : TlsCipherSuite, !TlsCipherSuiteLaws CS} {X}
    (cb : ServerRecord -> M (ReadKeySchedule * X) TlsError unit) rks x pre post :
  well_behaved cb -> kss_wf (r_state rks) -> (counter (r_state rks) + 1 < 2 ^ 64)%Z ->
  (forall hdr body, length hdr = 5 ->
     let app := mkAppData (mkRecordHeader hdr) (length pre) (length body) (length body) in
     let out := fst (decrypt_record cb (SR_ApplicationData app) (rks, pre ++ body ++ post, x)) in
     out <> Diverge /\ (out = Panic <-> opens_empty (r_state rks) (hdr ++ body) = true)) /\
  (exists body, opens_empty (r_state rks) (record_header (length body) ++ body) = true).
Proof.
  intros Hcb (Hk & Hi & _) Hc. split.
  - intros hdr body Hh. cbv zeta. rewrite (decrypt_record_view cb rks x hdr pre body post Hh).
    unfold opens_empty. destruct (open_record _ _) as [p|]; [|done]. cbv zeta.
    destruct (inner_view p) as [[t n]|e| |] eqn:Hv.
    + assert (p <> []) as Hne by (by intros ->).
      pose proof (dispatch_wp cb (mkAppData (mkRecordHeader hdr) (length pre) (length body) (length body))
        t (take n p) rks (pre ++ (p ++ drop (length p) body) ++ post) x Hcb) as Hd.
      unfold wp in Hd. unfold mbind, M_bind. destruct (dispatch _ _ _ _ _) as [[[]|e| |] [[rks' rx'] x']];
        [|by destruct p|done..].
      cbn [fst] in Hd. rewrite <-Hd in Hc.
      rewrite (on_fst_run _ _ _ _ _ (on_fst_run _ _ _ _ _ (kss_read_increment_spec rks' Hc))). by destruct p.
    + split; [done|]. unfold inner_view in Hv. by destruct p.
    + split; [done|]. unfold inner_view in Hv. destruct p; [done|]. by repeat case_match.
    + exfalso. unfold inner_view in Hv. by repeat case_match.
  - destruct (seal_total (key (r_state rks))
      (Record_Nonce (iv (r_state rks)) (counter (r_state rks))) (record_header TagLen) [])
      as (c & tag & Hs & Hc' & Ht); [done|by apply length_Record_Nonce|simpl; lia|].
    destruct c; [|done]. exists tag. unfold opens_empty, open_record. rewrite Ht.
    change 5 with (length (record_header TagLen)).
    rewrite drop_app_length, take_app_length, Ht, decide_False, Nat.sub_diag by lia.
    change (take 0 tag) with (@nil byte). change (drop 0 tag) with tag. by rewrite (open_seal _ _ _ _ _ _ Hs).
Qed.

Lemma decrypt_record_total_witness :
  (forall hdr body, length hdr = 5 ->
     let app := mkAppData (mkRecordHeader hdr) (length (zeros 2)) (length body) (length body) in
     let out := fst (decrypt_record (CS := Toy.suite) (X := nat) (fun _ => mret tt) (SR_ApplicationData app)
                       (mkRead demo_keys [], zeros 2 ++ body ++ zeros 4, 0)) in
     out <> Diverge /\ (out = Panic <-> opens_empty demo_keys (hdr ++ body) = true)) /\
  (exists body, opens_empty demo_keys (record_header (length body) ++ body) = true).
Proof.
  apply (decrypt_record_total (CS := Toy.suite) (fun _ => mret tt) (mkRead demo_keys []) 0 (zeros 2) (zeros 4)).
  - done.
  - unfold kss_wf. simpl. lia.
  - done.
Defined.
