(* ===== verification/Blocking.v ===== *)
(** The connection the user holds (blocking.rs, flush_policy.rs): opening, writing through the write buffer, reading
    decrypted bytes in place, closing.

    Two loops take fuel: the handshake of [open] and the wait for data of
    [read_buffered].  Each iteration that can repeat reads a record from the
    transport, so the number of unread bytes bounds them. *)

From S2P Require Import Prelude Errors CryptoBuffer ParseBuffer Wire ExtensionData Extensions.
From S2P Require Import CryptoSuite KeySchedule KeyScheduleProps ClientHello Handshake Server.
From S2P Require Import ServerRecords Record WriteBuffer RecordReader ReadBuffer Connection.
From Stdlib Require Import ZArith Lia.
From Stdlib Require Import Strings.Byte.
From stdpp Require Import base list option numbers tactics sets.

Inductive FlushPolicy : Type := Relaxed | Strict.

Definition flush_transport (p : FlushPolicy) : bool :=
  match p with Strict => true | Relaxed => false end.

Definition FlushPolicy_default : FlushPolicy := Strict.

Section Connection.
Context `{CS : TlsCipherSuite} {T P : Type} `{Sock : Socket T, CP : CryptoProvider P}.

Record TlsConnection : Type := mkConn {
  delegate : T;
  opened : bool;
  key_schedule : KeySchedule;
  record_reader : RecordReader;
  record_write_buf : WriteBuffer;
  decrypted : DecryptedBufferInfo;
  flush_policy : FlushPolicy;
}.

Abbreviation TC := (M TlsConnection TlsError).

(** [None] when the write buffer is too small (a debug assertion). *)
Definition TlsConnection_new (delegate : T) (record_read_buf record_write_buf : list byte) :
    option TlsConnection :=
  w ← WriteBuffer_new record_write_buf;
  Some (mkConn delegate false KeySchedule_new (RecordReader_new record_read_buf) w
          DecryptedBufferInfo_default FlushPolicy_default).

Definition set_flush_policy (policy : FlushPolicy) : TC unit :=
  modify (fun c => mkConn (delegate c) (opened c) (key_schedule c) (record_reader c)
                     (record_write_buf c) (decrypted c) policy).

Definition on_delegate {A} (m : M T TlsError A) : TC A :=
  zoom delegate (fun d c => mkConn d (opened c) (key_schedule c) (record_reader c)
                              (record_write_buf c) (decrypted c) (flush_policy c)) m.
Definition on_key_schedule {A} (m : KM A) : TC A :=
  zoom key_schedule (fun k c => mkConn (delegate c) (opened c) k (record_reader c)
                                  (record_write_buf c) (decrypted c) (flush_policy c)) m.
Definition on_write_buf {A} (m : M WriteBuffer TlsError A) : TC A :=
  zoom record_write_buf (fun w c => mkConn (delegate c) (opened c) (key_schedule c) (record_reader c)
                                      w (decrypted c) (flush_policy c)) m.
Definition set_opened (b : bool) : TC unit :=
  modify (fun c => mkConn (delegate c) b (key_schedule c) (record_reader c)
                     (record_write_buf c) (decrypted c) (flush_policy c)).
Definition set_decrypted (i : DecryptedBufferInfo) : TC unit :=
  modify (fun c => mkConn (delegate c) (opened c) (key_schedule c) (record_reader c)
                     (record_write_buf c) i (flush_policy c)).

(** ** open *)

(** [while state != State::ApplicationData { .. }] *)
Fixpoint open_loop (fuel : nat) (config : TlsConfig) (state : State) :
    M (Client (T := T) (P := P)) TlsError unit :=
  if decide (state = St_ApplicationData) then mret tt
  else match fuel with
  | O => diverge
  | S fuel' => next_state ← process config state; open_loop fuel' config next_state
  end.

Definition open_steps (fuel : nat) (config : TlsConfig) : M (Client (T := T) (P := P)) TlsError unit :=
  c ← get;
  match has_verifier (cl_provider c), server_name config with
  | true, Some name => on_provider (set_hostname_verification name)
  | _, _ => mret tt
  end;;
  open_loop fuel config St_ClientHello.

Definition open (fuel : nat) (config : TlsConfig) (provider : P) : TC unit :=
  zoom (fun c => mkClient (delegate c) Handshake_new (record_reader c) (record_write_buf c)
                   (key_schedule c) provider)
       (fun cl c => mkConn (cl_transport cl) (opened c) (cl_ks cl) (cl_reader cl) (cl_tx cl)
                      (decrypted c) (flush_policy c))
       (open_steps fuel config);;
  set_opened true.

(** ** Writing *)

Definition flush : TC unit :=
  c ← get;
  if negb (wb_is_empty (record_write_buf c)) then
    slice ← on_write_buf (close_record (client_state (key_schedule c)));
    on_delegate (io (sock_write_all slice));;
    on_key_schedule write_increment_counter;;
    if flush_transport (flush_policy c) then on_delegate (io sock_flush) else mret tt
  else mret tt.

Definition write (buf : list byte) : TC nat :=
  c ← get;
  if opened c then
    (if negb (contains (record_write_buf c) CRH_ApplicationData)
     then flush;; on_write_buf (start_record CRH_ApplicationData)
     else mret tt);;
    buffered ← on_write_buf (wb_append buf);
    full ← on_write_buf is_full;
    (if full : bool then flush else mret tt);;
    mret buffered
  else err MissingHandshake.

(** ** Reading *)

(** [decrypt_record(key_schedule, record, |_, record| handler.handle(record))] *)
Definition handle_callback (source_len : nat) (record : ServerRecord) :
    M (ReadKeySchedule * (DecryptedBufferInfo * bool)) TlsError unit :=
  on_snd (handle source_len record).

Definition read_application_data : TC unit :=
  record ← zoom (fun c => (record_reader c, delegate c, transcript_hash (key_schedule c)))
             (fun '(r, t, d) c => mkConn t (opened c)
                (mkKS (shared (key_schedule c)) (client_state (key_schedule c))
                   (mkRead (r_state (server_state (key_schedule c))) d))
                r (record_write_buf c) (decrypted c) (flush_policy c))
             RecordReader.read;
  c ← get;
  zoom (fun c => (server_state (key_schedule c), rr_buf (record_reader c), (decrypted c, opened c)))
       (fun '(rks, rx, (info, o)) c =>
          mkConn (delegate c) o (mkKS (shared (key_schedule c)) (client_state (key_schedule c)) rks)
            (mkReader rx (RecordReader.decoded (record_reader c)) (pending (record_reader c)))
            (record_write_buf c) info (flush_policy c))
       (decrypt_record (handle_callback (length (rr_buf (record_reader c)))) record).

(** [while self.decrypted.is_empty() { self.read_application_data()?; }] *)
Fixpoint wait_loop (fuel : nat) : TC unit :=
  c ← get;
  empty ← info_is_empty (decrypted c);
  if negb empty then mret tt
  else match fuel with
  | O => diverge
  | S fuel' => read_application_data;; wait_loop fuel'
  end.

(** The [ReadBuffer] is returned; what the user does with it and its [Drop] are
    [use_buffer]. *)
Definition read_buffered (fuel : nat) : TC ReadBuffer :=
  c ← get;
  if opened c then
    wait_loop fuel;;
    c ← get;
    unwrap (create_read_buffer (decrypted c) (rr_buf (record_reader c)))
  else err MissingHandshake.

Definition use_buffer {A} (b : ReadBuffer) (m : M ReadBuffer TlsError A) : TC A := fun c =>
  let '(r, b') := m b in
  match r with
  | Ok a => (Ok a, snd (set_decrypted (drop_buffer b' (decrypted c)) c))
  | Err e => (Err e, snd (set_decrypted (drop_buffer b' (decrypted c)) c))
  | Panic => (Panic, c)
  | Diverge => (Diverge, c)
  end.

(** The user's buffer after the call and the number of bytes read. *)
Definition read (fuel : nat) (buf : list byte) : TC (list byte * nat) :=
  if decide (buf = []) then mret (buf, 0)
  else
    b ← read_buffered fuel;
    use_buffer b (pop_into buf).

Definition fill_buf (fuel : nat) : TC (list byte) :=
  b ← read_buffered fuel;
  use_buffer b peek_all.

Definition consume (amt : nat) : TC unit :=
  c ← get;
  b ← unwrap (create_read_buffer (decrypted c) (rr_buf (record_reader c)));
  use_buffer b (pop amt);; mret tt.

(** ** Closing *)

Definition close_internal : TC unit :=
  flush;;
  c ← get;
  slice ← zoom (fun c => (record_write_buf c, Some (server_state (key_schedule c))))
            (fun '(w, rks) c => mkConn (delegate c) (opened c)
               (mkKS (shared (key_schedule c)) (client_state (key_schedule c))
                  (default (server_state (key_schedule c)) rks))
               (record_reader c) w (decrypted c) (flush_policy c))
            (write_record (close_notify (opened c)) (client_state (key_schedule c)));
  on_delegate (io (sock_write_all slice));;
  on_key_schedule write_increment_counter;;
  on_delegate (io sock_flush).

(** Gives the transport back, also with an error. *)
Definition close (c : TlsConnection) : result (T * TlsError) T :=
  match close_internal c with
  | (Ok _, c') => Ok (delegate c')
  | (Err e, c') => Err (delegate c', e)
  | (Panic, _) => Panic
  | (Diverge, _) => Diverge
  end.
End Connection.

(** ** Records that arrive on an open connection *)

Section Open.
Context `{CS : TlsCipherSuite} {T : Type} `{Sock : Socket T, !SocketLaws T}.
Implicit Types c : TlsConnection (T := T).

(** An open connection between two records, with nothing decrypted to hand out. *)
Definition waiting c : Prop :=
  opened c = true /\ reader_ready (record_reader c) /\ dbi_consumed (decrypted c) = dbi_len (decrypted c).

(** What [decrypt_record] gets and what it leaves. *)
Definition after_read c (s' : T) (payload d' : list byte) : TlsConnection (T := T) :=
  mkConn s' (opened c)
    (mkKS (shared (key_schedule c)) (client_state (key_schedule c))
       (mkRead (r_state (server_state (key_schedule c))) d'))
    (stored (record_reader c) payload) (record_write_buf c) (decrypted c) (flush_policy c).

Definition decrypt_incoming (record : ServerRecord) : M (TlsConnection (T := T)) TlsError unit :=
  c ← get;
  zoom (fun c => (server_state (key_schedule c), rr_buf (record_reader c), (decrypted c, opened c)))
       (fun '(rks, rx, (info, o)) c =>
          mkConn (delegate c) o (mkKS (shared (key_schedule c)) (client_state (key_schedule c)) rks)
            (mkReader rx (RecordReader.decoded (record_reader c)) (pending (record_reader c)))
            (record_write_buf c) info (flush_policy c))
       (decrypt_record (handle_callback (length (rr_buf (record_reader c)))) record).

Lemma read_application_framed `{!Reliable T} c hdr payload rest rec d' :
  reader_ready (record_reader c) ->
  frame (length (rr_buf (record_reader c))) (incoming (delegate c)) = inr (hdr, payload, rest) ->
  ServerRecord_decode (mkRecordHeader hdr) (next_start (record_reader c) (length payload)) payload
    (transcript_hash (key_schedule c)) = (Ok rec, d') ->
  exists s', incoming s' = rest /\ outgoing s' = outgoing (delegate c) /\
    read_application_data c = decrypt_incoming rec (after_read c s' payload d').
Proof.
  intros Hr Hf Hd. destruct (read_framed _ _ _ _ _ _ _ _ Hr Hf Hd) as (s' & Hrd & Hi & Ho).
  exists s'. split_and!; [done..|]. unfold read_application_data.
  rewrite (bind_Ok _ _ _ rec (after_read c s' payload d')); [done|].
  unfold zoom. by rewrite Hrd.
Qed.

Lemma wait_one fuel c :
  waiting c ->
  wait_loop (S fuel) c = (read_application_data;; wait_loop fuel) c.
Proof.
  intros (_ & _ & He). cbn [wait_loop]. rewrite bind_get. unfold info_is_empty, info_len.
  rewrite He, usub_Some, Nat.sub_diag by lia. done.
Qed.

Lemma read_buffered_result fuel c r c' :
  waiting c -> read_application_data c = (r, c') -> (forall u, r <> Ok u) ->
  exists r', read_buffered (S fuel) c = (r', c') /\
    match r with Ok _ => True | Err e => r' = Err e | Panic => r' = Panic | Diverge => r' = Diverge end.
Proof.
  intros Hw Hrd Hr. unfold read_buffered. rewrite bind_get. destruct Hw as [Ho Hw]. rewrite Ho.
  assert (wait_loop (S fuel) c = (r, c')) as Hl.
  { rewrite wait_one by done. unfold mbind, M_bind. rewrite Hrd. destruct r as [[]|e| |]; [by destruct (Hr tt)|done..]. }
  unfold mbind, M_bind. rewrite Hl. destruct r as [[]|e| |]; [by destruct (Hr tt)|by eexists..].
Qed.
End Open.

(** An open connection can be closed by anybody on the path.  A close_notify
    alert in a plaintext record is obeyed without decryption: whatever the keys, the
    next read reports that the connection was closed and the connection is no longer
    open. *)
Theorem plaintext_close_notify_accepted
    `{CS : TlsCipherSuite, Sock : Socket T, !SocketLaws T, !Reliable T} (c : TlsConnection (T := T)) rest fuel :
  waiting c -> 2 <= length (rr_buf (record_reader c)) ->
  incoming (delegate c) = [x15; x03; x03; x00; x02] ++ [x01; x00] ++ rest ->
  exists c', read_buffered (S fuel) c = (Err ConnectionClosed, c') /\ opened c' = false /\
    incoming (delegate c') = rest /\ key_schedule c' = key_schedule c.
Proof.
  intros Hw Hcap Hi.
  assert (frame (length (rr_buf (record_reader c))) (incoming (delegate c))
          = inr ([x15; x03; x03; x00; x02], [x01; x00], rest)) as Hf.
  { rewrite Hi. by eapply (frame_inr _ _ _ _ x15 CT_Alert). }
  pose proof Hw as (_ & Hr & _).
  destruct (read_application_framed c _ _ _ (SR_Alert (mkAlert Warning CloseNotify))
              (transcript_hash (key_schedule c)) Hr Hf eq_refl) as (s' & Hi' & _ & Hrd).
  destruct (read_buffered_result fuel c _ _ Hw Hrd ltac:(done)) as (r' & -> & ->).
  eexists. split_and!; [done..|]. simpl. by destruct c as [d o [sh cl [rs rt]] rr w i fp].
Qed.

(** An open connection whose transport holds [stream] and delivers three bytes at a time. *)
Definition demo_open (stream : list byte) : TlsConnection (CS := Toy.suite) (T := Chunked) :=
  mkConn (mkChunked stream [] 3) true demo_schedule (RecordReader_new (zeros 64))
    (mkWB (zeros 140) 0 None) DecryptedBufferInfo_default Strict.

Lemma plaintext_close_notify_accepted_witness :
  exists c', read_buffered 1 (demo_open ([x15; x03; x03; x00; x02] ++ [x01; x00] ++ [x17]))
      = (Err ConnectionClosed, c') /\ opened c' = false /\
    incoming (delegate c') = [x17] /\ key_schedule c' = demo_schedule.
Proof.
  apply (plaintext_close_notify_accepted (CS := Toy.suite) (demo_open _) [x17] 0).
  - split_and!; [done| |done]. split; simpl; lia.
  - simpl. lia.
  - done.
Defined.

(** C21: an open connection panics on a plaintext handshake record.  A message such as
    EncryptedExtensions in a record that is not encrypted is dispatched without
    decryption and reaches an [unimplemented!()]: anybody on the path can crash the
    reader. *)
Theorem plaintext_handshake_panics
    `{CS : TlsCipherSuite, Sock : Socket T, !SocketLaws T, !Reliable T} (c : TlsConnection (T := T)) rest fuel :
  waiting c -> 6 <= length (rr_buf (record_reader c)) ->
  incoming (delegate c) = [x16; x03; x03; x00; x06] ++ [x08; x00; x00; x02; x00; x00] ++ rest ->
  exists c', read_buffered (S fuel) c = (Panic, c').
Proof.
  intros Hw Hcap Hi.
  assert (frame (length (rr_buf (record_reader c))) (incoming (delegate c))
          = inr ([x16; x03; x03; x00; x06], [x08; x00; x00; x02; x00; x00], rest)) as Hf.
  { rewrite Hi. by eapply (frame_inr _ _ _ _ x16 CT_Handshake). }
  pose proof Hw as (_ & Hr & _).
  destruct (read_application_framed c _ _ _ (SR_Handshake SHS_EncryptedExtensions)
              (transcript_hash (key_schedule c) ++ [x08; x00; x00; x02; x00; x00]) Hr Hf eq_refl)
    as (s' & Hi' & _ & Hrd).
  destruct (read_buffered_result fuel c _ _ Hw Hrd ltac:(done)) as (r' & -> & ->). by eexists.
Qed.

Lemma plaintext_handshake_panics_witness :
  exists c', read_buffered 1 (demo_open ([x16; x03; x03; x00; x06] ++ [x08; x00; x00; x02; x00; x00] ++ []))
    = (Panic, c').
Proof.
  apply (plaintext_handshake_panics (CS := Toy.suite) (demo_open _) [] 0).
  - split_and!; [done| |done]. split; simpl; lia.
  - simpl. lia.
  - done.
Defined.
