(* ===== verification/ClientData.v ===== *)
(** Data from the client to the server: what [write], [flush] and [close] of the
    client's connection (blocking.rs) put on the transport, and what the server's
    decryption makes of it.  [tx_holds] relates the write buffer to the bytes it
    holds; the property composes the client's writer with the server's reader. *)

From S2P Require Import Prelude Errors CryptoBuffer ParseBuffer Wire ExtensionData Extensions.
From S2P Require Import CryptoSuite KeySchedule KeyScheduleProps ClientHello Handshake Server.
From S2P Require Import ServerRecords Record WriteBuffer RecordReader ReadBuffer Connection Blocking.
From Stdlib Require Import ZArith Lia.
From Stdlib Require Import Strings.Byte.
From stdpp Require Import base list option numbers tactics sets.

(** ** A transport without errors *)

Section Transport.
Context {T : Type} `{Sock : Socket T, !SocketLaws T, !Reliable T}.

Lemma write_all_ok xs (s : T) :
  exists s', io (sock_write_all xs) s = (Ok tt, s') /\ incoming s' = incoming s /\
    outgoing s' = outgoing s ++ xs.
Proof.
  pose proof (sock_write_law xs s) as H. pose proof (write_reliable xs s) as Hr.
  unfold wp in *. unfold io, map_err. destruct (sock_write_all xs s) as [[[]|e| |] s']; [|done..].
  by exists s'.
Qed.

Lemma flush_ok (s : T) :
  exists s', io sock_flush s = (Ok tt, s') /\ incoming s' = incoming s /\ outgoing s' = outgoing s.
Proof.
  pose proof (sock_flush_law s) as H. pose proof (flush_reliable s) as Hr.
  unfold wp in *. unfold io, map_err. destruct (sock_flush s) as [[[]|e| |] s']; [|done..].
  by exists s'.
Qed.
End Transport.

Section Writing.
Context `{CS : TlsCipherSuite, !TlsCipherSuiteLaws CS}.
Context {T : Type} `{Sock : Socket T, !SocketLaws T, !Reliable T}.
Implicit Types c : TlsConnection (T := T).

Definition tx_keys c : KeyScheduleState := client_keys (key_schedule c).

(** A write buffer of [N] bytes that holds [data]: idle, or an application record
    under construction that leaves the overhead free. *)
Inductive tx_holds (N : nat) : list byte -> WriteBuffer -> Prop :=
| tx_idle buf : length buf = N -> tx_holds N [] (mkWB buf 0 None)
| tx_building data tail :
    5 + length data + length tail = N -> TLS_RECORD_OVERHEAD < length tail ->
    tx_holds N data (building CRH_ApplicationData data tail).

(** [c'] is [c] after the records [rs] were sent. *)
Definition sent_records c (rs : list AppDataOrAlert) c' : Prop :=
  outgoing (delegate c') = outgoing (delegate c) ++ mjoin (sealed_all (tx_keys c) rs) /\
  incoming (delegate c') = incoming (delegate c) /\
  tx_keys c' = bump_n (length rs) (tx_keys c) /\ opened c' = opened c.

(** The buffer is large enough to write and a record fits the 16-bit length. *)
Definition buffer_size_ok (N : nat) : Prop := 133 <= N /\ (Z.of_nat N <= 65535)%Z.

Definition can_send (n : nat) c : Prop :=
  kss_wf (tx_keys c) /\ (counter (tx_keys c) + Z.of_nat n < 2 ^ 64)%Z.

Lemma can_send_after n rs c c' :
  can_send (length rs + n) c -> sent_records c rs c' -> can_send n c'.
Proof.
  intros [(Hk & Hi & Hz) Hc] (_ & _ & Hs & _). unfold can_send. rewrite Hs.
  destruct (bump_n_keys (length rs) (tx_keys c)) as (Ek & Ei & Ec).
  unfold kss_wf. rewrite Ek, Ei, Ec. split_and!; [done|done|lia..].
Qed.

Lemma sent_trans c1 rs c2 rs' c3 :
  sent_records c1 rs c2 -> sent_records c2 rs' c3 -> sent_records c1 (rs ++ rs') c3.
Proof.
  intros (Ho & Hi & Hk & Hop) (Ho' & Hi' & Hk' & Hop'). unfold sent_records.
  rewrite Ho', Ho, Hk', Hk, length_app. split_and!; [|congruence| |congruence].
  - rewrite <-(assoc_L (++)), <-join_app. do 2 f_equal. clear. generalize (tx_keys c1).
    induction rs as [|x rs IH]; intros st; [done|]. simpl. by rewrite IH.
  - clear. generalize (tx_keys c1). induction rs as [|x rs IH]; intros st; [done|]. simpl. apply IH.
Qed.

Lemma sent_nil c : sent_records c [] c.
Proof. unfold sent_records. simpl. by rewrite app_nil_r. Qed.

(** ** flush *)

Lemma flush_idle buf c : record_write_buf c = mkWB buf 0 None -> flush c = (Ok tt, c).
Proof. intros H. unfold flush. rewrite bind_get, H. done. Qed.

(** Send [frame], count it, and flush the transport if asked. *)
Lemma transmit (frame : list byte) (again : bool) c :
  can_send 1 c ->
  exists s', incoming s' = incoming (delegate c) /\ outgoing s' = outgoing (delegate c) ++ frame /\
    (on_delegate (io (sock_write_all frame));;
     on_key_schedule write_increment_counter;;
     if again then on_delegate (io sock_flush) else mret tt) c
    = (Ok tt, mkConn s' (opened c) (with_client_keys (bump (tx_keys c)) (key_schedule c))
                (record_reader c) (record_write_buf c) (decrypted c) (flush_policy c)).
Proof.
  intros [_ Hc]. destruct (write_all_ok frame (delegate c)) as (s1 & H1 & Hi1 & Ho1).
  destruct (flush_ok s1) as (s2 & H2 & Hi2 & Ho2).
  exists (if again then s2 else s1). split_and!; [by destruct again; congruence..|].
  unfold on_delegate, on_key_schedule. rewrite (bind_Ok _ _ _ _ _ (zoom_run _ _ _ _ _ _ H1)).
  erewrite bind_Ok; [|apply zoom_run; cbn [key_schedule]; rewrite write_increment_spec;
    rewrite decide_True by (unfold tx_keys in *; lia); reflexivity].
  destruct again; [|done]. by erewrite zoom_run by exact H2.
Qed.

Lemma flush_building N data tail c :
  record_write_buf c = building CRH_ApplicationData data tail ->
  5 + length data + length tail = N -> TLS_RECORD_OVERHEAD <= length tail ->
  buffer_size_ok N -> can_send 1 c ->
  exists c' buf, flush c = (Ok tt, c') /\ sent_records c [AppData data] c' /\
    record_write_buf c' = mkWB buf 0 None /\ length buf = N.
Proof.
  unfold TLS_RECORD_OVERHEAD, buffer_size_ok. intros Hb HN Ht Hok Hs. pose proof tag_len as Htag.
  unfold flush. rewrite bind_get, Hb. unfold wb_is_empty at 1.
  rewrite bool_decide_false by (simpl; lia). cbn [negb].
  set (wks := client_state (key_schedule c)).
  pose proof (close_record_spec wks CRH_ApplicationData data tail (proj1 Hs) ltac:(lia)
    ltac:(unfold closing; simpl; lia)) as Hcl.
  set (frame := client_frame wks CRH_ApplicationData data) in *.
  set (w' := mkWB _ 0 None) in Hcl.
  set (c1 := mkConn (delegate c) (opened c) (key_schedule c) (record_reader c) w' (decrypted c) (flush_policy c)).
  rewrite (bind_Ok _ _ _ frame c1) by (unfold on_write_buf, zoom; by rewrite Hb, Hcl).
  destruct (transmit frame (flush_transport (flush_policy c)) c1 Hs) as (s' & Hi & Ho & ->).
  eexists _, _. split; [done|]. split; [|split; [done|]].
  - unfold sent_records. simpl. rewrite app_nil_r. done.
  - rewrite length_app, length_drop. unfold frame.
    rewrite length_client_frame by (apply Hs || lia). unfold closing. simpl. lia.
Qed.

(** ** write *)

Definition with_tx (w : WriteBuffer) c : TlsConnection (T := T) :=
  mkConn (delegate c) (opened c) (key_schedule c) (record_reader c) w (decrypted c) (flush_policy c).

Lemma on_write_buf_run {A} (m : M WriteBuffer TlsError A) c r w :
  m (record_write_buf c) = (r, w) -> on_write_buf m c = (r, with_tx w c).
Proof. intros H. unfold on_write_buf. by erewrite zoom_run. Qed.

(** The outcome of a write of [w] on a buffer that holds [data]. *)
Definition wrote (N : nat) (data w : list byte) c n c' : Prop :=
  exists chunks data', sent_records c (AppData <$> chunks) c' /\
    tx_holds N data' (record_write_buf c') /\ data ++ take n w = mjoin chunks ++ data' /\
    length chunks <= 1 /\ Forall (fun x => length x <= N - 133) chunks /\
    n <= length w /\ (134 <= N -> w <> [] -> 0 < n).

(** [append] and the flush of a full buffer. *)
Lemma write_core N w data tail c :
  record_write_buf c = building CRH_ApplicationData data tail ->
  5 + length data + length tail = N -> TLS_RECORD_OVERHEAD <= length tail ->
  (134 <= N -> TLS_RECORD_OVERHEAD < length tail) -> buffer_size_ok N -> can_send 1 c ->
  exists n c', (buffered ← on_write_buf (wb_append w);
                full ← on_write_buf is_full;
                (if full : bool then flush else mret tt);;
                mret buffered) c = (Ok n, c') /\ wrote N data w c n c'.
Proof.
  unfold TLS_RECORD_OVERHEAD. intros Hb HN Ht Hpos Hok Hs.
  pose proof (wb_append_spec (E := TlsError) CRH_ApplicationData data tail w Ht) as Ha.
  rewrite <-Hb in Ha. cbv zeta in Ha. set (n := min (length w) (usable tail)) in Ha.
  rewrite (bind_Ok _ _ _ _ _ (on_write_buf_run _ _ _ _ Ha)).
  set (c1 := with_tx _ c). unfold usable, TLS_RECORD_OVERHEAD in n.
  assert (on_write_buf is_full c1 = (Ok (bool_decide (length tail - n = 128)), c1)) as Hfull.
  { erewrite on_write_buf_run; [done|]. unfold is_full, max_block_size, TLS_RECORD_OVERHEAD.
    rewrite bind_get. cbn [c1 with_tx record_write_buf building wb_buffer wb_pos].
    rewrite usub_Some by len. rewrite bind_unwrap_Some. unfold mret, M_ret. do 2 f_equal.
    apply bool_decide_ext. unfold n. lens. lia. }
  rewrite (bind_Ok _ _ _ _ _ Hfull).
  assert (forall c', wrote N data w c n c' <-> wrote N data w c1 n c') as Hc1 by done.
  exists n. case_bool_decide as Hd.
  - destruct (flush_building N (data ++ take n w) (drop n tail) c1) as (c' & buf & Hf & Hse & Hbuf & Hlb);
      [done|unfold n; len|unfold n, TLS_RECORD_OVERHEAD; len|done|done|].
    exists c'. rewrite (bind_Ok _ _ _ _ _ Hf). split; [done|].
    exists [data ++ take n w], []. simpl. rewrite !app_nil_r.
    rewrite Hbuf. split_and!; [done|by apply tx_idle|done|lia| |lia|].
    + constructor; [|done]. unfold n. lens. lia.
    + intros H134 Hw. destruct w; [done|]. specialize (Hpos H134). unfold n. cbn [length]. lia.
  - exists c1. rewrite bind_ret. split; [done|]. exists [], (data ++ take n w). simpl.
    split_and!; [unfold sent_records; simpl; by rewrite app_nil_r| |done|lia|done|lia|].
    + apply (tx_building N (data ++ take n w) (drop n tail)); unfold n, TLS_RECORD_OVERHEAD in *; lens; lia.
    + intros H134 Hw. destruct w; [done|]. specialize (Hpos H134). unfold n. cbn [length]. lia.
Qed.

Lemma write_spec N w data c :
  opened c = true -> tx_holds N data (record_write_buf c) -> buffer_size_ok N -> can_send 1 c ->
  exists n c', write w c = (Ok n, c') /\ wrote N data w c n c'.
Proof.
  intros Ho Hh Hok Hs. unfold write. rewrite bind_get, Ho.
  remember (record_write_buf c) as b eqn:Hb. destruct Hh as [buf HN|data tail HN Ht].
  - unfold contains. cbn [current_header]. rewrite bool_decide_false by done. cbn [negb].
    rewrite bind_assoc, (bind_Ok _ _ _ _ _ (flush_idle buf c (eq_sym Hb))).
    pose proof (start_record_spec CRH_ApplicationData buf ltac:(destruct Hok; lia)) as Hst.
    rewrite Hb in Hst. rewrite (bind_Ok _ _ _ _ _ (on_write_buf_run _ _ _ _ Hst)).
    apply (write_core N w [] (drop 5 buf) (with_tx _ c)); [done| | | |done|done];
      unfold TLS_RECORD_OVERHEAD; destruct Hok; lens; lia.
  - unfold contains. cbn [current_header building]. rewrite bool_decide_true by done. cbn [negb].
    rewrite bind_ret. apply (write_core N w data tail c); [done|done|lia|lia|done|done].
Qed.

(** ** A session of writes *)

Fixpoint write_all (ws : list (list byte)) : M (TlsConnection (T := T)) TlsError (list nat) :=
  match ws with
  | [] => mret []
  | w :: ws' => n ← write w; ns ← write_all ws'; mret (n :: ns)
  end.

(** The bytes that the writes [ws] took over, by the counts they returned. *)
Definition taken (ns : list nat) (ws : list (list byte)) : list byte := mjoin (zip_with take ns ws).

Lemma write_all_spec N ws : forall data c,
  opened c = true -> tx_holds N data (record_write_buf c) -> buffer_size_ok N ->
  can_send (length ws) c ->
  exists ns c' chunks data', write_all ws c = (Ok ns, c') /\
    sent_records c (AppData <$> chunks) c' /\ tx_holds N data' (record_write_buf c') /\
    data ++ taken ns ws = mjoin chunks ++ data' /\ length chunks <= length ws /\
    Forall (fun x => length x <= N - 133) chunks /\
    Forall2 (fun n w => n <= length w /\ (134 <= N -> w <> [] -> 0 < n)) ns ws.
Proof.
  induction ws as [|w ws IH]; intros data c Ho Hh Hok Hs.
  - exists [], c, [], data. split_and!; try done; [apply sent_nil|by rewrite app_nil_r].
  - destruct (write_spec N w data c Ho Hh Hok) as (n & c1 & Hw & ch1 & d1 & Hse & Hh1 & Hd & Hl & HF & Hn & Hp).
    { destruct Hs as [? Hs]. split; [done|]. simpl in Hs. lia. }
    assert (can_send (length ws) c1) as Hs1.
    { apply (can_send_after _ (AppData <$> ch1) c); [|done]. rewrite length_fmap.
      destruct Hs as [? Hs]. split; [done|]. simpl in Hs. lia. }
    destruct (IH d1 c1) as (ns & c2 & ch2 & d2 & Hw2 & Hse2 & Hh2 & Hd2 & Hl2 & HF2 & Hns);
      [by destruct Hse as (_ & _ & _ & ->)|done..|].
    exists (n :: ns), c2, (ch1 ++ ch2), d2. cbn [write_all].
    rewrite (bind_Ok _ _ _ _ _ Hw), (bind_Ok _ _ _ _ _ Hw2). split_and!; [done| |done| | | |].
    + rewrite fmap_app. by eapply sent_trans.
    + unfold taken in *. simpl. rewrite join_app, (assoc_L (++)), Hd, <-!(assoc_L (++)). by rewrite Hd2.
    + rewrite length_app. simpl. lia.
    + by apply Forall_app.
    + by constructor.
Qed.

(** ** close *)

Lemma flush_holds N data c :
  tx_holds N data (record_write_buf c) -> buffer_size_ok N -> can_send 1 c ->
  exists c' chunks buf, flush c = (Ok tt, c') /\ sent_records c (AppData <$> chunks) c' /\
    (record_write_buf c' = mkWB buf 0 None /\ length buf = N) /\ mjoin chunks = data /\ length chunks <= 1 /\
    Forall (fun x => length x <= N - 133) chunks.
Proof.
  intros Hh Hok Hs. remember (record_write_buf c) as b eqn:Hb. destruct Hh as [buf HN|data tail HN Ht].
  - exists c, [], buf. rewrite (flush_idle buf) by done. rewrite <-Hb.
    split_and!; try done; [apply sent_nil|simpl; lia].
  - destruct (flush_building N data tail c) as (c' & buf & Hf & Hse & Hh); [done|done|lia|done|done|].
    exists c', [data], buf. simpl. rewrite app_nil_r.
    split; [done|]. split; [done|]. split; [done|]. split_and!; [done|lia|]. constructor; [|done].
    unfold TLS_RECORD_OVERHEAD in *. lia.
Qed.

Definition close_item : AppDataOrAlert := AlertRecord Warning CloseNotify.

Lemma close_spec N data c :
  opened c = true -> tx_holds N data (record_write_buf c) -> buffer_size_ok N -> can_send 2 c ->
  exists c' chunks, close_internal c = (Ok tt, c') /\
    sent_records c ((AppData <$> chunks) ++ [close_item]) c' /\ mjoin chunks = data /\
    length chunks <= 1 /\ Forall (fun x => length x <= N - 133) chunks.
Proof.
  intros Ho Hh Hok Hs. pose proof tag_len as Htag.
  destruct (flush_holds N data c Hh Hok) as (c1 & chunks & buf & Hf & Hse & [Hb HN] & Hd & Hl & HF).
  { destruct Hs. split; [done|]. lia. }
  assert (can_send 1 c1) as Hs1.
  { apply (can_send_after _ (AppData <$> chunks) c); [|done]. rewrite length_fmap.
    destruct Hs as [? Hc]. split; [done|]. lia. }
  unfold close_internal. rewrite (bind_Ok _ _ _ _ _ Hf), bind_get.
  assert (opened c1 = true) as Ho1 by (destruct Hse as (_ & _ & _ & ->); done). rewrite Ho1.
  set (wks := client_state (key_schedule c1)).
  pose proof (write_record_spec wks (close_notify true) (Alert_bytes (mkAlert Warning CloseNotify))
    (Alert_bytes (mkAlert Warning CloseNotify)) buf (server_state (key_schedule c1)) _
    (proj1 Hs1) (Alert_encodes _) (finishes_alert _ _ _ _ _) ltac:(simpl; lia)
    ltac:(unfold closing; destruct Hok; simpl; lia)) as Hwr. cbv zeta in Hwr.
  set (frame := client_frame wks _ _) in Hwr.
  assert (mkRead (r_state (server_state (key_schedule c1))) (r_transcript (server_state (key_schedule c1)))
    = server_state (key_schedule c1)) as Hrk by (by destruct (server_state _)).
  rewrite Hrk in Hwr.
  rewrite (bind_Ok _ _ _ frame (with_tx (written frame buf) c1)).
  2:{ erewrite zoom_run by (rewrite Hb; exact Hwr). unfold with_tx. simpl.
      by destruct (key_schedule c1). }
  destruct (transmit frame true (with_tx (written frame buf) c1) Hs1) as (s' & Hi & Hou & Htr).
  rewrite Htr. eexists _, chunks. split; [done|]. split_and!; [|done..].
  eapply sent_trans; [exact Hse|]. unfold sent_records. simpl. by rewrite app_nil_r.
Qed.
End Writing.

(** ** Properties *)

(** C22: what the client writes is what the server reads.  For a client connection with
    a write buffer of 133 to 65535 bytes and a server that holds the same keys: any
    sequence of writes followed by a close succeeds, the bytes put on the transport are
    a sequence of records that the server decrypts in order to data chunks and a final
    close_notify, and the concatenation of the chunks is exactly the bytes the writes
    took over.  With a buffer of at least 134 bytes every non-empty write takes over at
    least one byte. *)
Theorem client_data_reaches_server
    `{CS : TlsCipherSuite, !TlsCipherSuiteLaws CS, Sock : Socket T, !SocketLaws T, !Reliable T}
    (c : TlsConnection (T := T)) N ws ks buf :
  opened c = true -> tx_holds N [] (record_write_buf c) -> buffer_size_ok N ->
  can_send (length ws + 2) c -> same_keys (tx_keys c) (client_keys ks) -> N <= length buf ->
  exists ns c' records chunks ks' buf',
    (ns ← write_all ws; close_internal;; mret ns) c = (Ok ns, c') /\
    outgoing (delegate c') = outgoing (delegate c) ++ mjoin records /\
    receive_all records (ks, buf) = (Ok ((AppData <$> chunks) ++ [close_item]), (ks', buf')) /\
    mjoin chunks = taken ns ws /\
    Forall2 (fun n w => n <= length w /\ (134 <= N -> w <> [] -> 0 < n)) ns ws.
Proof.
  intros Ho Hh Hok Hs Hsync Hbuf. pose proof tag_len as Htag.
  destruct (write_all_spec N ws [] c Ho Hh Hok) as (ns & c1 & ch1 & d1 & Hw & Hse & Hh1 & Hd & Hl & HF & Hn).
  { destruct Hs. split; [done|]. lia. }
  assert (can_send 2 c1) as Hs1.
  { apply (can_send_after _ (AppData <$> ch1) c); [|done]. rewrite length_fmap.
    destruct Hs. split; [done|]. lia. }
  destruct (close_spec N d1 c1) as (c2 & ch2 & Hc & Hse2 & Hd2 & Hl2 & HF2);
    [by destruct Hse as (_ & _ & _ & ->)|done..|].
  pose proof (sent_trans _ _ _ _ _ Hse Hse2) as Hall. rewrite (assoc_L (++)), <-fmap_app in Hall.
  destruct (receive_all_spec ((AppData <$> (ch1 ++ ch2)) ++ [close_item]) (tx_keys c) ks buf Hsync (proj1 Hs))
    as (ks' & buf' & Hr & _).
  { rewrite !length_app, length_fmap, length_app. simpl. destruct Hs. lia. }
  { apply Forall_app. split.
    - apply Forall_fmap. apply (Forall_impl (fun x => length x <= N - 133)); [by apply Forall_app|].
      intros x Hx. unfold item_ok, compose. simpl. destruct Hok. lia.
    - constructor; [|done]. unfold item_ok. simpl. destruct Hok. lia. }
  exists ns, c2, (sealed_all (tx_keys c) ((AppData <$> (ch1 ++ ch2)) ++ [close_item])), (ch1 ++ ch2), ks', buf'.
  rewrite (bind_Ok _ _ _ _ _ Hw), (bind_Ok _ _ _ _ _ Hc).
  split_and!; [done|by destruct Hall|done| |done].
  rewrite join_app, Hd2. by rewrite <-Hd.
Qed.

(** An open connection over an in-memory transport. *)
Definition demo_connection : TlsConnection (CS := Toy.suite) (T := Chunked) :=
  mkConn (mkChunked [] [] 3) true demo_schedule (RecordReader_new (zeros 64)) (mkWB (zeros 140) 0 None)
    DecryptedBufferInfo_default Strict.

Definition demo_writes : list (list byte) := [replicate 10 x61; [x62]; replicate 5 x63].

Lemma client_data_reaches_server_witness :
  exists ns c' records chunks ks' buf',
    (ns ← write_all demo_writes; close_internal;; mret ns) demo_connection = (Ok ns, c') /\
    outgoing (delegate c') = outgoing (delegate demo_connection) ++ mjoin records /\
    receive_all records (demo_schedule, zeros 140)
      = (Ok ((AppData <$> chunks) ++ [close_item]), (ks', buf')) /\
    mjoin chunks = taken ns demo_writes /\
    Forall2 (fun n w => n <= length w /\ (134 <= 140 -> w <> [] -> 0 < n)) ns demo_writes.
Proof.
  apply (client_data_reaches_server (CS := Toy.suite) demo_connection 140 demo_writes demo_schedule (zeros 140)).
  - done.
  - by apply (tx_idle 140 (zeros 140)).
  - split; lia.
  - unfold can_send, kss_wf. simpl. lia.
  - done.
  - simpl. lia.
Defined.

(** The run: three records, the first full (seven bytes), then the rest on close. *)
Example demo_write_counts :
  match (ns ← write_all demo_writes; close_internal;; mret ns) demo_connection with
  | (Ok ns, c) => Some (ns, length (ch_out (delegate c)))
  | _ => None
  end = Some ([7; 1; 5], (22 + 7) + (22 + 6) + 24).
Proof. vm_compute. reflexivity. Qed.
