(* ===== verification/ClientStream.v ===== *)
(** Data from the server to the client: the client's [read] (blocking.rs) over the
    record reader, the in-place decryption and the [ReadBuffer].  [rx_holds] relates a
    connection to the bytes that are still to be handed out; the property is that
    reads return them in order. *)

From S2P Require Import Prelude Errors CryptoBuffer ParseBuffer Wire ExtensionData Extensions.
From S2P Require Import CryptoSuite KeySchedule KeyScheduleProps ClientHello Handshake Server.
From S2P Require Import ServerRecords Record WriteBuffer RecordReader ReadBuffer Connection.
From S2P Require Import ClientRecords Blocking.
From Stdlib Require Import ZArith Lia.
From Stdlib Require Import Strings.Byte.
From stdpp Require Import base list option numbers tactics sets.

Section Reading.
Context `{CS : TlsCipherSuite, !TlsCipherSuiteLaws CS}.
Context {T : Type} `{Sock : Socket T, !SocketLaws T, !Reliable T}.
Implicit Types c : TlsConnection (T := T).

Definition rx_cap c : nat := length (rr_buf (record_reader c)).

(** A chunk of data that fits a record and the receive buffer. *)
Definition chunk_ok (cap : nat) (d : list byte) : Prop :=
  length d + 1 + TagLen <= cap /\ (Z.of_nat (length d + 1 + TagLen) <= 65535)%Z.

(** An open connection with [avail] decrypted and not yet handed out. *)
Record ready c (cap : nat) (avail : list byte) : Prop := {
  ready_open : opened c = true;
  ready_reader : reader_ready (record_reader c);
  ready_cap : rx_cap c = cap;
  ready_info : info_wf cap (decrypted c);
  ready_avail : available (decrypted c) (rr_buf (record_reader c)) = avail;
}.

Lemma ready_waiting c cap : ready c cap [] -> waiting c.
Proof.
  intros [Ho Hr Hc Hi Ha]. split_and!; [done|done|]. unfold rx_cap in Hc. subst cap.
  apply (f_equal length) in Ha. rewrite length_available in Ha by done. destruct Hi. simpl in Ha. lia.
Qed.

Lemma read_app_sealed c cap st d rest :
  ready c cap [] -> same_keys st (server_keys (key_schedule c)) -> kss_wf st ->
  (counter st + 1 < 2 ^ 64)%Z -> chunk_ok cap d ->
  incoming (delegate c) = sealed st d CT_ApplicationData ++ rest ->
  exists c', read_application_data c = (Ok tt, c') /\ ready c' cap d /\
    incoming (delegate c') = rest /\
    server_keys (key_schedule c') = bump (server_keys (key_schedule c)).
Proof.
  intros Hrd Hsync Hw Hctr [Hfit Hl] Hin. pose proof tag_len as Htag.
  destruct Hrd as [Ho Hr Hc Hi Ha].
  destruct (sealed_parts st d CT_ApplicationData Hw Hl) as (body & Hseal & Hb & Hframe & Hopen).
  set (hdr := record_header _) in *.
  destruct (read_application_framed c hdr body rest _ _ Hr
    ltac:(rewrite Hin; apply Hframe; unfold rx_cap in Hc; lia)
    (decode_app_record _ _ _ _ Hl Hb)) as (s' & Hi' & _ & Hread).
  destruct (stored_split (record_reader c) body Hr ltac:(unfold rx_cap in Hc; lia))
    as (pre & post & Hbuf & Hpre & Hlen).
  set (app := SR_ApplicationData _) in Hread.
  unfold decrypt_incoming in Hread. rewrite bind_get in Hread.
  cbn [record_reader after_read] in Hread. rewrite Hbuf in Hread.
  set (rks := mkRead (server_keys (key_schedule c)) (transcript_hash (key_schedule c))).
  pose proof (decrypt_record_view (handle_callback (length (pre ++ body ++ post))) rks
    (decrypted c, opened c) hdr pre body post eq_refl) as Hv. cbv zeta in Hv.
  change (r_state rks) with (server_keys (key_schedule c)) in Hv. rewrite (Hopen _ Hsync) in Hv.
  rewrite (inner_view_plain d CT_ApplicationData) in Hv by done.
  rewrite take_app_length in Hv. unfold dispatch in Hv.
  unfold rx_cap in Hc.
  rewrite (bind_Ok _ _ _ tt (rks, pre ++ ((d ++ [ct_byte CT_ApplicationData]) ++
    drop (length (d ++ [ct_byte CT_ApplicationData])) body) ++ post,
    (mkInfo (length pre) (length d) 0, opened c))) in Hv.
  2:{ apply callback_run. unfold handle_callback, handle. apply on_snd_run. cbn [ad_start ad_len].
      rewrite decide_True by (rewrite !length_app in *; lia). by erewrite on_fst_run. }
  assert (counter (r_state rks) + 1 < 2 ^ 64)%Z as Hc1 by (cbn; by destruct Hsync as (_ & _ & <-)).
  rewrite (on_fst_run _ _ _ _ _ (on_fst_run _ _ _ _ _ (kss_read_increment_spec rks Hc1))) in Hv.
  eexists. rewrite Hread. split.
  - erewrite zoom_run; [done|]. cbn [record_reader after_read key_schedule server_state decrypted opened].
    rewrite Hbuf. unfold app. rewrite <-Hpre, Hb in *. exact Hv.
  - cbn. split; [|done]. split; cbn; [done| | | |].
    + destruct (stored_ready (record_reader c) body Hr ltac:(lia)) as [[Hp' Hd'] Hl'].
      split; [done|]. cbn. rewrite Hl' in Hd'. cbn in Hd'. rewrite !length_app, length_drop in *. cbn in *. lia.
    + unfold rx_cap. cbn. rewrite !length_app, length_drop in *. cbn in *. lia.
    + split; cbn; rewrite !length_app in *; lia.
    + unfold available. cbn. rewrite Nat.add_0_r, Nat.sub_0_r, drop_app_length, <-!(assoc_L (++)).
      by rewrite take_app_length.
Qed.

(** ** The connection and the data on its way *)

(** [avail] is decrypted in the receive buffer, the records of [chunks] are the next on
    the transport, sealed with the keys the client reads with. *)
Record rx_holds c (cap : nat) (avail : list byte) (chunks : list (list byte)) : Prop := {
  rx_ready : ready c cap avail;
  rx_keys : kss_wf (server_keys (key_schedule c));
  rx_counter : (counter (server_keys (key_schedule c)) + Z.of_nat (length chunks) < 2 ^ 64)%Z;
  rx_chunks : Forall (chunk_ok cap) chunks;
  rx_incoming : exists st rest, same_keys st (server_keys (key_schedule c)) /\
    incoming (delegate c) = mjoin (sealed_all st (AppData <$> chunks)) ++ rest;
}.

(** What the user is still to read. *)
Definition unread (avail : list byte) (chunks : list (list byte)) : list byte := avail ++ mjoin chunks.

Lemma same_keys_wf st st' : same_keys st st' -> kss_wf st' -> kss_wf st.
Proof. unfold same_keys, kss_wf. by intros (-> & -> & ->). Qed.

Lemma rx_step c cap d chunks :
  rx_holds c cap [] (d :: chunks) ->
  exists c', read_application_data c = (Ok tt, c') /\ rx_holds c' cap d chunks.
Proof.
  intros [Hr Hw Hctr HF (st & rest & Hsync & Hin)]. apply Forall_cons in HF as [Hd HF].
  pose proof (same_keys_wf _ _ Hsync Hw) as Hw'. simpl in *. rewrite <-(assoc_L (++)) in Hin.
  assert (counter st = counter (server_keys (key_schedule c))) as Ec by apply Hsync.
  destruct (read_app_sealed c cap st d _ Hr Hsync Hw' ltac:(lia) Hd Hin) as (c' & Hrd & Hr' & Hin' & Hk).
  exists c'. split; [done|]. split; [done|..]; rewrite ?Hk.
  - apply bump_wf; [done|lia].
  - simpl. lia.
  - done.
  - exists (bump st), rest. split; [by apply same_keys_bump|done].
Qed.

Lemma wait_done cap fuel avail c :
  ready c cap avail -> avail <> [] -> wait_loop fuel c = (Ok tt, c).
Proof.
  intros [_ _ Hc Hi Ha] Hne. unfold rx_cap in Hc.
  assert (length avail = dbi_len (decrypted c) - dbi_consumed (decrypted c)) as Hl.
  { rewrite <-Ha. apply length_available. by rewrite Hc. }
  destruct avail as [|b l]; [done|]. simpl in Hl. destruct Hi.
  destruct fuel; cbn [wait_loop]; rewrite bind_get; unfold info_is_empty, info_len;
    rewrite usub_Some by lia; rewrite bind_assoc, bind_unwrap_Some, bind_ret;
    by rewrite bool_decide_false by lia.
Qed.

Lemma wait_loop_spec cap chunks : forall fuel avail c,
  rx_holds c cap avail chunks -> unread avail chunks <> [] -> length chunks <= fuel ->
  exists c' avail' chunks', wait_loop fuel c = (Ok tt, c') /\ rx_holds c' cap avail' chunks' /\
    avail' <> [] /\ unread avail' chunks' = unread avail chunks /\ length chunks' <= length chunks.
Proof.
  induction chunks as [|d chunks IH]; intros fuel avail c Hrx Hne Hf;
    (destruct (decide (avail = [])) as [->|Ha];
     [|exists c, avail; eexists; split_and!; [by eapply wait_done; [apply Hrx|]|done..]]).
  - done.
  - destruct fuel as [|fuel]; [simpl in Hf; lia|].
    rewrite wait_one by (eapply ready_waiting, Hrx).
    destruct (rx_step c cap d chunks Hrx) as (c1 & Hrd & Hrx1).
    destruct (IH fuel d c1 Hrx1) as (c' & a' & ch' & Hw & Hrx' & Ha' & Hu & Hl); [done|simpl in Hf; lia|].
    exists c', a', ch'. rewrite (bind_Ok _ _ _ _ _ Hrd). split_and!; try done. simpl. lia.
Qed.

(** ** read *)

Lemma consume_ready c cap avail n :
  ready c cap avail -> n <= length avail ->
  ready (snd (set_decrypted (mkInfo (dbi_offset (decrypted c)) (dbi_len (decrypted c))
                               (dbi_consumed (decrypted c) + n)) c)) cap (drop n avail).
Proof.
  intros [Ho Hr Hc Hi Ha] Hn. unfold rx_cap in Hc.
  assert (length avail = dbi_len (decrypted c) - dbi_consumed (decrypted c)) as Hl.
  { rewrite <-Ha. apply length_available. by rewrite Hc. }
  destruct Hi as [Hi1 Hi2]. split; cbn; [done|done|done|split; cbn; lia|].
  rewrite <-Ha. unfold available. cbn. rewrite skipn_firstn_comm, drop_drop. f_equal; [lia|]. f_equal. lia.
Qed.

Lemma client_read_spec cap fuel buf avail chunks c :
  rx_holds c cap avail chunks -> unread avail chunks <> [] -> buf <> [] -> length chunks <= fuel ->
  exists xs c' avail' chunks', read fuel buf c = (Ok (splice buf 0 xs, length xs), c') /\
    rx_holds c' cap avail' chunks' /\ 0 < length xs <= length buf /\
    unread avail chunks = xs ++ unread avail' chunks' /\ length chunks' <= length chunks.
Proof.
  intros Hrx Hne Hb Hf. unfold read. rewrite decide_False by done. unfold read_buffered.
  rewrite bind_assoc, bind_get. rewrite (ready_open _ _ _ (rx_ready _ _ _ _ Hrx)).
  destruct (wait_loop_spec cap chunks fuel avail c Hrx Hne Hf) as (c1 & a1 & ch1 & Hw & Hrx1 & Ha1 & Hu & Hl).
  rewrite bind_assoc, (bind_Ok _ _ _ _ _ Hw), bind_assoc, bind_get.
  pose proof Hrx1 as [Hr1 Hk1 Hc1 HF1 Hin1].
  pose proof Hr1 as [_ _ Hcap Hi Hav]. unfold rx_cap in Hcap.
  rewrite create_read_buffer_spec, bind_unwrap_Some, Hav by (by rewrite Hcap).
  set (xs := take (length buf) a1). exists xs. eexists _, (drop (length xs) a1), ch1.
  unfold use_buffer. rewrite pop_into_spec by (unfold rb_wf; simpl; lia). cbv zeta. unfold rb_rest. cbn [rb_data rb_consumed].
  rewrite drop_0. fold xs. split; [done|].
  assert (length xs <= length a1) as Hx by (unfold xs; len).
  split_and!.
  - pose proof (consume_ready c1 cap a1 (length xs) Hr1 Hx) as Hr2. by split.
  - unfold xs. rewrite length_take. destruct a1, buf; simpl; try done; lia.
  - unfold xs. len.
  - rewrite <-Hu. unfold unread. rewrite (assoc_L (++)). f_equal. unfold xs.
    rewrite length_take, <-(take_drop (length buf) a1) at 1. f_equal.
    destruct (decide (length buf <= length a1)); [by rewrite Nat.min_l by lia|].
    by rewrite Nat.min_r, !drop_ge by lia.
  - done.
Qed.

(** The loop of [read_exact]: read [total] bytes through a buffer of [size]. *)
Fixpoint read_exact (k fuel size total : nat) : M (TlsConnection (T := T)) TlsError (list byte) :=
  if decide (total = 0) then mret []
  else match k with
  | O => diverge
  | S k' =>
      '(buf, n) ← read fuel (zeros (min size total));
      xs ← read_exact k' fuel size (total - n);
      mret (take n buf ++ xs)
  end.

Lemma read_exact_spec cap fuel size : 0 < size -> forall k total avail chunks c,
  rx_holds c cap avail chunks -> total <= length (unread avail chunks) -> total <= k ->
  length chunks <= fuel ->
  exists c' avail' chunks', read_exact k fuel size total c = (Ok (take total (unread avail chunks)), c') /\
    rx_holds c' cap avail' chunks' /\ drop total (unread avail chunks) = unread avail' chunks'.
Proof.
  intros Hs. induction k as [|k IH]; intros total avail chunks c Hrx Ht Hk Hf; cbn [read_exact].
  - rewrite decide_True by lia. assert (total = 0) as -> by lia. exists c, avail, chunks. by rewrite drop_0.
  - case_decide as H0; [subst; exists c, avail, chunks; by rewrite drop_0|].
    destruct (client_read_spec cap fuel (zeros (min size total)) avail chunks c Hrx) as
      (xs & c1 & a1 & ch1 & Hr & Hrx1 & Hx & Hu & Hl); [|by destruct (min size total) eqn:?; [lia|]|done|].
    { intros Hn. rewrite Hn in Ht. simpl in Ht. lia. }
    unfold zeros in Hx. rewrite length_replicate in Hx. rewrite Hu in Ht |- *. rewrite length_app in Ht.
    destruct (IH (total - length xs) a1 ch1 c1 Hrx1) as (c2 & a2 & ch2 & Hr2 & Hrx2 & Hd); [lia..|].
    exists c2, a2, ch2. rewrite (bind_Ok _ _ _ _ _ Hr). cbv beta iota. rewrite (bind_Ok _ _ _ _ _ Hr2).
    split_and!; [|done|].
    + unfold splice. simpl. rewrite take_app_length, take_app_ge by lia. done.
    + by rewrite drop_app_ge by lia.
Qed.
End Reading.

(** ** Properties *)

(** C24: the client's reads return what the server sent.  When the next records on the
    transport are data chunks sealed with the keys the client reads with (each fitting
    the receive buffer; empty chunks allowed), reading any number of bytes up to what
    was sent, through a buffer of any non-zero size and however the transport cuts the
    stream, returns exactly that prefix of the data, and the rest stays to be read. *)
Theorem client_reads_stream
    `{CS : TlsCipherSuite, !TlsCipherSuiteLaws CS, Sock : Socket T, !SocketLaws T, !Reliable T}
    (c : TlsConnection (T := T)) cap size total avail chunks :
  rx_holds c cap avail chunks -> 0 < size -> total <= length (unread avail chunks) ->
  exists c' avail' chunks',
    read_exact total (length chunks) size total c = (Ok (take total (unread avail chunks)), c') /\
    rx_holds c' cap avail' chunks' /\ drop total (unread avail chunks) = unread avail' chunks'.
Proof. intros. by apply read_exact_spec. Qed.

(** Three chunks, one empty, read four bytes at a time from a transport that delivers
    two bytes at a time. *)
Definition demo_chunks : list (list byte) := [replicate 6 x61; []; [x62; x63; x64]].
Definition demo_reader : TlsConnection (CS := Toy.suite) (T := Chunked) :=
  mkConn (mkChunked (mjoin (sealed_all demo_keys (AppData <$> demo_chunks))) [] 1) true demo_schedule
    (RecordReader_new (zeros 40)) (mkWB (zeros 140) 0 None) DecryptedBufferInfo_default Strict.

Lemma client_reads_stream_witness :
  exists c' avail' chunks',
    read_exact 8 3 4 8 demo_reader = (Ok (replicate 6 x61 ++ [x62; x63]), c') /\
    rx_holds c' 40 avail' chunks' /\ [x64] = unread avail' chunks'.
Proof.
  apply (client_reads_stream (CS := Toy.suite) demo_reader 40 4 8 [] demo_chunks).
  - split.
    + split; try done; [split; simpl; lia|split; simpl; lia].
    + unfold kss_wf. simpl. lia.
    + simpl. lia.
    + repeat constructor; unfold chunk_ok; simpl; lia.
    + exists demo_keys, []. by rewrite app_nil_r.
  - lia.
  - simpl. lia.
Defined.
