(* ===== verification/ClientHandshake.v ===== *)
(** The client's handshake as a whole (connection.rs, [open] of blocking.rs): what is
    true when it succeeds, whatever the network did; that it ends; and that it succeeds
    against a server that follows RFC 8446. *)

From S2P Require Import Prelude Errors CryptoBuffer ParseBuffer Wire ExtensionData Extensions.
From S2P Require Import CryptoSuite KeySchedule KeyScheduleProps ClientHello Handshake Server.
From S2P Require Import ServerRecords ServerHandshake ServerSteps ServerSpec Record WriteBuffer.
From S2P Require Import ClientOffer RecordReader ReadBuffer Connection ClientRecords Blocking.
From Stdlib Require Import ZArith Lia.
From Stdlib Require Import Strings.Byte.
From Stdlib Require Strings.String.
From stdpp Require Import base list option numbers tactics sets.

Import Stdlib.Strings.String.StringSyntax.

(** ** Writing a record, when it succeeds *)

Lemma post_with_buffer {X} (op : M (CryptoBuffer * X) TlsError unit) w x Q :
  post op (wrap_with_pos (wb_buffer w) (wb_pos w), x) (fun _ p => Q (snd p)) ->
  post (with_buffer op) (w, x) (fun _ p => Q (snd p)).
Proof.
  intros H a s'. unfold with_buffer. destruct (op _) as [r [c x']] eqn:Hop.
  intros [= -> <-]. by apply (H a (c, x')).
Qed.

Section Writing.
Context `{CS : TlsCipherSuite, !TlsCipherSuiteLaws CS}.

(** A record changes the read half of the key schedule in its transcript only. *)
Lemma write_record_keeps r wks w rks :
  post (write_record r wks) (w, Some rks) (fun _ st => exists t, snd st = Some (mkRead (r_state rks) t)).
Proof.
  unfold write_record. apply post_bind, post_get. case_decide; [apply post_err|].
  apply post_bind, post_on_fst. eapply post_mono; [apply post_True|]. intros _ w1 _.
  apply post_bind. eapply post_mono.
  - apply (post_with_buffer _ _ _ (fun o => exists t, o = Some (mkRead (r_state rks) t))).
    apply post_bind, post_on_fst. eapply post_mono; [apply post_True|]. intros _ c1 _.
    apply post_bind, post_on_fst. eapply post_mono; [apply post_True|]. intros _ c2 _.
    apply post_bind, post_get. apply post_bind, post_ok_or. intros ? [= <-].
    apply post_bind, post_zoom. eapply post_mono; [apply post_True|]. intros _ [c3 t] _.
    apply post_on_fst. eapply post_mono; [apply post_True|]. intros _ c4 _. by exists t.
  - intros _ [w2 o] [t Ht]. cbn [snd] in Ht. subst o. apply post_on_fst. eapply post_mono; [apply post_True|]. intros ? w3 _. by exists t.
Qed.

(** The transcript after the first record of a connection. *)
Lemma write_record_transcript wks r xs ys buf rks t' :
  encodes (payload_encoder r) xs -> finishes wks r xs (r_transcript rks) ys t' ->
  post (write_record r wks) (mkWB buf 0 None, Some rks)
    (fun _ st => snd st = Some (mkRead (r_state rks) t')).
Proof.
  intros He [Hly Hf]. unfold write_record. apply post_bind, post_get. cbn [current_header].
  rewrite decide_False by (by intros []). set (h := ClientRecord_header r).
  apply post_bind, post_on_fst. destruct (decide (5 <= length buf)) as [Hb|Hb].
  2:{ intros ? ? Hs. destruct (start_record_small h buf ltac:(lia)) as (e & w' & Hs' & _). congruence. }
  eapply post_run; [by apply start_record_spec|].
  apply post_bind. eapply (post_mono _ _ (fun _ p => snd p = Some (mkRead (r_state rks) t')));
    [|intros ? [w2 o] Ho; apply post_on_fst; eapply post_mono; [apply post_True|intros ? ? _; exact Ho]].
  apply (post_with_buffer _ _ _ (fun o => o = Some (mkRead (r_state rks) t'))). unfold wrap_with_pos. cbn [wb_buffer wb_pos].
  apply post_bind, post_on_fst. eapply post_run; [apply move_forward|].
  apply post_bind, post_on_fst. destruct (decide (length xs <= length (drop 5 buf))) as [Hx|Hx].
  - pose proof (encode_payload_spec r xs (header_bytes h 0) (drop 5 buf) He Hx) as Hp.
    rewrite length_header_bytes in Hp. eapply post_run; [exact Hp|].
    apply post_bind, post_get. apply post_bind, post_ok_or. intros ? [= <-].
    pose proof (Hf (header_bytes h 0) (drop (length xs) (drop 5 buf))) as Hf'. rewrite length_header_bytes in Hf'.
    apply post_bind, post_zoom. cbn [fst]. eapply post_run; [exact Hf'|].
    apply post_on_fst. eapply post_mono; [apply post_True|done].
  - unfold encode_payload. apply post_bind, post_get, post_bind.
    change (match r with CR_Handshake _ _ => _ | CR_Alert _ _ => _ end) with (payload_encoder r).
    intros ? c' Hm. exfalso. destruct a.
    apply (encodes_inv_Ok _ _ _ _ He) in Hm as [Hroom _].
    + unfold room, capacity in Hroom. cbn [cb_buf cb_offset cb_len] in Hroom. rewrite length_app, length_header_bytes in Hroom. lia.
    + unfold cb_wf, capacity. cbn [cb_buf cb_offset cb_len]. rewrite length_app, length_header_bytes. lia.
Qed.
End Writing.

(** ** Reading and dispatching, when they succeed *)

Section Reading.
Context `{CS : TlsCipherSuite, !TlsCipherSuiteLaws CS}.

(** A message [m] read with transcript [d] before it and [d'] after it. *)
Definition message_read (m : ServerHandshake) (d d' : list byte) : Prop :=
  exists xs, message_wire m xs /\ d' = d ++ xs /\ (forall f, m = SHS_Finished f -> hash f = Some (digest_out d)).

Lemma decode_post header start data d :
  post (ServerRecord_decode header start data) d
    (fun rec d' => match rec with SR_Handshake m => message_read m d d' | _ => d' = d end).
Proof.
  unfold ServerRecord_decode, content_length, RecordHeader_content_type. repeat post_step.
  case_decide; [apply post_panic|]. repeat post_step. case_match; repeat post_step.
  - unfold ChangeCipherSpec_read. by repeat post_step.
  - eapply post_mono; [apply post_True|]. intros al b' _. by apply post_ret.
  - eapply post_mono; [eapply post_wp, read_spec, pb_new_wf|].
    intros m [b' d'] (_ & xs & _ & Hx & -> & Hh). apply post_ret. by exists xs.
  - done.
Qed.

Context {T : Type} `{Sock : Socket T}.

Lemma read_post r (s : T) d :
  post RecordReader.read (r, s, d)
    (fun rec '(_, _, d') => match rec with SR_Handshake m => message_read m d d' | _ => d' = d end).
Proof.
  unfold RecordReader.read. apply post_bind, post_on_fst. eapply post_mono; [apply post_True|]. intros hdr [r1 s1] _.
  apply post_bind. eapply (post_mono _ _ (fun _ st => snd st = d)).
  { unfold content_length. by repeat post_step. }
  intros n [[r2 s2] ?] [= ->]. apply post_bind, post_on_fst. eapply post_mono; [apply post_True|].
  intros _ [r3 s3] _. apply post_zoom. cbn [fst snd]. unfold RecordReader.consume, content_length. repeat post_step.
  eapply post_mono; [apply decode_post|]. done.
Qed.
End Reading.

Section Dispatch.
Context `{CS : TlsCipherSuite, !TlsCipherSuiteLaws CS} {X : Type}.
Context (cb : ServerRecord -> M (ReadKeySchedule * X) TlsError unit).
Context (I : ReadKeySchedule -> X -> Prop).

(** The handler keeps [I] on every message, and on everything else that is dispatched. *)
Definition keeps_message : Prop := forall m rks x t,
  I rks x -> message_read m (r_transcript rks) t ->
  post (cb (SR_Handshake m)) (mkRead (r_state rks) t, x) (fun _ s => I (fst s) (snd s)).
Definition keeps_other : Prop := forall r rks x,
  I rks x -> (forall m, r <> SR_Handshake m) ->
  post (cb r) (rks, x) (fun _ s => I (fst s) (snd s)).

Lemma messages_post : keeps_message -> forall fuel buf rks rx x,
  pb_wf buf -> I rks x ->
  post (messages_loop cb fuel buf) (rks, rx, x) (fun _ s => I (fst (fst s)) (snd s)).
Proof.
  intros Hcb fuel. induction fuel as [|fuel IH]; intros buf rks rx x Hwf HI; cbn [messages_loop];
    case_decide; try (by apply post_ret); [by intros ? ?|].
  repeat post_step. eapply post_mono; [eapply post_wp, read_spec, Hwf|].
  intros m [b' d'] (Hwf' & xs & _ & Hx & -> & Hh). repeat post_step. cbn [fst snd].
  unfold callback. repeat post_step. eapply post_mono; [apply (Hcb m rks x _ HI); by exists xs|].
  intros _ [rks' x'] HI'. by apply IH.
Qed.

Lemma decrypt_post app rks rx x :
  keeps_message -> keeps_other -> (forall rks x, I rks x -> I (bump_read rks) x) -> I rks x ->
  post (decrypt_record cb (SR_ApplicationData app)) (rks, rx, x) (fun _ s => I (fst (fst s)) (snd s)).
Proof.
  intros Hm Ho Hb HI. unfold decrypt_record. apply post_bind, post_get. cbv beta iota. apply post_bind.
  unfold kss_get_nonce. eapply post_run; [apply get_nonce_spec|].
  repeat post_step. eapply post_mono; [apply post_True|]. intros [t n] rx' _. repeat post_step. cbv beta iota.
  repeat post_step. cbn [fst snd].
  eapply (post_mono _ _ (fun _ s => I (fst (fst s)) (snd s))).
  - destruct t; try by apply post_err.
    + repeat post_step. eapply post_mono; [apply post_True|]. intros al b' _.
      unfold callback. repeat post_step. by apply Ho.
    + apply messages_post; [done|apply pb_new_wf|done].
    + unfold callback. repeat post_step. by apply Ho.
  - intros _ [[rks' rx''] x'] HI'. cbn [fst snd] in HI'. repeat post_step.
    unfold kss_read_increment, kss_increment_counter. repeat post_step. cbn [fst snd].
    case_decide; [|apply post_panic]. apply post_put. by apply (Hb rks' x').
Qed.
End Dispatch.

(** ** What a finished handshake guarantees *)

Section Sound.
Context `{CS : TlsCipherSuite, !TlsCipherSuiteLaws CS} {T P : Type} `{Sock : Socket T, CP : CryptoProvider P}.
Implicit Types (hs tsh : list byte) (c : Client (T := T) (P := P)).

Definition server_hs_secret hs tsh : list byte := Derive_Secret hs (b_ "s hs traffic") tsh.

(** The transcript [t] contains a Finished whose MAC is the RFC's for everything before
    it, under the server's handshake traffic secret. *)
Definition authenticated hs tsh (t : list byte) : Prop :=
  exists before l rest, tsh `prefix_of` before /\ length l = 3 /\
    t = before ++ (hs_byte HT_Finished :: l ++ Finished_Mac (server_hs_secret hs tsh) before) ++ rest.

Lemma authenticated_app hs tsh t xs : authenticated hs tsh t -> authenticated hs tsh (t ++ xs).
Proof.
  intros (b & l & rest & Hp & Hl & ->). exists b, l, (rest ++ xs). split_and!; [done|done|].
  by rewrite <-!(assoc_L (++)).
Qed.

Definition reading hs tsh (rks : ReadKeySchedule) : Prop :=
  traffic_secret (r_state rks) = secret_of (server_hs_secret hs tsh) /\
  tsh `prefix_of` r_transcript rks.

(** The provider's verifier, if it has one, accepts a message that ends the transcript [t]. *)
Definition message_accepted (m : ServerHandshake) (t : list byte) (p p' : P) : Prop :=
  match m with
  | SHS_Certificate cert => if has_verifier p then verify_certificate t cert p = (Ok tt, p') else p' = p
  | SHS_CertificateVerify verify => if has_verifier p then verify_signature verify p = (Ok tt, p') else p' = p
  | _ => p' = p
  end.

(** The messages that followed the transcript [t], each accepted in its turn. *)
Inductive checked (p : P) (t : list byte) : list ServerHandshake -> list byte -> P -> Prop :=
| checked_nil : checked p t [] t p
| checked_snoc ms m xs t1 p1 p2 :
    checked p t ms t1 p1 -> message_wire m xs -> message_accepted m (t1 ++ xs) p1 p2 ->
    checked p t (ms ++ [m]) (t1 ++ xs) p2.

Lemma checked_wires p t ms t' p' :
  checked p t ms t' p' -> exists wires, Forall2 message_wire ms wires /\ t' = t ++ mjoin wires.
Proof.
  induction 1 as [|ms m xs t1 p1 p2 _ (wires & Hf & ->) Hw _]; [exists []; by rewrite app_nil_r|].
  exists (wires ++ [xs]). split; [by apply Forall2_app; [|constructor]|].
  by rewrite join_app, (assoc_L (++)); simpl; rewrite app_nil_r.
Qed.

(** What [state] has established, with the handshake data and the transcript. *)
Definition verified (p0 : P) hs tsh (h : Handshake) (t : list byte) (state : State) : Prop :=
  match state with
  | St_ServerVerify => True
  | St_ClientCert => authenticated hs tsh t
  | St_ClientCertVerify | St_ClientFinished =>
      exists th ms p1, traffic_hash h = Some th /\ authenticated hs tsh th /\ checked p0 tsh ms th p1
  | _ => False
  end.

Definition verify_inv (p0 : P) hs tsh (rks : ReadKeySchedule) (x : Handshake * P * State) : Prop :=
  reading hs tsh rks /\ (exists ms, checked p0 tsh ms (r_transcript rks) (snd (fst x))) /\
  verified p0 hs tsh (fst (fst x)) (r_transcript rks) (snd x).

Lemma verified_app (p0 : P) hs tsh h t xs st : verified p0 hs tsh h t st -> verified p0 hs tsh h (t ++ xs) st.
Proof. destruct st; simpl; auto using authenticated_app. Qed.

Lemma reading_app hs tsh rks xs :
  reading hs tsh rks -> reading hs tsh (mkRead (r_state rks) (r_transcript rks ++ xs)).
Proof. intros [Hs Hp]. split; [done|]. by apply prefix_app_r. Qed.

Lemma finished_message_read {S} hs tsh rks f t (s : S) :
  length (server_hs_secret hs tsh) = HashLen -> reading hs tsh rks ->
  message_read (SHS_Finished f) (r_transcript rks) t ->
  post (verify_server_finished (mkRead (r_state rks) t) f) s
    (fun ok s' => s' = s /\ (ok = true -> authenticated hs tsh t)).
Proof.
  intros Hl [Hs Hp] (xs & (ty & l & body & -> & H3 & -> & -> & _) & -> & Hh).
  destruct f as [v h]. specialize (Hh _ eq_refl). cbn [hash verify] in *. subst h. intros ok s'.
  rewrite (verify_server_finished_spec (server_hs_secret hs tsh)) by (done || lia).
  intros [= <- <-]. split; [done|]. intros ->%bool_decide_eq_true. exists (r_transcript rks), l, [].
  by rewrite app_nil_r.
Qed.

Lemma verify_callback_keeps (p0 : P) hs tsh :
  length (server_hs_secret hs tsh) = HashLen ->
  keeps_message verify_callback (verify_inv p0 hs tsh) /\ keeps_other verify_callback (verify_inv p0 hs tsh).
Proof.
  intros Hl. split.
  - intros m rks [[h p] st] t (Hr & [ms Hc] & Hv) Hm. pose proof Hm as (xs & Hx & -> & _). cbn [fst snd] in Hv, Hc.
    assert (forall p', message_accepted m (r_transcript rks ++ xs) p p' ->
      verify_inv p0 hs tsh (mkRead (r_state rks) (r_transcript rks ++ xs)) (h, p', st)) as HI.
    { intros p' Ha. split; [by apply reading_app|]. split; [|by apply verified_app].
      exists (ms ++ [m]). by eapply checked_snoc. }
    destruct m as [sh| | |cert|req|ver|f]; cbn [verify_callback message_accepted] in *; try by apply post_err.
    + by apply post_ret, HI.
    + apply post_bind, post_get. cbv beta iota. destruct (has_verifier p); [|by apply post_ret, HI].
      repeat post_step. intros [] p' Hp. by apply HI.
    + unfold CertificateRequest_try_from. repeat post_step. destruct (HI p eq_refl) as (H1 & H2 & H3).
      split_and!; [done|done|]. by destruct st.
    + apply post_bind, post_get. cbv beta iota. destruct (has_verifier p); [|by apply post_ret, HI].
      repeat post_step. intros [] p' Hp. by apply HI.
    + apply post_bind, post_get. cbv beta iota. apply post_bind.
      eapply post_mono; [by apply (finished_message_read hs tsh rks f)|]. intros ok s' [-> Ha].
      destruct ok; cbn [negb]; [|apply post_err]. specialize (Ha eq_refl). destruct (HI p eq_refl) as (H1 & [ms' H2] & H3).
      case_decide; apply post_put; (split_and!; [done|by eauto|]); [done|]. by eexists _, ms', p.
  - intros r rks [[h p] st] HI Hr. destruct r as [m| | |]; try by apply post_err.
    + by destruct (Hr m).
    + by apply post_ret.
Qed.

(** *** The steps *)

Lemma post_process_error m c (Q : State -> Client (T := T) (P := P) -> Prop) :
  post m c Q -> post (handle_processing_error m) c Q.
Proof.
  intros Hm. unfold handle_processing_error. apply post_bind, post_try.
  - eapply post_mono; [exact Hm|]. intros st c' HQ. by apply post_ret.
  - intros e c' _. destruct e; try apply post_err.
    apply post_bind. eapply post_mono; [apply post_True|]. intros tx c1 _. apply post_bind.
    eapply post_mono; [apply post_True|]. intros _ c2 _. apply post_err.
Qed.

(** Reading a record changes the reader, the transport and the transcript. *)
Lemma read_record_post c :
  post read_record c (fun rec c' => exists r t d,
    c' = mkClient t (cl_handshake c) r (cl_tx c)
           (mkKS (shared (cl_ks c)) (client_state (cl_ks c)) (mkRead (r_state (server_state (cl_ks c))) d))
           (cl_provider c) /\
    match rec with SR_Handshake m => message_read m (transcript_hash (cl_ks c)) d
                 | _ => d = transcript_hash (cl_ks c) end).
Proof.
  unfold read_record. apply post_zoom. eapply post_mono; [apply read_post|].
  intros rec [[r t] d] Hd. by exists r, t, d.
Qed.

(** Writing one changes the write buffer and the transcript. *)
Lemma write_tx_post r c :
  post (write_tx r) c (fun _ c' => exists w t,
    c' = mkClient (cl_transport c) (cl_handshake c) (cl_reader c) w
           (mkKS (shared (cl_ks c)) (client_state (cl_ks c)) (mkRead (r_state (server_state (cl_ks c))) t))
           (cl_provider c)).
Proof.
  unfold write_tx. apply post_bind, post_get, post_zoom.
  eapply post_mono; [apply write_record_keeps|]. intros xs [w o] [t Ht]. cbn [snd] in Ht. subst o. by exists w, t.
Qed.

(** Sending it changes the transport and the write counter. *)
Lemma respond_post tx c :
  post (respond tx) c (fun _ c' =>
    cl_handshake c' = cl_handshake c /\ shared (cl_ks c') = shared (cl_ks c) /\
    server_state (cl_ks c') = server_state (cl_ks c) /\
    traffic_secret (w_state (client_state (cl_ks c'))) = traffic_secret (w_state (client_state (cl_ks c))) /\
    cl_provider c' = cl_provider c).
Proof.
  unfold respond, on_transport, on_ks, write_increment_counter, kss_increment_counter.
  apply post_bind, post_zoom. eapply post_mono; [apply post_True|]. intros _ t _.
  repeat post_step. case_decide; [|apply post_panic]. repeat post_step.
  eapply post_mono; [apply post_True|]. by intros _ t' _.
Qed.

(** *** The invariant of a run *)

Context (config : TlsConfig).
Abbreviation derived_from prk := (mkShared (Derive_Secret prk (b_ "derived") []) (secret_of prk)).

Definition psk_key : list byte := default (zeros HashLen) (fst <$> psk config).
Definition early_secret : list byte := Early_Secret psk_key.

(** The provider after [open] has told its verifier the name of the server. *)
Definition introduced (provider p : P) : Prop :=
  match has_verifier provider, server_name config with
  | true, Some name => set_hostname_verification name provider = (Ok tt, p)
  | _, _ => p = provider
  end.

(** The ClientHello the client sent, with the secret half of its key share; [p0] is the
    provider after that. *)
Definition offered (provider p0 : P) (ch : list byte) (secret : Esk) : Prop :=
  exists random public p, introduced provider p /\ draw p = (Ok (random, secret, public), p0) /\
    ch = hello_sent (mkClientHello config random public) (Binder_Key psk_key) [].

(** The handshake secret and the transcript up to the ServerHello: the key share of
    the server and the secret of the client give the (EC)DHE input. *)
Definition agreed (provider p0 : P) hs tsh : Prop :=
  exists ch secret sh xs ikm, offered provider p0 ch secret /\ message_wire (SHS_ServerHello sh) xs /\
    tsh = ch ++ xs /\ calculate_shared_secret sh secret = Some ikm /\
    hs = Handshake_Secret psk_key ikm.

Context (provider : P).

Definition run_inv (st : State) c : Prop :=
  match st with
  | St_ClientHello => cl_ks c = KeySchedule_new /\ (exists buf, cl_tx c = mkWB buf 0 None) /\
      introduced provider (cl_provider c)
  | St_ServerHello => exists ch secret, offered provider (cl_provider c) ch secret /\
      hs_secret (cl_handshake c) = Some secret /\
      shared (cl_ks c) = derived_from early_secret /\ transcript_hash (cl_ks c) = ch
  | St_ApplicationData => exists hs tsh th p0 ms p1, agreed provider p0 hs tsh /\ authenticated hs tsh th /\
      checked p0 tsh ms th p1 /\
      let ms := Extract (Derive_Secret hs (b_ "derived") []) (zeros HashLen) in
      w_state (client_state (cl_ks c)) = traffic_state (Derive_Secret ms (b_ "c ap traffic") th) /\
      r_state (server_state (cl_ks c)) = traffic_state (Derive_Secret ms (b_ "s ap traffic") th)
  | st => exists p0 hs tsh, agreed provider p0 hs tsh /\ shared (cl_ks c) = derived_from hs /\
      (st = St_ServerVerify -> reading hs tsh (server_state (cl_ks c))) /\
      (st = St_ServerVerify \/ st = St_ClientCert ->
         exists ms, checked p0 tsh ms (transcript_hash (cl_ks c)) (cl_provider c)) /\
      verified p0 hs tsh (cl_handshake c) (transcript_hash (cl_ks c)) st
  end.

Lemma client_hello_inv c :
  run_inv St_ClientHello c -> post (process config St_ClientHello) c run_inv.
Proof.
  intros (Hks & [buf Htx] & Hin). cbn [process]. unfold client_hello, on_ks, on_provider, on_handshake.
  apply post_bind, post_bind, post_zoom. rewrite Hks.
  eapply post_run; [apply initialize_early_secret_spec|]. repeat post_step. cbn [cl_provider].
  intros [[random secret] public] p' Hdraw. repeat post_step. unfold write_tx. repeat post_step.
  cbn [cl_tx cl_ks client_state server_state]. rewrite Htx.
  set (h := mkClientHello config random public).
  eapply post_mono.
  { eapply write_record_transcript; [apply ClientHello_encodes|].
    apply (hello_finishes h _ (Binder_Key psk_key)); [by rewrite length_Binder_Key|done]. }
  intros xs [w o] Ho. cbn [snd] in Ho. subst o. repeat post_step. cbv beta iota. repeat post_step.
  eapply post_mono; [apply respond_post|]. intros _ c' (Hh & Hsh & Hst & _ & Hp). repeat post_step.
  cbn [cl_handshake cl_ks cl_provider shared server_state] in *.
  eexists _, secret. split_and!; [rewrite Hp; by exists random, public, (cl_provider c)|by rewrite Hh|by rewrite Hsh|].
  unfold transcript_hash. by rewrite Hst.
Qed.

Lemma server_hello_inv c :
  run_inv St_ServerHello c -> post (process config St_ServerHello) c run_inv.
Proof.
  intros (ch & secret & Hoff & Hsec & Hsh & Ht). cbn [process]. apply post_bind.
  eapply post_mono; [apply read_record_post|]. intros rec c' (r & t & d & -> & Hd).
  apply post_process_error. unfold process_server_hello.
  destruct rec as [[sh| | | | | |]| | |]; try apply post_err.
  destruct Hd as (xs & Hx & -> & _). unfold on_handshake, on_ks. repeat post_step.
  cbn [cl_handshake cl_ks] in *. rewrite Hsec in H. injection H as <-.
  eapply post_run; [apply initialize_handshake_secret_spec|]. apply post_ret.
  eexists _, _, (ch ++ xs). cbn [cl_handshake cl_ks cl_provider shared with_traffic].
  split_and!; [by eexists ch, secret, sh, xs, _| | | |done].
  - by rewrite Hsh.
  - intros _. rewrite Hsh. unfold transcript_hash. cbn [server_state r_transcript sh_secret].
    change (r_transcript (server_state (cl_ks c))) with (transcript_hash (cl_ks c)). rewrite Ht.
    by split.
  - intros _. exists []. unfold transcript_hash. cbn [server_state r_transcript].
    change (r_transcript (server_state (cl_ks c))) with (transcript_hash (cl_ks c)). rewrite Ht. constructor.
Qed.

Lemma length_server_hs_secret p0 hs tsh : agreed provider p0 hs tsh -> length (server_hs_secret hs tsh) = HashLen.
Proof.
  intros (? & ? & ? & ? & ? & _ & _ & _ & _ & ->). apply length_Derive_Secret. unfold Handshake_Secret.
  by rewrite length_Extract.
Qed.

Lemma server_verify_inv c :
  run_inv St_ServerVerify c -> post (process config St_ServerVerify) c run_inv.
Proof.
  intros (p0 & hs & tsh & Hag & Hsh & Hr & Hms & _). specialize (Hr eq_refl). destruct (Hms (or_introl eq_refl)) as [ms Hc].
  cbn [process]. apply post_bind.
  destruct (verify_callback_keeps p0 hs tsh (length_server_hs_secret _ _ _ Hag)) as [Hkm Hko].
  eapply post_mono; [apply read_record_post|]. intros rec c' (r & t & d & -> & Hd).
  apply post_process_error. unfold process_server_verify. apply post_zoom. cbn [cl_ks cl_reader cl_handshake cl_provider].
  set (x := (cl_handshake c, cl_provider c, St_ServerVerify)).
  assert (verify_inv p0 hs tsh (server_state (cl_ks c)) x) as HI by (split_and!; [done|by exists ms|done]).
  assert (forall d', d' = transcript_hash (cl_ks c) -> mkRead (r_state (server_state (cl_ks c))) d' = server_state (cl_ks c))
    as Hsame by (intros ? ->; unfold transcript_hash; by destruct (server_state (cl_ks c))).
  apply post_bind. eapply (post_mono _ _ (fun _ s => verify_inv p0 hs tsh (fst (fst s)) (snd s))).
  - destruct rec as [m| |al|app].
    + unfold decrypt_record, callback. apply post_zoom. cbn [fst snd server_state r_state].
      apply (Hkm m (server_state (cl_ks c)) x d HI Hd).
    + unfold decrypt_record, callback. apply post_zoom. cbn [fst snd server_state r_state]. rewrite Hsame by done.
      by apply Hko.
    + unfold decrypt_record, callback. apply post_zoom. cbn [fst snd server_state r_state]. rewrite Hsame by done.
      by apply Hko.
    + cbn [server_state r_state]. rewrite Hsame by done. apply decrypt_post; [done|done| |done].
      by intros rks [[h p] st] [[Hs Hp] Hv].
  - intros _ [[rks rx] [[h p] st]] (Hr' & Hc' & Hv). repeat post_step. cbn [fst snd] in *.
    destruct st; try done; exists p0, hs, tsh; split_and!; try done.
Qed.

Lemma client_cert_inv c :
  run_inv St_ClientCert c -> post (process config St_ClientCert) c run_inv.
Proof.
  intros (p0 & hs & tsh & Hag & Hsh & _ & Hms & Hau). destruct (Hms (or_intror eq_refl)) as [ms Hc].
  cbn [process]. apply post_bind.
  eapply (post_mono _ _ (fun a c' => (fst a = St_ClientCertVerify \/ fst a = St_ClientFinished) /\
    shared (cl_ks c') = derived_from hs /\ traffic_hash (cl_handshake c') = Some (transcript_hash (cl_ks c)))).
  - unfold client_cert, on_handshake. repeat post_step. cbv beta iota.
    eapply (post_mono _ _ (fun a c' => (snd a = St_ClientCertVerify \/ snd a = St_ClientFinished) /\
      shared (cl_ks c') = derived_from hs /\ traffic_hash (cl_handshake c') = Some (transcript_hash (cl_ks c)))).
    + case_match; repeat post_step; [|by auto].
      eapply post_mono; [apply post_True|]. intros _ ref _. repeat post_step. by auto.
    + intros [cert st] c' (Hst & Hs & Hth). repeat post_step. eapply post_mono; [apply write_tx_post|].
      intros slice c2 (w & t & ->). repeat post_step. by auto.
  - intros [st tx] c' (Hst & Hs & Hth). apply post_bind. eapply post_mono; [apply respond_post|].
    intros _ c2 (Hh & Hs2 & _). repeat post_step. cbn [fst] in Hst.
    assert (verified p0 hs tsh (cl_handshake c2) (transcript_hash (cl_ks c2)) st) as Hv.
    { rewrite Hh. destruct Hst as [-> | ->]; by exists (transcript_hash (cl_ks c)), ms, (cl_provider c). }
    destruct Hst as [-> | ->]; exists p0, hs, tsh; split_and!; try done; try congruence; by intros [|].
Qed.

Lemma client_cert_verify_inv c :
  run_inv St_ClientCertVerify c -> post (process config St_ClientCertVerify) c run_inv.
Proof.
  intros (p0 & hs & tsh & Hag & Hsh & _ & _ & Hv). cbn [process]. apply post_bind.
  eapply (post_mono _ _ (fun a c' => match fst a with inl st => st = St_ClientFinished | inr _ => True end /\
    shared (cl_ks c') = shared (cl_ks c) /\ cl_handshake c' = cl_handshake c)).
  - unfold client_cert_verify. apply post_bind.
    eapply (post_mono _ _ (fun _ c' => shared (cl_ks c') = shared (cl_ks c) /\ cl_handshake c' = cl_handshake c)).
    { intros a c' Hrun. unfold on_provider, try_, zoom in Hrun. destruct (signer _) as [[]]; by simplify_eq. }
    intros s c1 [H1 H2]. apply post_bind.
    eapply (post_mono _ _ (fun a c' => match fst a with inl st => st = St_ClientFinished | inr _ => True end /\
      shared (cl_ks c') = shared (cl_ks c) /\ cl_handshake c' = cl_handshake c)).
    + destruct s; unfold signed_message, on_provider; repeat post_step; [|done].
      eapply post_mono; [apply post_True|]. intros sg p' _. by repeat post_step.
    + intros [res rec] c2 (Hres & Hs2 & Hh2). cbn [fst] in Hres. repeat post_step.
      eapply post_mono; [apply write_tx_post|]. intros slice c3 (w & t & ->). by repeat post_step.
  - intros [res tx] c1 (Hres & Hs & Hh). apply post_bind. eapply post_mono; [apply respond_post|].
    intros _ c2 (Hh2 & Hs2 & _). cbn [fst] in Hres. destruct res as [st|e]; [subst st|apply post_err].
    apply post_ret. exists p0, hs, tsh. split_and!; [done|congruence|done|by intros [|]|]. by rewrite Hh2, Hh.
Qed.

Lemma client_finished_inv c :
  run_inv St_ClientFinished c -> post (process config St_ClientFinished) c run_inv.
Proof.
  intros (p0 & hs & tsh & Hag & Hsh & _ & _ & th & ms & p1 & Hth & Hau & Hc). cbn [process]. apply post_bind.
  eapply (post_mono _ _ (fun _ c' => shared (cl_ks c') = shared (cl_ks c) /\ cl_handshake c' = cl_handshake c)).
  - unfold client_finished. repeat post_step.
    eapply (post_mono _ _ (fun _ c' => c' = c)).
    { unfold create_client_finished, make_expanded_hkdf_label, Secret_as_ref. repeat post_step.
      case_match; by repeat post_step. }
    intros f ? ->. eapply post_mono; [apply write_tx_post|]. by intros slice c3 (w & t & ->).
  - intros tx c1 [Hs Hh]. apply post_bind. eapply post_mono; [apply respond_post|].
    intros _ c2 (Hh2 & Hs2 & _). unfold client_finished_finalize, on_handshake, on_ks, replace_transcript_hash.
    repeat post_step. rewrite Hh2, Hh, Hth in H. injection H as <-. cbn [cl_ks].
    eapply post_run; [apply initialize_master_secret_spec|]. apply post_ret.
    exists hs, tsh, th, p0, ms, p1. cbn [cl_ks with_traffic client_state server_state w_state r_state transcript_hash r_transcript shared].
    rewrite Hs2, Hs, Hsh. done.
Qed.

Lemma process_inv st c : run_inv st c -> post (process config st) c run_inv.
Proof.
  destruct st; [apply client_hello_inv|apply server_hello_inv|apply server_verify_inv|apply client_cert_inv
    |apply client_cert_verify_inv|apply client_finished_inv|]. intros H. by apply post_ret.
Qed.

Lemma open_loop_inv fuel : forall st c,
  run_inv st c -> post (open_loop fuel config st) c (fun _ => run_inv St_ApplicationData).
Proof.
  induction fuel as [|fuel IH]; intros st c Hc; cbn [open_loop]; (case_decide as Hst; [subst; by apply post_ret|]);
    [by intros ? ?|].
  apply post_bind. eapply post_mono; [by apply process_inv|]. intros st' c' Hc'. by apply IH.
Qed.
End Sound.

(** What a successful [open] has been through. *)
Lemma open_run `{CS : TlsCipherSuite, !TlsCipherSuiteLaws CS, Sock : Socket T, CP : CryptoProvider P}
    fuel config (provider : P) (c c' : TlsConnection (T := T)) :
  key_schedule c = KeySchedule_new -> wb_pos (record_write_buf c) = 0 ->
  current_header (record_write_buf c) = None ->
  open fuel config provider c = (Ok tt, c') ->
  opened c' = true /\
  exists cl : Client (T := T) (P := P), run_inv config provider St_ApplicationData cl /\ key_schedule c' = cl_ks cl.
Proof.
  intros Hks Hpos Hhd Hopen. unfold open in Hopen.
  apply bind_inv_Ok in Hopen as ([] & c1 & Hz & Hso). injection Hso as <-.
  revert Hz. unfold zoom. destruct (open_steps _ _ _) as [r cl] eqn:Hst. intros [= -> <-].
  split; [done|]. exists cl. split; [|done].
  cut (post (open_steps fuel config) (mkClient (delegate c) Handshake_new (record_reader c) (record_write_buf c)
    (key_schedule c) provider) (fun _ => run_inv config provider St_ApplicationData)); [intros H; by eapply H|].
  unfold open_steps. apply post_bind, post_get, post_bind. cbn [cl_provider].
  eapply (post_mono _ _ (fun _ c' => run_inv config provider St_ClientHello c'));
    [|intros _ c2 Hc2; by apply open_loop_inv].
  assert (forall p, introduced config provider p -> run_inv config provider St_ClientHello
    (mkClient (delegate c) Handshake_new (record_reader c) (record_write_buf c) (key_schedule c) p)) as Hi.
  { intros p Hp. split_and!; [done| |done]. exists (wb_buffer (record_write_buf c)). cbn [cl_tx].
    destruct (record_write_buf c); simpl in *; by subst. }
  unfold introduced, on_provider in *. destruct (has_verifier provider), (server_name config); try by apply post_ret, Hi.
  post_step. intros [] p Hp. by apply Hi.
Qed.

(** ** Properties *)

(** C25: a handshake that succeeds is authentic, whatever the network does.  When
    [open] on a fresh connection returns [Ok] over any transport, there are a
    ClientHello that the client sent (with valid binders when a PSK is configured), a
    ServerHello that was received, and the (EC)DHE secret of the two key shares, such
    that the transcript contains a Finished message with the RFC 8446 MAC over all
    messages before it under the server's handshake traffic secret for that PSK and
    secret, and the connection is open with the RFC's application traffic keys for
    that transcript in both directions.  The transcript is made of the messages of the
    server after the ServerHello, and the provider's verifier, told the name of the server
    before, accepted every certificate and every signature among them.  No message of the
    network can make the client accept without that MAC. *)
Theorem client_open_authentic `{CS : TlsCipherSuite, !TlsCipherSuiteLaws CS, Sock : Socket T, CP : CryptoProvider P}
    fuel config (provider : P) (c c' : TlsConnection (T := T)) :
  key_schedule c = KeySchedule_new -> wb_pos (record_write_buf c) = 0 ->
  current_header (record_write_buf c) = None ->
  open fuel config provider c = (Ok tt, c') ->
  opened c' = true /\ exists ch secret p0 sh shm ikm th msgs p1,
    offered config provider p0 ch secret /\ message_wire (SHS_ServerHello sh) shm /\
    calculate_shared_secret sh secret = Some ikm /\
    authenticated (Handshake_Secret (psk_key config) ikm) (ch ++ shm) th /\
    checked p0 (ch ++ shm) msgs th p1 /\
    let ms := Master_Secret (psk_key config) ikm in
    w_state (client_state (key_schedule c')) = traffic_state (Derive_Secret ms (b_ "c ap traffic") th) /\
    r_state (server_state (key_schedule c')) = traffic_state (Derive_Secret ms (b_ "s ap traffic") th).
Proof.
  intros Hks Hpos Hhd Hopen.
  destruct (open_run fuel config provider c c' Hks Hpos Hhd Hopen) as
    (Ho & cl & (hs & tsh & th & p0 & msgs & p1 & (ch & sec & sh & xs & ikm & Hof & Hw & -> & Hsh & ->) & Ha & Hc & Hk) & ->).
  split; [done|]. exists ch, sec, p0, sh, xs, ikm, th, msgs, p1. destruct Hk as [Hk1 Hk2]. split_and!; done.
Qed.

(** ** A run *)

(** A provider with fixed random bytes and a verifier that accepts no certificate. *)
Inductive DemoProvider : Type := demo_provider.

#[global] Instance demo_crypto : CryptoProvider DemoProvider := {|
  Esk := list byte;
  ecdh secret point := Some (secret ++ take 4 point);
  draw := mret (replicate 32 x77, [x01; x02], x04 :: replicate 64 x55);
  has_verifier _ := true;
  set_hostname_verification _ := mret tt;
  verify_certificate _ _ := err InvalidCertificate;
  verify_signature _ := err InvalidSignature;
  signer := err InvalidPrivateKey;
  sign _ := err InvalidPrivateKey;
  SIGNATURE_SIZE := 72;
  client_certificate _ := None;
|}.

Definition demo_config (key : option (list byte * list (list byte))) : TlsConfig :=
  mkConfig (Some (b_ "host")) None key (signature_schemes TlsConfig_new) (named_groups TlsConfig_new) None.

Definition demo_share : list byte := x04 :: replicate 64 x66.
Definition demo_emit : ServerHelloEmit :=
  mkEmit (replicate 32 x42) [] 0x1301
    [SH_SupportedVersions (mkVersionsSH TLS13);
     SH_KeyShare (mkKeyShareSH (mkKeyShareEntry Secp256r1 demo_share))].

(** The flight of a server that follows the RFC. *)
Definition demo_flight (config : TlsConfig) : Flight :=
  let h := mkClientHello config (replicate 32 x77) (x04 :: replicate 64 x55) in
  let key := psk_key (CS := Toy.suite) config in
  let ch := hello_sent (CS := Toy.suite) h (Binder_Key (CS := Toy.suite) key) [] in
  mkFlight (Handshake_Secret (CS := Toy.suite) key ([x01; x02] ++ take 4 demo_share))
    (ch ++ handshake_message HT_ServerHello (server_hello_body demo_emit))
    (plain_record HT_ServerHello (server_hello_body demo_emit)).

Definition demo_fresh (stream : list byte) : TlsConnection (CS := Toy.suite) (T := Chunked) :=
  mkConn (mkChunked stream [] 6) false KeySchedule_new (RecordReader_new (zeros 256))
    (mkWB (zeros 400) 0 None) DecryptedBufferInfo_default Strict.

Definition psk_config : TlsConfig := demo_config (Some (b_ "secret", [b_ "id"])).
Abbreviation demo_run := (open 5 psk_config demo_provider (demo_fresh (fl_bytes (demo_flight psk_config)))).

Lemma demo_open_ok : fst demo_run = Ok tt.
Proof. vm_compute. reflexivity. Qed.

Lemma client_open_authentic_witness :
  exists c', demo_run = (Ok tt, c') /\ opened c' = true /\ exists ch secret p0 sh shm ikm th msgs p1,
    offered psk_config demo_provider p0 ch secret /\ message_wire (SHS_ServerHello sh) shm /\
    calculate_shared_secret sh secret = Some ikm /\
    authenticated (Handshake_Secret (psk_key psk_config) ikm) (ch ++ shm) th /\
    checked p0 (ch ++ shm) msgs th p1 /\
    let ms := Master_Secret (psk_key psk_config) ikm in
    w_state (client_state (key_schedule c')) = traffic_state (Derive_Secret ms (b_ "c ap traffic") th) /\
    r_state (server_state (key_schedule c')) = traffic_state (Derive_Secret ms (b_ "s ap traffic") th).
Proof.
  pose proof demo_open_ok as Hok. destruct demo_run as [r c'] eqn:Hrun. cbn [fst] in Hok. subst r.
  exists c'. split; [reflexivity|].
  apply (client_open_authentic (CS := Toy.suite) 5 psk_config demo_provider
    (demo_fresh (fl_bytes (demo_flight psk_config))) c'); [reflexivity|reflexivity|reflexivity|exact Hrun].
Defined.
