(* ===== verification/ClientRun.v ===== *)
(** The client's handshake against a server that follows RFC 8446, step by step: what
    [open] sends, the state each step leaves, and the keys at the end. *)

From S2P Require Import Prelude Errors CryptoBuffer ParseBuffer Wire ExtensionData Extensions.
From S2P Require Import CryptoSuite KeySchedule KeyScheduleProps ClientHello Handshake Server.
From S2P Require Import ServerRecords ServerHandshake ServerSteps ServerSpec Record WriteBuffer.
From S2P Require Import ClientOffer RecordReader ReadBuffer Connection ClientRecords Blocking.
From S2P Require Import ClientData ClientHandshake.
From Stdlib Require Import ZArith Lia.
From Stdlib Require Import Strings.Byte.
From Stdlib Require Strings.String.
From stdpp Require Import base list option numbers tactics sets.

Import Stdlib.Strings.String.StringSyntax.

(** ** Messages of the server on the wire *)

Section Messages.
Context `{CS : TlsCipherSuite, !TlsCipherSuiteLaws CS}.

(** Type and length of a message; the body is left. *)
Ltac message_head :=
  unfold ServerHandshake_parse, finished_message, ee_message, handshake_message, vec24, hs_byte;
  change (?b :: ?l ++ ?m) with ([b] ++ l ++ m);
  eapply parses_bind; [apply parses_map_err, HandshakeType_parses|];
  eapply parses_bind; [apply parses_map_err, parses_u24|eapply parses_bind_last; [|apply parses_ret]].

Lemma hello_message_parses body sh :
  parses ServerHello_parse body sh -> (Z.of_nat (length body) < 2 ^ 24)%Z ->
  parses ServerHandshake_parse (handshake_message HT_ServerHello body) (SHS_ServerHello sh).
Proof. intros Hp Hl. message_head; [lia|exact Hp]. Qed.

Lemma ee_parses : parses ServerHandshake_parse ee_message SHS_EncryptedExtensions.
Proof.
  message_head; [done|]. eapply parses_bind_last; [|apply parses_ret].
  apply (parse_vector_parses (T := EncryptedExtensionsExtension) 16 []); [done|simpl; lia|done].
Qed.

Lemma finished_parses mac :
  length mac = HashLen ->
  parses ServerHandshake_parse (finished_message mac) (SHS_Finished (mkFinished mac None)).
Proof.
  intros Hm. pose proof hash_len. message_head; [lia|].
  eapply parses_bind_last; [by apply parses_map_err, parses_fill|]. apply parses_ret.
Qed.

Lemma Finished_message_encodes f :
  encodes (ClientHandshake_encode (CHS_Finished f)) (finished_message (verify f)).
Proof.
  unfold ClientHandshake_encode, finished_message, handshake_message. cbn [client_handshake_type encode_inner].
  change (?b :: ?l) with ([b] ++ l). apply encodes_bind; [auto with tls|].
  apply encodes_with_u24_length. unfold Finished_encode. auto with tls.
Qed.

(** A message as [ServerHandshake::read] returns it. *)
Definition with_digest (d : list byte) (m : ServerHandshake) : ServerHandshake :=
  match m with
  | SHS_Finished f => SHS_Finished (mkFinished (verify f) (Some (digest_out d)))
  | h => h
  end.

Lemma read_whole xs m d :
  parses ServerHandshake_parse xs m ->
  ServerHandshake_read (pb_new xs, d) = (Ok (with_digest d m), (mkPB (length xs) xs, d ++ xs)).
Proof.
  intros Hp%parses_whole. unfold ServerHandshake_read, pb_offset, pb_as_slice.
  erewrite bind_Ok by (apply on_fst_run; reflexivity).
  rewrite (bind_Ok _ _ _ _ _ (on_fst_run _ _ _ _ _ Hp)).
  erewrite bind_Ok by (apply on_fst_run; reflexivity). rewrite bind_get. cbn [pb_pos pb_buffer pb_new].
  rewrite sub_Some, bind_unwrap_Some by lia.
  rewrite drop_0, Nat.sub_0_r, firstn_all. by destruct m.
Qed.

Lemma one_message {X} (cb : ServerRecord -> M (ReadKeySchedule * X) TlsError unit) xs m rks rx x rks' x' :
  parses ServerHandshake_parse xs m -> xs <> [] ->
  cb (SR_Handshake (with_digest (r_transcript rks) m)) (mkRead (r_state rks) (r_transcript rks ++ xs), x)
  = (Ok tt, (rks', x')) ->
  messages_loop cb (length xs) (pb_new xs) (rks, rx, x) = (Ok tt, (rks', rx, x')).
Proof.
  intros Hp Hne Hcb. destruct xs as [|b xs]; [done|]. set (msg := b :: xs) in *.
  change (length msg) with (S (length xs)). cbn [messages_loop].
  rewrite decide_False by (simpl; lia).
  pose proof (read_whole msg m (r_transcript rks) Hp) as Hr.
  erewrite bind_Ok. 2:{ apply zoom_run. cbn [fst snd]. rewrite (bind_Ok _ _ _ _ _ Hr). reflexivity. }
  cbv beta iota. cbn [fst snd]. rewrite (bind_Ok _ _ _ _ _ (callback_run _ _ _ _ _ _ _ _ Hcb)).
  destruct (length xs); cbn [messages_loop]; by rewrite decide_True by (simpl; lia).
Qed.
End Messages.

(** ** Steps *)

Section Steps.
Context `{CS : TlsCipherSuite, !TlsCipherSuiteLaws CS} {T P : Type}.
Context `{Sock : Socket T, !SocketLaws T, !Reliable T, CP : CryptoProvider P}.
Implicit Types c : Client (T := T) (P := P).

(** A client between two steps: its key schedule, handshake data, provider, an idle
    write buffer of [N] bytes, a receive buffer of [cap] bytes between two records, and
    the two directions of the transport. *)
Record client_at (N cap : nat) (ks : KeySchedule) (h : Handshake) (p : P) (inc out : list byte) c : Prop := {
  at_ks : cl_ks c = ks;
  at_handshake : cl_handshake c = h;
  at_provider : cl_provider c = p;
  at_tx : exists buf, cl_tx c = mkWB buf 0 None /\ length buf = N;
  at_ready : reader_ready (cl_reader c);
  at_cap : length (rr_buf (cl_reader c)) = cap;
  at_incoming : incoming (cl_transport c) = inc;
  at_outgoing : outgoing (cl_transport c) = out;
}.

Lemma respond_run N cap ks h p inc out tx c :
  client_at N cap ks h p inc out c -> (counter (client_keys ks) + 1 < 2 ^ 64)%Z ->
  exists c', respond tx c = (Ok tt, c') /\
    client_at N cap (with_client_keys (bump (client_keys ks)) ks) h p inc (out ++ tx) c'.
Proof.
  intros [Hks Hh Hp Htx Hr Hcap Hi Ho] Hc.
  destruct (write_all_ok tx (cl_transport c)) as (s1 & H1 & Hi1 & Ho1).
  destruct (flush_ok s1) as (s2 & H2 & Hi2 & Ho2).
  unfold respond, on_transport, on_ks. rewrite (bind_Ok _ _ _ _ _ (zoom_run _ _ _ _ _ _ H1)).
  erewrite bind_Ok; [|apply zoom_run; cbn [cl_ks]; rewrite Hks, write_increment_spec, decide_True by done; reflexivity].
  erewrite zoom_run by exact H2. eexists. split; [done|].
  split; cbn [cl_ks cl_handshake cl_provider cl_tx cl_reader cl_transport]; try done; congruence.
Qed.

Lemma process_ok (m : M Client TlsError State) c st c' :
  m c = (Ok st, c') -> handle_processing_error m c = (Ok st, c').
Proof. intros H. unfold handle_processing_error, mbind, M_bind, try_. by rewrite H. Qed.

(** A record written and sent. *)
Lemma send_run N cap ks h p inc out r xs ys t' c :
  client_at N cap ks h p inc out c -> kss_wf (client_keys ks) ->
  encodes (payload_encoder r) xs ->
  finishes (client_state ks) r xs (transcript_hash ks) ys t' -> (Z.of_nat (length xs) < 2 ^ 16 - 1)%Z ->
  5 + length xs + closing (ClientRecord_header r) <= N ->
  let frame := client_frame (client_state ks) (ClientRecord_header r) ys in
  exists c', write_tx r c = (Ok frame, c') /\ client_at N cap (with_transcript t' ks) h p inc out c'.
Proof.
  intros [Hks Hh Hp (buf & Htx & Hb) Hr Hcap Hi Ho] Hw He Hf Hl HN frame.
  pose proof (write_record_spec (client_state ks) r xs ys buf (server_state ks) t' Hw He Hf Hl ltac:(lia)) as Hwr.
  cbv zeta in Hwr. fold frame in Hwr.
  unfold write_tx. rewrite bind_get, Hks. erewrite zoom_run by (rewrite Htx, Hks; exact Hwr).
  eexists. split; [done|].
  split; cbn [cl_ks cl_handshake cl_provider cl_tx cl_reader cl_transport]; try done.
  - by rewrite Hks.
  - eexists. split; [done|]. rewrite length_app, length_drop. unfold frame.
    rewrite length_client_frame by (done || (destruct Hf; lia)). destruct Hf. lia.
Qed.

Context (config : TlsConfig).
Abbreviation key := (psk_key config).

Definition hello_of_draw (random public : list byte) : list byte :=
  hello_sent (mkClientHello config random public) (Binder_Key key) [].

Lemma client_hello_run N cap p inc out random secret public p' c :
  client_at N cap KeySchedule_new Handshake_new p inc out c ->
  draw p = (Ok (random, secret, public), p') ->
  let h := mkClientHello config random public in let ch := hello_of_draw random public in
  (Z.of_nat (length (hello_unsigned h)) < 2 ^ 16 - 1)%Z -> 5 + length (hello_unsigned h) <= N ->
  exists c', process config St_ClientHello c = (Ok St_ServerHello, c') /\
    client_at N cap (with_client_keys (bump KeyScheduleState_new)
                       (with_transcript ch (early_schedule key KeySchedule_new)))
      (mkHandshake None (Some secret) None) p' inc
      (out ++ header_bytes (CRH_Handshake false) (length ch) ++ ch) c'.
Proof.
  intros Hc Hdraw h ch Hl HN. set (ks1 := early_schedule key KeySchedule_new).
  cbn [process]. unfold client_hello. rewrite bind_assoc. unfold on_ks at 1.
  erewrite bind_Ok; [|apply zoom_run; rewrite (at_ks _ _ _ _ _ _ _ _ Hc); apply initialize_early_secret_spec].
  rewrite bind_assoc. erewrite bind_Ok by (apply zoom_run; cbn [cl_provider]; rewrite (at_provider _ _ _ _ _ _ _ _ Hc);
    exact Hdraw).
  cbv beta iota. rewrite bind_assoc. fold h.
  match goal with |- context [(write_tx _ ≫= _) ?s] => set (c1 := s) end.
  assert (client_at N cap ks1 Handshake_new p' inc out c1) as Hc1 by (by destruct Hc; split).
  destruct (send_run N cap ks1 Handshake_new p' inc out (CR_Handshake (CHS_ClientHello h) false)
    (hello_unsigned h) ch ([] ++ ch) c1 Hc1) as (c2 & Hw & Hc2).
  { split_and!; [apply length_replicate|apply length_replicate|done..]. }
  { apply ClientHello_encodes. }
  { assert (binder_key (client_state ks1) = secret_of (Binder_Key key)) as Hbk by reflexivity.
    assert (HashLen <= length (Binder_Key key)) as Hlb by (by rewrite length_Binder_Key).
    exact (hello_finishes h (client_state ks1) (Binder_Key key) [] Hlb Hbk). }
  { done. }
  { change (closing _) with 0. lia. }
  rewrite (bind_Ok _ _ _ _ _ Hw). rewrite bind_assoc. unfold on_handshake, zoom at 1.
  erewrite bind_Ok by reflexivity. rewrite bind_ret. cbv beta iota.
  match goal with |- context [(respond _ ≫= _) ?s] => set (c3 := s) end.
  assert (client_at N cap (with_transcript ch ks1) (mkHandshake None (Some secret) None) p' inc out c3) as Hc3.
  { destruct Hc2 as [? Hh ? ? ? ? ? ?]. split; try done. cbn. by rewrite Hh. }
  destruct (respond_run _ _ _ _ _ _ _ (client_frame (client_state ks1) (CRH_Handshake false) ch) c3 Hc3) as (c4 & Hr & Hc4); [done|].
  rewrite (bind_Ok _ _ _ _ _ Hr). by exists c4.
Qed.

Lemma frame_fits cap inc hdr payload rest :
  frame cap inc = inr (hdr, payload, rest) -> length payload <= cap.
Proof.
  unfold frame. case_decide; [done|]. destruct (_ ≫= _); [|done]. repeat case_decide; try done.
  intros [= _ <- _]. rewrite length_take. lia.
Qed.

(** The next record of the stream, read and decoded. *)
Lemma read_record_run N cap ks h p inc out hdr payload rest rec d' c :
  client_at N cap ks h p inc out c ->
  frame cap inc = inr (hdr, payload, rest) ->
  (forall start, ServerRecord_decode (mkRecordHeader hdr) start payload (transcript_hash ks) = (Ok (rec start), d')) ->
  exists c', read_record c = (Ok (rec (next_start (cl_reader c) (length payload))), c') /\
    client_at N cap (with_transcript d' ks) h p rest out c' /\ cl_reader c' = stored (cl_reader c) payload.
Proof.
  intros [Hks Hh Hp Htx Hr Hcap Hi Ho] Hf Hd. rewrite <-Hcap, <-Hi in Hf.
  destruct (read_framed _ _ _ _ _ _ _ _ Hr Hf (Hd _)) as (s' & Hrd & Hi' & Ho').
  unfold read_record. erewrite zoom_run by (rewrite Hks; exact Hrd). eexists. split; [done|]. split; [|done].
  destruct (stored_ready (cl_reader c) payload Hr (frame_fits _ _ _ _ _ Hf)) as [Hr' Hl'].
  split; cbn [cl_ks cl_handshake cl_provider cl_tx cl_reader cl_transport]; try done; [by rewrite Hks|congruence..].
Qed.

Lemma server_hello_run N cap ks p inc out body sh secret ikm c :
  let shm := handshake_message HT_ServerHello body in
  client_at N cap ks (mkHandshake None (Some secret) None) p (plain_record HT_ServerHello body ++ inc) out c ->
  parses ServerHello_parse body sh -> calculate_shared_secret sh secret = Some ikm ->
  length shm <= cap -> (Z.of_nat (length shm) < 2 ^ 16)%Z ->
  exists c', process config St_ServerHello c = (Ok St_ServerVerify, c') /\
    client_at N cap (with_traffic (Extract (sh_secret (shared ks)) ikm) (b_ "c hs traffic") (b_ "s hs traffic")
                       (with_transcript (transcript_hash ks ++ shm) ks))
      Handshake_new p inc out c'.
Proof.
  intros shm Hc Hp Hs Hcap Hl.
  set (hdr := [ct_byte CT_Handshake; x03; x03] ++ be_bytes 2 (Z.of_nat (length shm))).
  assert (payload_length hdr = length shm) as Hpl.
  { unfold payload_length, hdr. cbn [app drop]. rewrite drop_0, from_be_be_bytes.
    change (2 ^ (8 * Z.of_nat 2))%Z with 65536%Z. rewrite Z.mod_small by lia. lia. }
  assert (Z.of_nat (length body) < 2 ^ 24)%Z as Hlb.
  { assert (length shm = 4 + length body) by (unfold shm, handshake_message, vec24; len). lia. }
  cbn [process].
  destruct (read_record_run N cap ks _ p _ out hdr shm inc (fun _ => SR_Handshake (SHS_ServerHello sh))
    (transcript_hash ks ++ shm) c Hc) as (c1 & Hr & Hc1 & _).
  - unfold plain_record, vec16. fold shm. rewrite (assoc_L (++) [_; _; _]), <-(assoc_L (++)). fold hdr.
    by apply (frame_inr _ _ _ _ x16 CT_Handshake); rewrite ?Hpl.
  - intros start. unfold ServerRecord_decode.
    rewrite (bind_Ok _ _ _ _ _ (content_length_spec (mkRecordHeader hdr) _ eq_refl)). cbn [rh_data].
    rewrite Hpl, decide_False by lia.
    erewrite bind_Ok by reflexivity. cbv iota. erewrite bind_Ok; [|apply zoom_run;
      apply read_whole, hello_message_parses; [exact Hp|exact Hlb]]. done.
  - rewrite (bind_Ok _ _ _ _ _ Hr). destruct Hc1 as [Hks Hh Hpr Htx Hrd Hcp Hi Ho].
    eexists. split.
    { apply process_ok. unfold process_server_hello, on_handshake, on_ks. rewrite bind_get, Hh. cbn [hs_secret].
      erewrite bind_Ok by (apply zoom_run; reflexivity). rewrite bind_ok_or_Some, Hs, bind_ok_or_Some.
      erewrite bind_Ok by (apply zoom_run; apply initialize_handshake_secret_spec). reflexivity. }
    split; cbn [cl_ks cl_handshake cl_provider cl_tx cl_reader cl_transport]; try done.
    + by rewrite Hks.
    + by rewrite Hh.
Qed.

(** An encrypted handshake message of the server in its own record. *)
Lemma verify_run N cap ks h p inc out msg m h' p' st' c :
  let st := r_state (server_state ks) in let t := transcript_hash ks in
  client_at N cap ks h p (sealed st msg CT_Handshake ++ inc) out c ->
  kss_wf st -> (counter st + 1 < 2 ^ 64)%Z ->
  parses ServerHandshake_parse msg m -> msg <> [] ->
  length msg + 1 + TagLen <= cap -> (Z.of_nat (length msg + 1 + TagLen) <= 65535)%Z ->
  verify_callback (SR_Handshake (with_digest t m)) (mkRead st (t ++ msg), (h, p, St_ServerVerify))
  = (Ok tt, (mkRead st (t ++ msg), (h', p', st'))) ->
  exists c', process config St_ServerVerify c = (Ok st', c') /\
    client_at N cap (mkKS (shared ks) (client_state ks) (mkRead (bump st) (t ++ msg))) h' p' inc out c'.
Proof.
  intros st t Hc Hw Hctr Hp Hne Hcap Hl Hcb. cbn [process].
  destruct (sealed_parts st msg CT_Handshake Hw Hl) as (body & Hsl & Hb & Hfr & Hop).
  set (n := length msg + 1 + TagLen) in *.
  destruct (read_record_run N cap ks h p _ out (record_header n) body inc
    (fun start => SR_ApplicationData (mkAppData (mkRecordHeader (record_header n)) start n n)) t c Hc)
    as (c1 & Hr & Hc1 & Hst).
  { apply Hfr. lia. }
  { intros start. by apply decode_app_record. }
  rewrite (bind_Ok _ _ _ _ _ Hr). destruct Hc1 as [Hks Hh Hpr Htx Hrd Hcp Hi Ho].
  destruct Hc as [_ _ _ _ Hready Hcap0 _ _].
  destruct (stored_split (cl_reader c) body Hready ltac:(lia)) as (pre & post & Hbuf & Hpre & Hlen).
  set (start := next_start (cl_reader c) (length body)) in *.
  pose proof (decrypt_record_view verify_callback (mkRead st t) (h, p, St_ServerVerify) (record_header n)
    pre body post eq_refl) as Hv. cbv zeta in Hv. rewrite Hpre, Hb in Hv.
  assert (open_record st (record_header n ++ body) = Some (msg ++ [ct_byte CT_Handshake])) as Hopen by (by apply Hop).
  cbn [r_state] in Hv. rewrite Hopen, inner_view_plain in Hv by done. cbv zeta iota beta in Hv.
  rewrite take_app_length in Hv. cbn [dispatch] in Hv.
  rewrite (bind_Ok _ _ _ _ _ (one_message verify_callback msg m (mkRead st t) _ _ _ _ Hp Hne Hcb)) in Hv.
  rewrite (on_fst_run _ _ _ _ _ (on_fst_run _ _ _ _ _ (kss_read_increment_spec (mkRead st (t ++ msg)) Hctr))) in Hv.
  assert (length (pre ++ ((msg ++ [ct_byte CT_Handshake]) ++ drop (length (msg ++ [ct_byte CT_Handshake])) body) ++ post)
    = cap) as Hnew.
  { rewrite <-Hcap0, <-Hlen, !length_app, length_drop, Hb, ?length_app. unfold n. simpl. lia. }
  eexists. split.
  { apply process_ok. unfold process_server_verify. apply zoom_run.
    rewrite Hks, Hh, Hpr, Hst, Hbuf. cbn [with_transcript server_state].
    rewrite (bind_Ok _ _ _ _ _ Hv). reflexivity. }
  split; cbn [cl_ks cl_handshake cl_provider cl_tx cl_reader cl_transport rr_buf]; try done.
  - by rewrite Hks.
  - destruct Hrd as [Hp0 Hd0]. split; cbn [pending decoded rr_buf]; [done|]. by rewrite Hnew, <-Hcp.
Qed.

(** The Finished of the client, and the application keys. *)
Lemma client_finished_run N cap ks h p inc out base th c :
  client_at N cap ks h p inc out c -> kss_wf (client_keys ks) -> (counter (client_keys ks) + 1 < 2 ^ 64)%Z ->
  length base = HashLen -> traffic_secret (client_keys ks) = secret_of base -> traffic_hash h = Some th ->
  5 + (4 + HashLen) + (1 + TagLen) <= N ->
  let fin := finished_message (Finished_Mac base (transcript_hash ks)) in
  exists c' ks', process config St_ClientFinished c = (Ok St_ApplicationData, c') /\
    client_at N cap ks' (mkHandshake None (hs_secret h) (certificate_request h)) p inc
      (out ++ sealed (client_keys ks) fin CT_Handshake) c' /\
    let ms := Extract (sh_secret (shared ks)) (zeros HashLen) in
    client_keys ks' = traffic_state (Derive_Secret ms (b_ "c ap traffic") th) /\
    server_keys ks' = traffic_state (Derive_Secret ms (b_ "s ap traffic") th).
Proof.
  intros Hc Hw Hctr Hbl Hts Hth HN fin. pose proof hash_len. pose proof tag_len. cbn [process].
  assert (length fin = 4 + HashLen) as Hlf by apply length_finished_message.
  set (f := mkFinished (Finished_Mac base (transcript_hash ks)) None).
  destruct (send_run N cap ks h p inc out (CR_Handshake (CHS_Finished f) true) fin fin (transcript_hash ks ++ fin) c Hc Hw)
    as (c1 & Hwr & Hc1).
  { apply Finished_message_encodes. }
  { apply finishes_encrypted. }
  { lia. }
  { change (closing _) with (1 + TagLen). lia. }
  rewrite (bind_Ok _ _ _ (sealed (client_keys ks) fin CT_Handshake) c1).
  2:{ unfold client_finished. rewrite bind_get, (at_ks _ _ _ _ _ _ _ _ Hc).
      erewrite bind_Ok; [exact Hwr|]. apply map_err_Ok. apply create_client_finished_spec; [lia|done]. }
  destruct (respond_run _ _ _ _ _ _ _ (sealed (client_keys ks) fin CT_Handshake) c1 Hc1) as (c2 & Hr & Hc2); [done|].
  rewrite (bind_Ok _ _ _ _ _ Hr). destruct Hc2 as [Hks Hh Hpr Htx Hrd Hcp Hi Ho].
  eexists _, _. split.
  { unfold client_finished_finalize, on_handshake, on_ks. rewrite bind_get.
    erewrite bind_Ok by (apply zoom_run; reflexivity). rewrite Hh, Hth, bind_ok_or_Some.
    erewrite bind_Ok by (apply zoom_run; reflexivity).
    erewrite bind_Ok by (apply zoom_run; apply initialize_master_secret_spec). reflexivity. }
  split; [split; cbn [cl_ks cl_handshake cl_provider cl_tx cl_reader cl_transport]; try done; by rewrite Hh|].
  cbn [cl_ks]. by rewrite Hks.
Qed.

(** ** The whole handshake *)

(** What the server answers: the ServerHello, and the secrets both sides derive. *)
Definition server_flight (ch body ikm : list byte) : Flight :=
  mkFlight (Handshake_Secret key ikm) (ch ++ handshake_message HT_ServerHello body)
           (plain_record HT_ServerHello body).

Lemma loop_step fuel st c st' c' :
  st <> St_ApplicationData -> process config st c = (Ok st', c') ->
  open_loop (S fuel) config st c = open_loop fuel config st' c'.
Proof. intros Hst Hp. cbn [open_loop]. rewrite decide_False by done. by rewrite (bind_Ok _ _ _ _ _ Hp). Qed.

(** The schedule once the handshake secret is in place. *)
Definition hs_schedule (f : Flight) (bk : Secret) : KeySchedule :=
  mkKS (mkShared (Derive_Secret (fl_hs f) (b_ "derived") []) (secret_of (fl_hs f)))
       (mkWrite (traffic_state (fl_client_ts f)) bk)
       (mkRead (traffic_state (fl_server_ts f)) (fl_transcript f)).

Lemma finished_accepted f st t (h : Handshake) (p : P) :
  length (fl_server_ts f) = HashLen -> traffic_secret st = secret_of (fl_server_ts f) ->
  t = fl_transcript f ++ ee_message -> certificate_request h = None ->
  verify_callback (SR_Handshake (with_digest t (SHS_Finished (mkFinished (Finished_Mac (fl_server_ts f) t) None))))
    (mkRead st (t ++ fl_finished f), (h, p, St_ServerVerify))
  = (Ok tt, (mkRead st (t ++ fl_finished f),
             (mkHandshake (Some (t ++ fl_finished f)) (hs_secret h) None, p, St_ClientFinished))).
Proof.
  intros Hl Hs Ht Hcr. cbn [with_digest verify_callback verify]. rewrite bind_get. cbv beta iota.
  rewrite (bind_Ok _ _ _ _ _ (verify_server_finished_spec (fl_server_ts f) (mkRead st (t ++ fl_finished f)) t _ _
             ltac:(lia) Hs)).
  rewrite bool_decide_true by done. cbn [negb]. rewrite Hcr, decide_False by (by intros []). done.
Qed.

(** EncryptedExtensions and Finished, each in its record. *)
Lemma server_records_run N cap p inc out f bk c :
  length (fl_server_ts f) = HashLen ->
  let st := traffic_state (fl_server_ts f) in
  client_at N cap (hs_schedule f bk) Handshake_new p
    (sealed st ee_message CT_Handshake ++ sealed (bump st) (fl_finished f) CT_Handshake ++ inc) out c ->
  4 + HashLen + 1 + TagLen <= cap ->
  exists c1 c2, process config St_ServerVerify c = (Ok St_ServerVerify, c1) /\
    process config St_ServerVerify c1 = (Ok St_ClientFinished, c2) /\
    client_at N cap (mkKS (shared (hs_schedule f bk)) (client_state (hs_schedule f bk))
                       (mkRead (bump (bump st)) (fl_messages f)))
      (mkHandshake (Some (fl_messages f)) None None) p inc out c2.
Proof.
  intros Hts st Hc Hcap. pose proof hash_len. pose proof tag_len.
  assert (length (fl_finished f) = 4 + HashLen) as Hlf by apply length_finished_message.
  assert (length ee_message = 6) as Hle by done.
  assert (kss_wf st) as Hw by (apply traffic_state_wf; lia).
  destruct (verify_run N cap (hs_schedule f bk) Handshake_new p
    (sealed (bump st) (fl_finished f) CT_Handshake ++ inc) out ee_message SHS_EncryptedExtensions
    Handshake_new p St_ServerVerify c Hc Hw ltac:(done) ee_parses ltac:(done) ltac:(lia) ltac:(lia) eq_refl)
    as (c1 & H1 & Hc1).
  set (t := transcript_hash (hs_schedule f bk) ++ ee_message) in Hc1.
  destruct (verify_run N cap (mkKS (shared (hs_schedule f bk)) (client_state (hs_schedule f bk)) (mkRead (bump st) t))
    Handshake_new p inc out (fl_finished f) (SHS_Finished (mkFinished (Finished_Mac (fl_server_ts f) t) None))
    (mkHandshake (Some (t ++ fl_finished f)) None None) p St_ClientFinished c1 Hc1) as (c2 & H2 & Hc2);
    cbn [server_state r_state]; try (done || lia).
  - by apply bump_wf.
  - apply finished_parses, length_Finished_Mac.
  - by apply finished_accepted.
  - exists c1, c2. split_and!; [done|done|].
    assert (t ++ fl_finished f = fl_messages f) as Hm by (unfold t, fl_messages; by rewrite <-(assoc_L (++))).
    rewrite <-Hm. exact Hc2.
Qed.

(** What the peer must fit: the messages of the client into its write buffer, those of
    the server into its receive buffer and the length fields. *)
Record handshake_fits (N cap : nat) (h : ClientHello) (body : list byte) : Prop := {
  fit_hello : (Z.of_nat (length (hello_unsigned h)) <= 2 ^ 14)%Z;
  fit_write : 5 + length (hello_unsigned h) <= N;
  fit_finished : 5 + (4 + HashLen) + (1 + TagLen) <= N;
  fit_server : (Z.of_nat (length (handshake_message HT_ServerHello body)) <= 2 ^ 14)%Z;
  fit_read : length (handshake_message HT_ServerHello body) <= cap;
  fit_records : 4 + HashLen + 1 + TagLen <= cap;
}.

Lemma handshake_run N cap p p' random secret public body sh ikm rest out fuel c :
  let ch := hello_of_draw random public in let f := server_flight ch body ikm in
  client_at N cap KeySchedule_new Handshake_new p (fl_bytes f ++ rest) out c ->
  draw p = (Ok (random, secret, public), p') ->
  parses ServerHello_parse body sh -> calculate_shared_secret sh secret = Some ikm ->
  handshake_fits N cap (mkClientHello config random public) body ->
  exists c' ks', open_loop (5 + fuel) config St_ClientHello c = (Ok tt, c') /\
    client_at N cap ks' Handshake_new p' rest
      ((out ++ header_bytes (CRH_Handshake false) (length ch) ++ ch)
       ++ sealed (traffic_state (fl_client_ts f)) (ServerSpec.client_finished f) CT_Handshake) c' /\
    client_keys ks' = traffic_state (Derive_Secret (Master_Secret key ikm) (b_ "c ap traffic") (fl_messages f)) /\
    server_keys ks' = traffic_state (Derive_Secret (Master_Secret key ikm) (b_ "s ap traffic") (fl_messages f)).
Proof.
  intros ch f Hc Hdraw Hp Hs [F1 F2 F3 F4 F5 F6].
  assert (length (fl_hs f) = HashLen) as Hhs by apply length_Extract.
  assert (length (fl_server_ts f) = HashLen /\ length (fl_client_ts f) = HashLen) as [Hts Htc]
    by (split; apply length_Derive_Secret; by rewrite Hhs).
  destruct (client_hello_run N cap p _ out random secret public p' c Hc Hdraw ltac:(lia) F2) as (c1 & H1 & Hc1).
  fold ch in Hc1. unfold fl_bytes in Hc1. cbv zeta in Hc1. rewrite <-!(assoc_L (++)) in Hc1.
  destruct (server_hello_run N cap _ p' _ _ body sh secret ikm c1 Hc1 Hp Hs F5 ltac:(lia)) as (c2 & H2 & Hc2).
  destruct (server_records_run N cap p' rest _ f (secret_of (Binder_Key key)) c2 Hts Hc2 F6) as (c3 & c4 & H3 & H4 & Hc4).
  destruct (client_finished_run N cap _ _ p' rest _ (fl_client_ts f) (fl_messages f) c4 Hc4) as (c5 & ks5 & H5 & Hc5 & Hk);
    [apply traffic_state_wf; lia|reflexivity|exact Htc|reflexivity|reflexivity|exact F3|].
  exists c5, ks5. split; [|split; [exact Hc5|exact Hk]].
  change (5 + fuel) with (S (S (S (S (S fuel))))).
  do 5 (erewrite loop_step; [|discriminate|eassumption]).
  by destruct fuel.
Qed.
End Steps.

(** ** Properties *)

(** [open] sets the host name of the verifier, if there is one. *)
Definition prepared `{CP : CryptoProvider P} (config : TlsConfig) (p p' : P) : Prop :=
  match has_verifier p, server_name config with
  | true, Some name => set_hostname_verification name p = (Ok tt, p')
  | _, _ => p' = p
  end.

(** C26: against a server that follows RFC 8446 the client completes the handshake.
    When the stream holds a ServerHello whose key share agrees with the client's on a
    secret, and EncryptedExtensions and Finished sealed under the keys of section 7.1
    for the client's PSK and that secret, [open] returns [Ok] in five steps over any
    reliable transport, however it splits the stream; it has sent its ClientHello and
    exactly one more record, the Finished that an RFC server (and the abstract server
    of this development) waiting on that flight accepts; what follows in the stream is
    left unread, and the keys are the RFC's application traffic keys for the transcript
    in both directions.  Nothing is asked of the server's certificate: without a PSK
    and with a certificate verifier configured, a server that sends no Certificate at
    all is accepted. *)
Theorem client_handshake_completes
    `{CS : TlsCipherSuite, !TlsCipherSuiteLaws CS, X : X25519Ops, Sock : Socket T, !SocketLaws T, !Reliable T,
      CP : CryptoProvider P}
    config (provider p1 p2 : P) random secret public body sh ikm rest fuel (c : TlsConnection (T := T)) buf :
  key_schedule c = KeySchedule_new -> record_write_buf c = mkWB buf 0 None -> reader_ready (record_reader c) ->
  prepared config provider p1 -> draw p1 = (Ok (random, secret, public), p2) ->
  parses ServerHello_parse body sh -> calculate_shared_secret sh secret = Some ikm ->
  handshake_fits (length buf) (length (rr_buf (record_reader c))) (mkClientHello config random public) body ->
  let ch := hello_of_draw config random public in
  let f := server_flight config ch body ikm in
  let fin := sealed (traffic_state (fl_client_ts f)) (ServerSpec.client_finished f) CT_Handshake in
  let ms := Master_Secret (psk_key config) ikm in
  incoming (delegate c) = fl_bytes f ++ rest ->
  exists c', open (5 + fuel) config provider c = (Ok tt, c') /\ opened c' = true /\
    incoming (delegate c') = rest /\
    outgoing (delegate c') = outgoing (delegate c)
      ++ (header_bytes (CRH_Handshake false) (length ch) ++ ch) ++ fin /\
    client_keys (key_schedule c') = traffic_state (Derive_Secret ms (b_ "c ap traffic") (fl_messages f)) /\
    server_keys (key_schedule c') = traffic_state (Derive_Secret ms (b_ "s ap traffic") (fl_messages f)) /\
    forall cfg first, hs_step cfg (AwaitFinished first f) fin [] (Connected first f).
Proof.
  intros Hks Htx Hrd Hprep Hdraw Hp Hs Hfit ch f fin ms Hin.
  set (c0 := mkClient (delegate c) Handshake_new (record_reader c) (record_write_buf c) (key_schedule c) p1).
  destruct (handshake_run config (length buf) (length (rr_buf (record_reader c))) p1 p2 random secret public body sh
    ikm rest (outgoing (delegate c)) fuel c0) as (c1 & ks & Hrun & Hc1 & Hk1 & Hk2); try done.
  { by split; try (exists buf). }
  destruct Hc1 as [Ek _ _ _ _ _ Ei Eo].
  exists (mkConn (cl_transport c1) true (cl_ks c1) (cl_reader c1) (cl_tx c1) (decrypted c) (flush_policy c)).
  split; [|split_and!; cbn [delegate key_schedule]].
  - unfold open. rewrite (bind_Ok _ _ _ tt (mkConn (cl_transport c1) (opened c) (cl_ks c1) (cl_reader c1) (cl_tx c1)
      (decrypted c) (flush_policy c))); [done|].
    match goal with |- zoom _ _ ?m _ = _ => enough (m (mkClient (delegate c) Handshake_new (record_reader c)
      (record_write_buf c) (key_schedule c) provider) = (Ok tt, c1)) as Hst by (unfold zoom; by rewrite Hst) end.
    unfold open_steps. rewrite bind_get.
    cbn [cl_provider]. rewrite (bind_Ok _ _ _ tt c0); [exact Hrun|].
    unfold prepared in Hprep. destruct (has_verifier provider), (server_name config); try by subst.
    unfold on_provider. by erewrite zoom_run by exact Hprep.
  - done.
  - done.
  - rewrite Eo, <-!(assoc_L (++)). done.
  - by rewrite Ek.
  - by rewrite Ek.
  - intros cfg first. apply finished_step_exists. apply length_Derive_Secret. cbn [fl_hs f server_flight].
    unfold Handshake_Secret. by rewrite length_Extract.
Qed.

(** A client with a certificate verifier that accepts nothing and no PSK: it connects. *)
Definition no_psk : TlsConfig := demo_config None.

Lemma demo_hello_parses : parses ServerHello_parse (server_hello_body demo_emit) (mkServerHello (em_extensions demo_emit)).
Proof.
  apply (ServerHello_parses TlsAes128GcmSha256); try done; try (simpl; lia).
  repeat constructor; vm_compute; by repeat split.
Qed.

Lemma client_handshake_completes_witness :
  let f := demo_flight no_psk in
  exists c' : TlsConnection (CS := Toy.suite) (T := Chunked),
    open 5 no_psk demo_provider (demo_fresh (fl_bytes f ++ [x17])) = (Ok tt, c') /\ opened c' = true /\
    ch_in (delegate c') = [x17].
Proof.
  cbv zeta.
  destruct (client_handshake_completes (CS := Toy.suite) (CP := demo_crypto) no_psk demo_provider demo_provider demo_provider
    (replicate 32 x77) [x01; x02] (x04 :: replicate 64 x55) (server_hello_body demo_emit)
    (mkServerHello (em_extensions demo_emit)) ([x01; x02] ++ take 4 demo_share) [x17] 0
    (demo_fresh (fl_bytes (demo_flight no_psk) ++ [x17])) (zeros 400)) as (c' & H1 & H2 & H3 & _).
  - reflexivity.
  - reflexivity.
  - split; simpl; lia.
  - reflexivity.
  - reflexivity.
  - apply demo_hello_parses.
  - reflexivity.
  - split; try (by vm_compute); apply Nat.leb_le; by vm_compute.
  - reflexivity.
  - exists c'. auto.
Defined.
