(* ===== verification/ClientTermination.v ===== *)
(** The client's handshake ends.

    [open] loops over the states of the handshake and reads records in between; a peer can
    send any number of records, and a state that waits for one may stay where it is.  Every
    record read takes at least its header from the stream, so over a finite stream the loop
    ends: with the fuel [6 + length incoming] it never runs out.  The same holds for the loop
    of [read_buffered].  The operations of the provider have to return
    ([ProviderReturns]); panics are allowed. *)

From S2P Require Import Prelude Errors CryptoBuffer ParseBuffer Wire ExtensionData Extensions.
From S2P Require Import CryptoSuite KeySchedule KeyScheduleProps ClientHello Handshake Server.
From S2P Require Import ServerRecords ServerSteps Record WriteBuffer RecordReader ReadBuffer Connection.
From S2P Require Import ClientRecords Blocking ClientHandshake.
From Stdlib Require Import ZArith Lia.
From Stdlib Require Import Strings.Byte.
From Stdlib Require Strings.String.
From stdpp Require Import base list option numbers tactics sets.

Import Stdlib.Strings.String.StringSyntax.

(** ** Encoders *)

Ltac encoder_calm :=
  unfold encode_error;
  repeat lazymatch goal with
  | |- calm (with_u8_length _) => apply calm_with_u8_length
  | |- calm (with_u16_length _) => apply calm_with_u16_length
  | |- calm (with_u24_length _) => apply calm_with_u24_length
  | _ => calm_step
  end.

Lemma calm_data_encode (x : ClientHelloExtension) : calm (data_encode x).
Proof.
  destruct x; cbn [data_encode ClientHelloExtension_group];
    unfold SupportedVersionsClientHello_encode, ProtocolVersion_encode, SignatureAlgorithms_encode,
      SupportedGroups_encode, NamedGroup_encode, PskKeyExchangeModes_encode, PskKeyExchangeMode_encode,
      KeyShareClientHello_encode, KeyShareEntry_encode, ServerNameList_encode, ServerName_encode,
      NameType_encode, Alpn_encode, PreSharedKeyClientHello_encode, MaxFragmentLength_encode,
      SignatureAlgorithmsCert_encode, Unimplemented_encode, NamedGroup_encode; encoder_calm.
Qed.
#[export] Hint Resolve calm_data_encode : calm.

Section Writing.
Context `{CS : TlsCipherSuite, !TlsCipherSuiteLaws CS}.

Lemma calm_encode_payload r : calm (encode_payload r).
Proof.
  unfold encode_payload, Alert_encode, ClientHandshake_encode, encode_inner, ClientHello_encode,
    Finished_encode, CertificateRef_encode, CertificateEntryRef_encode, CertificateVerify_encode,
    ext_encode, ExtensionType_encode. encoder_calm.
Qed.

Lemma calm_label {S} self N label ctx : calm (make_expanded_hkdf_label (S := S) self N label ctx).
Proof. unfold make_expanded_hkdf_label, Secret_as_ref. calm. Qed.
Hint Resolve calm_label : calm.

Lemma calm_finalize h wks : calm (ClientHandshake_finalize h wks).
Proof.
  unfold ClientHandshake_finalize, finalize, create_psk_binder, PskBinder_encode. encoder_calm.
Qed.

Lemma calm_encrypt wks : calm (encrypt wks).
Proof.
  pose proof encrypt_in_place_returns. unfold encrypt, kss_get_nonce, get_nonce. calm.
Qed.

Lemma calm_with_buffer {X} (op : M (CryptoBuffer * X) TlsError unit) : calm op -> calm (with_buffer op).
Proof.
  intros Hop [w x]. specialize (Hop (wrap_with_pos (wb_buffer w) (wb_pos w), x)).
  unfold ends, with_buffer in *. by destruct (op _) as [r [c x']].
Qed.
Lemma calm_lset {E} i v : calm (lset (E := E) i v).
Proof. intros l. unfold ends, lset. by case_decide. Qed.
Lemma calm_cb_move {E} f : calm (cb_move (E := E) f).
Proof. unfold cb_move. calm. Qed.
Hint Resolve calm_lset calm_cb_move calm_encode_payload calm_encrypt : calm.

Lemma calm_start_record h : calm (start_record h).
Proof.
  unfold start_record, with_buffer_only, ClientRecordHeader_encode. calm.
  apply calm_with_buffer. unfold encode_error. calm.
Qed.

Lemma calm_close_record wks : calm (close_record wks).
Proof.
  unfold close_record, with_buffer_only. calm. apply calm_with_buffer. unfold encode_error. calm.
Qed.
Hint Resolve calm_start_record calm_close_record : calm.

Lemma calm_on_slice {X} (m : M (list byte * X) TlsError unit) : calm m -> calm (on_slice m).
Proof.
  intros Hm [c t]. unfold ends, on_slice. destruct (sub _ _ _) as [s|]; [|done].
  specialize (Hm (s, t)). unfold ends in Hm. by destruct (m (s, t)) as [r [s' t']].
Qed.

Lemma calm_finish_record r wks : calm (finish_record r wks).
Proof.
  unfold finish_record, finalize_encrypted. destruct r as [h []|]; calm.
  apply calm_on_slice, calm_finalize.
Qed.
Hint Resolve calm_finish_record : calm.

Lemma calm_write_record r wks : calm (write_record r wks).
Proof. unfold write_record. calm. apply calm_with_buffer. calm. Qed.

(** ** The key schedule *)

Lemma calm_derive_secret label ctx : calm (derive_secret label ctx).
Proof. unfold derive_secret. calm. Qed.
Hint Resolve calm_derive_secret : calm.
Lemma calm_derived : calm derived.
Proof. unfold derived. calm. Qed.
Lemma calm_traffic_secrets c s : calm (calculate_traffic_secrets c s).
Proof. unfold calculate_traffic_secrets, calculate_traffic_secret. calm. Qed.
Hint Resolve calm_derived calm_traffic_secrets : calm.
Lemma calm_early psk : calm (initialize_early_secret psk).
Proof. unfold initialize_early_secret, on_shared, shared_initialize. calm. Qed.
Lemma calm_handshake_secret ikm : calm (initialize_handshake_secret ikm).
Proof. unfold initialize_handshake_secret, on_shared, shared_initialize. calm. Qed.
Lemma calm_master : calm initialize_master_secret.
Proof. unfold initialize_master_secret, on_shared, shared_initialize. calm. Qed.
Lemma calm_increment {E} : calm (kss_increment_counter (E := E)).
Proof. unfold kss_increment_counter. calm. Qed.
Lemma calm_client_finished ks {S} : calm (create_client_finished ks (S := S)).
Proof. unfold create_client_finished. calm. Qed.
Lemma calm_verify_server rks f {S} : calm (verify_server_finished rks f (S := S)).
Proof. unfold verify_server_finished. calm. Qed.
End Writing.
#[export] Hint Resolve calm_write_record calm_early calm_handshake_secret calm_master calm_increment
  calm_client_finished calm_verify_server : calm.

(** ** Dispatching a record *)

Section Dispatch.
Context `{CS : TlsCipherSuite, !TlsCipherSuiteLaws CS} {X : Type}.
Context (cb : ServerRecord -> M (ReadKeySchedule * X) TlsError unit).

Lemma messages_rx fuel : forall buf rks rx x,
  post (messages_loop cb fuel buf) (rks, rx, x) (fun _ s => snd (fst s) = rx).
Proof.
  induction fuel as [|fuel IH]; intros buf rks rx x; cbn [messages_loop];
    case_decide; try (by apply post_ret); [done|].
  repeat post_step. eapply post_mono; [apply post_True|]. intros m [b' d'] _. repeat post_step.
  cbn [fst snd]. unfold callback. repeat post_step. eapply post_mono; [apply post_True|]. intros [] [rks' x'] _. apply IH.
Qed.

Lemma dispatch_rx app t content rks rx x :
  post (dispatch cb app t content) (rks, rx, x) (fun _ s => snd (fst s) = rx).
Proof.
  unfold dispatch, callback. destruct t; repeat post_step.
  - eapply post_mono; [apply post_True|]. intros al ? _. post_step. by eapply post_mono; [apply post_True|].
  - apply messages_rx.
  - by eapply post_mono; [apply post_True|].
Qed.

Context (Hcb : forall r, calm (cb r)).

Lemma calm_callback r : calm (callback cb r).
Proof. apply calm_zoom, Hcb. Qed.

Lemma messages_ends fuel : forall buf st,
  pb_wf buf -> length (pb_buffer buf) - pb_pos buf <= fuel -> ends (messages_loop cb fuel buf) st.
Proof.
  induction fuel as [|fuel IH]; intros buf [[rks rx] x] Hwf Hf; cbn [messages_loop];
    case_decide as Hend; try (by apply calm_ret); [lia|].
  apply ends_bind.
  - apply ends_zoom, ends_bind; [by eapply ends_wp, read_spec|]. intros ? ? _. by apply calm_bind; [|intros []].
  - do 2 post_step. eapply post_mono; [by eapply post_wp, read_spec|].
    intros m [b' d'] (Hwf' & xs & (Hb & Hp & _) & Hx%message_wire_length & _). repeat post_step.
    apply ends_bind; [apply calm_callback|]. intros ? ? _. apply IH; [done|]. rewrite Hb, Hp. lia.
Qed.

Lemma dispatch_ends app t content st : ends (dispatch cb app t content) st.
Proof.
  destruct t; cbn [dispatch]; try (by apply calm_err); [|apply messages_ends; [apply pb_new_wf|simpl; lia]|apply calm_callback].
  apply ends_bind; [|intros ? ? _; apply calm_callback].
  apply calm_run_on. eapply ends_wp, (ptotal_of _ _ Alert_sound), pb_new_wf.
Qed.

(** The record lies in the receive buffer. *)
Definition at_record (record : ServerRecord) (rx : list byte) : Prop :=
  match record with
  | SR_ApplicationData app => exists hdr pre body post, length hdr = 5 /\ rx = pre ++ body ++ post /\
      app = mkAppData (mkRecordHeader hdr) (length pre) (length body) (length body)
  | _ => True
  end.

Lemma decrypt_ends record rks rx x :
  at_record record rx -> ends (decrypt_record cb record) (rks, rx, x).
Proof.
  intros Hr. destruct record as [| | |app]; try apply calm_callback.
  destruct Hr as (hdr & pre & body & post & Hh & -> & ->). unfold ends.
  rewrite decrypt_record_view by done. destruct (open_record _ _) as [p|]; [|done]. cbv zeta.
  destruct (inner_view p) as [[t n]|e| |] eqn:Hv; [|done|done|].
  - apply ends_bind; [apply dispatch_ends|]. intros _ ? _. apply calm_zoom, calm_zoom, calm_zoom, calm_increment.
  - exfalso. unfold inner_view in Hv. by repeat case_match.
Qed.

Lemma decrypt_rx record rks rx x :
  at_record record rx ->
  post (decrypt_record cb record) (rks, rx, x) (fun _ s => length (snd (fst s)) = length rx).
Proof.
  intros Hr. destruct record as [| | |app]; try (cbn [decrypt_record]; unfold callback; post_step;
    by eapply post_mono; [apply post_True|]).
  destruct Hr as (hdr & pre & body & post & Hh & -> & ->). intros [] s' Hs'.
  rewrite decrypt_record_view in Hs' by done. destruct (open_record _ _) as [p|] eqn:Hp; [|done].
  cbv zeta in Hs'. destruct (inner_view p) as [[t n]|e| |] eqn:Hv; try done.
  apply bind_inv_Ok in Hs' as ([] & [[rks1 rx1] x1] & Hd%dispatch_rx & Hi). cbn [fst snd] in Hd. subst rx1.
  unfold kss_read_increment, on_fst, zoom in Hi. destruct (kss_increment_counter _). injection Hi as _ <-.
  cbn [fst snd]. apply open_record_length in Hp. lens. lia.
Qed.
End Dispatch.

(** ** Reading a record *)

Lemma frame_inr_inv cap stream hdr payload rest :
  frame cap stream = inr (hdr, payload, rest) ->
  length hdr = 5 /\ length payload <= cap /\ length rest < length stream.
Proof.
  unfold frame. repeat case_match; try done. intros [= <- <- <-]. lens. lia.
Qed.

Lemma decode_at `{CS : TlsCipherSuite} hdr pre body rest d :
  length hdr = 5 ->
  post (ServerRecord_decode (mkRecordHeader hdr) (length pre) body) d
    (fun record _ => at_record record (pre ++ body ++ rest)).
Proof.
  intros Hh. unfold ServerRecord_decode, content_length, RecordHeader_content_type. repeat post_step.
  case_decide; [apply post_panic|]. repeat post_step. case_match; repeat post_step.
  - unfold ChangeCipherSpec_read. by repeat post_step.
  - eapply post_mono; [apply post_True|]. intros al b' _. by apply post_ret.
  - eapply post_mono; [apply post_True|]. intros m b' _. by apply post_ret.
  - by exists hdr, pre, body, rest.
Qed.

Lemma read_at `{CS : TlsCipherSuite, Sock : Socket T, !SocketLaws T} r (s : T) digest :
  reader_ready r ->
  wp RecordReader.read (r, s, digest)
    (fun record '(r', s', _) => reader_ready r' /\ length (incoming s') < length (incoming s) /\
       at_record record (rr_buf r'))
    (fun _ _ => True).
Proof.
  intros Hr. eapply wp_mono; [by apply read_wp| |done].
  intros record [[r' s'] d'] (_ & hdr & payload & Hf & Hd & -> & Hr').
  apply frame_inr_inv in Hf as (Hh & Hc & Hl). split_and!; [done|done|].
  destruct (stored_split r payload Hr Hc) as (pre & post & Hst & Hpre & _). rewrite Hst, <-Hpre in *.
  by eapply decode_at in Hd.
Qed.

(** ** Steps that read nothing *)

(** What a provider has to promise: its operations return. *)
Class ProviderReturns (P : Type) `{CP : CryptoProvider P} : Prop := {
  draw_returns : calm draw;
  set_hostname_returns n : calm (set_hostname_verification n);
  verify_certificate_returns t c : calm (verify_certificate t c);
  verify_signature_returns v : calm (verify_signature v);
  signer_returns : calm signer;
  sign_returns m : calm (sign m);
}.
#[export] Hint Resolve draw_returns set_hostname_returns verify_certificate_returns
  verify_signature_returns signer_returns sign_returns : calm.

Section Steps.
Context `{CS : TlsCipherSuite, !TlsCipherSuiteLaws CS} {T P : Type}.
Context `{Sock : Socket T, !SocketLaws T, CP : CryptoProvider P, !ProviderReturns P}.
Implicit Types c : Client (T := T) (P := P).
Abbreviation CM := (M (Client (T := T) (P := P)) TlsError).

Lemma calm_io_write xs : calm (io (sock_write_all (T := T) xs)).
Proof. apply calm_map_err. intros s. eapply ends_wp, sock_write_law. Qed.
Lemma calm_io_flush : calm (io (sock_flush (T := T))).
Proof. apply calm_map_err. intros s. eapply ends_wp, sock_flush_law. Qed.
Hint Resolve calm_io_write calm_io_flush : calm.

Lemma calm_respond tx : calm (respond tx : CM unit).
Proof. unfold respond, on_transport, on_ks, write_increment_counter. calm. Qed.
Lemma calm_write_tx r : calm (write_tx r : CM (list byte)).
Proof. unfold write_tx. calm. Qed.
Hint Resolve calm_respond calm_write_tx : calm.

(** The steps that wait for no record return. *)
Lemma calm_silent config st :
  st <> St_ServerHello -> st <> St_ServerVerify -> calm (process config st : CM State).
Proof.
  intros H1 H2. destruct st; try done; cbn [process].
  - unfold client_hello, on_ks, on_provider, on_handshake. calm.
  - unfold client_cert, on_handshake. calm. apply calm_run_on. refine ((_ : calm _) _).
    unfold CertificateRef_add. calm.
  - unfold client_cert_verify, on_provider, signed_message. calm.
  - unfold client_finished, client_finished_finalize, on_handshake, on_ks, replace_transcript_hash. calm.
Qed.

(** [m] leaves the reader and the incoming stream alone. *)
Definition quiet {A} (m : CM A) : Prop := forall c,
  post m c (fun _ c' => cl_reader c' = cl_reader c /\
                        incoming (cl_transport c') = incoming (cl_transport c)).

Lemma quiet_ret {A} (a : A) : quiet (mret a).
Proof. intros c. by apply post_ret. Qed.
Lemma quiet_err {A} e : quiet (err e : CM A).
Proof. intros c. apply post_err. Qed.
Lemma quiet_get : quiet get.
Proof. intros c. by apply post_get. Qed.
Lemma quiet_ok_or {A} (o : option A) e : quiet (ok_or o e).
Proof. destruct o; [apply quiet_ret|apply quiet_err]. Qed.
Lemma quiet_unwrap {A} (o : option A) : quiet (unwrap o).
Proof. destruct o; [apply quiet_ret|by intros c]. Qed.
Lemma quiet_bind {A B} (m : CM A) (k : A -> CM B) : quiet m -> (forall a, quiet (k a)) -> quiet (m ≫= k).
Proof.
  intros Hm Hk c. apply post_bind. eapply post_mono; [apply Hm|]. intros a c' [Hr Hi].
  eapply post_mono; [apply Hk|]. intros b c'' [-> ->]. done.
Qed.
Lemma quiet_run_on {S A} (t : S) (m : M S TlsError A) : quiet (run_on t m).
Proof. intros c. apply post_run_on. by intros ? ? _. Qed.
Lemma quiet_map_err {A} f (m : CM A) : quiet m -> quiet (map_err f m).
Proof. intros Hm c. apply post_map_err, Hm. Qed.
Lemma quiet_on_ks {A} (m : KM A) : quiet (on_ks m).
Proof. intros c. apply post_zoom. by intros ? ? _. Qed.
Lemma quiet_on_handshake {A} (m : M (Handshake (P := P)) TlsError A) : quiet (on_handshake m).
Proof. intros c. apply post_zoom. by intros ? ? _. Qed.
Lemma quiet_on_provider {A} (m : M P TlsError A) : quiet (on_provider m).
Proof. intros c. apply post_zoom. by intros ? ? _. Qed.
Lemma quiet_try_provider {A} (m : M P TlsError A) : quiet (try_ (on_provider m)).
Proof. intros c a c'. unfold try_, on_provider, zoom. destruct (m _) as [[] ?]; by intros [= <- <-]. Qed.
Lemma quiet_write_tx r : quiet (write_tx r).
Proof.
  unfold write_tx. apply quiet_bind; [apply quiet_get|]. intros c0 c. apply post_zoom. by intros ? [] _.
Qed.
Lemma quiet_respond tx : quiet (respond tx).
Proof.
  unfold respond. apply quiet_bind; [|intros _; apply quiet_bind; [apply quiet_on_ks|intros _]].
  all: intros c; apply post_zoom, post_map_err; eapply post_wp, wp_mono;
    [first [apply sock_write_law|apply sock_flush_law]|by intros ? ? [? _]|by intros].
Qed.

Ltac quiet :=
  repeat first
    [ progress intros
    | solve [auto using quiet_ret, quiet_err, quiet_get, quiet_ok_or, quiet_unwrap, quiet_run_on, quiet_on_ks,
               quiet_on_handshake, quiet_on_provider, quiet_try_provider, quiet_write_tx, quiet_respond]
    | lazymatch goal with
      | |- quiet (mbind _ _) => apply quiet_bind
      | |- quiet (map_err _ _) => apply quiet_map_err
      | |- quiet (match _ with _ => _ end) => case_match
      end ].

Lemma quiet_client_hello config : quiet (client_hello config).
Proof. unfold client_hello. quiet. Qed.
Lemma quiet_client_cert : quiet client_cert.
Proof. unfold client_cert. quiet. Qed.
Lemma quiet_server_hello r : quiet (process_server_hello r).
Proof. unfold process_server_hello. quiet. Qed.

(** ** The next state *)

Definition next_states (st : State) : list State :=
  match st with
  | St_ClientHello => [St_ServerHello]
  | St_ServerHello => [St_ServerVerify]
  | St_ServerVerify => [St_ServerVerify; St_ClientCert; St_ClientFinished]
  | St_ClientCert => [St_ClientCertVerify; St_ClientFinished]
  | St_ClientCertVerify => [St_ClientFinished]
  | St_ClientFinished => [St_ApplicationData]
  | St_ApplicationData => []
  end.

Definition verify_next (x : Handshake (P := P) * P * State) : Prop := snd x ∈ next_states St_ServerVerify.

Lemma verify_callback_next r rks x :
  verify_next x -> post (verify_callback r) (rks, x) (fun _ s => verify_next (snd s)).
Proof.
  intros Hx. destruct x as [[h p] st].
  assert (forall m : M P TlsError unit, post (on_snd (on_fst (on_snd m))) (rks, (h, p, st))
    (fun _ s => verify_next (snd s))) as Hv by (by intros m; repeat post_step; eapply post_mono; [apply post_True|]).
  unfold verify_callback. destruct r as [m| | |]; try (by repeat post_step).
  destruct m; repeat post_step; cbv beta iota; try done.
  - destruct (has_verifier p); [apply Hv|by post_step].
  - unfold CertificateRequest_try_from. by repeat post_step.
  - destruct (has_verifier p); [apply Hv|by post_step].
  - eapply (post_mono _ _ (fun _ s => s = (rks, (h, p, st)))).
    { unfold verify_server_finished, make_expanded_hkdf_label, Secret_as_ref.
      repeat (post_step || case_match); done. }
    intros [] ? ->; cbn [negb]; [|post_step]. case_decide; post_step; repeat constructor.
Qed.

Lemma server_verify_next r c :
  post (process_server_verify r) c (fun st _ => st ∈ next_states St_ServerVerify).
Proof.
  unfold process_server_verify. repeat post_step.
  eapply (post_mono _ _ (fun _ s => verify_next (snd s))).
  - assert (verify_next (cl_handshake c, cl_provider c, St_ServerVerify)) as H0 by constructor.
    destruct r; cbn [decrypt_record]; unfold callback.
    4: { apply (decrypt_post verify_callback (fun _ x => verify_next x)); [| |done|done].
         - intros ? ? ? ? ? _. by apply verify_callback_next.
         - intros ? ? ? ? _. by apply verify_callback_next. }
    all: post_step; eapply post_mono; [by apply verify_callback_next|done].
  - intros _ [[rks rx] [[h p] st]] Hst. repeat post_step. exact Hst.
Qed.

Ltac skip := eapply post_mono; [apply post_True|intros ? ? _].
Ltac walk :=
  repeat first [post_step | lazymatch goal with |- post (match ?x with _ => _ end) _ _ => destruct x end
               | lazymatch goal with |- post _ _ _ => skip end].

(** An error is reported; a result is passed on. *)
Lemma handle_error_post (m : CM State) c Q : post m c Q -> post (handle_processing_error m) c Q.
Proof.
  intros Hm. unfold handle_processing_error. apply post_bind, post_try.
  - eapply post_mono; [exact Hm|]. intros st c' HQ. by apply post_ret.
  - intros e c' _. destruct e; try apply post_err. post_step. skip. post_step. skip. apply post_err.
Qed.

Lemma handle_error_ends (m : CM State) c : ends m c -> ends (handle_processing_error m) c.
Proof.
  intros Hm. unfold handle_processing_error. apply ends_bind.
  - unfold ends, try_ in *. by destruct (m c) as [[] ?].
  - intros r c' _. refine ((_ : calm _) _). calm.
Qed.

Lemma server_hello_next r c : post (process_server_hello r) c (fun st _ => st = St_ServerVerify).
Proof.
  unfold process_server_hello. destruct r as [[]| | |]; try post_step.
  repeat (post_step || skip). done.
Qed.

Lemma process_next config st c :
  st <> St_ApplicationData -> post (process config st) c (fun st' _ => st' ∈ next_states st).
Proof.
  intros Hst. destruct st; try done; cbn [process].
  - unfold client_hello. walk. constructor.
  - post_step. skip. apply handle_error_post. eapply post_mono; [apply server_hello_next|].
    intros ? ? ->. constructor.
  - post_step. skip. apply handle_error_post, server_verify_next.
  - unfold client_cert. walk; repeat constructor.
  - unfold client_cert_verify. walk; repeat constructor.
  - unfold client_finished_finalize. walk. constructor.
Qed.

(** ** The handshake loop *)

(** Enough turns of the loop from a state with [n] bytes to come. *)
Definition turns (st : State) (n : nat) : nat :=
  match st with
  | St_ClientHello => 6 + n
  | St_ServerHello => 5 + n
  | St_ServerVerify => 4 + n
  | St_ClientCert => 3
  | St_ClientCertVerify => 2
  | St_ClientFinished => 1
  | St_ApplicationData => 0
  end.

Lemma read_record_ends c : reader_ready (cl_reader c) -> ends read_record c.
Proof. intros Hr. by eapply ends_zoom, ends_wp, read_at. Qed.

Lemma read_record_at c :
  reader_ready (cl_reader c) ->
  post read_record c (fun record c' => reader_ready (cl_reader c') /\ at_record record (rr_buf (cl_reader c')) /\
    length (incoming (cl_transport c')) < length (incoming (cl_transport c))).
Proof.
  intros Hr. apply post_zoom. eapply post_mono; [by eapply post_wp, read_at|].
  by intros record [[r' s'] d'] (? & ? & ?).
Qed.

Lemma calm_verify_callback r : calm (verify_callback (P := P) r).
Proof. unfold verify_callback, CertificateRequest_try_from. calm. Qed.

Lemma server_verify_ends r c : at_record r (rr_buf (cl_reader c)) -> ends (process_server_verify r) c.
Proof.
  intros Hr. apply ends_zoom, ends_bind; [by apply decrypt_ends; [apply calm_verify_callback|]|].
  intros ? ? _. refine ((_ : calm _) _). calm.
Qed.

(** Decryption keeps the size of the receive buffer. *)
Lemma server_verify_reader r c :
  at_record r (rr_buf (cl_reader c)) -> reader_ready (cl_reader c) ->
  post (process_server_verify r) c (fun _ c' => reader_ready (cl_reader c') /\
    incoming (cl_transport c') = incoming (cl_transport c)).
Proof.
  intros Hr [Hp Hd]. apply post_zoom, post_bind. eapply post_mono; [by apply decrypt_rx|].
  intros _ [[rks rx] [[h p] st]] Hrx. cbn [fst snd] in Hrx. repeat post_step. split; [|done].
  split; simpl; [done|]. by rewrite Hrx.
Qed.

Lemma calm_server_hello r : calm (process_server_hello r : CM State).
Proof. unfold process_server_hello, on_handshake, on_ks. calm. Qed.

(** A step ends, and leaves fewer turns to go. *)
Lemma process_ends config st c : reader_ready (cl_reader c) -> ends (process config st) c.
Proof.
  intros Hr. destruct st; try (by apply calm_silent); cbn [process].
  all: apply ends_bind; [by apply read_record_ends|]; eapply post_mono; [by apply read_record_at|];
    intros record c' (Hr' & Hat & _); apply handle_error_ends.
  - apply calm_server_hello.
  - by apply server_verify_ends.
Qed.

Lemma process_reader config st c :
  reader_ready (cl_reader c) ->
  post (process config st) c (fun _ c' => reader_ready (cl_reader c') /\
    length (incoming (cl_transport c')) <= length (incoming (cl_transport c)) /\
    (st = St_ServerHello \/ st = St_ServerVerify ->
     length (incoming (cl_transport c')) < length (incoming (cl_transport c)))).
Proof.
  intros Hr. assert (forall m : CM State, st <> St_ServerHello -> st <> St_ServerVerify -> quiet m ->
    post m c (fun _ c' => reader_ready (cl_reader c') /\
      length (incoming (cl_transport c')) <= length (incoming (cl_transport c)) /\
      (st = St_ServerHello \/ st = St_ServerVerify ->
       length (incoming (cl_transport c')) < length (incoming (cl_transport c))))) as Hq.
  { intros m ? ? Hm. eapply post_mono; [apply Hm|]. intros st' c' [-> ->]. split_and!; [done|done|by intros []]. }
  destruct st; cbn [process]; try (apply Hq; [done|done|]).
  - apply quiet_bind; [apply quiet_client_hello|quiet].
  - apply post_bind. eapply post_mono; [by apply read_record_at|].
    intros record c1 (Hr1 & _ & Hlt). apply handle_error_post. eapply post_mono; [apply quiet_server_hello|].
    intros st' c' [-> ->]. split_and!; [done|lia|done].
  - apply post_bind. eapply post_mono; [by apply read_record_at|].
    intros record c1 (Hr1 & Hat & Hlt). apply handle_error_post. eapply post_mono; [by apply server_verify_reader|].
    intros st' c' [? ->]. split_and!; [done|lia|done].
  - apply quiet_bind; [apply quiet_client_cert|quiet].
  - unfold client_cert_verify, signed_message. quiet.
  - unfold client_finished, client_finished_finalize, create_client_finished, make_expanded_hkdf_label, Secret_as_ref.
    quiet.
  - apply quiet_ret.
Qed.

Lemma process_turns config st c :
  st <> St_ApplicationData -> reader_ready (cl_reader c) ->
  post (process config st) c (fun st' c' => reader_ready (cl_reader c') /\
    turns st' (length (incoming (cl_transport c'))) < turns st (length (incoming (cl_transport c)))).
Proof.
  intros Hst Hr st' c' Hp. pose proof (process_next config st c Hst _ _ Hp) as Hn.
  destruct (process_reader config st c Hr _ _ Hp) as (Hr' & Hle & Hlt). split; [done|].
  destruct st; try done; simpl in Hn; set_unfold in Hn; destruct_or? Hn; subst; simpl;
    try specialize (Hlt ltac:(auto)); lia.
Qed.

Lemma open_loop_ends config fuel : forall st c,
  reader_ready (cl_reader c) -> turns st (length (incoming (cl_transport c))) <= fuel ->
  ends (open_loop fuel config st) c.
Proof.
  induction fuel as [|fuel IH]; intros st c Hr Hf; cbn [open_loop]; case_decide as Hst; try by apply calm_ret.
  - exfalso. destruct st; simpl in Hf; (lia || done).
  - apply ends_bind; [by apply process_ends|]. eapply post_mono; [by apply process_turns|].
    intros st' c' [Hr' Ht]. apply IH; [done|lia].
Qed.
End Steps.

(** ** Reading application data *)

Section Data.
Context `{CS : TlsCipherSuite, !TlsCipherSuiteLaws CS} {T : Type} `{Sock : Socket T, !SocketLaws T}.
Implicit Types c : TlsConnection (T := T).

Lemma calm_handle n r : calm (handle_callback n r).
Proof. unfold handle_callback, handle. calm. Qed.

Lemma application_data_ends c : reader_ready (record_reader c) -> ends read_application_data c.
Proof.
  intros Hr. unfold read_application_data. apply ends_bind; [by eapply ends_zoom, ends_wp, read_at|].
  post_step. eapply post_mono; [by eapply post_wp, read_at|].
  intros record [[r' s'] d'] (_ & _ & Hat). apply ends_bind; [done|]. post_step.
  apply ends_zoom, decrypt_ends; [apply calm_handle|done].
Qed.

Lemma application_data_reader c :
  reader_ready (record_reader c) ->
  post read_application_data c (fun _ c' => reader_ready (record_reader c') /\
    length (incoming (delegate c')) < length (incoming (delegate c))).
Proof.
  intros Hr. unfold read_application_data. do 2 post_step. eapply post_mono; [by eapply post_wp, read_at|].
  intros record [[r' s'] d'] ([Hp Hd] & Hlt & Hat). do 3 post_step.
  eapply post_mono; [by apply decrypt_rx|]. intros _ [[rks rx] [i o]] Hrx. cbn [fst snd] in Hrx.
  split; [|done]. split; simpl; [done|]. by rewrite Hrx.
Qed.

Lemma wait_loop_ends fuel : forall c,
  reader_ready (record_reader c) -> length (incoming (delegate c)) < fuel -> ends (wait_loop fuel) c.
Proof.
  induction fuel as [|fuel IH]; intros c Hr Hf; [lia|]. cbn [wait_loop].
  apply ends_bind; [done|]. post_step. apply ends_bind; [unfold info_is_empty, info_len; refine ((_ : calm _) _); calm|].
  eapply (post_mono _ _ (fun _ c' => c' = c)).
  { unfold info_is_empty, info_len. by repeat post_step. }
  intros [] ? ->; cbn [negb]; [|done]. apply ends_bind; [by apply application_data_ends|].
  eapply post_mono; [by apply application_data_reader|]. intros _ c' [Hr' Hlt]. apply IH; [done|lia].
Qed.
End Data.

(** ** Property *)

(** C27: the client always comes to an end.  Over any transport, whose incoming stream is a
    finite sequence of arbitrary bytes delivered in arbitrary pieces, and with a provider
    whose operations return, the handshake ends after at most six turns of its loop more than
    there are incoming bytes, and a read after at most one more: a peer cannot keep the client
    busy with records that make no progress. *)
Theorem client_terminates `{CS : TlsCipherSuite, !TlsCipherSuiteLaws CS, Sock : Socket T, !SocketLaws T,
    CP : CryptoProvider P, !ProviderReturns P} fuel config (provider : P) (c : TlsConnection (T := T)) :
  reader_ready (record_reader c) ->
  (6 + length (incoming (delegate c)) <= fuel -> fst (open fuel config provider c) <> Diverge) /\
  (1 + length (incoming (delegate c)) <= fuel -> fst (read_buffered fuel c) <> Diverge).
Proof.
  intros Hr. split; intros Hf.
  - change (ends (open fuel config provider) c). unfold open. apply ends_bind; [|by intros [] ? _].
    apply ends_zoom. unfold open_steps. apply ends_bind; [done|]. post_step. apply ends_bind.
    + refine ((_ : calm _) _). unfold on_provider. calm.
    + apply (post_mono _ _ (fun _ c' => cl_reader c' = record_reader c /\
        incoming (cl_transport c') = incoming (delegate c))).
      * unfold on_provider. repeat case_match; try by apply post_ret. post_step.
        eapply post_mono; [apply post_True|]. by intros.
      * intros _ c' [Hrd Hin]. apply open_loop_ends; [by rewrite Hrd|]. simpl. rewrite Hin. lia.
  - change (ends (read_buffered fuel) c). unfold read_buffered. apply ends_bind; [done|]. post_step.
    case_match; [|done]. apply ends_bind; [by apply wait_loop_ends|]. intros ? ? _.
    refine ((_ : calm _) _). calm.
Qed.

#[global] Instance demo_returns : ProviderReturns DemoProvider.
Proof. by split; intros; cbn; calm. Qed.

(** A stream of records that are no handshake messages. *)
Lemma client_terminates_witness :
  let c := demo_fresh (mjoin (replicate 20 [x14; x03; x03; x00; x01; x01])) in
  fst (open 126 psk_config demo_provider c) <> Diverge /\ fst (read_buffered 126 c) <> Diverge.
Proof.
  intros c. destruct (client_terminates (CS := Toy.suite) 126 psk_config demo_provider c) as [H1 H2].
  - split; [reflexivity|]. vm_compute. lia.
  - split; [apply H1|apply H2]; apply leb_complete; vm_compute; reflexivity.
Defined.
