(* ===== verification/Future.v ===== *)
(** Futures: what an [async fn] of the crate is, and how an executor runs it.

    A future is a finite tree ([Fut]): stretches of ordinary code that run without
    interruption ([Sync]), and operations of the transport that are awaited ([Await]).
    The state of type [S] is what the function has borrowed ([&mut self] and the like):
    it is changed in place, so it keeps what was done so far when the future is dropped.

    The transport's own futures are a parameter ([AsyncSocket]): polling one answers
    that it is still pending or gives its result.  Polling a [Task] runs its code up to
    the next operation that is pending.  [blocking] is the same code with the transport of
    the blocking interface; [polled_to_the_end] relates the two. *)

From S2P Require Import Prelude Errors CryptoBuffer ParseBuffer Wire ExtensionData Extensions.
From S2P Require Import CryptoSuite KeySchedule KeyScheduleProps ClientHello Handshake Server.
From S2P Require Import Record RecordReader.
From Stdlib Require Import ZArith Lia.
From Stdlib Require Import Strings.Byte.
From stdpp Require Import base list option numbers tactics sets.

(** ** Parts of a state *)

(** [view] and [upd] select a part of the state. *)
Record lens {S T : Type} (view : S -> T) (upd : T -> S -> S) : Prop := {
  view_upd t s : view (upd t s) = t;
  upd_upd t t' s : upd t' (upd t s) = upd t' s;
  upd_view s : upd (view s) s = s;
}.

Record Lens (S T : Type) : Type := mkLens {
  view : S -> T;
  upd : T -> S -> S;
  lens_laws : lens view upd;
}.
#[global] Arguments mkLens {S T} view upd lens_laws.
#[global] Arguments view {S T} l s.
#[global] Arguments upd {S T} l t s.
#[global] Arguments lens_laws {S T} l.

Section Lenses.
Context {S T U : Type}.

Lemma lens_comp_laws (l : Lens S T) (l' : Lens T U) :
  lens (fun s => view l' (view l s)) (fun u s => upd l (upd l' u (view l s)) s).
Proof.
  destruct (lens_laws l) as [A1 A2 A3], (lens_laws l') as [B1 B2 B3].
  split; intros *; [by rewrite A1, B1|by rewrite A1, B2, A2|by rewrite B3, A3].
Qed.

Definition lens_comp (l : Lens S T) (l' : Lens T U) : Lens S U :=
  mkLens (fun s => view l' (view l s)) (fun u s => upd l (upd l' u (view l s)) s) (lens_comp_laws l l').

Lemma fst_lens_laws : lens (S := S * T) fst (fun s p => (s, snd p)).
Proof. split; [done..|by intros []]. Qed.
Lemma snd_lens_laws : lens (S := S * T) snd (fun t p => (fst p, t)).
Proof. split; [done..|by intros []]. Qed.
Lemma id_lens_laws : lens (S := S) (fun s => s) (fun t _ => t).
Proof. done. Qed.

Definition fst_lens : Lens (S * T) S := mkLens fst (fun s p => (s, snd p)) fst_lens_laws.
Definition snd_lens : Lens (S * T) T := mkLens snd (fun t p => (fst p, t)) snd_lens_laws.
Definition id_lens : Lens S S := mkLens (fun s => s) (fun t _ => t) id_lens_laws.
End Lenses.

(** ** Futures *)

(** The operations of [embedded_io_async] that are awaited, with the type of what they
    return. *)
Inductive TransportOp : Type -> Type :=
| Op_read (n : nat) : TransportOp (list byte)
| Op_write_all (xs : list byte) : TransportOp unit
| Op_flush : TransportOp unit.

Inductive Fut (T S E A : Type) : Type :=
| Done (r : result E A)
| Sync (B : Type) (m : M S E B) (k : B -> Fut T S E A)
| Await (B : Type) (l : Lens S T) (op : TransportOp B) (k : B + ErrorKind -> Fut T S E A).
#[global] Arguments Done {T S E A} r.
#[global] Arguments Sync {T S E A B} m k.
#[global] Arguments Await {T S E A B} l op k.

#[global] Instance Fut_ret T S E : MRet (Fut T S E) := fun A a => Done (Ok a).

#[global] Instance Fut_bind T S E : MBind (Fut T S E) := fun A B g =>
  fix bind (f : Fut T S E A) : Fut T S E B :=
    match f with
    | Done (Ok a) => g a
    | Done (Err e) => Done (Err e)
    | Done Panic => Done Panic
    | Done Diverge => Done Diverge
    | Sync m k => Sync m (fun b => bind (k b))
    | Await l op k => Await l op (fun r => bind (k r))
    end.

(** Code without [await]. *)
Definition sync {T S E A} (m : M S E A) : Fut T S E A := Sync m (fun a => Done (Ok a)).

(** Read a field. *)
Definition gets {S E A} (f : S -> A) : M S E A := fun s => (Ok (f s), s).

Definition throw {T S E A} (e : E) : Fut T S E A := Done (Err e).

(** [op.await.map_err(|e| TlsError::Io(e.kind()))?] *)
Definition io_await {T S A} (l : Lens S T) (op : TransportOp A) : Fut T S TlsError A :=
  Await l op (fun r => match r with inl a => Done (Ok a) | inr e => Done (Err (Io e)) end).

(** The future of a callee that borrows a part of the state. *)
Fixpoint within {T S U E A} (l : Lens S U) (f : Fut T U E A) : Fut T S E A :=
  match f with
  | Done r => Done r
  | Sync m k => Sync (zoom (view l) (upd l) m) (fun b => within l (k b))
  | Await l' op k => Await (lens_comp l l') op (fun r => within l (k r))
  end.

(** ** The blocking reading of a future *)

Section Block.
Context {T : Type} `{Sock : Socket T}.

Definition blocking_op {B} (op : TransportOp B) : M T ErrorKind B :=
  match op in TransportOp B return M T ErrorKind B with
  | Op_read n => sock_read n
  | Op_write_all xs => sock_write_all xs
  | Op_flush => sock_flush
  end.

Fixpoint blocking {S E A} (f : Fut T S E A) : M S E A :=
  match f with
  | Done r => fun s => (r, s)
  | Sync m k => b ← m; blocking (k b)
  | Await l op k => r ← zoom (view l) (upd l) (try_ (blocking_op op)); blocking (k r)
  end.

Lemma bind_ext {S E A B} (m m' : M S E A) (k k' : A -> M S E B) s :
  m s = m' s -> (forall a s, k a s = k' a s) -> (m ≫= k) s = (m' ≫= k') s.
Proof. unfold mbind, M_bind. intros -> Hk. by destruct (m' s) as [[] ?]. Qed.

Lemma zoom_ext {S S' E A} (v : S -> S') (u : S' -> S -> S) (m m' : M S' E A) s :
  (forall t, m t = m' t) -> zoom v u m s = zoom v u m' s.
Proof. unfold zoom. by intros ->. Qed.

Lemma block_bind {S E A B} (f : Fut T S E A) (g : A -> Fut T S E B) s :
  blocking (f ≫= g) s = (blocking f ≫= fun a => blocking (g a)) s.
Proof.
  revert s. induction f as [r|C m k IH|C l op k IH]; intros s.
  - by destruct r.
  - cbn. rewrite bind_assoc. apply bind_ext; [done|]. intros b s'. apply IH.
  - cbn. rewrite bind_assoc. apply bind_ext; [done|]. intros b s'. apply IH.
Qed.

Lemma zoom_bind {S S' E A B} (l : Lens S S') (m : M S' E A) (k : A -> M S' E B) s :
  zoom (view l) (upd l) (m ≫= k) s
  = (zoom (view l) (upd l) m ≫= fun a => zoom (view l) (upd l) (k a)) s.
Proof.
  unfold zoom, mbind, M_bind. destruct (m _) as [[a|e| |] t]; try done.
  rewrite (view_upd _ _ (lens_laws l)). destruct (k a t). by rewrite (upd_upd _ _ (lens_laws l)).
Qed.

Lemma block_within {S S' E A} (l : Lens S S') (f : Fut T S' E A) s :
  blocking (within l f) s = zoom (view l) (upd l) (blocking f) s.
Proof.
  revert s. induction f as [r|C m k IH|C l' op k IH]; intros s.
  - cbn. unfold zoom. by rewrite (upd_view _ _ (lens_laws l)).
  - cbn [within blocking]. rewrite zoom_bind. apply bind_ext; [done|]. intros b s'. apply IH.
  - cbn [within blocking]. rewrite zoom_bind. apply bind_ext; [|intros b s'; apply IH].
    unfold zoom. cbn. by destruct (try_ _ _).
Qed.

Lemma block_sync {S E A} (m : M S E A) s : blocking (sync m : Fut T S E A) s = m s.
Proof. cbn. unfold mbind, M_bind. by destruct (m s) as [[] ?]. Qed.

Lemma block_io_await {S A} (l : Lens S T) (op : TransportOp A) s :
  blocking (io_await l op) s = zoom (view l) (upd l) (io (blocking_op op)) s.
Proof.
  cbn. unfold io, zoom, mbind, M_bind, try_, map_err. by destruct (blocking_op op _) as [[] ?].
Qed.
End Block.

(** ** Polling *)

(** The transport's futures.  [op_poll] is one call of [poll]: [inl] is [Poll::Pending]
    with what remains of the operation, [inr] is [Poll::Ready]. *)
Class AsyncSocket (T : Type) : Type := {
  OpFuture : Type -> Type;
  op_start : forall B, TransportOp B -> OpFuture B;
  op_poll : forall B, OpFuture B -> T -> (OpFuture B + result ErrorKind B) * T;
}.
#[global] Arguments op_start {T _ B} op.
#[global] Arguments op_poll {T _ B} w t.

Section Poll.
Context {T : Type} `{ASock : AsyncSocket T} {S E A : Type}.

(** A future that was not polled yet, or that is suspended at an operation. *)
Inductive Task : Type :=
| Unpolled (f : Fut T S E A)
| Parked (B : Type) (l : Lens S T) (w : OpFuture B) (k : B + ErrorKind -> Fut T S E A).

Abbreviation Poll := (S -> (Task + result E A) * S).

(** Go on with the result of an operation. *)
Definition resume {B} (r : result ErrorKind B) (k : B + ErrorKind -> Poll) : Poll :=
  match r with
  | Ok b => k (inl b)
  | Err e => k (inr e)
  | Panic => fun s => (inr Panic, s)
  | Diverge => fun s => (inr Diverge, s)
  end.

(** Poll the operation, and run on when it is ready. *)
Definition wake {B} (l : Lens S T) (w : OpFuture B) (k : B + ErrorKind -> Fut T S E A)
    (run : B + ErrorKind -> Poll) : Poll := fun s =>
  let '(x, t) := op_poll w (view l s) in
  match x with
  | inl w' => (inl (Parked B l w' k), upd l t s)
  | inr r => resume r run (upd l t s)
  end.

Fixpoint run (f : Fut T S E A) : Poll :=
  match f with
  | Done r => fun s => (inr r, s)
  | Sync m k => fun s =>
      match m s with
      | (Ok b, s') => run (k b) s'
      | (Err e, s') => (inr (Err e), s')
      | (Panic, s') => (inr Panic, s')
      | (Diverge, s') => (inr Diverge, s')
      end
  | Await l op k => wake l (op_start op) k (fun r => run (k r))
  end.

Definition poll (t : Task) : Poll :=
  match t with
  | Unpolled f => run f
  | Parked B l w k => wake l w k (fun r => run (k r))
  end.

(** At most [n] polls; a future that has finished is not polled again. *)
Fixpoint polls (n : nat) (x : Task + result E A) (s : S) : (Task + result E A) * S :=
  match n, x with
  | Datatypes.S n', inl t => let '(x', s') := poll t s in polls n' x' s'
  | _, _ => (x, s)
  end.

Fixpoint op_polls {B} (n : nat) (x : OpFuture B + result ErrorKind B) (t : T) :
    (OpFuture B + result ErrorKind B) * T :=
  match n, x with
  | Datatypes.S n', inl w => let '(x', t') := op_poll w t in op_polls n' x' t'
  | _, _ => (x, t)
  end.

(** The future is polled to the end and gives [r]. *)
Definition completes (f : Fut T S E A) (s : S) (r : result E A) (s' : S) : Prop :=
  exists n, polls n (inl (Unpolled f)) s = (inr r, s').

Lemma polls_done n (r : result E A) s : polls n (inr r) s = (inr r, s).
Proof. by destruct n. Qed.

Lemma polls_add m n x s :
  polls (m + n) x s = let '(y, s') := polls m x s in polls n y s'.
Proof.
  revert x s. induction m as [|m IH]; intros x s; [done|]. destruct x as [t|r]; cbn; [|by rewrite polls_done].
  destruct (poll t s). apply IH.
Qed.

Lemma completes_unique f s r1 s1 r2 s2 :
  completes f s r1 s1 -> completes f s r2 s2 -> r1 = r2 /\ s1 = s2.
Proof.
  intros [n1 H1] [n2 H2].
  pose proof (polls_add n1 n2 (inl (Unpolled f)) s) as E1. pose proof (polls_add n2 n1 (inl (Unpolled f)) s) as E2.
  rewrite H1, polls_done in E1. rewrite H2, polls_done in E2. rewrite Nat.add_comm, E2 in E1. by injection E1 as -> ->.
Qed.

(** A suspended operation that finishes after some polls, and the task then runs on. *)
Lemma polls_parked {B} n (l : Lens S T) w (k : B + ErrorKind -> Fut T S E A) r t' : forall s,
  op_polls n (inl w) (view l s) = (inr r, t') ->
  exists m, forall n', polls (m + n') (inl (Parked B l w k)) s
    = let '(y, s') := resume r (fun x => run (k x)) (upd l t' s) in polls n' y s'.
Proof.
  revert w. induction n as [|n IH]; intros w s; [done|]. cbn [op_polls].
  destruct (op_poll w (view l s)) as [[w'|r'] t1] eqn:Hp.
  - intros H. destruct (IH w' (upd l t1 s)) as [m Hm]; [by rewrite (view_upd _ _ (lens_laws l))|].
    exists (Datatypes.S m). intros n'. cbn. unfold wake. rewrite Hp. rewrite Hm. by rewrite (upd_upd _ _ (lens_laws l)).
  - intros H. assert (r' = r /\ t1 = t') as [-> ->] by (destruct n; by simplify_eq/=).
    exists 1. intros n'. cbn. unfold wake. by rewrite Hp.
Qed.
End Poll.
#[global] Arguments Task T {ASock} S E A.

(** The two interfaces of a transport agree: an operation, polled until it is ready,
    gives what the blocking operation gives. *)
Class Settles (T : Type) `{Sock : Socket T, ASock : AsyncSocket T} : Prop :=
  settles B (op : TransportOp B) t :
    exists n, op_polls n (inl (op_start op)) t = (inr (fst (blocking_op op t)), snd (blocking_op op t)).

Section Completion.
Context `{Settles T} {S E A : Type}.

Lemma run_polled (f : Fut T S E A) s :
  exists n, (let '(x, s1) := run f s in polls n x s1) = (inr (fst (blocking f s)), snd (blocking f s)).
Proof.
  revert s. induction f as [r|B m k IH|B l op k IH]; intros s; cbn [run blocking].
  - by exists 0.
  - unfold mbind, M_bind. destruct (m s) as [[b|e| |] s']; [apply IH|by exists 0..].
  - destruct (settles B op (view l s)) as [n Hn].
    destruct (polls_parked n l (op_start op) k _ _ s Hn) as [m Hm].
    assert (exists n', polls (m + n') (inl (Parked B l (op_start op) k)) s
      = (inr (fst (blocking (Await l op k) s)), snd (blocking (Await l op k) s))) as [n' Hn'].
    { cbn [blocking]. unfold mbind, M_bind, zoom, try_.
      destruct (blocking_op op (view l s)) as [[b|e| |] t']; cbn [fst snd resume] in *.
      - destruct (IH (inl b) (upd l t' s)) as [n' H']. exists n'. by rewrite Hm.
      - destruct (IH (inr e) (upd l t' s)) as [n' H']. exists n'. by rewrite Hm.
      - exists 0. by rewrite Hm.
      - exists 0. by rewrite Hm. }
    destruct (m + n') as [|j]; [done|by exists j].
Qed.

(** Over such a transport every future ends, with the answer and the state of the
    blocking code. *)
Lemma polled_to_the_end (f : Fut T S E A) s : completes f s (fst (blocking f s)) (snd (blocking f s)).
Proof. destruct (run_polled f s) as [n Hn]. by exists (Datatypes.S n). Qed.

Lemma completes_block (f : Fut T S E A) s r s' : completes f s r s' <-> blocking f s = (r, s').
Proof.
  pose proof (polled_to_the_end f s) as Hp. split; [intros Hc|intros Hb].
  - destruct (completes_unique _ _ _ _ _ _ Hc Hp) as [-> ->]. by destruct (blocking f s).
  - by rewrite Hb in Hp.
Qed.
End Completion.

(** ** A transport that makes its user wait

    Each operation is pending [lag] times.  While it is pending, [write_all] hands over
    one byte at a time; reads deliver at most [chunk + 1] bytes. *)
Record Laggy : Type := mkLaggy { lg_base : Chunked; lag : nat }.

(** An operation and how often it was polled. *)
Definition LagFuture (B : Type) : Type := TransportOp B * nat.

Definition lag_poll {B} (w : LagFuture B) (t : Laggy) : (LagFuture B + result ErrorKind B) * Laggy :=
  let '(op, polled) := w in
  if decide (polled < lag t) then
    match op in TransportOp B return (LagFuture B + result ErrorKind B) * Laggy with
    | Op_write_all (x :: xs) =>
        let b := lg_base t in
        (inl (Op_write_all xs, Datatypes.S polled),
         mkLaggy (mkChunked (ch_in b) (ch_out b ++ [x]) (chunk b)) (lag t))
    | op => (inl (op, Datatypes.S polled), t)
    end
  else
    let '(r, b) := blocking_op op (lg_base t) in (inr r, mkLaggy b (lag t)).

#[global] Instance laggy_async : AsyncSocket Laggy := {|
  OpFuture := LagFuture;
  op_start B op := (op, 0);
  op_poll B := lag_poll;
|}.

Definition lag_op {B} (op : TransportOp B) : M Laggy ErrorKind B :=
  zoom lg_base (fun b t => mkLaggy b (lag t)) (blocking_op op).

#[global] Instance laggy_socket : Socket Laggy := {|
  sock_read n := lag_op (Op_read n);
  sock_write_all xs := lag_op (Op_write_all xs);
  sock_flush := lag_op Op_flush;
|}.

Lemma laggy_blocking {B} (op : TransportOp B) t :
  blocking_op op t = let '(r, b) := blocking_op op (lg_base t) in (r, mkLaggy b (lag t)).
Proof. by destruct op. Qed.

Lemma lag_polls_step {B} n (w : LagFuture B) t :
  op_polls (T := Laggy) (Datatypes.S n) (inl w) t = let '(x, t') := lag_poll w t in op_polls n x t'.
Proof. done. Qed.

(** With [d] polls to go. *)
Lemma lag_polls d : forall B (op : TransportOp B) polled t,
  lag t - polled = d ->
  op_polls (Datatypes.S d) (inl (op, polled)) t = (inr (fst (blocking_op op t)), snd (blocking_op op t)).
Proof.
  induction d as [|d IH]; intros B op polled t Hd;
    (etransitivity; [apply lag_polls_step|]); unfold lag_poll.
  - rewrite decide_False by lia. rewrite laggy_blocking. by destruct (blocking_op op (lg_base t)).
  - rewrite decide_True by lia.
    assert (forall B (op : TransportOp B), op_polls (Datatypes.S d) (inl (op, Datatypes.S polled)) t
      = (inr (fst (blocking_op op t)), snd (blocking_op op t))) as Hsame by (intros; apply IH; lia).
    destruct op as [n|[|x xs]|]; [apply Hsame..| |apply Hsame].
    rewrite IH by (cbn; lia). destruct t as [[i o c] g]. cbn. by rewrite <-(assoc_L (++)).
Qed.

#[global] Instance laggy_settles : Settles Laggy.
Proof. intros B op t. exists (Datatypes.S (lag t)). apply lag_polls. lia. Qed.
