(* ===== verification/Split.v ===== *)
(** The two halves of a connection (blocking.rs, [TlsConnection::split], [TlsReader] and
    [TlsWriter]; Asynch has their asynchronous methods).

    The halves borrow disjoint parts of the connection and share two things: the flag
    [opened], an [AtomicBool], and the transport, of which each holds a clone (a second
    handle on the same stream).  [Shared] is that common store.  A half's method works on
    the store and on its own part; a run of the two halves is a sequence of calls. *)

From S2P Require Import Prelude Errors CryptoBuffer ParseBuffer Wire ExtensionData Extensions.
From S2P Require Import CryptoSuite KeySchedule KeyScheduleProps ClientHello Handshake Server.
From S2P Require Import ServerRecords Record WriteBuffer RecordReader ReadBuffer Connection.
From S2P Require Import ClientRecords Blocking ClientHandshake ClientStream Future.
From Stdlib Require Import ZArith Lia.
From Stdlib Require Import Strings.Byte.
From stdpp Require Import base list option numbers tactics sets.

Section Halves.
Context `{CS : TlsCipherSuite} {T : Type} `{Sock : Socket T}.

Record Shared : Type := mkShare { s_opened : bool; s_delegate : T }.

Record TlsReader : Type := mkTlsReader {
  rd_key_schedule : ReadKeySchedule;
  rd_record_reader : RecordReader;
  rd_decrypted : DecryptedBufferInfo;
}.

Record TlsWriter : Type := mkTlsWriter {
  wr_key_schedule : WriteKeySchedule;
  wr_record_write_buf : WriteBuffer;
  wr_flush_policy : FlushPolicy;
}.

Abbreviation Conn := (TlsConnection (T := T)).

(** [split(&mut self)]; the connection stays borrowed until the halves are dropped. *)
Definition reader_of (c : Conn) : TlsReader :=
  mkTlsReader (server_state (key_schedule c)) (record_reader c) (decrypted c).
Definition writer_of (c : Conn) : TlsWriter :=
  mkTlsWriter (client_state (key_schedule c)) (record_write_buf c) (flush_policy c).
Definition shared_of (c : Conn) : Shared := mkShare (opened c) (delegate c).

Definition split (c : Conn) : Shared * TlsReader * TlsWriter := (shared_of c, reader_of c, writer_of c).

(** The connection once the halves are dropped. *)
Definition unsplit (h : Shared * TlsReader * TlsWriter) (c : Conn) : Conn :=
  let '(s, r, w) := h in
  mkConn (s_delegate s) (s_opened s)
    (mkKS (shared (key_schedule c)) (wr_key_schedule w) (rd_key_schedule r))
    (rd_record_reader r) (wr_record_write_buf w) (rd_decrypted r) (wr_flush_policy w).

(** ** TlsReader *)

Abbreviation RM := (M (Shared * TlsReader) TlsError).

Definition reader_create_read_buffer : RM ReadBuffer :=
  '(_, r) ← get;
  unwrap (create_read_buffer (rd_decrypted r) (rr_buf (rd_record_reader r))).

(** The flag is loaded into a local variable, and stored back only when the handler
    has cleared it. *)
Definition reader_read_application_data : RM unit :=
  record ← zoom (fun '(s, r) => (rd_record_reader r, s_delegate s, r_transcript (rd_key_schedule r)))
             (fun '(rr, t, d) '(s, r) =>
                (mkShare (s_opened s) t,
                 mkTlsReader (mkRead (r_state (rd_key_schedule r)) d) rr (rd_decrypted r)))
             RecordReader.read;
  '(s, r) ← get;
  zoom (fun '(s, r) => (rd_key_schedule r, rr_buf (rd_record_reader r), (rd_decrypted r, s_opened s)))
       (fun '(rks, rx, (info, o)) '(s, r) =>
          (mkShare (if negb o then false else s_opened s) (s_delegate s),
           mkTlsReader rks (mkReader rx (decoded (rd_record_reader r)) (pending (rd_record_reader r))) info))
       (decrypt_record (handle_callback (length (rr_buf (rd_record_reader r)))) record).

(** [while self.decrypted.is_empty() { self.read_application_data()?; }] *)
Fixpoint reader_wait_loop (fuel : nat) : RM unit :=
  '(_, r) ← get;
  empty ← info_is_empty (rd_decrypted r);
  if negb empty then mret tt
  else match fuel with
  | O => diverge
  | S fuel' => reader_read_application_data;; reader_wait_loop fuel'
  end.

Definition reader_read_buffered (fuel : nat) : RM ReadBuffer :=
  '(s, _) ← get;
  if s_opened s then reader_wait_loop fuel;; reader_create_read_buffer
  else err MissingHandshake.

(** What is done with the buffer, and its [Drop]. *)
Definition reader_use_buffer {A} (b : ReadBuffer) (m : M ReadBuffer TlsError A) : RM A := fun '(s, r) =>
  let drop b' := (s, mkTlsReader (rd_key_schedule r) (rd_record_reader r) (drop_buffer b' (rd_decrypted r))) in
  match m b with
  | (Ok a, b') => (Ok a, drop b')
  | (Err e, b') => (Err e, drop b')
  | (Panic, _) => (Panic, (s, r))
  | (Diverge, _) => (Diverge, (s, r))
  end.

Definition reader_read (fuel : nat) (buf : list byte) : RM (list byte * nat) :=
  if decide (buf = []) then mret (buf, 0)
  else
    b ← reader_read_buffered fuel;
    reader_use_buffer b (pop_into buf).

Definition reader_fill_buf (fuel : nat) : RM (list byte) :=
  b ← reader_read_buffered fuel;
  reader_use_buffer b peek_all.

Definition reader_consume (amt : nat) : RM unit :=
  b ← reader_create_read_buffer;
  reader_use_buffer b (pop amt);; mret tt.

(** ** TlsWriter *)

Abbreviation TW := (M (Shared * TlsWriter) TlsError).

Definition on_shared_delegate {A} (m : M T TlsError A) : TW A :=
  zoom (fun st => s_delegate (fst st)) (fun t st => (mkShare (s_opened (fst st)) t, snd st)) m.
Definition on_writer_buf {A} (m : M WriteBuffer TlsError A) : TW A :=
  zoom (fun st => wr_record_write_buf (snd st))
       (fun b st => (fst st, mkTlsWriter (wr_key_schedule (snd st)) b (wr_flush_policy (snd st)))) m.

Definition writer_flush_transport : TW unit := on_shared_delegate (io sock_flush).

Definition writer_flush : TW unit :=
  '(_, w) ← get;
  if negb (wb_is_empty (wr_record_write_buf w)) then
    slice ← on_writer_buf (close_record (wr_key_schedule w));
    on_shared_delegate (io (sock_write_all slice));;
    zoom (fun st => w_state (wr_key_schedule (snd st)))
         (fun k st => (fst st, mkTlsWriter (mkWrite k (binder_key (wr_key_schedule (snd st))))
                                 (wr_record_write_buf (snd st)) (wr_flush_policy (snd st))))
         kss_increment_counter;;
    if flush_transport (wr_flush_policy w) then writer_flush_transport else mret tt
  else mret tt.

Definition writer_write (buf : list byte) : TW nat :=
  '(s, w) ← get;
  if s_opened s then
    (if negb (contains (wr_record_write_buf w) CRH_ApplicationData)
     then writer_flush;; on_writer_buf (start_record CRH_ApplicationData)
     else mret tt);;
    buffered ← on_writer_buf (wb_append buf);
    full ← on_writer_buf is_full;
    (if full : bool then writer_flush else mret tt);;
    mret buffered
  else err MissingHandshake.
End Halves.

(** ** The halves implement the connection *)

Section Lens.
Context {S T E : Type} (view : S -> T) (upd : T -> S -> S).

(** On [s], the computation [m] is [p] on the selected part. *)
Definition implements {A} (m : M S E A) (p : M T E A) (s : S) : Prop := m s = zoom view upd p s.

Lemma implements_bind {A B} (L : lens view upd) (m : M S E A) p (k : A -> M S E B) q s :
  implements m p s ->
  (forall a t, p (view s) = (Ok a, t) -> implements (k a) (q a) (upd t s)) ->
  implements (m ≫= k) (p ≫= q) s.
Proof.
  unfold implements, zoom, mbind, M_bind. intros -> Hk. destruct (p (view s)) as [[a|e| |] t] eqn:Hp; try done.
  rewrite (Hk a t eq_refl), (view_upd _ _ L). destruct (q a t) as [r t']. by rewrite (upd_upd _ _ L).
Qed.

Lemma implements_ret {A} (L : lens view upd) (a : A) s : implements (mret a) (mret a) s.
Proof. unfold implements, zoom. simpl. by rewrite (upd_view _ _ L). Qed.
Lemma implements_err {A} (L : lens view upd) (e : E) s : implements (err (A := A) e) (err e) s.
Proof. unfold implements, zoom. simpl. by rewrite (upd_view _ _ L). Qed.
Lemma implements_unwrap {A} (L : lens view upd) (o : option A) s : implements (unwrap o) (unwrap o) s.
Proof. destruct o; unfold implements, zoom; simpl; by rewrite (upd_view _ _ L). Qed.

(** Reading the state: the two sides continue with what they see. *)
Lemma implements_get {B} (L : lens view upd) (k : S -> M S E B) (q : T -> M T E B) s :
  implements (k s) (q (view s)) s -> implements (get ≫= k) (get ≫= q) s.
Proof. done. Qed.
End Lens.

Section Simulation.
Context `{CS : TlsCipherSuite} {T : Type} `{Sock : Socket T}.
Abbreviation Conn := (TlsConnection (T := T)).
Implicit Types c : Conn.

Definition rview (c : Conn) : Shared * TlsReader := (shared_of c, reader_of c).
Definition rput (x : Shared * TlsReader) (c : Conn) : Conn := unsplit (fst x, snd x, writer_of c) c.
Definition wview (c : Conn) : Shared * TlsWriter := (shared_of c, writer_of c).
Definition wput (x : Shared * TlsWriter) (c : Conn) : Conn := unsplit (fst x, reader_of c, snd x) c.

Lemma reader_lens : lens rview rput.
Proof. split; [by intros [[] []] []|by intros [] [] []|]. by intros [? ? [? [] []] ? ? ? ?]. Qed.
Lemma writer_lens : lens wview wput.
Proof. split; [by intros [[] []] []|by intros [] [] []|]. by intros [? ? [? [] []] ? ? ? ?]. Qed.

Abbreviation reader_implements := (implements rview rput).
Abbreviation writer_implements := (implements wview wput).

Lemma sim_read_application_data c :
  opened c = true -> reader_implements read_application_data reader_read_application_data c.
Proof.
  intros Ho. unfold implements, read_application_data, reader_read_application_data.
  unfold mbind, M_bind, zoom. destruct c as [d o ks rr w i fp]. cbn in Ho. subst o. cbn.
  unfold transcript_hash. destruct (RecordReader.read (rr, d, _)) as [[rec|e| |] [[r t] dg]]; cbn; try by destruct ks.
  destruct (decrypt_record _ _ _) as [res [[rks rx] [info o]]]. cbn. by destruct o.
Qed.

(** A record that is handled without error leaves the connection open. *)
Lemma decrypt_keeps_open `{!TlsCipherSuiteLaws CS} n rec rks rx info o :
  post (decrypt_record (handle_callback n) rec) (rks, rx, (info, o)) (fun _ s => snd (snd s) = o).
Proof.
  assert (forall r rks x, snd x = o -> post (handle_callback n r) (rks, x) (fun _ s => snd (snd s) = o)) as Hcb.
  { intros rc rks' [info' o'] Ho. unfold handle_callback. apply post_on_snd. cbn [snd] in *.
    destruct rc as [[]| | |]; cbn [handle]; repeat post_step; try done; repeat case_match; repeat post_step; done. }
  destruct rec as [m| | |app]; try (unfold decrypt_record, callback; apply post_zoom; by apply Hcb).
  apply (decrypt_post (handle_callback n) (fun _ x => snd x = o)); try done; intros ? ? ? **; by apply Hcb.
Qed.

Lemma read_application_data_open `{!TlsCipherSuiteLaws CS} c :
  post read_application_data c (fun _ c' => opened c' = opened c).
Proof.
  unfold read_application_data. apply post_bind, post_zoom. eapply post_mono; [apply post_True|].
  intros rec [[r t] d] _. apply post_bind, post_get, post_zoom.
  eapply post_mono; [apply decrypt_keeps_open|]. by intros _ [[rks rx] [info o]] Ho.
Qed.

Lemma sim_is_empty {B} i (k : bool -> M Conn TlsError B) q c :
  (forall b, reader_implements (k b) (q b) c) ->
  reader_implements (info_is_empty i ≫= k) (info_is_empty i ≫= q) c.
Proof.
  intros H. unfold info_is_empty, info_len. destruct (usub _ _) as [n|]; [exact (H _)|].
  unfold implements, zoom, mbind, M_bind. by destruct c as [? ? [? [] []] ? ? ? ?].
Qed.

Lemma sim_wait_loop `{!TlsCipherSuiteLaws CS} fuel : forall c,
  opened c = true -> reader_implements (wait_loop fuel) (reader_wait_loop fuel) c.
Proof.
  induction fuel as [|fuel IH]; intros c Ho; cbn [wait_loop reader_wait_loop];
    (apply implements_get; [apply reader_lens|]); cbn [rview reader_of rd_decrypted];
    apply sim_is_empty; intros []; cbn [negb]; try apply implements_ret, reader_lens.
  - unfold implements, zoom, diverge. by rewrite (upd_view _ _ reader_lens).
  - apply implements_bind; [apply reader_lens|by apply sim_read_application_data|].
    intros [] t' Ht'. apply IH. rewrite <-Ho.
    apply (read_application_data_open c tt (rput t' c)). rewrite sim_read_application_data by done.
    unfold zoom. by rewrite Ht'.
Qed.

Lemma sim_create_buffer c :
  reader_implements (c ← get; unwrap (create_read_buffer (decrypted c) (rr_buf (record_reader c))))
    reader_create_read_buffer c.
Proof. apply implements_get; [apply reader_lens|]. apply implements_unwrap, reader_lens. Qed.

Lemma sim_read_buffered `{!TlsCipherSuiteLaws CS} fuel c :
  reader_implements (read_buffered fuel) (reader_read_buffered fuel) c.
Proof.
  apply implements_get; [apply reader_lens|]. cbn [rview shared_of s_opened].
  destruct (opened c) eqn:Ho; [|apply implements_err, reader_lens].
  apply implements_bind; [apply reader_lens|by apply sim_wait_loop|]. intros. apply sim_create_buffer.
Qed.

Lemma sim_use_buffer {A} b (m : M ReadBuffer TlsError A) c :
  reader_implements (use_buffer b m) (reader_use_buffer b m) c.
Proof.
  unfold implements, zoom, use_buffer, reader_use_buffer. destruct c as [? ? [? [] []] ? ? ? ?]. cbn.
  by destruct (m b) as [[] ?].
Qed.

Lemma sim_read `{!TlsCipherSuiteLaws CS} fuel buf c : reader_implements (read fuel buf) (reader_read fuel buf) c.
Proof.
  unfold read, reader_read. case_decide; [apply implements_ret, reader_lens|].
  apply implements_bind; [apply reader_lens|apply sim_read_buffered|]. intros. apply sim_use_buffer.
Qed.

Lemma sim_fill_buf `{!TlsCipherSuiteLaws CS} fuel c : reader_implements (fill_buf fuel) (reader_fill_buf fuel) c.
Proof.
  apply implements_bind; [apply reader_lens|apply sim_read_buffered|]. intros. apply sim_use_buffer.
Qed.

Lemma sim_consume amt c : reader_implements (consume amt) (reader_consume amt) c.
Proof.
  unfold consume.
  enough (reader_implements ((c ← get; unwrap (create_read_buffer (decrypted c) (rr_buf (record_reader c))))
    ≫= fun b => use_buffer b (pop amt);; mret tt) (reader_consume amt) c) as H.
  { unfold implements in *. rewrite <-H. by rewrite bind_assoc. }
  unfold reader_consume. apply implements_bind; [apply reader_lens|apply sim_create_buffer|]. intros b t _.
  apply implements_bind; [apply reader_lens|apply sim_use_buffer|]. intros. apply implements_ret, reader_lens.
Qed.

(** ** The writer *)

Lemma sim_on_write_buf {A} (m : M WriteBuffer TlsError A) c :
  writer_implements (on_write_buf m) (on_writer_buf m) c.
Proof. unfold implements, on_write_buf, on_writer_buf, zoom. destruct c as [? ? [? [] []] ? ? ? ?]. cbn. by destruct (m _). Qed.

Lemma sim_on_delegate {A} (m : M T TlsError A) c :
  writer_implements (on_delegate m) (on_shared_delegate m) c.
Proof. unfold implements, on_delegate, on_shared_delegate, zoom. destruct c as [? ? [? [] []] ? ? ? ?]. cbn. by destruct (m _). Qed.

Lemma sim_flush c : writer_implements flush writer_flush c.
Proof.
  pose proof writer_lens as L. apply implements_get; [done|]. cbn [wview writer_of wr_record_write_buf].
  case_match; [|by apply implements_ret].
  apply implements_bind; [done|apply sim_on_write_buf|]. intros slice t1 _.
  apply implements_bind; [done|apply sim_on_delegate|]. intros _ t2 _.
  apply implements_bind; [done| |].
  - unfold implements, on_key_schedule, write_increment_counter, zoom.
    destruct t2 as [[] []]. cbn. by destruct (kss_increment_counter _).
  - intros _ t3 _. change (wr_flush_policy _) with (flush_policy c).
    destruct (flush_transport (flush_policy c)); [apply sim_on_delegate|by apply implements_ret].
Qed.

Lemma sim_write buf c : writer_implements (write buf) (writer_write buf) c.
Proof.
  pose proof writer_lens as L. apply implements_get; [done|]. cbn [wview shared_of writer_of s_opened wr_record_write_buf].
  destruct (opened c); [|by apply implements_err].
  apply implements_bind; [done| |].
  - case_match; [|by apply implements_ret]. apply implements_bind; [done|apply sim_flush|]. intros. apply sim_on_write_buf.
  - intros _ t1 _. apply implements_bind; [done|apply sim_on_write_buf|]. intros n t2 _.
    apply implements_bind; [done|apply sim_on_write_buf|]. intros full t3 _.
    apply implements_bind; [done|case_match; [apply sim_flush|by apply implements_ret]|].
    intros. by apply implements_ret.
Qed.
End Simulation.

(** ** Runs of calls *)

Section Calls.
Context `{CS : TlsCipherSuite} {T : Type} `{Sock : Socket T}.
Abbreviation Conn := (TlsConnection (T := T)).
Abbreviation Halves := (Shared (T := T) * TlsReader * TlsWriter)%type.

(** A call of a method of the reader (the first three) or of the writer. *)
Inductive Call : Type :=
| Call_read (fuel : nat) (buf : list byte)
| Call_fill_buf (fuel : nat)
| Call_consume (amt : nat)
| Call_write (buf : list byte)
| Call_flush.

Inductive Answer : Type :=
| Read_answer (r : result TlsError (list byte * nat))
| Fill_answer (r : result TlsError (list byte))
| Write_answer (r : result TlsError nat)
| Unit_answer (r : result TlsError unit).

Definition answer {S A} (f : result TlsError A -> Answer) (m : M S TlsError A) (s : S) : Answer * S :=
  let '(r, s') := m s in (f r, s').

Definition conn_call (x : Call) : Conn -> Answer * Conn :=
  match x with
  | Call_read fuel buf => answer Read_answer (read fuel buf)
  | Call_fill_buf fuel => answer Fill_answer (fill_buf fuel)
  | Call_consume amt => answer Unit_answer (consume amt)
  | Call_write buf => answer Write_answer (write buf)
  | Call_flush => answer Unit_answer flush
  end.

Definition reader_call {A} (f : result TlsError A -> Answer) (m : M (Shared * TlsReader) TlsError A)
    (h : Halves) : Answer * Halves :=
  let '(s, r, w) := h in let '(a, (s', r')) := answer f m (s, r) in (a, (s', r', w)).
Definition writer_call {A} (f : result TlsError A -> Answer) (m : M (Shared * TlsWriter) TlsError A)
    (h : Halves) : Answer * Halves :=
  let '(s, r, w) := h in let '(a, (s', w')) := answer f m (s, w) in (a, (s', r, w')).

Definition half_call (x : Call) : Halves -> Answer * Halves :=
  match x with
  | Call_read fuel buf => reader_call Read_answer (reader_read fuel buf)
  | Call_fill_buf fuel => reader_call Fill_answer (reader_fill_buf fuel)
  | Call_consume amt => reader_call Unit_answer (reader_consume amt)
  | Call_write buf => writer_call Write_answer (writer_write buf)
  | Call_flush => writer_call Unit_answer writer_flush
  end.

(** The answers of a sequence of calls, and the state it leaves. *)
Fixpoint run_calls {S} (call : Call -> S -> Answer * S) (xs : list Call) (s : S) : list Answer * S :=
  match xs with
  | [] => ([], s)
  | x :: xs' =>
      let '(a, s1) := call x s in
      let '(rest, s2) := run_calls call xs' s1 in
      (a :: rest, s2)
  end.

Lemma reader_call_sim {A} f (m : M Conn TlsError A) p c :
  implements rview rput m p c ->
  reader_call f p (split c) = (fst (answer f m c), split (snd (answer f m c))).
Proof.
  unfold implements, zoom, reader_call, answer, split. intros ->. change (rview c) with (shared_of c, reader_of c).
  destruct (p _) as [r [s' r']]. by destruct s', r'.
Qed.
Lemma writer_call_sim {A} f (m : M Conn TlsError A) p c :
  implements wview wput m p c ->
  writer_call f p (split c) = (fst (answer f m c), split (snd (answer f m c))).
Proof.
  unfold implements, zoom, writer_call, answer, split. intros ->. change (wview c) with (shared_of c, writer_of c).
  destruct (p _) as [r [s' w']]. by destruct s', w'.
Qed.

Lemma half_call_sim `{!TlsCipherSuiteLaws CS} x c :
  half_call x (split c) = (fst (conn_call x c), split (snd (conn_call x c))).
Proof.
  destruct x; cbn [half_call conn_call]; (apply reader_call_sim || apply writer_call_sim);
    auto using sim_read, sim_fill_buf, sim_consume, sim_write, sim_flush.
Qed.

(** No call touches the part of the key schedule that neither half holds. *)
Lemma implements_shared {A X} view (upd : X -> Conn -> Conn) (m : M Conn TlsError A) p f c :
  (forall x c, shared (key_schedule (upd x c)) = shared (key_schedule c)) -> implements view upd m p c ->
  shared (key_schedule (snd (answer f m c))) = shared (key_schedule c).
Proof. unfold implements, zoom, answer. intros Hu ->. destruct (p _). apply Hu. Qed.

Lemma conn_call_shared `{!TlsCipherSuiteLaws CS} x c :
  shared (key_schedule (snd (conn_call x c))) = shared (key_schedule c).
Proof.
  destruct x; cbn [conn_call].
  - eapply (implements_shared rview rput); [by intros []|apply sim_read].
  - eapply (implements_shared rview rput); [by intros []|apply sim_fill_buf].
  - eapply (implements_shared rview rput); [by intros []|apply sim_consume].
  - eapply (implements_shared wview wput); [by intros []|apply sim_write].
  - eapply (implements_shared wview wput); [by intros []|apply sim_flush].
Qed.

Lemma unsplit_split (c c' : Conn) :
  shared (key_schedule c') = shared (key_schedule c) -> unsplit (split c') c = c'.
Proof. destruct c' as [? ? [? ? ?] ? ? ? ?]. unfold unsplit, split. cbn. by intros <-. Qed.
End Calls.

(** ** Properties *)

(** C36: a split connection behaves like the connection it was split from.  Whatever the
    sequence of calls on the two halves, and whatever errors, closures or panics happen
    on the way, every call gives the answer that the same call on the unsplit
    connection gives, and after the halves are dropped the connection is in the same
    state: the flag that the halves share and load and store separately, and the state
    they divide, never get out of step. *)
Theorem split_equivalent `{CS : TlsCipherSuite, !TlsCipherSuiteLaws CS, Sock : Socket T}
    (calls : list Call) (c : TlsConnection (T := T)) :
  exists answers c' halves,
    run_calls conn_call calls c = (answers, c') /\
    run_calls half_call calls (split c) = (answers, halves) /\ unsplit halves c = c'.
Proof.
  cut (exists answers c', run_calls conn_call calls c = (answers, c') /\
    run_calls half_call calls (split c) = (answers, split c') /\
    shared (key_schedule c') = shared (key_schedule c)).
  { intros (a & c' & H1 & H2 & Hs). exists a, c', (split c'). auto using unsplit_split. }
  revert c. induction calls as [|x calls IH]; intros c; [by exists [], c|]. cbn [run_calls].
  rewrite half_call_sim. pose proof (conn_call_shared x c) as Hs. destruct (conn_call x c) as [a c1].
  cbn [fst snd] in *. destruct (IH c1) as (rest & c2 & -> & -> & Hs2). exists (a :: rest), c2. by rewrite Hs2.
Qed.

(** Reads that return data, a write, and a close_notify seen by both halves. *)
Definition demo_calls : list Call :=
  [Call_read 2 (zeros 4); Call_write [x61; x62]; Call_flush; Call_fill_buf 2; Call_consume 3;
   Call_read 2 (zeros 9); Call_read 2 (zeros 9); Call_write [x63]].
Definition demo_peer : TlsConnection (CS := Toy.suite) (T := Chunked) :=
  mkConn (mkChunked (mjoin (sealed_all demo_keys (AppData <$> [replicate 8 x7a]))
                     ++ [x15; x03; x03; x00; x02; x01; x00]) [] 3)
    true demo_schedule (RecordReader_new (zeros 64)) (mkWB (zeros 140) 0 None) DecryptedBufferInfo_default Strict.

Lemma split_equivalent_witness :
  exists answers c' halves,
    run_calls conn_call demo_calls demo_peer = (answers, c') /\
    run_calls half_call demo_calls (split demo_peer) = (answers, halves) /\ unsplit halves demo_peer = c'.
Proof. apply (split_equivalent (CS := Toy.suite) demo_calls demo_peer). Defined.

(** The run: after the alert the reader reports the closure and the writer refuses. *)
Example demo_calls_run :
  fst (run_calls half_call demo_calls (split demo_peer))
  = [Read_answer (Ok (replicate 4 x7a, 4)); Write_answer (Ok 2); Unit_answer (Ok tt);
     Fill_answer (Ok (replicate 4 x7a)); Unit_answer (Ok tt);
     Read_answer (Ok (x7a :: zeros 8, 1)); Read_answer (Err ConnectionClosed);
     Write_answer (Err MissingHandshake)].
Proof. vm_compute. reflexivity. Qed.
