(* ===== verification/AsyncHandshake.v ===== *)
(** The asynchronous functions of record_reader.rs and connection.rs: reading a record and
    the steps of the handshake, with their await points.

    The code between two awaits is that of the blocking functions, taken from RecordReader
    and Connection; each future is shown to have the blocking function as its blocking
    reading. *)

From S2P Require Import Blocking.
From S2P Require Import Prelude Errors CryptoBuffer ParseBuffer Wire ExtensionData Extensions.
From S2P Require Import CryptoSuite KeySchedule KeyScheduleProps ClientHello Handshake Server.
From S2P Require Import ServerRecords Record WriteBuffer RecordReader Connection Future.
From Stdlib Require Import ZArith Lia.
From Stdlib Require Import Strings.Byte.
From stdpp Require Import base list option numbers tactics sets.

(** ** Reading a record *)

Section Reader.
Context {T : Type}.

(** [while total_read != RecordHeader::LEN { .. }]; [buf] and [total_read] are local
    variables of the future. *)
Fixpoint header_loop (fuel : nat) (buf : list byte) (total_read : nat) : Fut T T TlsError (list byte) :=
  if decide (total_read = RecordHeader_LEN) then mret buf
  else match fuel with
  | O => Done Diverge
  | S fuel' =>
      n ← sync (unwrap (usub (length buf) total_read));
      xs ← io_await id_lens (Op_read n);
      if decide (length xs = 0) then throw IoError
      else header_loop fuel' (splice buf total_read xs) (total_read + length xs)
  end.

Definition next_record_header : Fut T T TlsError RecordHeader :=
  buf ← header_loop RecordHeader_LEN (zeros RecordHeader_LEN) 0;
  sync (RecordHeader_decode buf).

(** [while *pending < amount { .. }]; [remain] is local, [decoded] and [pending] are
    borrowed. *)
Fixpoint advance_loop (fuel remain amount : nat) : Fut T (RecordReader * T) TlsError unit :=
  r ← sync (gets fst);
  if decide (amount <= pending r) then mret tt
  else match fuel with
  | O => Done Diverge
  | S fuel' =>
      if decide (decoded r + pending r + remain <= length (rr_buf r)) then
        xs ← io_await snd_lens (Op_read remain);
        if decide (length xs = 0) then throw IoError
        else
          remain' ← sync (unwrap (usub remain (length xs)));
          sync (on_fst (put (mkReader (splice (rr_buf r) (decoded r + pending r) xs) (decoded r)
                                      (pending r + length xs))));;
          advance_loop fuel' remain' amount
      else Done Panic
  end.

Definition advance (amount : nat) : Fut T (RecordReader * T) TlsError unit :=
  sync (on_fst (ensure_contiguous amount));;
  advance_loop amount amount amount.

Context `{CS : TlsCipherSuite}.

Definition read : Fut T (RecordReader * T * list byte) TlsError ServerRecord :=
  header ← within (lens_comp fst_lens snd_lens) next_record_header;
  n ← sync (content_length header);
  within fst_lens (advance n);;
  sync (zoom (fun st => (fst (fst st), snd st)) (fun c st => (fst c, snd (fst st), snd c))
          (consume header)).
End Reader.

(** ** The handshake *)

Section Client.
Context `{CS : TlsCipherSuite} {T P : Type} `{CP : CryptoProvider P}.
Abbreviation Cl := (Client (T := T) (P := P)).

Lemma transport_lens_laws :
  lens (S := Cl) cl_transport (fun t c => mkClient t (cl_handshake c) (cl_reader c) (cl_tx c) (cl_ks c)
                                            (cl_provider c)).
Proof. split; [done..|by intros []]. Qed.
Definition transport_lens : Lens Cl T := mkLens _ _ transport_lens_laws.

Definition reading_upd : RecordReader * T * list byte -> Cl -> Cl := fun '(r, t, d) c =>
  mkClient t (cl_handshake c) r (cl_tx c)
    (mkKS (shared (cl_ks c)) (client_state (cl_ks c)) (mkRead (r_state (server_state (cl_ks c))) d))
    (cl_provider c).
Lemma reading_lens_laws :
  lens (fun c : Cl => (cl_reader c, cl_transport c, transcript_hash (cl_ks c))) reading_upd.
Proof. split; [by intros [[]]|by intros [[]] [[]]|by intros [? ? ? ? [? ? []]]]. Qed.
Definition reading_lens : Lens Cl (RecordReader * T * list byte) := mkLens _ _ reading_lens_laws.

Abbreviation CF := (Fut T Cl TlsError).

Definition respond (tx : list byte) : CF unit :=
  io_await transport_lens (Op_write_all tx);;
  sync (on_ks write_increment_counter);;
  io_await transport_lens Op_flush.

(** [result] was computed before, without an await. *)
Definition handle_processing_error (result : State + TlsError) : CF State :=
  match result with
  | inl st => mret st
  | inr (AbortHandshake level description as e) =>
      tx ← sync (write_tx (CR_Alert (mkAlert level description) false));
      respond tx;;
      throw e
  | inr e => throw e
  end.

Definition process (config : TlsConfig) (self : State) : CF State :=
  match self with
  | St_ClientHello =>
      '(state, tx) ← sync (client_hello config);
      respond tx;;
      mret state
  | St_ServerHello =>
      record ← within reading_lens read;
      result ← sync (try_ (process_server_hello record));
      handle_processing_error result
  | St_ServerVerify =>
      record ← within reading_lens read;
      result ← sync (try_ (process_server_verify record));
      handle_processing_error result
  | St_ClientCert =>
      '(state, tx) ← sync client_cert;
      respond tx;;
      mret state
  | St_ClientCertVerify =>
      '(result, tx) ← sync client_cert_verify;
      respond tx;;
      match result with inl state => mret state | inr e => throw e end
  | St_ClientFinished =>
      tx ← sync client_finished;
      respond tx;;
      sync client_finished_finalize
  | St_ApplicationData => mret St_ApplicationData
  end.

(** [while state != State::ApplicationData { .. }] of [open] *)
Fixpoint open_loop (fuel : nat) (config : TlsConfig) (state : State) : CF unit :=
  if decide (state = St_ApplicationData) then mret tt
  else match fuel with
  | O => Done Diverge
  | S fuel' => next_state ← process config state; open_loop fuel' config next_state
  end.
End Client.

(** ** Their blocking readings *)

(** Two computations that agree on every state. *)
Definition same {S E A} (m m' : M S E A) : Prop := forall s, m s = m' s.

Section Same.
Context {T : Type} `{Sock : Socket T} {S E : Type}.

Lemma same_ret {A} (a : A) : same (blocking (mret a : Fut T S E A)) (mret a).
Proof. done. Qed.
Lemma same_throw {A} (e : E) : same (blocking (throw e : Fut T S E A)) (err e).
Proof. done. Qed.
Lemma same_panic {A} : same (blocking (Done Panic : Fut T S E A)) panic.
Proof. done. Qed.
Lemma same_diverge {A} : same (blocking (Done Diverge : Fut T S E A)) diverge.
Proof. done. Qed.
Lemma same_sync {A} (m : M S E A) : same (blocking (sync m : Fut T S E A)) m.
Proof. intros s. apply block_sync. Qed.
Lemma same_await {A} (l : Lens S T) (op : TransportOp A) :
  same (blocking (io_await l op)) (zoom (view l) (upd l) (io (blocking_op op))).
Proof. intros s. apply block_io_await. Qed.
Lemma same_await_self {A} (op : TransportOp A) : same (blocking (io_await id_lens op)) (io (blocking_op op)).
Proof. intros s. rewrite block_io_await. unfold zoom. cbn. by destruct (io _ _). Qed.
Lemma same_bind {A B} (f : Fut T S E A) (g : A -> Fut T S E B) m k :
  same (blocking f) m -> (forall a, same (blocking (g a)) (k a)) -> same (blocking (f ≫= g)) (m ≫= k).
Proof. intros Hm Hk s. rewrite block_bind. apply bind_ext; [apply Hm|]. intros a s'. apply Hk. Qed.
Lemma same_gets {A B} (f : S -> A) (g : A -> Fut T S E B) k :
  (forall s, same (blocking (g (f s))) (k s)) -> same (blocking (sync (gets f) ≫= g)) (get ≫= k).
Proof. intros H s. exact (H s s). Qed.
Lemma same_within {S' A} (l : Lens S S') (f : Fut T S' E A) m :
  same (blocking f) m -> same (blocking (within l f)) (zoom (view l) (upd l) m).
Proof. intros Hm s. rewrite block_within. by apply zoom_ext. Qed.
End Same.

Create HintDb same.
#[export] Hint Resolve same_ret same_throw same_panic same_diverge same_sync : same.

(** One await, one stretch of code, or one callee at a time. *)
Ltac same_step :=
  lazymatch goal with
  | |- same (blocking (sync (gets _) ≫= _)) _ => refine (same_gets _ _ _ _); intros [? ?]; cbv beta iota; cbn [fst snd]
  | |- same (blocking (_ ≫= _)) _ => refine (same_bind _ _ _ _ _ _); [|intros ?]
  | |- same (blocking (within _ _)) _ => refine (same_within _ _ _ _)
  | |- same (blocking (io_await id_lens _)) _ => exact (same_await_self _)
  | |- same (blocking (io_await _ _)) _ => exact (same_await _ _)
  | |- same (blocking (sync _)) _ => exact (same_sync _)
  | |- same (blocking (if ?b then _ else _)) _ => destruct b
  | |- same (blocking (match ?x with _ => _ end)) _ => destruct x
  | |- _ => solve [auto with same]
  end.
Ltac same := repeat same_step.

Section Blocking.
Context {T : Type} `{Sock : Socket T}.

Lemma block_header_loop fuel : forall buf total,
  same (blocking (header_loop (T := T) fuel buf total)) (RecordReader.header_loop fuel buf total).
Proof.
  induction fuel as [|fuel IH]; intros buf total; cbn [header_loop RecordReader.header_loop]; same.
Qed.

Lemma block_next_record_header :
  same (blocking (next_record_header (T := T))) RecordReader.next_record_header.
Proof. unfold next_record_header, RecordReader.next_record_header. same. apply block_header_loop. Qed.

Lemma block_advance_loop fuel : forall remain amount,
  same (blocking (advance_loop (T := T) fuel remain amount)) (RecordReader.advance_loop fuel remain amount).
Proof.
  induction fuel as [|fuel IH]; intros remain amount; cbn [advance_loop RecordReader.advance_loop]; same.
Qed.

Lemma block_advance amount : same (blocking (advance (T := T) amount)) (RecordReader.advance amount).
Proof. unfold advance, RecordReader.advance. same. apply block_advance_loop. Qed.

Context `{CS : TlsCipherSuite}.

Lemma same_on_fst_snd {S1 S2 S3 E A} (m : M S2 E A) :
  same (zoom (view (lens_comp (fst_lens (S := S1 * S2) (T := S3)) snd_lens))
          (upd (lens_comp fst_lens snd_lens)) m) (on_fst (on_snd m)).
Proof. intros [[a b] c]. unfold zoom, on_fst, on_snd, zoom. cbn. by destruct (m b). Qed.

Lemma block_read : same (blocking (read (T := T))) RecordReader.read.
Proof.
  unfold read, RecordReader.read. same_step.
  - intros s. rewrite <-same_on_fst_snd. exact (same_within _ _ _ block_next_record_header s).
  - same. apply block_advance.
Qed.

Context {P : Type} `{CP : CryptoProvider P}.
Abbreviation Cl := (Client (T := T) (P := P)).

Lemma block_respond tx : same (blocking (respond (T := T) (P := P) tx)) (Connection.respond tx).
Proof. unfold respond, Connection.respond. same. Qed.

Lemma block_read_record : same (blocking (within (reading_lens (T := T) (P := P)) read)) read_record.
Proof. exact (same_within reading_lens _ _ block_read). Qed.

Lemma block_handle (m : M Cl TlsError State) :
  same (blocking (result ← sync (try_ m); handle_processing_error result)) (Connection.handle_processing_error m).
Proof.
  unfold Connection.handle_processing_error. same_step; [same|].
  unfold handle_processing_error. same. apply block_respond.
Qed.

Lemma block_process config st :
  same (blocking (process (T := T) (P := P) config st)) (Connection.process config st).
Proof.
  destruct st; cbn [process Connection.process];
    repeat first [apply block_respond|apply block_read_record|apply block_handle|same_step].
Qed.

Lemma block_open_loop fuel config : forall st,
  same (blocking (open_loop (T := T) (P := P) fuel config st)) (Blocking.open_loop fuel config st).
Proof.
  induction fuel as [|fuel IH]; intros st; cbn [open_loop Blocking.open_loop]; same.
  apply block_process.
Qed.
End Blocking.
