(* ===== verification/Asynch.v ===== *)
(** Asynchronous connections (asynch.rs): the methods of [TlsConnection] and of the two
    halves [TlsReader] and [TlsWriter] as futures.

    The data is that of the blocking connection: the two structs have the same fields,
    and the flag [opened] is an [AtomicBool] in both.  The code between two awaits is
    taken from Blocking and Split.  A future borrows the connection (or a half and the
    store it shares with the other one); the local variables of [open] live in the
    future. *)

From S2P Require Import Prelude Errors CryptoBuffer ParseBuffer Wire ExtensionData Extensions.
From S2P Require Import CryptoSuite KeySchedule KeyScheduleProps ClientHello Handshake Server.
From S2P Require Import ServerRecords Record WriteBuffer RecordReader ReadBuffer Connection.
From S2P Require Import ClientRecords Blocking ClientHandshake ClientStream Future AsyncHandshake Split.
From Stdlib Require Import ZArith Lia.
From Stdlib Require Import Strings.Byte.
From stdpp Require Import base list option numbers tactics sets.

(** Run [f] and look at its result: [match f.await { Ok(a) => .., Err(e) => .. }]. *)
Fixpoint attempt {T S E E' A} (f : Fut T S E A) : Fut T S E' (A + E) :=
  match f with
  | Done (Ok a) => Done (Ok (inl a))
  | Done (Err e) => Done (Ok (inr e))
  | Done Panic => Done Panic
  | Done Diverge => Done Diverge
  | Sync m k => Sync (try_ m) (fun x => match x with inl b => attempt (k b) | inr e => Done (Ok (inr e)) end)
  | Await l op k => Await l op (fun r => attempt (k r))
  end.

(** ** TlsConnection *)

Section Connection.
Context `{CS : TlsCipherSuite} {T P : Type} `{CP : CryptoProvider P}.
Abbreviation Conn := (TlsConnection (T := T)).

Definition delegate_upd (d : T) (c : Conn) : Conn :=
  mkConn d (opened c) (key_schedule c) (record_reader c) (record_write_buf c) (decrypted c) (flush_policy c).
Lemma delegate_lens_laws : lens delegate delegate_upd.
Proof. split; [done..|by intros []]. Qed.
Definition delegate_lens : Lens Conn T := mkLens _ _ delegate_lens_laws.

(** What [RecordReader::read] borrows. *)
Definition incoming_upd : RecordReader * T * list byte -> Conn -> Conn := fun '(r, t, d) c =>
  mkConn t (opened c)
    (mkKS (shared (key_schedule c)) (client_state (key_schedule c))
       (mkRead (r_state (server_state (key_schedule c))) d))
    r (record_write_buf c) (decrypted c) (flush_policy c).
Lemma incoming_lens_laws :
  lens (fun c : Conn => (record_reader c, delegate c, transcript_hash (key_schedule c))) incoming_upd.
Proof. split; [by intros [[]]|by intros [[]] [[]]|by intros [? ? [? ? []] ? ? ? ?]]. Qed.
Definition incoming_lens : Lens Conn (RecordReader * T * list byte) := mkLens _ _ incoming_lens_laws.

(** What [State::process] borrows: parts of the connection and the local variables
    [handshake] and [context.crypto_provider] of [open]. *)
Definition client_view (s : Conn * (Handshake * P)) : Client :=
  let c := fst s in
  mkClient (delegate c) (fst (snd s)) (record_reader c) (record_write_buf c) (key_schedule c) (snd (snd s)).
Definition client_upd (cl : Client) (s : Conn * (Handshake * P)) : Conn * (Handshake * P) :=
  let c := fst s in
  (mkConn (cl_transport cl) (opened c) (cl_ks cl) (cl_reader cl) (cl_tx cl) (decrypted c) (flush_policy c),
   (cl_handshake cl, cl_provider cl)).
Lemma client_lens_laws : lens client_view client_upd.
Proof. split; [by intros []|by intros [] []|by intros [[] []]]. Qed.
Definition client_lens : Lens (Conn * (Handshake * P)) Client := mkLens _ _ client_lens_laws.

Abbreviation AF := (Fut T Conn TlsError).

Definition hostname_step (config : TlsConfig) : M (Client (T := T) (P := P)) TlsError unit :=
  c ← get;
  match has_verifier (cl_provider c), server_name config with
  | true, Some name => on_provider (set_hostname_verification name)
  | _, _ => mret tt
  end.

(** Started with [Handshake::new()] and the provider of the context as local variables. *)
Definition open (fuel : nat) (config : TlsConfig) : Fut T (Conn * (Handshake * P)) TlsError unit :=
  within client_lens (sync (hostname_step config);; open_loop fuel config St_ClientHello);;
  sync (on_fst (set_opened true)).

Definition flush_transport : AF unit := io_await delegate_lens Op_flush.

Definition flush : AF unit :=
  c ← sync get;
  if negb (wb_is_empty (record_write_buf c)) then
    slice ← sync (on_write_buf (close_record (client_state (key_schedule c))));
    io_await delegate_lens (Op_write_all slice);;
    sync (on_key_schedule write_increment_counter);;
    if Blocking.flush_transport (flush_policy c) then flush_transport else mret tt
  else mret tt.

Definition write (buf : list byte) : AF nat :=
  c ← sync get;
  if opened c then
    (if negb (contains (record_write_buf c) CRH_ApplicationData)
     then flush;; sync (on_write_buf (start_record CRH_ApplicationData))
     else mret tt);;
    buffered ← sync (on_write_buf (wb_append buf));
    full ← sync (on_write_buf is_full);
    (if full : bool then flush else mret tt);;
    mret buffered
  else throw MissingHandshake.

Definition read_application_data : AF unit :=
  record ← within incoming_lens AsyncHandshake.read;
  sync (decrypt_incoming record).

(** [while self.decrypted.is_empty() { self.read_application_data().await?; }] *)
Fixpoint wait_loop (fuel : nat) : AF unit :=
  c ← sync get;
  empty ← sync (info_is_empty (decrypted c));
  if negb empty then mret tt
  else match fuel with
  | O => Done Diverge
  | S fuel' => read_application_data;; wait_loop fuel'
  end.

Definition create_buffer : M Conn TlsError ReadBuffer :=
  c ← get; unwrap (create_read_buffer (decrypted c) (rr_buf (record_reader c))).

Definition read_buffered (fuel : nat) : AF ReadBuffer :=
  c ← sync get;
  if opened c then wait_loop fuel;; sync create_buffer
  else throw MissingHandshake.

Definition read (fuel : nat) (buf : list byte) : AF (list byte * nat) :=
  if decide (buf = []) then mret (buf, 0)
  else
    b ← read_buffered fuel;
    sync (use_buffer b (pop_into buf)).

Definition fill_buf (fuel : nat) : AF (list byte) :=
  b ← read_buffered fuel;
  sync (use_buffer b peek_all).

(** [BufRead::consume] is not asynchronous. *)
Definition consume (amt : nat) : M Conn TlsError unit :=
  c ← get;
  b ← unwrap (create_read_buffer (decrypted c) (rr_buf (record_reader c)));
  use_buffer b (pop amt);; mret tt.

Definition close_internal : AF unit :=
  flush;;
  c ← sync get;
  slice ← sync (zoom
      (fun c => (record_write_buf c, Some (server_state (key_schedule c))))
      (fun '(w, rks) c => mkConn (delegate c) (opened c)
         (mkKS (shared (key_schedule c)) (client_state (key_schedule c))
            (default (server_state (key_schedule c)) rks))
         (record_reader c) w (decrypted c) (flush_policy c))
      (write_record (close_notify (opened c)) (client_state (key_schedule c))));
  io_await delegate_lens (Op_write_all slice);;
  sync (on_key_schedule write_increment_counter);;
  flush_transport.

(** [close(self)] owns the connection and gives the transport back. *)
Definition close : Fut T Conn (T * TlsError) T :=
  x ← attempt close_internal;
  c ← sync get;
  match x with
  | inl _ => mret (delegate c)
  | inr e => throw (delegate c, e)
  end.
End Connection.

(** ** The halves *)

Section Halves.
Context `{CS : TlsCipherSuite} {T : Type}.
Abbreviation RS := (Shared (T := T) * TlsReader)%type.
Abbreviation WS := (Shared (T := T) * TlsWriter)%type.

(** What [RecordReader::read] borrows from the reader and the shared transport. *)
Definition reader_incoming_view (st : RS) : RecordReader * T * list byte :=
  (rd_record_reader (snd st), s_delegate (fst st), r_transcript (rd_key_schedule (snd st))).
Definition reader_incoming_upd (x : RecordReader * T * list byte) (st : RS) : RS :=
  (mkShare (s_opened (fst st)) (snd (fst x)),
   mkTlsReader (mkRead (r_state (rd_key_schedule (snd st))) (snd x)) (fst (fst x)) (rd_decrypted (snd st))).
Lemma reader_incoming_laws : lens reader_incoming_view reader_incoming_upd.
Proof. split; [by intros [[]]|by intros [[]] [[]]|by intros [[] [[] ? ?]]]. Qed.
Definition reader_incoming : Lens RS (RecordReader * T * list byte) :=
  mkLens _ _ reader_incoming_laws.

Definition writer_delegate_upd (t : T) (st : WS) : WS :=
  (mkShare (s_opened (fst st)) t, snd st).
Lemma writer_delegate_laws : lens (fun st : WS => s_delegate (fst st)) writer_delegate_upd.
Proof. split; [done..|by intros [[] ?]]. Qed.
Definition writer_delegate : Lens WS T := mkLens _ _ writer_delegate_laws.

Abbreviation RF := (Fut T RS TlsError).
Abbreviation WF := (Fut T WS TlsError).

(** The part of [read_application_data] after the await: the flag is loaded into a
    local variable, and stored back only when the handler has cleared it. *)
Definition reader_decrypt (record : ServerRecord) : M RS TlsError unit :=
  '(_, r) ← get;
  zoom (fun '(s, r) => (rd_key_schedule r, rr_buf (rd_record_reader r), (rd_decrypted r, s_opened s)))
       (fun '(rks, rx, (info, o)) '(s, r) =>
          (mkShare (if negb o then false else s_opened s) (s_delegate s),
           mkTlsReader rks (mkReader rx (decoded (rd_record_reader r)) (pending (rd_record_reader r))) info))
       (decrypt_record (handle_callback (length (rr_buf (rd_record_reader r)))) record).

Definition reader_read_application_data : RF unit :=
  record ← within reader_incoming AsyncHandshake.read;
  sync (reader_decrypt record).

Fixpoint reader_wait_loop (fuel : nat) : RF unit :=
  r ← sync (gets snd);
  empty ← sync (info_is_empty (rd_decrypted r));
  if negb empty then mret tt
  else match fuel with
  | O => Done Diverge
  | S fuel' => reader_read_application_data;; reader_wait_loop fuel'
  end.

Definition reader_read_buffered (fuel : nat) : RF ReadBuffer :=
  o ← sync (gets (fun st => s_opened (fst st)));
  if o : bool then reader_wait_loop fuel;; sync reader_create_read_buffer
  else throw MissingHandshake.

Definition reader_read (fuel : nat) (buf : list byte) : RF (list byte * nat) :=
  if decide (buf = []) then mret (buf, 0)
  else
    b ← reader_read_buffered fuel;
    sync (reader_use_buffer b (pop_into buf)).

Definition reader_fill_buf (fuel : nat) : RF (list byte) :=
  b ← reader_read_buffered fuel;
  sync (reader_use_buffer b peek_all).

Definition reader_consume (amt : nat) : M RS TlsError unit :=
  b ← reader_create_read_buffer;
  reader_use_buffer b (pop amt);; mret tt.

Definition writer_flush_transport : WF unit := io_await writer_delegate Op_flush.

Definition writer_increment_counter : M WS TlsError unit :=
  zoom (fun st => w_state (wr_key_schedule (snd st)))
       (fun k st => (fst st, mkTlsWriter (mkWrite k (binder_key (wr_key_schedule (snd st))))
                               (wr_record_write_buf (snd st)) (wr_flush_policy (snd st))))
       kss_increment_counter.

Definition writer_flush : WF unit :=
  w ← sync (gets snd);
  if negb (wb_is_empty (wr_record_write_buf w)) then
    slice ← sync (on_writer_buf (close_record (wr_key_schedule w)));
    io_await writer_delegate (Op_write_all slice);;
    sync writer_increment_counter;;
    if Blocking.flush_transport (wr_flush_policy w) then writer_flush_transport else mret tt
  else mret tt.

Definition writer_write (buf : list byte) : WF nat :=
  '(o, w) ← sync (gets (fun st => (s_opened (fst st), snd st)));
  if o : bool then
    (if negb (contains (wr_record_write_buf w) CRH_ApplicationData)
     then writer_flush;; sync (on_writer_buf (start_record CRH_ApplicationData))
     else mret tt);;
    buffered ← sync (on_writer_buf (wb_append buf));
    full ← sync (on_writer_buf is_full);
    (if full : bool then writer_flush else mret tt);;
    mret buffered
  else throw MissingHandshake.
End Halves.

(** ** Their blocking readings *)

Section Blocking.
Context `{CS : TlsCipherSuite} {T : Type} `{Sock : Socket T}.
Abbreviation Conn := (TlsConnection (T := T)).

Lemma same_flush : same (blocking (flush (T := T))) Blocking.flush.
Proof. unfold flush, Blocking.flush, flush_transport. same. Qed.

Lemma same_write buf : same (blocking (write (T := T) buf)) (Blocking.write buf).
Proof. unfold write, Blocking.write. same; apply same_flush. Qed.

Lemma same_read_application_data :
  same (blocking (read_application_data (T := T))) Blocking.read_application_data.
Proof.
  refine (same_bind _ _ _ _ _ _); [exact (same_within incoming_lens _ _ block_read)|].
  intros rec. exact (same_sync _).
Qed.

Lemma same_wait_loop fuel : same (blocking (wait_loop (T := T) fuel)) (Blocking.wait_loop fuel).
Proof.
  induction fuel as [|fuel IH]; cbn [wait_loop Blocking.wait_loop]; same. apply same_read_application_data.
Qed.

Lemma same_read_buffered fuel : same (blocking (read_buffered (T := T) fuel)) (Blocking.read_buffered fuel).
Proof. unfold read_buffered, Blocking.read_buffered. same. apply same_wait_loop. Qed.

Lemma same_read fuel buf : same (blocking (read (T := T) fuel buf)) (Blocking.read fuel buf).
Proof. unfold read, Blocking.read. same. apply same_read_buffered. Qed.

Lemma same_fill_buf fuel : same (blocking (fill_buf (T := T) fuel)) (Blocking.fill_buf fuel).
Proof. unfold fill_buf, Blocking.fill_buf. same. apply same_read_buffered. Qed.

Lemma same_close_internal : same (blocking (close_internal (T := T))) Blocking.close_internal.
Proof.
  unfold close_internal, Blocking.close_internal, flush_transport.
  repeat first [apply same_flush|same_step].
Qed.

Lemma block_attempt {S E E' A} (f : Fut T S E A) :
  same (blocking (attempt f : Fut T S E' _)) (try_ (blocking f)).
Proof.
  induction f as [r|B m k IH|B l op k IH]; intros s; cbn [attempt blocking].
  - by destruct r.
  - unfold try_ at 1 2, mbind, M_bind. destruct (m s) as [[b|e| |] s']; try done. apply IH.
  - unfold try_, mbind, M_bind, zoom. destruct (blocking_op op _) as [[b|e| |] t']; try done; exact (IH _ _).
Qed.

Lemma same_close (c : Conn) : fst (blocking close c) = Blocking.close c.
Proof.
  unfold close, Blocking.close. rewrite block_bind. unfold mbind at 1, M_bind at 1.
  rewrite block_attempt. unfold try_. rewrite same_close_internal.
  by destruct (Blocking.close_internal c) as [[u|e| |] c'].
Qed.

Context {P : Type} `{CP : CryptoProvider P}.

Lemma same_open_steps fuel config :
  same (blocking (sync (hostname_step config);; open_loop (T := T) (P := P) fuel config St_ClientHello))
    (open_steps fuel config).
Proof.
  intros s. unfold open_steps, hostname_step. rewrite block_bind, <-bind_assoc.
  apply bind_ext; [apply block_sync|]. intros _. apply block_open_loop.
Qed.

Lemma same_open fuel config p (c : Conn) : exists locals,
  blocking (open fuel config) (c, (Handshake_new, p))
  = (fst (Blocking.open fuel config p c), (snd (Blocking.open fuel config p c), locals)).
Proof.
  unfold open, Blocking.open. rewrite block_bind. unfold mbind, M_bind.
  rewrite (same_within client_lens _ _ (same_open_steps fuel config)). unfold zoom. cbn [view client_lens].
  change (client_view (c, (Handshake_new, p))) with
    (mkClient (delegate c) Handshake_new (record_reader c) (record_write_buf c) (key_schedule c) p).
  destruct (open_steps fuel config _) as [[u|e| |] cl]; by eexists.
Qed.

(** *** The halves *)

Lemma zoom_same {S S' E A} (v v' : S -> S') (u u' : S' -> S -> S) (m : M S' E A) :
  (forall s, v s = v' s) -> (forall t s, u t s = u' t s) -> same (zoom v u m) (zoom v' u' m).
Proof. intros Hv Hu s. unfold zoom. rewrite Hv. destruct (m _). by rewrite Hu. Qed.

Lemma same_reader_read_application_data :
  same (blocking (reader_read_application_data (T := T))) Split.reader_read_application_data.
Proof.
  refine (same_bind _ _ _ _ _ _).
  - intros s. rewrite (same_within reader_incoming _ _ block_read).
    apply zoom_same; [by intros []|by intros [[]] []].
  - intros rec s. rewrite block_sync. by destruct s.
Qed.

Lemma same_reader_wait_loop fuel :
  same (blocking (reader_wait_loop (T := T) fuel)) (Split.reader_wait_loop fuel).
Proof.
  induction fuel as [|fuel IH]; cbn [reader_wait_loop Split.reader_wait_loop]; same.
  apply same_reader_read_application_data.
Qed.

Lemma same_reader_read_buffered fuel :
  same (blocking (reader_read_buffered (T := T) fuel)) (Split.reader_read_buffered fuel).
Proof. unfold reader_read_buffered, Split.reader_read_buffered. same. apply same_reader_wait_loop. Qed.

Lemma same_reader_read fuel buf :
  same (blocking (reader_read (T := T) fuel buf)) (Split.reader_read fuel buf).
Proof. unfold reader_read, Split.reader_read. same. apply same_reader_read_buffered. Qed.

Lemma same_reader_fill_buf fuel :
  same (blocking (reader_fill_buf (T := T) fuel)) (Split.reader_fill_buf fuel).
Proof. unfold reader_fill_buf, Split.reader_fill_buf. same. apply same_reader_read_buffered. Qed.

Lemma same_writer_flush : same (blocking (writer_flush (T := T))) Split.writer_flush.
Proof. unfold writer_flush, Split.writer_flush, writer_flush_transport. same. Qed.

Lemma same_writer_write buf : same (blocking (writer_write (T := T) buf)) (Split.writer_write buf).
Proof. unfold writer_write, Split.writer_write. same; apply same_writer_flush. Qed.
End Blocking.

(** ** Runs of asynchronous calls *)

Section Runs.
Context `{CS : TlsCipherSuite} {T : Type} `{ASock : AsyncSocket T}.
Abbreviation Conn := (TlsConnection (T := T)).
Abbreviation Halves := (Shared (T := T) * TlsReader * TlsWriter)%type.

(** The future of a call is awaited: polled until it is ready. *)
Inductive awaited : Call -> Conn -> Answer -> Conn -> Prop :=
| awaited_read fuel buf c r c' :
    completes (read fuel buf) c r c' -> awaited (Call_read fuel buf) c (Read_answer r) c'
| awaited_fill_buf fuel c r c' :
    completes (fill_buf fuel) c r c' -> awaited (Call_fill_buf fuel) c (Fill_answer r) c'
| awaited_consume amt c r c' :
    consume amt c = (r, c') -> awaited (Call_consume amt) c (Unit_answer r) c'
| awaited_write buf c r c' :
    completes (write buf) c r c' -> awaited (Call_write buf) c (Write_answer r) c'
| awaited_flush c r c' :
    completes flush c r c' -> awaited Call_flush c (Unit_answer r) c'.

(** The same calls on the halves of a split connection. *)
Inductive awaited_half : Call -> Halves -> Answer -> Halves -> Prop :=
| half_read fuel buf s rd wr r s' rd' :
    completes (reader_read fuel buf) (s, rd) r (s', rd') ->
    awaited_half (Call_read fuel buf) (s, rd, wr) (Read_answer r) (s', rd', wr)
| half_fill_buf fuel s rd wr r s' rd' :
    completes (reader_fill_buf fuel) (s, rd) r (s', rd') ->
    awaited_half (Call_fill_buf fuel) (s, rd, wr) (Fill_answer r) (s', rd', wr)
| half_consume amt s rd wr r s' rd' :
    reader_consume amt (s, rd) = (r, (s', rd')) ->
    awaited_half (Call_consume amt) (s, rd, wr) (Unit_answer r) (s', rd', wr)
| half_write buf s rd wr r s' wr' :
    completes (writer_write buf) (s, wr) r (s', wr') ->
    awaited_half (Call_write buf) (s, rd, wr) (Write_answer r) (s', rd, wr')
| half_flush s rd wr r s' wr' :
    completes writer_flush (s, wr) r (s', wr') ->
    awaited_half Call_flush (s, rd, wr) (Unit_answer r) (s', rd, wr').

Inductive awaited_run {S} (aw : Call -> S -> Answer -> S -> Prop) :
    list Call -> S -> list Answer -> S -> Prop :=
| run_nil s : awaited_run aw [] s [] s
| run_cons x xs s a s1 answers s2 :
    aw x s a s1 -> awaited_run aw xs s1 answers s2 -> awaited_run aw (x :: xs) s (a :: answers) s2.

Context `{Sock : Socket T, !Settles T}.

Lemma completes_same {S E A} (f : Fut T S E A) m s r s' :
  same (blocking f) m -> completes f s r s' <-> m s = (r, s').
Proof. intros Hm. by rewrite completes_block, Hm. Qed.

Lemma awaited_call x c a c' : awaited x c a c' <-> conn_call x c = (a, c').
Proof.
  split.
  - intros H. destruct H as [fuel buf c r c' H|fuel c r c' H|amt c r c' H|buf c r c' H|c r c' H];
      cbn [conn_call]; unfold answer.
    + apply (completes_same _ _ _ _ _ (same_read fuel buf)) in H. by rewrite H.
    + apply (completes_same _ _ _ _ _ (same_fill_buf fuel)) in H. by rewrite H.
    + change (Blocking.consume amt c) with (consume amt c). by rewrite H.
    + apply (completes_same _ _ _ _ _ (same_write buf)) in H. by rewrite H.
    + apply (completes_same _ _ _ _ _ same_flush) in H. by rewrite H.
  - destruct x; cbn [conn_call]; unfold answer; case_match eqn:Hm; intros [= <- <-]; constructor.
    + by apply (completes_same _ _ _ _ _ (same_read fuel buf)).
    + by apply (completes_same _ _ _ _ _ (same_fill_buf fuel)).
    + done.
    + by apply (completes_same _ _ _ _ _ (same_write buf)).
    + by apply (completes_same _ _ _ _ _ same_flush).
Qed.

Lemma awaited_half_call x h a h' : awaited_half x h a h' <-> half_call x h = (a, h').
Proof.
  split.
  - intros H. destruct H; cbn [half_call]; unfold reader_call, writer_call, answer.
    + apply (completes_same _ _ _ _ _ (same_reader_read fuel buf)) in H. by rewrite H.
    + apply (completes_same _ _ _ _ _ (same_reader_fill_buf fuel)) in H. by rewrite H.
    + change (Split.reader_consume amt (s, rd)) with (reader_consume amt (s, rd)). by rewrite H.
    + apply (completes_same _ _ _ _ _ (same_writer_write buf)) in H. by rewrite H.
    + apply (completes_same _ _ _ _ _ same_writer_flush) in H. by rewrite H.
  - destruct h as [[s rd] wr]. destruct x; cbn [half_call]; unfold reader_call, writer_call, answer;
      case_match eqn:Hm; repeat case_match; simplify_eq; intros [= <- <-]; constructor.
    + by apply (completes_same _ _ _ _ _ (same_reader_read fuel buf)).
    + by apply (completes_same _ _ _ _ _ (same_reader_fill_buf fuel)).
    + done.
    + by apply (completes_same _ _ _ _ _ (same_writer_write buf)).
    + by apply (completes_same _ _ _ _ _ same_writer_flush).
Qed.

Lemma awaited_run_calls {S} (aw : Call -> S -> Answer -> S -> Prop) call xs :
  (forall x s a s', aw x s a s' <-> call x s = (a, s')) -> forall s answers s',
  awaited_run aw xs s answers s' <-> run_calls call xs s = (answers, s').
Proof.
  intros Hcall. induction xs as [|x xs IH]; intros s answers s'; cbn [run_calls].
  - split; [by inversion 1|]. intros [= <- <-]. constructor.
  - split.
    + inversion 1 as [|? ? ? a s1 ? ? Ha Hr]; subst. apply Hcall in Ha. apply IH in Hr.
      by rewrite Ha, Hr.
    + destruct (call x s) as [a s1] eqn:Ha. destruct (run_calls call xs s1) as [rest s2] eqn:Hr.
      intros [= <- <-]. econstructor; [by apply Hcall|by apply IH].
Qed.
End Runs.

(** ** Properties *)

(** C30: an asynchronous connection behaves like a blocking one.  Over any transport
    whose operations, polled until they are ready, do what the blocking operations do,
    every future of the connection ends after finitely many polls, and a handshake, any
    sequence of reads, fill_bufs, consumes, writes and flushes, and the close give
    exactly the answers and leave exactly the connection that the blocking functions
    do.  The same holds for any sequence of such calls on the reading and the writing
    half of a split connection, in any state of the halves, against the blocking
    halves. *)
Theorem async_equivalent `{CS : TlsCipherSuite, Sock : Socket T, ASock : AsyncSocket T, !Settles T,
    CP : CryptoProvider P} (c : TlsConnection (T := T)) :
  (forall fuel config p r c',
     (exists locals, completes (open (P := P) fuel config) (c, (Handshake_new, p)) r (c', locals))
     <-> Blocking.open fuel config p c = (r, c')) /\
  (forall calls answers c',
     awaited_run awaited calls c answers c' <-> run_calls conn_call calls c = (answers, c')) /\
  (forall r, (exists c', completes close c r c') <-> Blocking.close c = r) /\
  (forall (halves : Shared (T := T) * TlsReader * TlsWriter) calls answers halves',
     awaited_run awaited_half calls halves answers halves'
     <-> run_calls half_call calls halves = (answers, halves')).
Proof.
  split_and!.
  - intros fuel config p r c'. destruct (same_open fuel config p c) as [locals Hl].
    destruct (Blocking.open fuel config p c) as [r0 c0]. split.
    + intros [l' Hc]. apply completes_block in Hc. rewrite Hc in Hl. by simplify_eq/=.
    + intros [= <- <-]. exists locals. by apply completes_block.
  - intros. apply awaited_run_calls, awaited_call.
  - intros r. rewrite <-same_close. split.
    + intros [c' Hc]. apply completes_block in Hc. by rewrite Hc.
    + intros <-. exists (snd (blocking close c)). apply completes_block. by destruct (blocking close c).
  - intros. apply awaited_run_calls, awaited_half_call.
Qed.

(** The connection of Split over a transport that keeps every operation waiting. *)
Definition demo_lag : TlsConnection (CS := Toy.suite) (T := Laggy) :=
  mkConn (mkLaggy (delegate demo_peer) 2) true demo_schedule (RecordReader_new (zeros 64))
    (mkWB (zeros 140) 0 None) DecryptedBufferInfo_default Strict.

Lemma async_equivalent_witness :
  (exists answers c', awaited_run awaited demo_calls demo_lag answers c' /\
     answers = fst (run_calls half_call demo_calls (Split.split demo_peer))) /\
  (exists answers h', awaited_run awaited_half demo_calls (Split.split demo_lag) answers h' /\
     answers = fst (run_calls half_call demo_calls (Split.split demo_peer))).
Proof.
  destruct (async_equivalent (CS := Toy.suite) (P := DemoProvider) demo_lag) as (_ & H & _ & Hh).
  split; eexists _, _; (split; [|vm_compute; reflexivity]).
  - apply (proj2 (H _ _ _)). exact (surjective_pairing _).
  - apply (proj2 (Hh _ _ _ _)). exact (surjective_pairing _).
Defined.
