(* ===== verification/Interleaving.v ===== *)
(** Two tasks that an executor polls in any order.

    [run_both] is such a run.  When every piece of code and every operation of one
    future commutes with those of the other, their polls commute, and the run can be
    reordered into one task after the other.  Code on disjoint parts of a state commutes
    ([local], [disjoint_parts]); [every] states a property of all nodes of a future. *)

From S2P Require Import Prelude Errors CryptoBuffer ParseBuffer Wire ExtensionData Extensions.
From S2P Require Import CryptoSuite KeySchedule KeyScheduleProps ClientHello Handshake Server.
From S2P Require Import Record RecordReader Future.
From Stdlib Require Import ZArith Lia.
From Stdlib Require Import Strings.Byte.
From stdpp Require Import base list option numbers tactics sets.

(** ** Computations that commute *)

Section Commute.
Context {S : Type}.

(** Run [a] and [b] in either order: the answers and the state are the same. *)
Definition commute {X Y} (a : S -> X * S) (b : S -> Y * S) : Prop := forall s,
  (let '(x, s1) := a s in let '(y, s2) := b s1 in (x, y, s2))
  = (let '(y, s1) := b s in let '(x, s2) := a s1 in (x, y, s2)).

Definition then_ {X Y} (a : S -> X * S) (k : X -> S -> Y * S) : S -> Y * S := fun s =>
  let '(x, s') := a s in k x s'.

Lemma commute_sym {X Y} (a : S -> X * S) (b : S -> Y * S) : commute a b -> commute b a.
Proof.
  intros H s. specialize (H s). destruct (a s) as [x s1], (b s) as [y s2].
  destruct (b s1), (a s2). by simplify_eq.
Qed.

Lemma commute_ret {X Y} (x : X) (b : S -> Y * S) : commute (fun s => (x, s)) b.
Proof. intros s. by destruct (b s). Qed.

Lemma commute_then_if {X X' Y} (P : X -> Prop) (a : S -> X * S) (k : X -> S -> X' * S) (b : S -> Y * S) :
  commute a b -> (forall s, P (fst (a s))) -> (forall x, P x -> commute (k x) b) -> commute (then_ a k) b.
Proof.
  intros Ha HP Hk s. unfold then_. specialize (Ha s). specialize (HP s).
  destruct (a s) as [x s1] eqn:E1. specialize (Hk x HP s1).
  destruct (b s) as [y s3]. destruct (k x s1) as [x' s2]. destruct (b s1) as [y1 s4].
  destruct (a s3) as [x1 s5]. injection Ha as -> -> ->. destruct (k x1 s5). destruct (b s2). by simplify_eq.
Qed.

Lemma commute_then {X X' Y} (a : S -> X * S) (k : X -> S -> X' * S) (b : S -> Y * S) :
  commute a b -> (forall x, commute (k x) b) -> commute (then_ a k) b.
Proof. intros Ha Hk. by apply (commute_then_if (fun _ => True)). Qed.

Lemma commute_ext {X Y} (a a' : S -> X * S) (b b' : S -> Y * S) :
  (forall s, a s = a' s) -> (forall s, b s = b' s) -> commute a b -> commute a' b'.
Proof.
  intros Ha Hb H s. specialize (H s). rewrite <-Ha, <-Hb.
  destruct (a s) as [x s1], (b s) as [y s2]. by rewrite <-Hb, <-Ha.
Qed.
End Commute.

(** ** Parts that do not overlap *)

(** A step on a part. *)
Definition at_part {S U X} (l : Lens S U) (a : U -> X * U) : S -> X * S := fun s =>
  let '(x, u) := a (view l s) in (x, upd l u s).

Section Parts.
Context {S : Type}.

Definition disjoint_parts {U V} (l : Lens S U) (l' : Lens S V) : Prop :=
  (forall u v s, upd l u (upd l' v s) = upd l' v (upd l u s)) /\
  (forall v s, view l (upd l' v s) = view l s) /\ (forall u s, view l' (upd l u s) = view l' s).

Lemma disjoint_commute {U V X Y} (l : Lens S U) (l' : Lens S V) (a : U -> X * U) (b : V -> Y * V) :
  disjoint_parts l l' -> commute (at_part l a) (at_part l' b).
Proof.
  intros (Hc & H1 & H2) s. unfold at_part. destruct (a (view l s)) as [x u] eqn:Ea.
  destruct (b (view l' s)) as [y v] eqn:Eb. rewrite H2, Eb, H1, Ea. by rewrite Hc.
Qed.

Lemma same_part_commute {U X Y} (l : Lens S U) (a : U -> X * U) (b : U -> Y * U) :
  commute a b -> commute (at_part l a) (at_part l b).
Proof.
  intros H s. specialize (H (view l s)). unfold at_part. destruct (lens_laws l) as [L1 L2 L3].
  destruct (a (view l s)) as [x u]. destruct (b (view l s)) as [y v]. rewrite !L1.
  destruct (b u), (a v). rewrite !L2. by simplify_eq.
Qed.

Definition lens_eq {U} (l l' : Lens S U) : Prop :=
  (forall s, view l s = view l' s) /\ (forall u s, upd l u s = upd l' u s).

Lemma at_part_eq {U X} (l l' : Lens S U) (a : U -> X * U) s : lens_eq l l' -> at_part l a s = at_part l' a s.
Proof. intros [Hv Hu]. unfold at_part. rewrite Hv. destruct (a _). by rewrite Hu. Qed.

Lemma unit_lens_laws : lens (S := S) (fun _ => tt) (fun _ s => s).
Proof. split; try done. by intros []. Qed.
Definition unit_lens : Lens S unit := mkLens _ _ unit_lens_laws.

(** [m] works on the part [l]. *)
Definition local {U E A} (l : Lens S U) (m : M S E A) : Prop := exists p, forall s, m s = at_part l p s.

Lemma local_pure {U E A} (l : Lens S U) (m : M S E A) r : (forall s, m s = (r, s)) -> local l m.
Proof.
  intros H. exists (fun u => (r, u)). intros s. unfold at_part. by rewrite H, (upd_view _ _ (lens_laws l)).
Qed.
Lemma local_ret {U E A} (l : Lens S U) (a : A) : local (E := E) l (mret a).
Proof. by apply (local_pure _ _ (Ok a)). Qed.
Lemma local_err {U E A} (l : Lens S U) (e : E) : local (A := A) l (err e).
Proof. by apply (local_pure _ _ (Err e)). Qed.
Lemma local_unwrap {U E A} (l : Lens S U) (o : option A) : local (E := E) l (unwrap o).
Proof. destruct o as [a|]; [by apply (local_pure _ _ (Ok a))|by apply (local_pure _ _ Panic)]. Qed.
Lemma local_ok_or {U E A} (l : Lens S U) (o : option A) (e : E) : local l (ok_or o e).
Proof. destruct o as [a|]; [by apply (local_pure _ _ (Ok a))|by apply (local_pure _ _ (Err e))]. Qed.

Lemma local_gets {U E A} (l : Lens S U) (f : S -> A) g : (forall s, f s = g (view l s)) -> local (E := E) l (gets f).
Proof.
  intros H. exists (fun u => (Ok (g u), u)). intros s. unfold at_part, gets. by rewrite H, (upd_view _ _ (lens_laws l)).
Qed.

Lemma local_zoom {U V E A} (l : Lens S U) (l' : Lens U V) v u (m : M V E A) :
  (forall s, v s = view l' (view l s)) -> (forall x s, u x s = upd l (upd l' x (view l s)) s) ->
  local l (zoom v u m).
Proof.
  intros Hv Hu. exists (at_part l' m). intros s. unfold zoom, at_part. rewrite Hv.
  destruct (m _). by rewrite Hu.
Qed.

Lemma local_at {U E A} (l : Lens S U) (m : M U E A) : local l (zoom (view l) (upd l) m).
Proof. by exists m. Qed.
End Parts.

(** ** Every node of a future *)

Section Nodes.
Context {T : Type}.

Fixpoint every {S E A} (PS : forall B, M S E B -> Prop) (PA : forall B, Lens S T -> TransportOp B -> Prop)
    (f : Fut T S E A) : Prop :=
  match f with
  | Done _ => True
  | Sync m k => PS _ m /\ forall b, every PS PA (k b)
  | Await l op k => PA _ l op /\ forall r, every PS PA (k r)
  end.

Lemma every_bind {S E A B} PS PA (f : Fut T S E A) (g : A -> Fut T S E B) :
  every PS PA f -> (forall a, every PS PA (g a)) -> every PS PA (f ≫= g).
Proof.
  intros Hf Hg. induction f as [r|C m k IH|C l op k IH]; cbn in *.
  - destruct r; [apply Hg|done..].
  - destruct Hf as [Hm Hk]. split; [done|]. intros b. by apply IH.
  - destruct Hf as [Hm Hk]. split; [done|]. intros b. by apply IH.
Qed.

Lemma every_within {S S' E A} PS PA PS' PA' (l : Lens S S') (f : Fut T S' E A) :
  (forall B m, PS' B m -> PS B (zoom (view l) (upd l) m)) ->
  (forall B l' op, PA' B l' op -> PA B (lens_comp l l') op) ->
  every PS' PA' f -> every PS PA (within l f).
Proof.
  intros HS HA. induction f as [r|C m k IH|C l' op k IH]; cbn; [done|..];
    intros [Hm Hk]; (split; [auto|]); intros b; apply IH, Hk.
Qed.

Lemma every_sync {S E A} PS PA (m : M S E A) : PS _ m -> every PS PA (sync m : Fut T S E A).
Proof. done. Qed.
Lemma every_ret {S E A} PS PA (a : A) : every PS PA (mret a : Fut T S E A).
Proof. done. Qed.
Lemma every_await {S A} PS (PA : forall B, Lens S T -> TransportOp B -> Prop) l (op : TransportOp A) :
  PA _ l op -> every PS PA (io_await l op).
Proof. cbn. intros H. split; [done|]. by intros []. Qed.

(** The code works on the part [l] and awaits, on the transport at [d], operations
    that satisfy [ok]. *)
Definition parts {S U E A} (l : Lens S U) (d : Lens S T) (ok : forall B, TransportOp B -> Prop)
    (f : Fut T S E A) : Prop :=
  every (fun B m => local l m) (fun B l' op => lens_eq l' d /\ ok B op) f.

Lemma parts_within {S S' U U' E A} (L : Lens S S') (l : Lens S' U) (d : Lens S' T)
    (l2 : Lens S U') (l3 : Lens U' U) (d2 : Lens S T) ok (f : Fut T S' E A) :
  lens_eq (lens_comp L l) (lens_comp l2 l3) -> lens_eq (lens_comp L d) d2 ->
  parts l d ok f -> parts l2 d2 ok (within L f).
Proof.
  intros [Hv Hu] [Dv Du]. apply every_within.
  - intros B m [p Hp]. exists (at_part l3 p). intros s. unfold zoom, at_part. rewrite Hp. unfold at_part.
    cbn in Hv, Hu. rewrite Hv. destruct (p _). by rewrite <-Hu.
  - intros B l' op [[Hv' Hu'] Hok]. split; [|done]. split.
    + intros s. rewrite <-Dv. cbn. by rewrite Hv'.
    + intros u s. rewrite <-Du. cbn. by rewrite Hu'.
Qed.
End Nodes.

Definition is_read (B : Type) (op : TransportOp B) : Prop :=
  match op with Op_read _ => True | _ => False end.
Definition is_write (B : Type) (op : TransportOp B) : Prop :=
  match op with Op_read _ => False | _ => True end.

(** ** Polls of two futures commute *)

(** The two directions of the transport are independent: a poll of a read and a poll of
    a write give the same in either order. *)
Class Duplex (T : Type) `{ASock : AsyncSocket T} : Type := {
  reading : forall B, OpFuture B -> Prop;
  writing : forall B, OpFuture B -> Prop;
  reading_start B (op : TransportOp B) : is_read B op -> reading B (op_start op);
  writing_start B (op : TransportOp B) : is_write B op -> writing B (op_start op);
  reading_poll B w t w' : reading B w -> fst (op_poll w t) = inl w' -> reading B w';
  writing_poll B w t w' : writing B w -> fst (op_poll w t) = inl w' -> writing B w';
  directions_commute B C (w : OpFuture B) (v : OpFuture C) :
    reading B w -> writing C v -> commute (op_poll w) (op_poll v);
}.

#[global] Program Instance laggy_duplex : Duplex Laggy := {|
  reading B w := is_read B (fst w);
  writing B w := is_write B (fst w);
|}.
Next Obligation. done. Qed.
Next Obligation. done. Qed.
Next Obligation.
  intros B [op n] t w'. cbn. unfold lag_poll. case_decide.
  - destruct op; try done. by intros _ [= <-].
  - by destruct (blocking_op op _).
Qed.
Next Obligation.
  intros B [op n] t w'. cbn. unfold lag_poll. case_decide.
  - destruct op as [k|[|x xs]|]; try done; by intros _ [= <-].
  - by destruct (blocking_op op _).
Qed.
Next Obligation.
  intros B C [op n] [op' n'] Hr Hw [[i o k] g]. cbn in *. unfold lag_poll. cbn [lag].
  destruct op as [m| |]; [|done..]. destruct op' as [|[|x xs]|]; [done|..];
    repeat case_decide; cbn; repeat case_decide; done.
Qed.

(** Tasks whose code satisfies [PS] and which await, on the transport at [d], operations
    that satisfy [PO]; [ready] is what is known of the operation they are suspended at. *)
Section Tasks.
Context {T : Type} `{ASock : AsyncSocket T} {S E A : Type} (d : Lens S T).
Context (PS : forall B, M S E B -> Prop) (PO : forall B, TransportOp B -> Prop).
Context (ready : forall B, OpFuture B -> Prop).

Abbreviation nodes := (every PS (fun B l op => lens_eq l d /\ PO B op)).

Definition task_ok (t : Task T S E A) : Prop :=
  match t with
  | Unpolled f => nodes f
  | Parked B l w k => lens_eq l d /\ ready B w /\ forall r, nodes (k r)
  end.

Definition state_ok (x : Task T S E A + result E A) : Prop :=
  match x with inl t => task_ok t | inr _ => True end.

Context (ready_start : forall B op, PO B op -> ready B (op_start op)).
Context (ready_poll : forall B w t w', ready B w -> fst (op_poll w t) = inl w' -> ready B w').

(** A poll as a sequence of two steps. *)
Definition after_sync {B} (k : B -> Fut T S E A) (r : result E B) : S -> (Task T S E A + result E A) * S :=
  match r with
  | Ok b => run (k b)
  | Err e => fun s => (inr (Err e), s)
  | Panic => fun s => (inr Panic, s)
  | Diverge => fun s => (inr Diverge, s)
  end.

Definition after_poll {B} (l : Lens S T) (k : B + ErrorKind -> Fut T S E A) (x : OpFuture B + result ErrorKind B) :
    S -> (Task T S E A + result E A) * S :=
  match x with
  | inl w => fun s => (inl (Parked B l w k), s)
  | inr r => resume r (fun x => run (k x))
  end.

Lemma run_sync {B} (m : M S E B) (k : B -> Fut T S E A) s : run (Sync m k) s = then_ m (after_sync k) s.
Proof. cbn. unfold then_. by destruct (m s) as [[] ?]. Qed.

Lemma wake_then {B} (l : Lens S T) (w : OpFuture B) k s :
  wake l w k (fun r => run (k r)) s = then_ (at_part l (op_poll w)) (after_poll l k) s.
Proof. unfold wake, then_, at_part. by destruct (op_poll w (view l s)) as [[] ?]. Qed.

Lemma wake_ok {B} (l : Lens S T) (w : OpFuture B) (k : B + ErrorKind -> Fut T S E A) s :
  lens_eq l d -> ready B w -> (forall r, nodes (k r)) -> (forall r s, state_ok (fst (run (k r) s))) ->
  state_ok (fst (wake l w k (fun r => run (k r)) s)).
Proof.
  intros Hl Hw Hk Hr. unfold wake. destruct (op_poll w (view l s)) as [[w'|r] t] eqn:Hp.
  - cbn. split_and!; [done| |done]. apply (ready_poll B w (view l s) w' Hw). by rewrite Hp.
  - destruct r; cbn; auto.
Qed.

Lemma run_ok (f : Fut T S E A) : nodes f -> forall s, state_ok (fst (run f s)).
Proof.
  induction f as [r|B m k IH|B l op k IH]; cbn [every run]; intros Hf s; [done|..].
  - destruct Hf as [_ Hk]. destruct (m s) as [[b|e| |] s']; try done. by apply IH.
  - destruct Hf as [[Hl Ho] Hk]. apply wake_ok; auto.
Qed.

Lemma poll_ok t s : task_ok t -> state_ok (fst (poll t s)).
Proof.
  destruct t as [f|B l w k]; cbn [task_ok poll]; [intros; by apply run_ok|].
  intros (Hl & Hw & Hk). apply wake_ok; auto using run_ok.
Qed.

Lemma polls_ok n : forall x s, state_ok x -> state_ok (fst (polls n x s)).
Proof.
  induction n as [|n IH]; intros [t|r] s Hx; try done. cbn [polls].
  pose proof (poll_ok t s Hx). destruct (poll t s). by apply IH.
Qed.

(** If every piece of code and every poll of an operation commutes with [b], then so
    does every poll of the task. *)
Context {Y : Type} (b : S -> Y * S).
Context (sync_commutes : forall B m, PS B m -> commute m b).
Context (op_commutes : forall B w, ready B w -> commute (at_part d (op_poll (B := B) w)) b).

Lemma wake_commutes {B} (l : Lens S T) (w : OpFuture B) (k : B + ErrorKind -> Fut T S E A) :
  lens_eq l d -> ready B w -> (forall r, commute (run (k r)) b) ->
  commute (wake l w k (fun r => run (k r))) b.
Proof.
  intros Hl Hw Hk. eapply commute_ext; [intros s; symmetry; apply wake_then|done|].
  apply commute_then.
  - eapply commute_ext; [intros s; symmetry; by apply at_part_eq|done|]. by apply op_commutes.
  - intros [w'|[]]; cbn; auto using commute_ret.
Qed.

Lemma run_commutes (f : Fut T S E A) : nodes f -> commute (run f) b.
Proof.
  induction f as [r|B m k IH|B l op k IH]; cbn [every]; intros Hf; [apply commute_ret|..].
  - destruct Hf as [Hm Hk]. eapply commute_ext; [intros s; symmetry; apply run_sync|done|].
    apply commute_then; [by apply sync_commutes|]. intros []; cbn; auto using commute_ret.
  - destruct Hf as [[Hl Ho] Hk]. apply wake_commutes; auto.
Qed.

Lemma poll_commutes t : task_ok t -> commute (poll t) b.
Proof.
  destruct t as [f|B l w k]; cbn [task_ok poll]; [apply run_commutes|].
  intros (Hl & Hw & Hk). apply wake_commutes; auto using run_commutes.
Qed.

Lemma polls_commute n : forall x, state_ok x -> commute (polls n x) b.
Proof.
  induction n as [|n IH]; intros [t|r] Hx; try apply commute_ret.
  apply (commute_ext (then_ (poll t) (polls n)) _ b b); [done|done|].
  apply (commute_then_if state_ok); [by apply poll_commutes| |done]. intros s. by apply poll_ok.
Qed.
End Tasks.

(** A part of the state that successful code and the transport leave alone does not
    change as long as the task is suspended. *)
Section Keeps.
Context {T : Type} `{ASock : AsyncSocket T} {S E A F : Type} (d : Lens S T) (flag : S -> F).

Definition keeps {B} (m : M S E B) : Prop := forall s, post m s (fun _ s' => flag s' = flag s).

Lemma keeps_gets {B} (f : S -> B) : keeps (gets f).
Proof. intros s a s'. by intros [= <- <-]. Qed.
Lemma keeps_id {B} (m : M S E B) : (forall s, snd (m s) = s) -> keeps m.
Proof. intros H s b s' Hm. specialize (H s). rewrite Hm in H. by subst. Qed.
Lemma keeps_local {U B} (l : Lens S U) (m : M S E B) :
  (forall u s, flag (upd l u s) = flag s) -> local l m -> keeps m.
Proof. intros Hl [p Hp] s b s' Hm. rewrite Hp in Hm. unfold at_part in Hm. destruct (p _). by simplify_eq. Qed.

(** [PO] and [ready] of [task_ok] do not matter here. *)
Abbreviation steady := (every (fun B m => keeps m) (fun B l op => lens_eq l d /\ True)).
Definition steady_ok : Task T S E A + result E A -> Prop :=
  state_ok d (fun B m => keeps m) (fun _ _ => True) (fun _ _ => True).

Context (transport_keeps : forall t s, flag (upd d t s) = flag s).

Lemma wake_keeps {B} (l : Lens S T) (w : OpFuture B) (k : B + ErrorKind -> Fut T S E A) s t s' :
  lens_eq l d -> (forall r s t s', run (k r) s = (inl t, s') -> flag s' = flag s) ->
  wake l w k (fun r => run (k r)) s = (inl t, s') -> flag s' = flag s.
Proof.
  intros [_ Hu] Hk. unfold wake. destruct (op_poll w (view l s)) as [[w'|r] t1]; rewrite Hu.
  - intros [= _ <-]. apply transport_keeps.
  - intros H. rewrite <-(transport_keeps t1 s). destruct r as [b|e| |]; [by eapply Hk|by eapply Hk|done..].
Qed.

Lemma run_keeps (f : Fut T S E A) : steady f -> forall s t s', run f s = (inl t, s') -> flag s' = flag s.
Proof.
  induction f as [r|B m k IH|B l op k IH]; cbn [every run]; intros Hf s t s'; [done|..].
  - destruct Hf as [Hm Hk]. specialize (Hm s). destruct (m s) as [[b|e| |] s1] eqn:E1; try done.
    rewrite <-(Hm b s1 E1). by apply IH.
  - destruct Hf as [[Hl _] Hk]. apply wake_keeps; [done|]. intros r s1 t1 s1' H. by eapply IH.
Qed.

Lemma polls_1_keeps x s t s' : steady_ok x -> polls 1 x s = (inl t, s') -> flag s' = flag s.
Proof.
  destruct x as [[f|B l w k]|r]; cbn [polls]; [| |done].
  - intros Hf. destruct (poll (Unpolled f) s) as [y s1] eqn:Hp. intros [= -> ->]. by eapply run_keeps.
  - intros (Hl & _ & Hk). destruct (poll _ s) as [y s1] eqn:Hp. intros [= -> ->].
    revert Hp. apply wake_keeps; [done|]. intros r s2 t2 s2'. by apply run_keeps.
Qed.
End Keeps.

(** ** Interleavings *)

Section Interleave.
Context {T : Type} `{ASock : AsyncSocket T} {S E A B : Type}.
Abbreviation RunA := (Task T S E A + result E A)%type.
Abbreviation RunB := (Task T S E B + result E B)%type.

(** The executor polls the first task for [true] and the second one for [false]. *)
Fixpoint run_both (schedule : list bool) (x : RunA) (y : RunB) (s : S) : RunA * RunB * S :=
  match schedule with
  | [] => (x, y, s)
  | true :: rest => let '(x', s') := polls 1 x s in run_both rest x' y s'
  | false :: rest => let '(y', s') := polls 1 y s in run_both rest x y' s'
  end.

Fixpoint turns (who : bool) (schedule : list bool) : nat :=
  match schedule with
  | [] => 0
  | b :: rest => (if Bool.eqb b who then 1 else 0) + turns who rest
  end.

(** Tasks whose polls commute can be run one after the other. *)
Lemma interleave_sequence (PX : RunA -> Prop) (PY : RunB -> Prop) schedule :
  (forall n x s, PX x -> PX (fst (polls n x s))) -> (forall n y s, PY y -> PY (fst (polls n y s))) ->
  (forall n m x y, PX x -> PY y -> commute (polls n x) (polls m y)) ->
  forall x y s, PX x -> PY y ->
  run_both schedule x y s
  = (let '(x', s1) := polls (turns true schedule) x s in
     let '(y', s2) := polls (turns false schedule) y s1 in (x', y', s2)).
Proof.
  intros HX HY HC. induction schedule as [|[] rest IH]; intros x y s Hx Hy; [done|..];
    cbn [run_both turns Bool.eqb]; rewrite ?Nat.add_0_l.
  - pose proof (HX 1 x s Hx) as Hx'. rewrite polls_add.
    destruct (polls 1 x s) as [x1 s1]. by apply IH.
  - pose proof (HY 1 y s Hy) as Hy'. pose proof (HC (turns true rest) 1 x y Hx Hy s) as Hc.
    destruct (polls 1 y s) as [y1 s1]. rewrite IH by done.
    destruct (polls (turns true rest) x s) as [x2 s2]. rewrite polls_add.
    destruct (polls 1 y s2) as [y3 s3]. destruct (polls (turns true rest) x s1) as [x4 s4].
    by injection Hc as -> -> ->.
Qed.
End Interleave.

(** *** A task that reads shared fields once

    The second task reads [f] of the state and then runs code whose polls commute with
    those of the first; while the first task is suspended, what [f] reads does not
    change. *)
Section Load.
Context {T : Type} `{ASock : AsyncSocket T} {S E A B F : Type}.
Abbreviation RunA := (Task T S E A + result E A)%type.
Abbreviation RunB := (Task T S E B + result E B)%type.
Context (PX : RunA -> Prop) (PY : RunB -> Prop) (f : S -> F) (m : M S E F) (k : F -> Fut T S E B).
Context (load : forall s, m s = (Ok (f s), s)).
Context (PX_polls : forall n x s, PX x -> PX (fst (polls n x s))).
Context (PY_polls : forall n y s, PY y -> PY (fst (polls n y s))).
Context (commutes : forall n m x y, PX x -> PY y -> commute (polls n x) (polls m y)).
Context (load_body : forall v, PY (inl (Unpolled (k v)))).
Context (load_same : forall x s t s', PX x -> polls 1 x s = (inl t, s') -> f s' = f s).

Abbreviation loader := (inl (Unpolled (Sync m k)) : RunB).

Lemma polls_loader n s : polls (Datatypes.S n) loader s = polls (Datatypes.S n) (inl (Unpolled (k (f s)))) s.
Proof. cbn. by rewrite load. Qed.

Lemma interleave_done schedule (r : result E A) : forall (y : RunB) s,
  run_both schedule (inr r) y s = let '(y', s') := polls (turns false schedule) y s in (inr r, y', s').
Proof.
  induction schedule as [|[] rest IH]; intros y s; cbn [run_both turns Bool.eqb]; [done|apply IH|].
  rewrite polls_add. destruct (polls 1 y s). apply IH.
Qed.

(** In effect one task runs after the other: the first one has finished before the
    second one starts, or the second one runs as if it were alone. *)
Lemma interleave_orders schedule : forall x s x' y' s',
  PX x -> run_both schedule x loader s = (x', y', s') ->
  (exists a s1, x' = inr a /\ polls (turns true schedule) x s = (inr a, s1) /\
     polls (turns false schedule) loader s1 = (y', s')) \/
  (exists s1, polls (turns false schedule) loader s = (y', s1) /\
     polls (turns true schedule) x s1 = (x', s')).
Proof.
  induction schedule as [|[] rest IH]; intros x s x' y' s' Hx; cbn [run_both turns Bool.eqb].
  - intros [= <- <- <-]. right. by exists s.
  - rewrite Nat.add_0_l, polls_add. pose proof (PX_polls 1 x s Hx) as Hx1.
    destruct (polls 1 x s) as [[t|r] s1] eqn:H1.
    + intros Hi. destruct (IH _ _ _ _ _ Hx1 Hi) as [(a & s2 & -> & Hn & Hm)|(s2 & Hm & Hn)].
      * left. by exists a, s2.
      * right. destruct (turns false rest) as [|j].
        { injection Hm as <- <-. exists s. split; [done|]. by rewrite polls_add, H1. }
        rewrite polls_loader, (load_same _ _ _ _ Hx H1) in Hm. rewrite polls_loader.
        pose proof (commutes 1 (Datatypes.S j) x _ Hx (load_body (f s)) s) as Hc. rewrite H1, Hm in Hc.
        destruct (polls (Datatypes.S j) _ s) as [y s3]. exists s3. rewrite polls_add.
        destruct (polls 1 x s3) as [x4 s4]. injection Hc as <- <- <-. done.
    + rewrite interleave_done. intros Hi. left. exists r, s1. rewrite polls_done.
      destruct (polls _ _ s1) as [y s2]. by simplify_eq.
  - rewrite (polls_loader 0). pose proof (PY_polls 1 _ s (load_body (f s))) as Hy.
    destruct (polls 1 (inl (Unpolled (k (f s)))) s) as [y s1] eqn:H1.
    rewrite (interleave_sequence PX PY) by done. intros Hi. right.
    change (1 + ?n) with (Datatypes.S n). rewrite polls_loader. change (Datatypes.S ?n) with (1 + n).
    rewrite polls_add, H1. pose proof (commutes (turns true rest) (turns false rest) x y Hx Hy s1) as Hc.
    rewrite Hi in Hc. destruct (polls (turns false rest) y s1) as [y2 s2]. exists s2.
    cbn [Nat.add]. destruct (polls (turns true rest) x s2). by injection Hc as <- <- <-.
Qed.
End Load.
