(* ===== verification/AsyncSplit.v ===== *)
(** The halves of an asynchronous connection in two tasks.

    A reader and a writer are usually awaited in two tasks.  The code of each half works
    on its own part of the state, on the transport and on the shared flag [opened]; the
    polls of the two tasks commute, except that a write looks at the flag once, and a
    read that ends with an error may clear it.  So any interleaving of a read and a write
    is a sequence of the two. *)

From S2P Require Import Prelude Errors CryptoBuffer ParseBuffer Wire ExtensionData Extensions.
From S2P Require Import CryptoSuite KeySchedule KeyScheduleProps ClientHello Handshake Server.
From S2P Require Import ServerRecords Record WriteBuffer RecordReader ReadBuffer Connection.
From S2P Require Import ClientRecords Blocking ClientHandshake ClientStream Future AsyncHandshake Split Asynch.
From S2P Require Import Interleaving.
From Stdlib Require Import ZArith Lia.
From Stdlib Require Import Strings.Byte.
From stdpp Require Import base list option numbers tactics sets.

(** ** The code of the halves and the parts it works on *)

Ltac local_pure := eapply local_pure; intros ?; reflexivity.

Section Local.
Context {S U : Type} (l : Lens S U).

Lemma local_header_decode hdr : local l (RecordHeader_decode hdr).
Proof.
  unfold RecordHeader_decode. destruct (hdr !! 0) as [b|]; [|local_pure]. cbn.
  destruct (ContentType_of b) eqn:Hb; eapply local_pure; intros s; cbn; rewrite bind_ret, Hb; reflexivity.
Qed.

Lemma local_content_length {E} h : local (E := E) l (content_length h).
Proof.
  unfold content_length. destruct (rh_data h !! 3); [|local_pure]. destruct (rh_data h !! 4); local_pure.
Qed.

Lemma local_info_is_empty {E} i : local (E := E) l (info_is_empty i).
Proof. unfold info_is_empty. destruct (info_len i); local_pure. Qed.
End Local.

Lemma lens_eq_refl {S U} (l : Lens S U) : lens_eq l l.
Proof. done. Qed.

Create HintDb parts.
#[export] Hint Resolve local_ret local_err local_unwrap local_header_decode local_content_length
  local_info_is_empty lens_eq_refl : parts.

(** One node of a future at a time. *)
Ltac parts_step :=
  lazymatch goal with
  | |- parts _ _ _ _ => unfold parts
  | |- every _ _ (_ ≫= _) => apply every_bind; [|intros ?]
  | |- every _ _ (sync _) => apply every_sync
  | |- every _ _ (io_await _ _) => apply every_await; split; [auto with parts|exact I]
  | |- every _ _ (Done _) => exact I
  | |- every _ _ (throw _) => exact I
  | |- every _ _ (mret _) => exact I
  | |- every _ _ (if ?b then _ else _) => destruct b
  | |- every _ _ (match ?x with _ => _ end) => destruct x
  | |- _ => solve [auto with parts]
  end.
Ltac parts := repeat parts_step.

Section ReaderParts.
Context {T : Type}.

Lemma header_loop_parts fuel : forall buf total,
  parts unit_lens id_lens is_read (header_loop (T := T) fuel buf total).
Proof.
  unfold parts. induction fuel as [|fuel IH]; intros buf total; cbn [header_loop]; parts.
Qed.

Lemma next_record_header_parts : parts unit_lens id_lens is_read (next_record_header (T := T)).
Proof. unfold next_record_header. parts. apply header_loop_parts. Qed.

Lemma advance_loop_parts fuel : forall remain amount,
  parts fst_lens snd_lens is_read (advance_loop (T := T) fuel remain amount).
Proof.
  unfold parts. induction fuel as [|fuel IH]; intros remain amount; cbn [advance_loop]; parts.
  - by apply (local_gets _ _ (fun r => r)).
  - by apply (local_gets _ _ (fun r => r)).
  - apply local_at.
Qed.

Lemma advance_parts amount : parts fst_lens snd_lens is_read (advance (T := T) amount).
Proof. unfold advance. parts; [apply local_at|apply advance_loop_parts]. Qed.

Context `{CS : TlsCipherSuite}.

(** [RecordReader::read]: the reader and the digest, and the transport. *)
Definition reader_digest_upd (x : RecordReader * list byte) (st : RecordReader * T * list byte) :
    RecordReader * T * list byte := (fst x, snd (fst st), snd x).
Lemma reader_digest_laws :
  lens (fun st : RecordReader * T * list byte => (fst (fst st), snd st)) reader_digest_upd.
Proof. split; [by intros [] [[]]|by intros [] [] [[]]|by intros [[]]]. Qed.
Definition reader_digest : Lens (RecordReader * T * list byte) (RecordReader * list byte) :=
  mkLens _ _ reader_digest_laws.
Definition reader_transport : Lens (RecordReader * T * list byte) T := lens_comp fst_lens snd_lens.

Lemma read_parts : parts reader_digest reader_transport is_read (AsyncHandshake.read (T := T)).
Proof.
  unfold AsyncHandshake.read. parts.
  - apply (parts_within _ unit_lens id_lens _ unit_lens); [done..|apply next_record_header_parts].
  - apply (parts_within _ fst_lens snd_lens _ fst_lens); [done..|apply advance_parts].
  - apply local_at.
Qed.

(** The methods of [TlsReader]: the reader and the flag, and the transport. *)
Abbreviation RS := (Shared (T := T) * TlsReader)%type.
Definition flag_reader_upd (x : bool * TlsReader) (st : RS) : RS := (mkShare (fst x) (s_delegate (fst st)), snd x).
Lemma flag_reader_laws : lens (fun st : RS => (s_opened (fst st), snd st)) flag_reader_upd.
Proof. split; [by intros []|done|by intros [[] ?]]. Qed.
Definition flag_reader : Lens RS (bool * TlsReader) := mkLens _ _ flag_reader_laws.
Definition share_upd (t : T) (st : RS) : RS := (mkShare (s_opened (fst st)) t, snd st).
Lemma share_transport_laws : lens (fun st : RS => s_delegate (fst st)) share_upd.
Proof. split; [done..|by intros [[] ?]]. Qed.
Definition share_transport : Lens RS T := mkLens _ _ share_transport_laws.

(** The reader and digest in [TlsReader]. *)
Definition tls_reader_upd (x : RecordReader * list byte) (st : bool * TlsReader) : bool * TlsReader :=
  (fst st, mkTlsReader (mkRead (r_state (rd_key_schedule (snd st))) (snd x)) (fst x) (rd_decrypted (snd st))).
Lemma tls_reader_laws :
  lens (fun st : bool * TlsReader => (rd_record_reader (snd st), r_transcript (rd_key_schedule (snd st)))) tls_reader_upd.
Proof. split; [by intros []|done|by intros [? [[] ? ?]]]. Qed.
Definition tls_reader : Lens (bool * TlsReader) (RecordReader * list byte) := mkLens _ _ tls_reader_laws.

Lemma local_reader_decrypt rec : local flag_reader (reader_decrypt rec).
Proof.
  exists (fun st : bool * TlsReader =>
    let r := snd st in
    let '(x, (rks, rx, (info, o))) :=
      decrypt_record (handle_callback (length (rr_buf (rd_record_reader r)))) rec
        (rd_key_schedule r, rr_buf (rd_record_reader r), (rd_decrypted r, fst st)) in
    (x, (if negb o then false else fst st,
         mkTlsReader rks (mkReader rx (decoded (rd_record_reader r)) (pending (rd_record_reader r))) info))).
  intros [[o t] r]. unfold reader_decrypt, at_part, mbind, M_bind, zoom. cbn.
  by destruct (decrypt_record _ _ _) as [x [[rks rx] [info o']]].
Qed.

Lemma reader_read_application_data_parts : parts flag_reader share_transport is_read reader_read_application_data.
Proof.
  unfold reader_read_application_data. parts; [|apply local_reader_decrypt].
  apply (parts_within _ reader_digest reader_transport _ tls_reader); [| |apply read_parts].
  - split; [done|]. by intros [] [[] [[] ? ?]].
  - split; [done|]. by intros ? [[] [[] ? ?]].
Qed.

Lemma reader_wait_loop_parts fuel : parts flag_reader share_transport is_read (reader_wait_loop fuel).
Proof.
  unfold parts. induction fuel as [|fuel IH]; cbn [reader_wait_loop]; parts;
    try apply reader_read_application_data_parts; by apply (local_gets _ _ snd).
Qed.

Lemma reader_read_buffered_parts fuel : parts flag_reader share_transport is_read (reader_read_buffered fuel).
Proof.
  unfold reader_read_buffered. parts; [by apply (local_gets _ _ fst)|apply reader_wait_loop_parts|].
  exists (fun st : bool * TlsReader =>
    (fst (unwrap (S := unit) (E := TlsError)
            (create_read_buffer (rd_decrypted (snd st)) (rr_buf (rd_record_reader (snd st)))) tt), st)).
  intros [[o t] r]. unfold reader_create_read_buffer, at_part. rewrite bind_get. cbn. by destruct (create_read_buffer _ _).
Qed.

Lemma local_use_buffer {A} b (m : M ReadBuffer TlsError A) : local flag_reader (reader_use_buffer b m).
Proof.
  exists (fun st : bool * TlsReader =>
    let r := snd st in
    let drop b' := (fst st, mkTlsReader (rd_key_schedule r) (rd_record_reader r) (drop_buffer b' (rd_decrypted r))) in
    match m b with
    | (Ok a, b') => (Ok a, drop b')
    | (Err e, b') => (Err e, drop b')
    | (Panic, _) => (Panic, st)
    | (Diverge, _) => (Diverge, st)
    end).
  intros [[o t] r]. unfold reader_use_buffer, at_part. cbn. by destruct (m b) as [[] ?].
Qed.

Lemma reader_read_parts fuel buf : parts flag_reader share_transport is_read (reader_read fuel buf).
Proof.
  unfold reader_read. parts; [apply reader_read_buffered_parts|apply local_use_buffer].
Qed.

Lemma reader_fill_buf_parts fuel : parts flag_reader share_transport is_read (reader_fill_buf fuel).
Proof. unfold reader_fill_buf. parts; [apply reader_read_buffered_parts|apply local_use_buffer]. Qed.
End ReaderParts.

Section WriterParts.
Context `{CS : TlsCipherSuite} {T : Type}.
Abbreviation WS := (Shared (T := T) * TlsWriter)%type.

Definition writer_buf_upd (b : WriteBuffer) (w : TlsWriter) : TlsWriter :=
  mkTlsWriter (wr_key_schedule w) b (wr_flush_policy w).
Lemma writer_buf_laws : lens wr_record_write_buf writer_buf_upd.
Proof. split; [done..|by intros []]. Qed.
Definition writer_keys_upd (k : KeyScheduleState) (w : TlsWriter) : TlsWriter :=
  mkTlsWriter (mkWrite k (binder_key (wr_key_schedule w))) (wr_record_write_buf w) (wr_flush_policy w).
Lemma writer_keys_laws : lens (fun w => w_state (wr_key_schedule w)) writer_keys_upd.
Proof. split; [done..|by intros [[] ? ?]]. Qed.

Lemma local_on_writer_buf {A} (m : M WriteBuffer TlsError A) :
  local (snd_lens : Lens WS TlsWriter) (on_writer_buf m).
Proof. by apply (local_zoom _ (mkLens _ _ writer_buf_laws)). Qed.

Lemma local_increment : local (snd_lens : Lens WS TlsWriter) writer_increment_counter.
Proof. by apply (local_zoom _ (mkLens _ _ writer_keys_laws)). Qed.

#[local] Hint Resolve local_on_writer_buf local_increment : parts.

(** The code of a writer's method after it has read its fields. *)
Definition flush_body (w : TlsWriter) : Fut T WS TlsError unit :=
  if negb (wb_is_empty (wr_record_write_buf w)) then
    slice ← sync (on_writer_buf (close_record (wr_key_schedule w)));
    io_await writer_delegate (Op_write_all slice);;
    sync writer_increment_counter;;
    if Blocking.flush_transport (wr_flush_policy w) then writer_flush_transport else mret tt
  else mret tt.

Lemma flush_body_parts w : parts snd_lens writer_delegate is_write (flush_body w).
Proof. unfold flush_body, writer_flush_transport. parts. Qed.

Lemma writer_flush_parts : parts snd_lens writer_delegate is_write (writer_flush (T := T)).
Proof.
  apply every_bind; [|apply flush_body_parts]. by apply every_sync, (local_gets _ _ (fun w => w)).
Qed.

Definition write_body (buf : list byte) (ow : bool * TlsWriter) : Fut T WS TlsError nat :=
  let '(o, w) := ow in
  if o : bool then
    (if negb (contains (wr_record_write_buf w) CRH_ApplicationData)
     then writer_flush;; sync (on_writer_buf (start_record CRH_ApplicationData))
     else mret tt);;
    buffered ← sync (on_writer_buf (wb_append buf));
    full ← sync (on_writer_buf is_full);
    (if full : bool then writer_flush else mret tt);;
    mret buffered
  else throw MissingHandshake.

Lemma write_body_parts buf ow : parts snd_lens writer_delegate is_write (write_body buf ow).
Proof. unfold write_body. destruct ow. parts; apply writer_flush_parts. Qed.
End WriterParts.

(** ** The halves as parts of one state *)

Section Halves.
Context `{CS : TlsCipherSuite} {T : Type}.
Abbreviation Halves := (Shared (T := T) * TlsReader * TlsWriter)%type.

Definition writer_part_upd (x : Shared (T := T) * TlsWriter) (h : Halves) : Halves := (fst x, snd (fst h), snd x).
Lemma writer_part_laws : lens (fun h : Halves => (fst (fst h), snd h)) writer_part_upd.
Proof. split; [by intros []|done|by intros [[]]]. Qed.
Definition writer_part : Lens Halves (Shared (T := T) * TlsWriter) := mkLens _ _ writer_part_laws.
Definition reader_part : Lens Halves (Shared (T := T) * TlsReader) := fst_lens.

Definition reader_side : Lens Halves (bool * TlsReader) := lens_comp reader_part flag_reader.
Definition writer_side : Lens Halves TlsWriter := snd_lens.
Definition transport_side : Lens Halves T := lens_comp reader_part share_transport.

Lemma sides_disjoint : disjoint_parts reader_side writer_side.
Proof. done. Qed.
Lemma reader_transport_disjoint : disjoint_parts reader_side transport_side.
Proof. done. Qed.
Lemma writer_transport_disjoint : disjoint_parts transport_side writer_side.
Proof. done. Qed.

Lemma reader_half_parts {A} (f : Fut T (Shared * TlsReader) TlsError A) :
  parts flag_reader share_transport is_read f -> parts reader_side transport_side is_read (within reader_part f).
Proof.
  apply (parts_within reader_part flag_reader share_transport reader_side id_lens);
    (split; [done|]); by intros ? [[[] ?] ?].
Qed.

Lemma writer_half_parts {A} (f : Fut T (Shared * TlsWriter) TlsError A) :
  parts snd_lens writer_delegate is_write f -> parts writer_side transport_side is_write (within writer_part f).
Proof.
  apply (parts_within writer_part snd_lens writer_delegate writer_side id_lens);
    (split; [done|]); by intros ? [[[] ?] ?].
Qed.

Context `{ASock : AsyncSocket T, !Duplex T}.

Definition reader_task_ok {A} : Task T Halves TlsError A + result TlsError A -> Prop :=
  state_ok transport_side (fun B m => local reader_side m) is_read reading.
Definition writer_task_ok {A} : Task T Halves TlsError A + result TlsError A -> Prop :=
  state_ok transport_side (fun B m => local writer_side m) is_write writing.

Lemma reader_ok_polls {A} n (x : Task T Halves TlsError A + result TlsError A) h :
  reader_task_ok x -> reader_task_ok (fst (polls n x h)).
Proof. apply polls_ok; [apply reading_start|apply reading_poll]. Qed.
Lemma writer_ok_polls {A} n (y : Task T Halves TlsError A + result TlsError A) h :
  writer_task_ok y -> writer_task_ok (fst (polls n y h)).
Proof. apply polls_ok; [apply writing_start|apply writing_poll]. Qed.

Lemma local_commute {U X A} (l : Lens Halves U) (m : M Halves TlsError A) (b : Halves -> X * Halves) :
  local l m -> (forall p, commute (at_part l (p : U -> result TlsError A * U)) b) -> commute m b.
Proof. intros [p Hp] H. eapply commute_ext; [intros s; symmetry; apply Hp|done|apply H]. Qed.

Lemma halves_commute {A B} n m (x : Task T Halves TlsError A + result TlsError A)
    (y : Task T Halves TlsError B + result TlsError B) :
  reader_task_ok x -> writer_task_ok y -> commute (polls n x) (polls m y).
Proof.
  intros Hx Hy. eapply (polls_commute transport_side); [apply reading_start|apply reading_poll| | |exact Hx].
  - intros C c Hc. apply commute_sym.
    eapply (polls_commute transport_side); [apply writing_start|apply writing_poll| | |exact Hy].
    + intros D e He. apply (local_commute _ _ _ He). intros p. apply commute_sym.
      apply (local_commute _ _ _ Hc). intros q. apply disjoint_commute, sides_disjoint.
    + intros D w _. apply commute_sym, (local_commute _ _ _ Hc). intros q.
      apply disjoint_commute, reader_transport_disjoint.
  - intros C w Hw. apply commute_sym.
    eapply (polls_commute transport_side); [apply writing_start|apply writing_poll| | |exact Hy].
    + intros D e He. apply (local_commute _ _ _ He). intros p. apply commute_sym.
      apply disjoint_commute, writer_transport_disjoint.
    + intros D v Hv. apply commute_sym, same_part_commute. by apply directions_commute.
Qed.
End Halves.

(** *** The flag while the reader is suspended *)

Section Flag.
Context `{CS : TlsCipherSuite, !TlsCipherSuiteLaws CS} {T : Type}.
Abbreviation RS := (Shared (T := T) * TlsReader)%type.
Abbreviation flag := (fun st : RS => s_opened (fst st)).
Abbreviation steady := (every (fun B m => keeps flag m) (fun B l op => lens_eq l share_transport /\ True)).

Lemma keeps_decrypt rec : keeps flag (reader_decrypt (T := T) rec).
Proof.
  intros [s r]. unfold reader_decrypt. apply post_bind, post_get, post_zoom.
  eapply post_mono; [apply decrypt_keeps_open|]. intros _ [[rks rx] [info o]] Ho. cbn in *. by destruct o.
Qed.

Lemma reader_read_application_data_steady : steady (reader_read_application_data (T := T)).
Proof.
  apply every_bind; [|intros rec; apply every_sync, keeps_decrypt].
  eapply every_within; [| |apply read_parts].
  - intros B m _ st b st' Hm. unfold zoom in Hm. destruct (m _) as [r [[rr t] dg]]. by simplify_eq/=.
  - intros B l op [[Hv Hu] _]. split; [|done]. split.
    + intros st. cbn. by rewrite Hv.
    + intros t [[o u] [[] ? ?]]. cbn. by rewrite Hu.
Qed.

Lemma keeps_is_empty i : keeps flag (info_is_empty (S := RS) (E := TlsError) i).
Proof. apply keeps_id. intros s. unfold info_is_empty. by destruct (info_len i). Qed.

Lemma reader_wait_loop_steady fuel : steady (reader_wait_loop (T := T) fuel).
Proof.
  induction fuel as [|fuel IH]; cbn [reader_wait_loop]; parts; auto using keeps_gets, keeps_is_empty.
  apply reader_read_application_data_steady.
Qed.

Lemma reader_read_buffered_steady fuel : steady (reader_read_buffered (T := T) fuel).
Proof.
  unfold reader_read_buffered. parts; [apply keeps_gets|apply reader_wait_loop_steady|].
  apply keeps_id. intros [s r]. unfold reader_create_read_buffer. rewrite bind_get. by destruct (create_read_buffer _ _).
Qed.

Lemma keeps_use_buffer {A} b (m : M ReadBuffer TlsError A) : keeps flag (reader_use_buffer (T := T) b m).
Proof.
  intros [s r] a st. unfold reader_use_buffer. destruct (m b) as [[] ?]; intros [= <- <-]; done.
Qed.

Lemma reader_read_steady fuel buf : steady (reader_read (T := T) fuel buf).
Proof. unfold reader_read. parts; [apply reader_read_buffered_steady|apply keeps_use_buffer]. Qed.

Lemma reader_fill_buf_steady fuel : steady (reader_fill_buf (T := T) fuel).
Proof. unfold reader_fill_buf. parts; [apply reader_read_buffered_steady|apply keeps_use_buffer]. Qed.
End Flag.

(** ** A read and a write in two tasks *)

Inductive ReaderCall : Type -> Type :=
| RC_read (fuel : nat) (buf : list byte) : ReaderCall (list byte * nat)
| RC_fill_buf (fuel : nat) : ReaderCall (list byte).

Inductive WriterCall : Type -> Type :=
| WC_write (buf : list byte) : WriterCall nat
| WC_flush : WriterCall unit.

Section Concurrent.
Context `{CS : TlsCipherSuite} {T : Type}.
Abbreviation Conn := (TlsConnection (T := T)).
Abbreviation Halves := (Shared (T := T) * TlsReader * TlsWriter)%type.

(** The futures of the halves, and the methods of the connection. *)
Definition reader_future {A} (x : ReaderCall A) : Fut T (Shared * TlsReader) TlsError A :=
  match x with
  | RC_read fuel buf => reader_read fuel buf
  | RC_fill_buf fuel => reader_fill_buf fuel
  end.
Definition writer_future {B} (y : WriterCall B) : Fut T (Shared * TlsWriter) TlsError B :=
  match y with
  | WC_write buf => writer_write buf
  | WC_flush => writer_flush
  end.

Definition start_reader {A} `{ASock : AsyncSocket T} (x : ReaderCall A) :
    Task T Halves TlsError A + result TlsError A :=
  inl (Unpolled (within reader_part (reader_future x))).
Definition start_writer {B} `{ASock : AsyncSocket T} (y : WriterCall B) :
    Task T Halves TlsError B + result TlsError B :=
  inl (Unpolled (within writer_part (writer_future y))).

Context `{Sock : Socket T}.

Definition read_method {A} (x : ReaderCall A) : M Conn TlsError A :=
  match x with
  | RC_read fuel buf => Blocking.read fuel buf
  | RC_fill_buf fuel => Blocking.fill_buf fuel
  end.
Definition write_method {B} (y : WriterCall B) : M Conn TlsError B :=
  match y with
  | WC_write buf => Blocking.write buf
  | WC_flush => Blocking.flush
  end.

(** *** Alone, each does what the connection does *)

Lemma split_rput x (c : Conn) : Split.split (rput x c) = (x, snd (Split.split c)).
Proof. by destruct x as [[] []], c. Qed.
Lemma split_wput x (c : Conn) :
  Split.split (wput x c) = upd writer_part x (Split.split c).
Proof. by destruct x as [[] []], c. Qed.

Lemma blocking_reader {A} (x : ReaderCall A) `{!TlsCipherSuiteLaws CS} (c : Conn) :
  blocking (within reader_part (reader_future x)) (Split.split c)
  = let '(a, c') := read_method x c in (a, Split.split c').
Proof.
  assert (exists p, same (blocking (reader_future x)) p /\ implements rview rput (read_method x) p c) as (p & Hp & Hi).
  { destruct x; eexists; [split; [apply same_reader_read|apply sim_read]|
      split; [apply same_reader_fill_buf|apply sim_fill_buf]]. }
  rewrite (same_within reader_part _ _ Hp). rewrite Hi. unfold zoom.
  change (view reader_part (Split.split c)) with (rview c). destruct (p (rview c)) as [a st].
  by rewrite split_rput.
Qed.

Lemma blocking_writer {B} (y : WriterCall B) (c : Conn) :
  blocking (within writer_part (writer_future y)) (Split.split c)
  = let '(b, c') := write_method y c in (b, Split.split c').
Proof.
  assert (exists p, same (blocking (writer_future y)) p /\ implements wview wput (write_method y) p c) as (p & Hp & Hi).
  { destruct y; eexists; [split; [apply same_writer_write|apply sim_write]|
      split; [apply same_writer_flush|apply sim_flush]]. }
  rewrite (same_within writer_part _ _ Hp). rewrite Hi. unfold zoom.
  change (view writer_part (Split.split c)) with (wview c). destruct (p (wview c)) as [b st].
  by rewrite split_wput.
Qed.

(** *** Together *)

Context `{ASock : AsyncSocket T, !Duplex T, !TlsCipherSuiteLaws CS}.
Abbreviation opened_flag := (fun h : Halves => s_opened (fst (fst h))).

Definition reader_ok {A} (x : Task T Halves TlsError A + result TlsError A) : Prop :=
  reader_task_ok x /\ steady_ok transport_side opened_flag x.

Lemma start_reader_ok {A} (x : ReaderCall A) : reader_ok (start_reader x).
Proof.
  split.
  - apply reader_half_parts. destruct x; [apply reader_read_parts|apply reader_fill_buf_parts].
  - assert (every (fun B m => keeps (fun st : Shared (T := T) * TlsReader => s_opened (fst st)) m)
      (fun B l op => lens_eq l share_transport /\ True) (reader_future x)) as Hs.
    { destruct x; [apply reader_read_steady|apply reader_fill_buf_steady]. }
    eapply every_within; [| |exact Hs].
    + intros B m Hm h b h' Hz. unfold zoom in Hz. specialize (Hm (view reader_part h)).
      destruct (m (view reader_part h)) as [r st] eqn:Hr. injection Hz as -> <-. exact (Hm b st Hr).
    + intros B l op [[Hv Hu] _]. split; [|done]. split; [intros h; cbn; by rewrite Hv|].
      intros t h. cbn. by rewrite Hu.
Qed.

Lemma reader_ok_polls_both {A} n (x : Task T Halves TlsError A + result TlsError A) h :
  reader_ok x -> reader_ok (fst (polls n x h)).
Proof. intros [H1 H2]. split; [by apply reader_ok_polls|by apply polls_ok]. Qed.

(** While the reader is suspended, neither the flag nor the writer's half changes. *)
Lemma reader_suspended {A} (x : Task T Halves TlsError A + result TlsError A) h t h' :
  reader_ok x -> polls 1 x h = (inl t, h') -> opened_flag h' = opened_flag h /\ snd h' = snd h.
Proof.
  intros [Hx Hs] Hp. split; [exact (polls_1_keeps transport_side opened_flag (fun _ _ => eq_refl) x h t h' Hs Hp)|].
  assert (commute (polls 1 x) (fun h => (snd h, h))) as Hc.
  { apply (commute_ext (polls 1 x) _ (at_part writer_side (fun w => (w, w))) _); [done|by intros [[] ?]|].
    eapply (polls_commute transport_side); [apply reading_start|apply reading_poll| | |exact Hx].
    - intros B m Hm. apply (local_commute _ _ _ Hm). intros p. apply disjoint_commute, sides_disjoint.
    - intros B w _. apply disjoint_commute, writer_transport_disjoint. }
  specialize (Hc h). cbv beta iota in Hc. rewrite Hp in Hc. by simplify_eq.
Qed.

(** Reading the fields, and the rest of the writer's method. *)
Definition loaded {B} (y : WriterCall B) : Type :=
  match y with WC_write _ => bool * TlsWriter | WC_flush => TlsWriter end.
Definition load_fields {B} (y : WriterCall B) : Halves -> loaded y :=
  match y with WC_write _ => fun h => (opened_flag h, snd h) | WC_flush => fun h => snd h end.
Definition load_rest {B} (y : WriterCall B) : loaded y -> Fut T (Shared (T := T) * TlsWriter) TlsError B :=
  match y with WC_write buf => write_body buf | WC_flush => flush_body end.
Definition load_code {B} (y : WriterCall B) : M (Shared (T := T) * TlsWriter) TlsError (loaded y) :=
  match y with
  | WC_write _ => gets (fun st => (s_opened (fst st), snd st))
  | WC_flush => gets snd
  end.

Lemma writer_loads {B} (y : WriterCall B) :
  start_writer y = inl (Unpolled (Sync (zoom (view writer_part) (upd writer_part) (load_code y))
                                    (fun v => within writer_part (load_rest y v)))).
Proof. by destruct y. Qed.

Lemma load_code_run {B} (y : WriterCall B) h :
  zoom (view writer_part) (upd writer_part) (load_code y) h = (Ok (load_fields y h), h).
Proof. destruct y; by destruct h as [[] ?]. Qed.

Lemma load_rest_ok {B} (y : WriterCall B) v :
  writer_task_ok (inl (Unpolled (within writer_part (load_rest y v)))).
Proof. apply writer_half_parts. destruct y; [apply write_body_parts|apply flush_body_parts]. Qed.

Lemma load_fields_same {B} (y : WriterCall B) h h' :
  opened_flag h' = opened_flag h -> snd h' = snd h -> load_fields y h' = load_fields y h.
Proof. intros Ho Hw. destruct y; cbn; congruence. Qed.

Lemma halves_orders {A B} (x : ReaderCall A) (y : WriterCall B) schedule h x' y' h' :
  run_both schedule (start_reader x) (start_writer y) h = (x', y', h') ->
  (exists a h1, x' = inr a /\ polls (turns true schedule) (start_reader x) h = (inr a, h1) /\
     polls (turns false schedule) (start_writer y) h1 = (y', h')) \/
  (exists h1, polls (turns false schedule) (start_writer y) h = (y', h1) /\
     polls (turns true schedule) (start_reader x) h1 = (x', h')).
Proof.
  rewrite writer_loads. intros Hi.
  eapply (interleave_orders reader_ok writer_task_ok (load_fields y)); [..|exact Hi].
  - apply load_code_run.
  - intros. by apply reader_ok_polls_both.
  - intros. by apply writer_ok_polls.
  - intros n m x0 y0 [Hx _] Hy. by apply halves_commute.
  - apply load_rest_ok.
  - intros x0 s t s' Hx Hp. destruct (reader_suspended _ _ _ _ Hx Hp). by apply load_fields_same.
  - apply start_reader_ok.
Qed.
End Concurrent.

Section Finish.
Context `{CS : TlsCipherSuite, !TlsCipherSuiteLaws CS, Sock : Socket T, ASock : AsyncSocket T, !Settles T}.

Lemma polls_finished {S E A} (f : Fut T S E A) s n r s' :
  polls n (inl (Unpolled f)) s = (inr r, s') -> blocking f s = (r, s').
Proof. intros H. apply completes_block. by exists n. Qed.

Lemma polls_more {S E A} n n' (x : Task T S E A + result E A) s r s' :
  n <= n' -> polls n x s = (inr r, s') -> polls n' x s = (inr r, s').
Proof. intros Hn H. replace n' with (n + (n' - n)) by lia. by rewrite polls_add, H, polls_done. Qed.

Lemma reader_finished {A} (x : ReaderCall A) n (c : TlsConnection (T := T)) a h :
  polls n (start_reader x) (Split.split c) = (inr a, h) ->
  exists c', read_method x c = (a, c') /\ h = Split.split c'.
Proof.
  intros H. apply polls_finished in H. rewrite (blocking_reader x c) in H.
  destruct (read_method x c) as [a' c']. exists c'. by simplify_eq.
Qed.

Lemma writer_finished {B} (y : WriterCall B) n (c : TlsConnection (T := T)) b h :
  polls n (start_writer y) (Split.split c) = (inr b, h) ->
  exists c', write_method y c = (b, c') /\ h = Split.split c'.
Proof.
  intros H. apply polls_finished in H. rewrite blocking_writer in H.
  destruct (write_method y c) as [b' c']. exists c'. by simplify_eq.
Qed.

Lemma reader_finishes {A} (x : ReaderCall A) (c : TlsConnection (T := T)) :
  exists n, polls n (start_reader x) (Split.split c)
    = (inr (fst (read_method x c)), Split.split (snd (read_method x c))).
Proof.
  destruct (polled_to_the_end (within reader_part (reader_future x)) (Split.split c)) as [n Hn].
  rewrite (blocking_reader x c) in Hn. exists n. by destruct (read_method x c).
Qed.

Lemma writer_finishes {B} (y : WriterCall B) (c : TlsConnection (T := T)) :
  exists n, polls n (start_writer y) (Split.split c)
    = (inr (fst (write_method y c)), Split.split (snd (write_method y c))).
Proof.
  destruct (polled_to_the_end (within writer_part (writer_future y)) (Split.split c)) as [n Hn].
  rewrite blocking_writer in Hn. exists n. by destruct (write_method y c).
Qed.
End Finish.

(** ** Properties *)

(** C31: a read and a write in two tasks are linearizable.  The reader half and the
    writer half of a split connection each run one call (a read or fill_buf; a write or
    flush) in a task of its own, and an executor polls the two tasks in any order.  When
    both have finished, their answers and the state they leave are those of the two
    blocking calls on the unsplit connection one after the other, in one of the two
    orders; and both finish in every schedule that polls each of them often enough.  The
    transport is any full-duplex one. *)
Theorem halves_linearizable `{CS : TlsCipherSuite, !TlsCipherSuiteLaws CS, Sock : Socket T, ASock : AsyncSocket T,
    !Settles T, !Duplex T} {A B} (x : ReaderCall A) (y : WriterCall B) (c : TlsConnection (T := T)) :
  (forall schedule a b h,
     run_both schedule (start_reader x) (start_writer y) (Split.split c) = (inr a, inr b, h) ->
     exists c1 c', h = Split.split c' /\
       ((read_method x c = (a, c1) /\ write_method y c1 = (b, c')) \/
        (write_method y c = (b, c1) /\ read_method x c1 = (a, c')))) /\
  (exists n, forall schedule, n <= turns true schedule -> n <= turns false schedule ->
     exists a b h, run_both schedule (start_reader x) (start_writer y) (Split.split c) = (inr a, inr b, h)).
Proof.
  split.
  - intros schedule a b h Hr.
    destruct (halves_orders _ _ _ _ _ _ _ Hr) as [(a' & h1 & [= <-] & Hx & Hy)|(h1 & Hy & Hx)].
    + destruct (reader_finished _ _ _ _ _ Hx) as (c1 & H1 & ->).
      destruct (writer_finished _ _ _ _ _ Hy) as (c' & H2 & ->). exists c1, c'. auto.
    + destruct (writer_finished _ _ _ _ _ Hy) as (c1 & H1 & ->).
      destruct (reader_finished _ _ _ _ _ Hx) as (c' & H2 & ->). exists c1, c'. auto.
  - destruct (reader_finishes x c) as [n1 H1]. destruct (writer_finishes y (snd (read_method x c))) as [n2 H2].
    destruct (writer_finishes y c) as [n3 H3]. destruct (reader_finishes x (snd (write_method y c))) as [n4 H4].
    exists (n1 + n2 + n3 + n4). intros schedule Ht Hf.
    destruct (run_both schedule _ _ _) as [[x' y'] h'] eqn:Hr.
    destruct (halves_orders _ _ _ _ _ _ _ Hr) as [(a & h1 & -> & Hx & Hy)|(h1 & Hy & Hx)].
    + rewrite (polls_more n1 (turns true schedule) _ _ _ _ ltac:(lia) H1) in Hx. injection Hx as <- <-.
      rewrite (polls_more n2 (turns false schedule) _ _ _ _ ltac:(lia) H2) in Hy. injection Hy as <- <-. by eexists _, _, _.
    + rewrite (polls_more n3 (turns false schedule) _ _ _ _ ltac:(lia) H3) in Hy. injection Hy as <- <-.
      rewrite (polls_more n4 (turns true schedule) _ _ _ _ ltac:(lia) H4) in Hx. injection Hx as <- <-. by eexists _, _, _.
Qed.

(** The reader is polled a few times, and then the two tasks in turn. *)
Definition demo_turns (n : nat) : list bool := replicate n true ++ mjoin (replicate 60 [false; true]).
Abbreviation demo_run n :=
  (run_both (demo_turns n) (start_reader (RC_fill_buf 3)) (start_writer (WC_write [x61; x62]))
    (Split.split demo_lag)).

Definition finished {X Y A B S : Type} (r : (X + A) * (Y + B) * S) : option (A * B) :=
  match r with (inr a, inr b, _) => Some (a, b) | _ => None end.

Example demo_run_answers : finished (demo_run 3) = Some (Ok (replicate 8 x7a), Ok 2).
Proof. vm_compute. reflexivity. Qed.

Lemma demo_run_finishes : exists a b h, demo_run 3 = (inr a, inr b, h).
Proof.
  pose proof demo_run_answers as Hf. destruct (demo_run 3) as [[[x|a] [y|b]] h]; try discriminate Hf.
  by exists a, b, h.
Qed.

Lemma halves_linearizable_witness :
  exists a b h c1 c', demo_run 3 = (inr a, inr b, h) /\ h = Split.split c' /\
    ((read_method (RC_fill_buf 3) demo_lag = (a, c1) /\ write_method (WC_write [x61; x62]) c1 = (b, c')) \/
     (write_method (WC_write [x61; x62]) demo_lag = (b, c1) /\ read_method (RC_fill_buf 3) c1 = (a, c'))).
Proof.
  destruct demo_run_finishes as (a & b & h & Hr). exists a, b, h.
  destruct (proj1 (halves_linearizable (CS := Toy.suite) (RC_fill_buf 3) (WC_write [x61; x62]) demo_lag)
    (demo_turns 3) a b h Hr) as (c1 & c' & Ho).
  exact (ex_intro _ c1 (ex_intro _ c' (conj Hr Ho))).
Defined.
