(* ===== verification/AsyncCancel.v ===== *)
(** Futures that are dropped before they finish.

    A future of the connection that is suspended at an await point can be dropped (a
    timeout, the losing branch of a select).  The connection keeps what the code has done
    up to that point: this file says what that is, for a flush and for a read. *)

From S2P Require Import Prelude Errors CryptoBuffer ParseBuffer Wire ExtensionData Extensions.
From S2P Require Import CryptoSuite KeySchedule KeyScheduleProps ClientHello Handshake Server.
From S2P Require Import ServerRecords Record WriteBuffer RecordReader ReadBuffer Connection.
From S2P Require Import ClientRecords Blocking ClientData ClientHandshake ClientStream Split.
From S2P Require Import Future AsyncHandshake Asynch.
From Stdlib Require Import ZArith Lia.
From Stdlib Require Import Strings.Byte.
From stdpp Require Import base list option numbers tactics sets.

(** ** What an unfinished operation has done *)

(** [write_all] hands over the bytes from the front; a read that is pending has consumed
    nothing. *)
Class AsyncSocketLaws (T : Type) `{Sock : Socket T, !SocketLaws T, ASock : AsyncSocket T} : Prop := {
  write_progress n xs t x t' :
    op_polls n (inl (op_start (Op_write_all xs))) t = (x, t') ->
    incoming t' = incoming t /\ exists k, outgoing t' = outgoing t ++ take k xs;
  flush_progress n t x t' :
    op_polls n (inl (op_start Op_flush)) t = (x, t') -> incoming t' = incoming t /\ outgoing t' = outgoing t;
  read_progress n m t w t' :
    op_polls n (inl (op_start (Op_read m))) t = (inl w, t') -> incoming t' = incoming t /\ outgoing t' = outgoing t;
}.

#[global] Program Instance laggy_laws : SocketLaws Laggy := {|
  incoming t := ch_in (lg_base t); outgoing t := ch_out (lg_base t);
|}.
Next Obligation.
  intros n [s k]. pose proof (sock_read_law n s) as H. unfold wp in *. cbn in *.
  unfold lag_op, zoom. cbn. exact H.
Qed.
Next Obligation. by intros xs [s k]. Qed.
Next Obligation. by intros [s k]. Qed.

#[global] Instance laggy_reliable : Reliable Laggy.
Proof. by split. Qed.

#[global] Instance laggy_async_laws : AsyncSocketLaws Laggy.
Proof.
  assert (forall n xs polled t x t', op_polls (T := Laggy) n (inl (Op_write_all xs, polled)) t = (x, t') ->
    incoming t' = incoming t /\ exists k, outgoing t' = outgoing t ++ take k xs) as Hw.
  { induction n as [|n IH]; intros xs polled t x t' H.
    - injection H as <- <-. split; [done|]. exists 0. by rewrite app_nil_r.
    - cbn [op_polls op_poll laggy_async] in H. unfold lag_poll in H. case_decide.
      + destruct xs as [|b xs]; [by apply IH in H|]. apply IH in H as (Hi & k & Ho).
        split; [done|]. exists (S k). rewrite Ho. cbn. by rewrite <-(assoc_L (++)).
      + cbn in H. assert (t' = mkLaggy (mkChunked (ch_in (lg_base t)) (ch_out (lg_base t) ++ xs) (chunk (lg_base t))) (lag t)) as ->.
        { destruct n; by injection H. }
        split; [done|]. exists (length xs). by rewrite take_ge. }
  split.
  - intros n xs t x t'. apply Hw.
  - intros n t x t'. cbn [op_start laggy_async]. generalize 0. induction n as [|n IH]; intros p H; [by injection H as <- <-|].
    cbn [op_polls op_poll laggy_async] in H. unfold lag_poll in H. case_decide; [by apply IH in H|].
    cbn in H. destruct t. destruct n; by injection H as <- <-.
  - intros n m t w t'. cbn [op_start laggy_async]. generalize 0. induction n as [|n IH]; intros p H; [by injection H as <- <-|].
    cbn [op_polls op_poll laggy_async] in H. unfold lag_poll in H. case_decide; [by apply IH in H|].
    cbn in H. by destruct n.
Qed.

(** ** A logic of suspended states *)

Section Steps.
Context {T : Type} `{ASock : AsyncSocket T}.

Lemma op_polls_done {B} n (r : result ErrorKind B) (t : T) : op_polls n (inr r) t = (inr r, t).
Proof. by destruct n. Qed.

Lemma op_polls_add {B} m n (x : OpFuture B + result ErrorKind B) t :
  op_polls (m + n) x t = let '(y, t') := op_polls m x t in op_polls n y t'.
Proof.
  revert x t. induction m as [|m IH]; intros x t; [done|]. destruct x as [w|r]; cbn; [|by rewrite op_polls_done].
  destruct (op_poll w t). apply IH.
Qed.

(** The polls of an operation that was awaited. *)
Lemma polls_parked_cases {S E A B} n (l : Lens S T) (w : OpFuture B) (k : B + ErrorKind -> Fut T S E A) : forall s,
  (exists w' t, op_polls n (inl w) (view l s) = (inl w', t) /\
     polls n (inl (Parked B l w k)) s = (inl (Parked B l w' k), upd l t s)) \/
  (exists r t j, op_polls n (inl w) (view l s) = (inr r, t) /\
     polls n (inl (Parked B l w k)) s
     = let '(y, s') := resume r (fun x => run (k x)) (upd l t s) in polls j y s').
Proof.
  revert w. induction n as [|n IH]; intros w s.
  - left. exists w, (view l s). by rewrite (upd_view _ _ (lens_laws l)).
  - cbn [op_polls polls poll]. unfold wake. destruct (op_poll w (view l s)) as [[w1|r] t1] eqn:Hp.
    + destruct (IH w1 (upd l t1 s)) as [(w2 & t & Ho & Hr)|(r & t & j & Ho & Hr)];
        rewrite (view_upd _ _ (lens_laws l)) in Ho; rewrite (upd_upd _ _ (lens_laws l)) in Hr.
      * left. by exists w2, t.
      * right. by exists r, t, j.
    + right. exists r, t1, n. split; [by destruct n|]. done.
Qed.
End Steps.

Section Parks.
Context {T : Type} `{Sock : Socket T, ASock : AsyncSocket T, !Settles T}.

Lemma op_finished {B} n (op : TransportOp B) t r t' :
  op_polls n (inl (op_start op)) t = (inr r, t') -> blocking_op op t = (r, t').
Proof.
  intros H. destruct (settles B op t) as [m Hm].
  pose proof (op_polls_add n m (inl (op_start op)) t) as E1. pose proof (op_polls_add m n (inl (op_start op)) t) as E2.
  rewrite H, op_polls_done in E1. rewrite Hm, op_polls_done in E2. rewrite Nat.add_comm, E2 in E1.
  destruct (blocking_op op t). by simplify_eq/=.
Qed.

(** [parks I f s]: whenever the future [f], started in [s], is suspended, the state
    satisfies [I]. *)
Fixpoint parks {S E A} (I : S -> Prop) (f : Fut T S E A) (s : S) : Prop :=
  match f with
  | Done _ => True
  | Sync m k => match m s with (Ok b, s') => parks I (k b) s' | _ => True end
  | Await l op k =>
      (forall n w t, op_polls n (inl (op_start op)) (view l s) = (inl w, t) -> I (upd l t s)) /\
      match blocking_op op (view l s) with
      | (Ok b, t) => parks I (k (inl b)) (upd l t s)
      | (Err e, t) => parks I (k (inr e)) (upd l t s)
      | _ => True
      end
  end.

Lemma parks_sound {S E A} (I : S -> Prop) (f : Fut T S E A) : forall n s w s',
  parks I f s -> polls (Datatypes.S n) (inl (Unpolled f)) s = (inl w, s') -> I s'.
Proof.
  induction f as [r|B m k IH|B l op k IH]; intros n s w s'.
  - cbn. by destruct n.
  - cbn. destruct (m s) as [[b|e| |] s1]; [|by destruct n..]. intros Hk Hp. by apply (IH b n s1 w s').
  - intros [Hpend Hfin] Hp. change (polls (Datatypes.S n) (inl (Parked B l (op_start op) k)) s = (inl w, s')) in Hp.
    destruct (polls_parked_cases (Datatypes.S n) l (op_start op) k s) as [(w' & t & Ho & Hr)|(r & t & j & Ho & Hr)];
      rewrite Hr in Hp.
    + injection Hp as _ <-. by eapply Hpend.
    + apply op_finished in Ho. rewrite Ho in Hfin. destruct r as [b|e| |]; cbn [resume] in Hp; [| |by destruct j..].
      * by apply (IH (inl b) j (upd l t s) w s').
      * by apply (IH (inr e) j (upd l t s) w s').
Qed.

(** Where a future that awaits [op] first is suspended: in [op] itself, as long as [op]
    alone, polled as often, is not ready, and otherwise in what follows. *)
Lemma await_suspended {S E A B} (l : Lens S T) (op : TransportOp B) (k : B + ErrorKind -> Fut T S E A) n s w s' :
  polls (Datatypes.S n) (inl (Unpolled (Await l op k))) s = (inl w, s') ->
  match op_polls (Datatypes.S n) (inl (op_start op)) (view l s) with
  | (inl _, t) => s' = upd l t s
  | (inr (Ok b), t) => exists j, polls (Datatypes.S j) (inl (Unpolled (k (inl b)))) (upd l t s) = (inl w, s')
  | (inr (Err e), t) => exists j, polls (Datatypes.S j) (inl (Unpolled (k (inr e)))) (upd l t s) = (inl w, s')
  | _ => False
  end.
Proof.
  intros Hp. change (polls (Datatypes.S n) (inl (Parked B l (op_start op) k)) s = (inl w, s')) in Hp.
  destruct (polls_parked_cases (Datatypes.S n) l (op_start op) k s) as [(w' & t & -> & Hr)|(r & t & j & -> & Hr)];
    rewrite Hr in Hp; [by injection Hp|].
  destruct r as [b|e| |]; cbn [resume] in Hp; [by exists j..|by destruct j|by destruct j].
Qed.

Lemma parks_bind {S E A B} (I : S -> Prop) (f : Fut T S E A) (k : A -> Fut T S E B) : forall s,
  parks I f s -> post (blocking f) s (fun a s' => parks I (k a) s') -> parks I (f ≫= k) s.
Proof.
  induction f as [r|C m g IH|C l op g IH]; intros s; cbn.
  - intros _ H. destruct r as [a| | |]; try done. by apply (H a s).
  - unfold post, mbind, M_bind. destruct (m s) as [[b|e| |] s1]; try done. intros Hf Hk. by apply IH.
  - unfold post, mbind, M_bind, zoom, try_. intros [Hp Hf] Hk. split; [done|]. revert Hf Hk.
    destruct (blocking_op op _) as [[b|e| |] t]; try done; by intros; apply IH.
Qed.

Lemma parks_mono {S E A} (I I' : S -> Prop) (f : Fut T S E A) : forall s,
  (forall s, I s -> I' s) -> parks I f s -> parks I' f s.
Proof.
  induction f as [r|C m k IH|C l op k IH]; intros s HI; cbn; [done|..].
  - destruct (m s) as [[b|e| |] s']; try done. by apply IH.
  - intros [Hp Hf]. split; [intros n w t H; by eapply HI, Hp|]. revert Hf.
    destruct (blocking_op op _) as [[b|e| |] t]; try done; by apply IH.
Qed.

Lemma parks_within {S S' E A} (I : S -> Prop) (l : Lens S S') (f : Fut T S' E A) : forall s,
  parks (fun u => I (upd l u s)) f (view l s) -> parks I (within l f) s.
Proof.
  destruct (lens_laws l) as [L1 L2 L3].
  assert (forall u s k, (forall s, parks (fun u => I (upd l u s)) k (view l s) -> parks I (within l k) s) ->
    parks (fun u => I (upd l u s)) k u -> parks I (within (E := E) (A := A) l k) (upd l u s)) as Hstep.
  { intros u s k H Hk. apply H. rewrite L1. revert Hk. apply parks_mono. intros v. by rewrite L2. }
  induction f as [r|C m k IH|C l' op k IH]; intros s; cbn; [done|..].
  - unfold zoom. destruct (m (view l s)) as [[b|e| |] u]; try done. intros H. apply Hstep; [apply IH|done].
  - intros [Hp Hf]. split; [exact Hp|]. revert Hf.
    destruct (blocking_op op _) as [[b|e| |] t]; try done; (intros H; apply Hstep; [apply IH|done]).
Qed.

Lemma parks_sync {S E A} (I : S -> Prop) (m : M S E A) s : parks I (sync m : Fut T S E A) s.
Proof. cbn. by destruct (m s) as [[] ?]. Qed.

Lemma parks_await {S A} (I : S -> Prop) (l : Lens S T) (op : TransportOp A) s :
  (forall n w t, op_polls n (inl (op_start op)) (view l s) = (inl w, t) -> I (upd l t s)) ->
  parks I (io_await l op) s.
Proof. intros H. split; [done|]. by destruct (blocking_op op _) as [[] ?]. Qed.
End Parks.

(** ** A flush that is dropped *)

Section Flush.
Context `{CS : TlsCipherSuite, !TlsCipherSuiteLaws CS}.
Context {T : Type} `{Sock : Socket T, !SocketLaws T, !Reliable T, ASock : AsyncSocket T, !Settles T,
  !AsyncSocketLaws T}.
Implicit Types c : TlsConnection (T := T).

(** Sealing the record empties the buffer before anything is sent. *)
Lemma close_run N data tail c :
  record_write_buf c = building CRH_ApplicationData data tail ->
  5 + length data + length tail = N -> TLS_RECORD_OVERHEAD <= length tail ->
  buffer_size_ok N -> can_send 1 c ->
  exists buf, length buf = N /\
    on_write_buf (close_record (client_state (key_schedule c))) c
    = (Ok (sealed (tx_keys c) data CT_ApplicationData), with_tx (mkWB buf 0 None) c).
Proof.
  unfold TLS_RECORD_OVERHEAD, buffer_size_ok. intros Hb HN Ht Hok Hs. pose proof tag_len as Htag.
  pose proof (close_record_spec (client_state (key_schedule c)) CRH_ApplicationData data tail (proj1 Hs)
    ltac:(lia) ltac:(unfold closing; simpl; lia)) as Hcl.
  rewrite <-Hb in Hcl. eexists. split; [|exact (on_write_buf_run _ _ _ _ Hcl)].
  rewrite length_app, length_drop, length_client_frame by (apply Hs || lia). unfold closing. simpl. lia.
Qed.

(** [write_all] of the record, alone on the transport, is still pending after [n] polls. *)
Definition write_waits (n : nat) (xs : list byte) (t : T) : bool :=
  match fst (op_polls n (inl (op_start (Op_write_all xs))) t) with inl _ => true | inr _ => false end.

(** The state in which a flush is suspended: the buffer is idle, a prefix of the record
    is on the transport.  While [write_all] is pending the keys are those the record was
    sealed with; when only the flush of the transport is, all of it is on the transport
    and the record is counted. *)
Definition flush_suspends N data waits c c1 : Prop :=
  (exists buf, record_write_buf c1 = mkWB buf 0 None /\ length buf = N) /\
  opened c1 = opened c /\ incoming (delegate c1) = incoming (delegate c) /\
  exists sent, sent `prefix_of` sealed (tx_keys c) data CT_ApplicationData /\
    outgoing (delegate c1) = outgoing (delegate c) ++ sent /\
    if waits : bool then tx_keys c1 = tx_keys c
    else tx_keys c1 = bump (tx_keys c) /\ sent = sealed (tx_keys c) data CT_ApplicationData.

(** The continuation of the flush once [write_all] has finished. *)
Lemma flush_counted_parks N data buf c t :
  length buf = N -> incoming t = incoming (delegate c) ->
  outgoing t = outgoing (delegate c) ++ sealed (tx_keys c) data CT_ApplicationData -> can_send 1 c ->
  parks (flush_suspends N data false c)
    (sync (on_key_schedule write_increment_counter);;
     if Blocking.flush_transport (flush_policy c) then flush_transport else mret tt)
    (upd delegate_lens t (with_tx (mkWB buf 0 None) c)).
Proof.
  intros HN Hi Ho [Hwf Hc]. cbn. unfold on_key_schedule, zoom. cbn.
  rewrite write_increment_spec, decide_True by (cbn; unfold tx_keys in Hc; lia). cbn.
  destruct (Blocking.flush_transport (flush_policy c)); [|done]. apply parks_await. cbn.
  intros n w t2 Hp. destruct (flush_progress _ _ _ _ Hp) as [Hi2 Ho2]. unfold flush_suspends. cbn.
  split_and!; [by exists buf|done|congruence|]. eexists. split_and!; [done|congruence|done|done].
Qed.

Lemma flush_suspended N data n c w c1 :
  tx_holds N data (record_write_buf c) -> buffer_size_ok N -> can_send 1 c ->
  polls (S n) (inl (Unpolled flush)) c = (inl w, c1) ->
  flush_suspends N data (write_waits (S n) (sealed (tx_keys c) data CT_ApplicationData) (delegate c)) c c1.
Proof.
  intros Hh Hok Hs Hp. remember (record_write_buf c) as b eqn:Hb. destruct Hh as [buf HN|data tail HN Ht].
  { exfalso. cbn in Hp. rewrite <-Hb in Hp. cbn in Hp. by destruct n. }
  destruct (close_run N data tail c) as (buf & Hbuf & Hcl); [done|done|lia|done|done|].
  assert (wb_is_empty (record_write_buf c) = false) as He by (rewrite <-Hb; apply bool_decide_eq_false; cbn; lia).
  set (record := sealed _ _ _) in *.
  assert (polls (S n) (inl (Unpolled (io_await delegate_lens (Op_write_all record);;
    sync (on_key_schedule write_increment_counter);;
    if Blocking.flush_transport (flush_policy c) then flush_transport else mret tt)))
    (with_tx (mkWB buf 0 None) c) = (inl w, c1)) as Hrest.
  { rewrite <-Hp. unfold flush. cbn -[op_polls op_poll]. rewrite He. cbn -[op_polls op_poll]. by rewrite Hcl. }
  apply await_suspended in Hrest. cbn [view delegate_lens delegate with_tx] in Hrest. unfold write_waits.
  destruct (op_polls (S n) (inl (op_start (Op_write_all record))) (delegate c)) as [[w'|r] t] eqn:Ho; cbn [fst].
  - subst c1. destruct (write_progress _ _ _ _ _ Ho) as [Hi [k Hout]].
    split_and!; [by exists buf|done|done|]. exists (take k record). split_and!; [apply prefix_take|done|done].
  - apply op_finished in Ho. destruct (write_all_ok record (delegate c)) as (t' & Hw & Hi & Hout).
    unfold io, map_err in Hw. cbn [blocking_op] in Ho. rewrite Ho in Hw. destruct r as [[]|e| |]; simplify_eq.
    destruct Hrest as [j Hj]. eapply parks_sound; [|exact Hj]. cbn [mbind]. by apply flush_counted_parks.
Qed.

(** Writing and flushing sends at least one record. *)
Lemma write_flush N w c :
  opened c = true -> tx_holds N [] (record_write_buf c) -> buffer_size_ok N -> 134 <= N -> w <> [] -> can_send 2 c ->
  exists n c1 c2 chunk chunks, completes (write w) c (Ok n) c1 /\ completes flush c1 (Ok tt) c2 /\
    sent_records c (AppData <$> chunk :: chunks) c2 /\ mjoin (chunk :: chunks) = take n w.
Proof.
  intros Ho Hh Hok HN Hw Hs.
  destruct (write_spec N w [] c Ho Hh Hok) as (n & c1 & Hwr & ch1 & d1 & Hse & Hh1 & Hd & Hl & _ & Hn & Hp).
  { destruct Hs. split; [done|lia]. }
  assert (can_send 1 c1) as Hs1.
  { apply (can_send_after _ (AppData <$> ch1) c); [|done]. rewrite length_fmap. destruct Hs. split; [done|lia]. }
  destruct (flush_holds N d1 c1 Hh1 Hok Hs1) as (c2 & ch2 & buf & Hf & Hse2 & _ & Hd2 & _).
  assert (mjoin (ch1 ++ ch2) = take n w) as Hj by (rewrite join_app, Hd2; by rewrite <-Hd).
  destruct (ch1 ++ ch2) as [|chunk chunks] eqn:Hch.
  { specialize (Hp HN Hw). destruct w; [done|]. destruct n; [lia|done]. }
  exists n, c1, c2, chunk, chunks. split_and!; [..|done].
  - apply (completes_same _ _ _ _ _ (same_write w)). done.
  - apply (completes_same _ _ _ _ _ same_flush). done.
  - rewrite <-Hch, fmap_app. by eapply sent_trans.
Qed.
End Flush.

(** ** A read that is dropped *)

Section Read.
Context {T : Type} `{Sock : Socket T, !SocketLaws T, ASock : AsyncSocket T, !Settles T, !AsyncSocketLaws T}.

Lemma post_sync {S E A} (m : M S E A) s Q : post m s Q -> post (blocking (sync m : Fut T S E A)) s Q.
Proof. unfold post. by rewrite block_sync. Qed.
Lemma post_await {S A} (l : Lens S T) (op : TransportOp A) s Q :
  post (zoom (view l) (upd l) (io (blocking_op op))) s Q -> post (blocking (io_await l op)) s Q.
Proof. unfold post. by rewrite block_io_await. Qed.
Lemma post_same {S E A} (f : Fut T S E A) m s Q : same (blocking f) m -> post m s Q -> post (blocking f) s Q.
Proof. unfold post. by intros ->. Qed.

(** Some bytes, fewer than [n], were taken from the transport. *)
Definition taken_some (n : nat) (t t' : T) (xs : list byte) : Prop :=
  incoming t = xs ++ incoming t' /\ outgoing t' = outgoing t /\ length xs < n.

Lemma header_loop_parks fuel : forall buf total t,
  length buf = 5 -> total <= 5 ->
  parks (fun t' => exists xs, taken_some (5 - total) t t' xs) (header_loop fuel buf total) t.
Proof.
  induction fuel as [|fuel IH]; intros buf total t Hb Ht; cbn [header_loop]; unfold RecordHeader_LEN in *;
    case_decide as Hd; try done.
  apply parks_bind; [apply parks_sync|]. apply post_sync. rewrite usub_Some by lia. apply post_ret.
  apply parks_bind.
  - apply parks_await. intros n w t' Hp. destruct (read_progress _ _ _ _ _ Hp) as [Hi Ho].
    exists []. unfold taken_some. cbn [view upd snd_lens id_lens fst snd blocking_op] in *. split_and!; [done|done|simpl; lia].
  - apply post_await, post_zoom. eapply post_wp, wp_mono; [apply io_read_wp| |done].
    intros xs t1 (Hl & Hi & Ho & _). cbn [view upd snd_lens id_lens fst snd blocking_op] in *. case_decide; [done|].
    eapply parks_mono; [|apply IH; [rewrite length_splice|]; lia].
    intros t' (ys & Hi' & Ho' & Hlt). exists (xs ++ ys). unfold taken_some.
    rewrite Hi, Hi', (assoc_L (++)), length_app. split_and!; [done|congruence|lia].
Qed.

Lemma advance_loop_parks fuel : forall remain amount r t,
  remain = amount - pending r ->
  parks (fun '(r', t') => exists xs, taken_some remain t t' xs /\ pending r' = pending r + length xs /\
           length (rr_buf r') = length (rr_buf r)) (advance_loop fuel remain amount) (r, t).
Proof.
  induction fuel as [|fuel IH]; intros remain amount r t Hr; cbn [advance_loop];
    (apply parks_bind; [apply parks_sync|]); apply post_sync; intros ? ? [= <- <-]; cbn [fst];
    case_decide as Hd; try done.
  case_decide as Hb; [|done]. apply parks_bind.
  - apply parks_await. intros n w t' Hp. destruct (read_progress _ _ _ _ _ Hp) as [Hi Ho].
    exists []. unfold taken_some. cbn [view upd snd_lens id_lens fst snd blocking_op] in *. split_and!; [done|done|simpl; lia|simpl; lia|done].
  - apply post_await, post_zoom. eapply post_wp, wp_mono; [apply io_read_wp| |done].
    intros xs t1 (Hl & Hi & Ho & _). cbn [view upd snd_lens id_lens fst snd blocking_op] in *. case_decide; [done|].
    apply parks_bind; [apply parks_sync|]. apply post_sync. rewrite usub_Some by lia. apply post_ret.
    apply parks_bind; [apply parks_sync|]. apply post_sync, post_on_fst, post_put.
    eapply parks_mono; [|apply IH; cbn; lia].
    intros [r' t'] (ys & (Hi' & Ho' & Hlt) & Hp & Hlen). cbn in Hp, Hlen. exists (xs ++ ys). unfold taken_some.
    rewrite Hi, Hi', (assoc_L (++)), length_app, Hlen, Hp, length_splice by lia.
    split_and!; [done|congruence|lia|lia|done].
Qed.

(** Where a read of one record is suspended: in the header, with the reader untouched, or
    in the payload, of which [pending] bytes are stored. *)
Definition read_suspends : RecordReader * T * list byte -> RecordReader * T * list byte -> Prop :=
  fun '(r, t, d) '(r', t', d') =>
  d' = d /\ outgoing t' = outgoing t /\ length (rr_buf r') = length (rr_buf r) /\
  exists xs, incoming t = xs ++ incoming t' /\
    (length xs < 5 -> r' = r) /\ (5 <= length xs -> pending r' = length xs - 5).

Context `{CS : TlsCipherSuite}.

Lemma read_parks r t d :
  reader_ready r -> parks (read_suspends (r, t, d)) AsyncHandshake.read (r, t, d).
Proof.
  intros [Hp0 Hd0]. unfold AsyncHandshake.read. apply parks_bind.
  - apply parks_within. cbn [view lens_comp fst_lens snd_lens fst snd].
    unfold next_record_header. apply parks_bind; [|intros ? ? _; apply parks_sync].
    eapply parks_mono; [|by apply header_loop_parks; [|lia]].
    intros t' (xs & Hi & Ho & Hl). cbn. split_and!; [done|done|done|]. exists xs. split_and!; [done|done|simpl; lia].
  - eapply post_same; [apply same_within, block_next_record_header|]. apply post_zoom. cbn [view lens_comp fst_lens snd_lens fst snd].
    eapply post_wp, wp_mono; [apply next_record_header_wp| |done].
    intros h t1 (b & ct & _ & _ & Hh & Hi & Ho & _). cbn [upd lens_comp fst_lens snd_lens fst snd view].
    apply parks_bind; [apply parks_sync|]. apply post_sync. intros n st' Hn.
    assert (st' = (r, t1, d)) as ->.
    { revert Hn. unfold content_length. destruct (rh_data h !! 3), (rh_data h !! 4); by intros [= _ <-]. }
    apply parks_bind; [|intros ? ? _; apply parks_sync]. apply parks_within. cbn [view fst_lens fst].
    unfold advance. apply parks_bind; [apply parks_sync|]. apply post_sync, post_on_fst.
    intros [] r1 Hr1.
    assert (pending r1 = pending r /\ length (rr_buf r1) = length (rr_buf r)) as [Hp1 Hl1].
    { revert Hr1. unfold ensure_contiguous. rewrite bind_get. repeat case_decide; [done| |by intros [= <-]].
      rewrite Hp0, Nat.add_0_r, sub_Some, Nat.sub_diag by lia. rewrite bind_unwrap_Some. intros [= <-].
      cbn [pending rr_buf]. by rewrite take_0, splice_id. }
    eapply parks_mono; [|apply advance_loop_parks; lia].
    intros [r' t'] (xs & (Hi' & Ho' & _) & Hp & Hlen). cbn. split_and!; [done|congruence|congruence|].
    exists (rh_data h ++ xs). rewrite Hi, Hi', (assoc_L (++)), length_app, Hh. split_and!; [done|lia|lia].
Qed.

(** What a connection keeps of a read that was dropped. *)
Definition dropped_in_record (c c1 : TlsConnection (T := T)) (xs : list byte) : Prop :=
  incoming (delegate c) = xs ++ incoming (delegate c1) /\ outgoing (delegate c1) = outgoing (delegate c) /\
  opened c1 = opened c /\ key_schedule c1 = key_schedule c /\ record_write_buf c1 = record_write_buf c /\
  decrypted c1 = decrypted c /\ length (rr_buf (record_reader c1)) = length (rr_buf (record_reader c)) /\
  (length xs < 5 -> record_reader c1 = record_reader c) /\
  (5 <= length xs -> pending (record_reader c1) = length xs - 5).

Lemma read_application_data_parks (c : TlsConnection (T := T)) :
  reader_ready (record_reader c) -> parks (fun c1 => exists xs, dropped_in_record c c1 xs) read_application_data c.
Proof.
  intros Hr. apply parks_bind; [|intros ? ? _; apply parks_sync]. apply parks_within.
  eapply parks_mono; [|by apply read_parks]. intros [[r' t'] d'] (-> & Ho & Hl & xs & Hi & H1 & H2).
  exists xs. unfold dropped_in_record. cbn. split_and!; try done. by destruct (key_schedule c) as [? ? []].
Qed.
End Read.

(** ** Properties *)

(** C32: dropping a flush repeats a nonce.  A flush that is dropped while it is suspended
    has already sealed its record and emptied the write buffer, and a prefix of the record
    is on the transport.  The connection stays usable: the next write and flush succeed.
    Which nonce the first record they send has depends on the await point.  If
    [write_all] of the record was still pending (the transport alone decides that), the
    record was not counted, and the next one is sealed with the same key and the same
    nonce; if only the flush of the transport was pending, the whole record had been sent
    and counted, and the next one has the next nonce. *)
Theorem dropped_flush_repeats_nonce `{CS : TlsCipherSuite, !TlsCipherSuiteLaws CS, Sock : Socket T, !SocketLaws T,
    !Reliable T, ASock : AsyncSocket T, !Settles T, !AsyncSocketLaws T} (c c1 : TlsConnection (T := T)) N data n task w :
  opened c = true -> tx_holds N data (record_write_buf c) -> buffer_size_ok N -> 134 <= N -> can_send 3 c ->
  polls (S n) (inl (Unpolled flush)) c = (inl task, c1) -> w <> [] ->
  let record := sealed (tx_keys c) data CT_ApplicationData in
  let waits := write_waits (S n) record (delegate c) in
  let next := if waits then tx_keys c else bump (tx_keys c) in
  exists m sent c2 c3 chunk rest,
    completes (write w) c1 (Ok m) c2 /\ completes flush c2 (Ok tt) c3 /\ mjoin (chunk :: rest) = take m w /\
    sent `prefix_of` record /\ (waits = false -> sent = record) /\
    outgoing (delegate c3) = outgoing (delegate c) ++ sent ++ sealed next chunk CT_ApplicationData
      ++ mjoin (sealed_all (bump next) (AppData <$> rest)).
Proof.
  intros Ho Hh Hok HN Hs Hp Hw record waits next.
  destruct (flush_suspended N data n c task c1 Hh Hok) as ((buf & Hb & HbN) & Ho1 & _ & sent & Hpre & Hout & Hk);
    [by destruct Hs; split; [|lia]|done|]. fold record in Hpre, Hk. fold waits in Hk.
  assert (tx_keys c1 = next /\ (waits = false -> sent = record)) as [Hn Hsent]
    by (unfold next; destruct waits; naive_solver).
  destruct (write_flush N w c1) as (m & c2 & c3 & chunk & rest & H1 & H2 & (Hse & _) & Hj);
    [congruence|rewrite Hb; by apply tx_idle|done|done|done| |].
  { unfold can_send, kss_wf in *. rewrite Hn. unfold next. destruct waits; [lia|]. cbn [bump key iv counter]. lia. }
  exists m, sent, c2, c3, chunk, rest. split_and!; [done..|].
  rewrite Hse, Hout, Hn. cbn. by rewrite <-!(assoc_L (++)).
Qed.

(** A flush of four bytes over a transport that keeps it waiting. *)
Definition demo_flushing : TlsConnection (CS := Toy.suite) (T := Laggy) :=
  mkConn (mkLaggy (mkChunked [] [] 3) 2) true demo_schedule (RecordReader_new (zeros 64))
    (building CRH_ApplicationData [x61; x62; x63; x64] (zeros 131)) DecryptedBufferInfo_default Strict.

Lemma demo_flushing_ok :
  opened demo_flushing = true /\ tx_holds 140 [x61; x62; x63; x64] (record_write_buf demo_flushing) /\
  buffer_size_ok 140 /\ can_send 3 demo_flushing.
Proof.
  split_and!; [done| |split; lia|unfold can_send, kss_wf; simpl; lia].
  apply (tx_building 140 [x61; x62; x63; x64] (zeros 131)); unfold TLS_RECORD_OVERHEAD; cbn; lia.
Qed.

(** The bytes on the transport while a task is suspended. *)
Definition sent_when_suspended {A R} (x : (A + R) * TlsConnection (CS := Toy.suite) (T := Laggy)) : option (list byte) :=
  match x with (inl _, c) => Some (ch_out (lg_base (delegate c))) | (inr _, _) => None end.

(** After two polls the flush is in [write_all], after four in the flush of the transport. *)
Example demo_flush_suspended :
  let record := sealed (tx_keys demo_flushing) [x61; x62; x63; x64] CT_ApplicationData in
  sent_when_suspended (polls 2 (inl (Unpolled flush)) demo_flushing) = Some [x17; x03] /\
  write_waits 2 record (delegate demo_flushing) = true /\
  sent_when_suspended (polls 4 (inl (Unpolled flush)) demo_flushing) = Some record /\
  write_waits 4 record (delegate demo_flushing) = false.
Proof. vm_compute. split_and!; reflexivity. Qed.

Lemma demo_flush_pending n out :
  sent_when_suspended (polls n (inl (Unpolled flush)) demo_flushing) = Some out ->
  exists task c1, polls n (inl (Unpolled flush)) demo_flushing = (inl task, c1).
Proof. destruct (polls n _ demo_flushing) as [[task|r] c1]; [by eauto|discriminate]. Qed.

(** The two suspended flushes, and the records that follow them on the wire. *)
Lemma dropped_flush_repeats_nonce_witness :
  let keys := tx_keys demo_flushing in
  let record := sealed keys [x61; x62; x63; x64] CT_ApplicationData in
  (exists c1 m sent c2 c3 chunk rest,
    completes (write [x65]) c1 (Ok m) c2 /\ completes flush c2 (Ok tt) c3 /\ mjoin (chunk :: rest) = take m [x65] /\
    outgoing (delegate c3) = sent ++ sealed keys chunk CT_ApplicationData
      ++ mjoin (sealed_all (bump keys) (AppData <$> rest))) /\
  (exists c1 m c2 c3 chunk rest,
    completes (write [x65]) c1 (Ok m) c2 /\ completes flush c2 (Ok tt) c3 /\ mjoin (chunk :: rest) = take m [x65] /\
    outgoing (delegate c3) = record ++ sealed (bump keys) chunk CT_ApplicationData
      ++ mjoin (sealed_all (bump (bump keys)) (AppData <$> rest))).
Proof.
  intros keys record. destruct demo_flushing_ok as (Ho & Hh & Hok & Hc).
  destruct demo_flush_suspended as (H2 & W2 & H4 & W4).
  destruct (demo_flush_pending _ _ H2) as (task2 & c2 & P2), (demo_flush_pending _ _ H4) as (task4 & c4 & P4).
  split.
  - destruct (dropped_flush_repeats_nonce (CS := Toy.suite) demo_flushing c2 140 [x61; x62; x63; x64] 1 task2 [x65])
      as (m & sent & d2 & d3 & chunk & rest & R1 & R2 & R3 & _ & _ & R4);
      [exact Ho|exact Hh|exact Hok|lia|exact Hc|exact P2|discriminate|].
    rewrite W2 in R4. exists c2, m, sent, d2, d3, chunk, rest. split_and!; [exact R1|exact R2|exact R3|exact R4].
  - destruct (dropped_flush_repeats_nonce (CS := Toy.suite) demo_flushing c4 140 [x61; x62; x63; x64] 3 task4 [x65])
      as (m & sent & d2 & d3 & chunk & rest & R1 & R2 & R3 & _ & R & R4);
      [exact Ho|exact Hh|exact Hok|lia|exact Hc|exact P4|discriminate|].
    rewrite (R W4), W4 in R4. exists c4, m, d2, d3, chunk, rest. split_and!; [exact R1|exact R2|exact R3|exact R4].
Defined.

(** C33: dropping a read loses the bytes of the record that had arrived.  A read that is
    dropped while it waits for a record has taken a prefix of the record from the
    transport and leaves the rest of the connection as it was.  If nothing had arrived,
    the connection is as before and can be read again; if part of the header had, those
    bytes are gone, and the next read takes the bytes that follow them for the header of
    a record. *)
Theorem dropped_read_loses_bytes `{CS : TlsCipherSuite, Sock : Socket T, !SocketLaws T, !Reliable T,
    ASock : AsyncSocket T, !Settles T, !AsyncSocketLaws T} (c c1 : TlsConnection (T := T)) n task :
  waiting c -> polls (S n) (inl (Unpolled read_application_data)) c = (inl task, c1) ->
  exists xs, dropped_in_record c c1 xs /\
    (length xs < 5 -> waiting c1 /\
     forall hdr payload rest rec d',
       frame (length (rr_buf (record_reader c))) (drop (length xs) (incoming (delegate c))) = inr (hdr, payload, rest) ->
       ServerRecord_decode (mkRecordHeader hdr) (next_start (record_reader c) (length payload)) payload
         (transcript_hash (key_schedule c)) = (Ok rec, d') ->
       exists t' r c2, incoming t' = rest /\ decrypt_incoming rec (after_read c1 t' payload d') = (r, c2) /\
         completes read_application_data c1 r c2).
Proof.
  intros (Ho & Hr & Hd) Hp.
  destruct (parks_sound _ _ _ _ _ _ (read_application_data_parks c Hr) Hp) as [xs Hx]. exists xs. split; [done|].
  destruct Hx as (Hi & _ & Ho1 & Hk & _ & Hd1 & _ & Hr1 & _). intros Hl. specialize (Hr1 Hl).
  assert (waiting c1) as Hw by (unfold waiting; by rewrite Ho1, Hr1, Hd1). split; [done|].
  intros hdr payload rest rec d' Hf Hdec. rewrite Hi, drop_app_length, <-Hr1 in Hf. rewrite <-Hr1, <-Hk in Hdec.
  destruct (read_application_framed c1 _ _ _ _ _ ltac:(by rewrite Hr1) Hf Hdec) as (t' & Ht' & _ & Hrun).
  exists t'. destruct (decrypt_incoming rec (after_read c1 t' payload d')) as [r c2].
  exists r, c2. split_and!; [done|done|]. by apply (completes_same _ _ _ _ _ same_read_application_data).
Qed.

(** A record of 21 bytes; the transport has delivered four bytes of its header when the
    read is dropped. *)
Definition demo_stream : list byte :=
  [x17; x03; x03; x00] ++ ([x15; x03; x03; x00; x02] ++ [x01; x00] ++ zeros 15).
Definition demo_waiting : TlsConnection (CS := Toy.suite) (T := Laggy) :=
  mkConn (mkLaggy (mkChunked demo_stream [] 3) 2) true demo_schedule (RecordReader_new (zeros 64))
    (mkWB (zeros 140) 0 None) DecryptedBufferInfo_default Strict.

Definition left_when_suspended {A R} (x : (A + R) * TlsConnection (CS := Toy.suite) (T := Laggy)) : option (list byte) :=
  match x with (inl _, c) => Some (ch_in (lg_base (delegate c))) | (inr _, _) => None end.

Example demo_read_suspended :
  left_when_suspended (polls 3 (inl (Unpolled read_application_data)) demo_waiting) = Some (drop 4 demo_stream).
Proof. vm_compute. reflexivity. Qed.

Lemma demo_read_pending : exists task c1,
  polls 3 (inl (Unpolled read_application_data)) demo_waiting = (inl task, c1) /\
  incoming (delegate c1) = drop 4 demo_stream.
Proof.
  pose proof demo_read_suspended as Hs.
  destruct (polls 3 _ demo_waiting) as [[task|r] c1]; [|discriminate Hs]. exists task, c1. by injection Hs.
Qed.

Lemma dropped_read_loses_bytes_witness :
  exists c1 xs t' r c2, dropped_in_record demo_waiting c1 xs /\ waiting c1 /\ length xs = 4 /\
    decrypt_incoming (SR_Alert (mkAlert Warning CloseNotify))
      (after_read c1 t' [x01; x00] (transcript_hash demo_schedule)) = (r, c2) /\
    completes read_application_data c1 r c2.
Proof.
  destruct demo_read_pending as (task & c1 & Hp & Hi).
  destruct (dropped_read_loses_bytes (CS := Toy.suite) demo_waiting c1 2 task) as (xs & Hx & Hn);
    [split; [reflexivity|split; [split; simpl; lia|reflexivity]]|exact Hp|].
  assert (length xs = 4) as Hl.
  { destruct Hx as [Hin _]. rewrite Hi in Hin. apply (f_equal length) in Hin. rewrite length_app in Hin.
    simpl in Hin. lia. }
  destruct (Hn ltac:(lia)) as [Hw Hf]. rewrite Hl in Hf.
  destruct (Hf [x15; x03; x03; x00; x02] [x01; x00] (zeros 15) (SR_Alert (mkAlert Warning CloseNotify))
    (transcript_hash demo_schedule) eq_refl eq_refl) as (t' & r & c2 & _ & Hd & Hc).
  exists c1, xs, t', r, c2. split; [exact Hx|]. split; [exact Hw|]. split; [exact Hl|]. split; [exact Hd|exact Hc].
Defined.
