(* ===== verification/ConnectionInvariant.v ===== *)
(** The well-formedness of an asynchronous connection.

    [conn_wf] is what the code relies on: the cursors of the reader and of the decrypted
    region lie in the receive buffer, the write buffer is idle or holds a record that
    leaves room for the overhead, keys and IVs have the length of the suite and the
    counters fit 64 bits.  It holds after every call, also one that failed, and in every
    state in which a call is suspended and may be dropped, whatever the transport does;
    [inv] is the logic that walks through a future with such an invariant. *)

From S2P Require Import Prelude Errors CryptoBuffer ParseBuffer Wire ExtensionData Extensions.
From S2P Require Import CryptoSuite KeySchedule KeyScheduleProps ClientHello Handshake Server.
From S2P Require Import ServerRecords Record WriteBuffer RecordReader ReadBuffer Connection.
From S2P Require Import ClientRecords Blocking ClientData ClientHandshake ClientStream ClientTermination Split.
From S2P Require Import Future AsyncHandshake Asynch AsyncCancel.
From Stdlib Require Import ZArith Lia.
From Stdlib Require Import Strings.Byte.
From stdpp Require Import base list option numbers tactics sets relations.

(** ** Invariants of futures *)

(** A read does not return more bytes than the buffer holds; nothing else is assumed of
    the transport. *)
Class ReadBounded (T : Type) `{ASock : AsyncSocket T} : Prop :=
  read_bounded n m t xs t' :
    op_polls n (inl (op_start (Op_read m))) t = (inr (Ok xs), t') -> length xs <= m.

#[global] Instance laggy_bounded : ReadBounded Laggy.
Proof.
  intros n m t xs t'. cbn [op_start laggy_async]. generalize 0. induction n as [|n IH]; intros p H; [done|].
  cbn [op_polls op_poll laggy_async] in H. unfold lag_poll in H. case_decide; [by apply IH in H|].
  cbn in H. destruct n; injection H as <- _; rewrite length_take; lia.
Qed.

Definition admissible {B} (op : TransportOp B) : B + ErrorKind -> Prop :=
  match op in TransportOp B return B + ErrorKind -> Prop with
  | Op_read n => fun r => match r with inl xs => length xs <= n | inr _ => True end
  | _ => fun _ => True
  end.

(** The weakest liberal precondition: nothing is said of a panic. *)
Definition wlp {S E A} (m : M S E A) (s : S) (Q : A -> S -> Prop) (R : S -> Prop) : Prop :=
  match m s with (Ok a, s') => Q a s' | (Err _, s') => R s' | _ => True end.

(** [inv W Q f s]: the future [f], started in [s], satisfies [W] whenever it is suspended
    and when it ends with an error, and [Q] when it ends with a value. *)
Fixpoint inv {T S E A} (W : S -> Prop) (Q : A -> S -> Prop) (f : Fut T S E A) (s : S) : Prop :=
  match f with
  | Done (Ok a) => Q a s
  | Done (Err _) => W s
  | Done _ => True
  | Sync m k => wlp m s (fun b s' => inv W Q (k b) s') W
  | Await l op k =>
      (forall t, W (upd l t s)) /\ forall t r, admissible op r -> inv W Q (k r) (upd l t s)
  end.

Section Inv.
Context {T : Type}.

Lemma wlp_wp {S E A} (m : M S E A) s Q R : wp m s Q (fun _ => R) -> wlp m s Q R.
Proof. unfold wp, wlp. by destruct (m s) as [[] ?]. Qed.
Lemma wlp_bind {S E A B} (m : M S E A) (k : A -> M S E B) s Q R :
  wlp m s (fun a s' => wlp (k a) s' Q R) R -> wlp (m ≫= k) s Q R.
Proof. unfold wlp, mbind, M_bind. by destruct (m s) as [[] ?]. Qed.
Lemma wlp_zoom {S S' E A} (v : S -> S') (u : S' -> S -> S) (m : M S' E A) s Q R :
  wlp m (v s) (fun a t => Q a (u t s)) (fun t => R (u t s)) -> wlp (zoom v u m) s Q R.
Proof. unfold wlp, zoom. by destruct (m (v s)) as [[] ?]. Qed.
Lemma wlp_mono {S E A} (m : M S E A) s (Q Q' : A -> S -> Prop) (R R' : S -> Prop) :
  wlp m s Q R -> (forall a s', Q a s' -> Q' a s') -> (forall s', R s' -> R' s') -> wlp m s Q' R'.
Proof. unfold wlp. destruct (m s) as [[] ?]; auto. Qed.
Lemma wlp_True {S E A} (m : M S E A) s : wlp m s (fun _ _ => True) (fun _ => True).
Proof. unfold wlp. by destruct (m s) as [[] ?]. Qed.

Lemma inv_bind {S E A B} W (Q : A -> S -> Prop) (Q' : B -> S -> Prop) (f : Fut T S E A) (k : A -> Fut T S E B) :
  forall s, inv W Q f s -> (forall a s', Q a s' -> inv W Q' (k a) s') -> inv W Q' (f ≫= k) s.
Proof.
  intros s Hf Hk. revert s Hf. induction f as [r|C m g IH|C l op g IH]; intros s; cbn.
  - destruct r; [apply Hk|done..].
  - unfold wlp. destruct (m s) as [[] ?]; try done. by apply IH.
  - intros [Hw Hg]. split; [done|]. intros t r Hr. by apply IH, Hg.
Qed.

Lemma inv_mono {S E A} W W' (Q Q' : A -> S -> Prop) (f : Fut T S E A) : forall s,
  (forall s, W s -> W' s) -> (forall a s, Q a s -> Q' a s) -> inv W Q f s -> inv W' Q' f s.
Proof.
  induction f as [r|C m k IH|C l op k IH]; intros s HW HQ; cbn.
  - destruct r; auto.
  - intros H. eapply wlp_mono; [exact H| |done]. intros a s'. by apply IH.
  - intros [Hw Hk]. split; [auto|]. intros t r Hr. by apply IH, Hk.
Qed.

Lemma inv_within {S S' E A} W (Q : A -> S -> Prop) (l : Lens S S') (f : Fut T S' E A) : forall s,
  inv (fun u => W (upd l u s)) (fun a u => Q a (upd l u s)) f (view l s) -> inv W Q (within l f) s.
Proof.
  destruct (lens_laws l) as [L1 L2 L3].
  assert (forall u s (k : Fut T S' E A),
    (forall s, inv (fun u => W (upd l u s)) (fun a u => Q a (upd l u s)) k (view l s) -> inv W Q (within l k) s) ->
    inv (fun u => W (upd l u s)) (fun a u => Q a (upd l u s)) k u -> inv W Q (within l k) (upd l u s)) as Hstep.
  { intros u s k H Hk. apply H. rewrite L1. revert Hk. apply inv_mono; intros *; by rewrite L2. }
  induction f as [r|C m k IH|C l' op k IH]; intros s; cbn.
  - rewrite L3. done.
  - intros H. apply wlp_zoom. eapply wlp_mono; [exact H| |done]. intros b u Hb. apply Hstep; [apply IH|done].
  - intros [Hw Hk]. split; [done|]. intros t r Hr. apply Hstep; [apply IH|]. by apply Hk.
Qed.

Lemma inv_sync {S E A} W (Q : A -> S -> Prop) (m : M S E A) s : wlp m s Q W -> inv W Q (sync m : Fut T S E A) s.
Proof. done. Qed.

(** The state is the same up to the transport, of which [W] and [Q] do not speak. *)
Lemma inv_await {S A} W (Q : A -> S -> Prop) (l : Lens S T) (op : TransportOp A) s :
  (forall t, W (upd l t s)) -> (forall t a, admissible op (inl a) -> Q a (upd l t s)) -> inv W Q (io_await l op) s.
Proof. intros HW HQ. split; [done|]. intros t [a|e] Hr; cbn; auto. Qed.
End Inv.

(** What the invariant says of any number of polls. *)
Definition outcome_ok {S E A X} (W : S -> Prop) (Q : A -> S -> Prop) (x : X + result E A) (s : S) : Prop :=
  match x with
  | inl _ | inr (Err _) => W s
  | inr (Ok a) => Q a s
  | inr _ => True
  end.

Section Sound.
Context {T : Type} `{ASock : AsyncSocket T, !ReadBounded T} {S E A : Type} (W : S -> Prop) (Q : A -> S -> Prop).

Lemma op_admissible {B} n (op : TransportOp B) t b t' :
  op_polls n (inl (op_start op)) t = (inr (Ok b), t') -> admissible op (inl b).
Proof. destruct op; cbn; [apply read_bounded|done..]. Qed.

Lemma inv_polls (f : Fut T S E A) : forall n s,
  inv W Q f s ->
  let '(x, s') := polls (Datatypes.S n) (inl (Unpolled f)) s in outcome_ok W Q x s'.
Proof.
  induction f as [r|B m k IH|B l op k IH]; intros n s Hi.
  - cbn in *. by destruct n, r.
  - cbn in *. unfold wlp in Hi. destruct (m s) as [[b|e| |] s1]; [|by destruct n..]. by apply IH.
  - destruct Hi as [Hw Hk]. change (polls _ _ s) with (polls (Datatypes.S n) (inl (Parked B l (op_start op) k)) s).
    destruct (polls_parked_cases (Datatypes.S n) l (op_start op) k s) as [(w' & t & Ho & ->)|(r & t & j & Ho & ->)];
      [apply Hw|].
    destruct r as [b|e| |]; cbn [resume]; [| |by destruct j..].
    + apply op_admissible in Ho. by apply (IH (inl b) j (upd l t s)), Hk.
    + apply (IH (inr e) j (upd l t s)), Hk. by destruct op.
Qed.

Lemma inv_sound (f : Fut T S E A) n s :
  inv W Q f s -> W s -> let '(x, s') := polls n (inl (Unpolled f)) s in outcome_ok W Q x s'.
Proof. destruct n; [done|]. intros. by apply inv_polls. Qed.
End Sound.

(** ** Reading *)

Definition reader_wf (R : nat) (r : RecordReader) : Prop :=
  length (rr_buf r) = R /\ decoded r + pending r <= R.

Section Reading.
Context {T : Type}.

Lemma header_loop_inv fuel : forall buf total t,
  length buf = 5 -> total <= 5 ->
  inv (fun _ => True) (fun b _ => length b = 5) (header_loop (T := T) fuel buf total) t.
Proof.
  induction fuel as [|fuel IH]; intros buf total t Hb Ht; cbn [header_loop]; unfold RecordHeader_LEN in *;
    case_decide as Hd; try done.
  eapply (inv_bind _ (fun n _ => n = 5 - total)); [apply inv_sync; rewrite usub_Some by lia; cbn; by rewrite Hb|].
  intros ? t1 ->. eapply (inv_bind _ (fun xs _ => length xs <= 5 - total)); [by apply inv_await|].
  intros xs t2 Hx. case_decide; [done|]. apply IH; [rewrite length_splice|]; lia.
Qed.

Lemma next_record_header_inv (t : T) :
  inv (fun _ => True) (fun h _ => length (rh_data h) = 5) next_record_header t.
Proof.
  eapply inv_bind; [apply (header_loop_inv _ _ _ t); [done|lia]|]. intros b t' Hb. apply inv_sync.
  unfold wlp, RecordHeader_decode. destruct (b !! 0) as [x|]; [|done]. cbn. destruct (ContentType_of x) eqn:Hx;
    unfold mbind, M_bind; cbn; by rewrite Hx.
Qed.

Lemma advance_loop_inv R fuel : forall remain amount r (t : T),
  reader_wf R r ->
  inv (fun st => reader_wf R (fst st)) (fun _ st => reader_wf R (fst st)) (advance_loop fuel remain amount) (r, t).
Proof.
  induction fuel as [|fuel IH]; intros remain amount r t Hr; cbn [advance_loop];
    (eapply (inv_bind _ (fun r' st => r' = r /\ fst st = r)); [done|]); intros ? [? t'] [-> [= ->]];
    case_decide; try done.
  case_decide as Hb; [|done].
  eapply (inv_bind _ (fun xs st => length xs <= remain /\ fst st = r)); [by apply inv_await|].
  intros xs [? t2] [Hx [= ->]]. case_decide; [done|].
  eapply (inv_bind _ (fun _ st => fst st = r)); [apply inv_sync; by rewrite usub_Some|].
  intros remain' [? t3] [= ->].
  eapply (inv_bind _ (fun _ st => reader_wf R (fst st))); [|intros _ [r4 t4] H4; by apply IH].
  apply inv_sync. cbn. destruct Hr as [Hl Hd]. split; cbn; [rewrite length_splice|]; lia.
Qed.

Lemma ensure_contiguous_wlp R n r :
  reader_wf R r -> wlp (ensure_contiguous n) r (fun _ => reader_wf R) (reader_wf R).
Proof.
  intros [Hl Hd]. unfold ensure_contiguous, wlp. rewrite bind_get. repeat case_decide; [done| |done].
  rewrite sub_Some by lia. rewrite bind_unwrap_Some. cbn. split; cbn; [|lia].
  rewrite length_splice; [done|]. rewrite length_take, length_drop. lia.
Qed.

Lemma advance_inv R n r (t : T) :
  reader_wf R r ->
  inv (fun st => reader_wf R (fst st)) (fun _ st => reader_wf R (fst st)) (advance n) (r, t).
Proof.
  intros Hr. eapply (inv_bind _ (fun _ st => reader_wf R (fst st))); [|intros _ [r1 t1] H1; by apply advance_loop_inv].
  apply inv_sync, wlp_zoom. eapply wlp_mono; [by apply ensure_contiguous_wlp|done|done].
Qed.

Context `{CS : TlsCipherSuite}.

Lemma consume_wlp R h r d :
  length (rh_data h) = 5 -> reader_wf R r ->
  wlp (RecordReader.consume h) (r, d)
    (fun rec st => reader_wf R (fst st) /\ at_record rec (rr_buf (fst st))) (fun st => reader_wf R (fst st)).
Proof.
  intros Hh [Hl Hd]. unfold RecordReader.consume. apply wlp_bind.
  assert (exists n, content_length (S := RecordReader * list byte) (E := TlsError) h (r, d) = (Ok n, (r, d))) as [n Hn].
  { unfold content_length. destruct h as [[|? [|? [|? [|? [|]]]]]]; cbn in Hh; try lia. by eexists. }
  unfold wlp at 1. rewrite Hn. apply wlp_bind. unfold wlp at 1. cbn [get]. apply wlp_bind.
  unfold sub. case_decide as Hs; [|done]. unfold wlp at 1. cbn [unwrap mret M_ret]. apply wlp_bind.
  unfold usub. case_decide as Hp; [|done]. unfold wlp at 1. cbn [unwrap mret M_ret].
  apply wlp_bind, wlp_zoom. unfold wlp at 1, put. apply wlp_zoom. cbn [fst snd].
  assert (reader_wf R (mkReader (rr_buf r) (decoded r + n) (pending r - n))) as Hr' by (split; cbn; lia).
  destruct (list_split3 (rr_buf r) (decoded r) n) as (pre & body & rest & Hb & Hpre & Hbody); [lia|].
  rewrite Hb, <-Hpre, drop_app_length. replace (_ + _ - _) with (length body) by lia. rewrite take_app_length.
  destruct h as [hdr]. cbn [rh_data] in Hh.
  pose proof (decode_at hdr pre body rest d Hh) as Hat. unfold post in Hat. unfold wlp.
  destruct (ServerRecord_decode _ _ _ _) as [[rec|e| |] d'] eqn:Hdec; try done; cbn [fst snd rr_buf].
  - split; [by rewrite <-Hb, Hpre|]. by eapply Hat.
  - by rewrite <-Hb, Hpre.
Qed.

(** [RecordReader::read] *)
Lemma read_inv R r (t : T) d :
  reader_wf R r ->
  inv (fun st => reader_wf R (fst (fst st)))
    (fun rec st => reader_wf R (fst (fst st)) /\ at_record rec (rr_buf (fst (fst st))))
    AsyncHandshake.read (r, t, d).
Proof.
  intros Hr. unfold AsyncHandshake.read.
  eapply (inv_bind _ (fun h st => length (rh_data h) = 5 /\ reader_wf R (fst (fst st)))).
  { apply inv_within. eapply inv_mono; [| |apply next_record_header_inv]; [done|]. intros h t' Hh. by split. }
  intros h st [Hh Hr1].
  eapply (inv_bind _ (fun _ st => reader_wf R (fst (fst st)))).
  { apply inv_sync. unfold wlp, content_length. destruct (rh_data h !! 3), (rh_data h !! 4); done. }
  intros n [[r2 t2] d2] Hr2.
  eapply (inv_bind _ (fun _ st => reader_wf R (fst (fst st)))).
  { apply inv_within. eapply inv_mono; [| |by apply advance_inv]; done. }
  intros _ [[r3 t3] d3] Hr3. apply inv_sync, wlp_zoom. by apply consume_wlp.
Qed.
End Reading.

(** ** Decrypting *)

Section Decrypting.
Context `{CS : TlsCipherSuite, !TlsCipherSuiteLaws CS} {X : Type}.
Context (cb : ServerRecord -> M (ReadKeySchedule * X) TlsError unit) (I : X -> Prop).

(** The handler keeps [I], and the keys as they are. *)
Definition keyed (st : KeyScheduleState) (s : ReadKeySchedule * X) : Prop := r_state (fst s) = st /\ I (snd s).
Context (Hcb : forall rec rks x, I x -> wlp (cb rec) (rks, x) (fun _ => keyed (r_state rks)) (keyed (r_state rks))).

Definition keyed_rx (st : KeyScheduleState) (rx : list byte) (s : ReadKeySchedule * list byte * X) : Prop :=
  keyed st (fst (fst s), snd s) /\ snd (fst s) = rx.

Lemma callback_wlp rec st rks rx x :
  r_state rks = st -> I x -> wlp (callback cb rec) (rks, rx, x) (fun _ => keyed_rx st rx) (keyed_rx st rx).
Proof. intros <- Hx. apply wlp_zoom. eapply wlp_mono; [by apply Hcb|by intros [] []..]. Qed.

Lemma messages_wlp st fuel : forall buf rks rx x,
  r_state rks = st -> I x ->
  wlp (messages_loop cb fuel buf) (rks, rx, x) (fun _ => keyed_rx st rx) (keyed_rx st rx).
Proof.
  induction fuel as [|fuel IH]; intros buf rks rx x Hk Hx; cbn [messages_loop]; case_decide; try done.
  apply wlp_bind, wlp_zoom. eapply wlp_mono; [apply wlp_True| |].
  - intros [m b'] [b2 d2] _. cbn [fst snd]. apply wlp_bind.
    eapply wlp_mono; [by apply (callback_wlp _ st)| |done]. intros [] [[rks' rx'] x'] [[Hk' Hx'] Hr].
    cbn [fst snd] in *. subst rx'. by apply IH.
  - by intros [b2 d2] _.
Qed.

Lemma dispatch_wlp app t content st rks rx x :
  r_state rks = st -> I x ->
  wlp (dispatch cb app t content) (rks, rx, x) (fun _ => keyed_rx st rx) (keyed_rx st rx).
Proof.
  intros Hk Hi. destruct t; cbn [dispatch]; try done; [|by apply messages_wlp|by apply callback_wlp].
  apply wlp_bind. unfold run_on, wlp at 1. destruct (Alert_parse _) as [[al|e| |] b]; try done.
  by apply callback_wlp.
Qed.

Lemma increment_wlp st : kss_wf st -> wlp (kss_increment_counter (E := TlsError)) st (fun _ => kss_wf) kss_wf.
Proof.
  intros (Hk & Hi & Hc). unfold wlp, kss_increment_counter. rewrite bind_get. case_decide; [|done].
  cbn. unfold kss_wf. cbn. split_and!; (done || lia).
Qed.

Definition decrypted_wf (R : nat) (s : ReadKeySchedule * list byte * X) : Prop :=
  kss_wf (r_state (fst (fst s))) /\ length (snd (fst s)) = R /\ I (snd s).

Lemma keyed_decrypted R st rx s : kss_wf st -> length rx = R -> keyed_rx st rx s -> decrypted_wf R s.
Proof. intros Hk Hl [[Hs Hi] Hr]. cbn [fst snd] in *. unfold decrypted_wf. by rewrite Hs, Hr. Qed.

Lemma decrypt_wlp R rec rks rx x :
  at_record rec rx -> decrypted_wf R (rks, rx, x) ->
  wlp (decrypt_record cb rec) (rks, rx, x) (fun _ => decrypted_wf R) (decrypted_wf R).
Proof.
  intros Hat (Hk & Hl & Hi). cbn [fst snd] in *. pose proof (keyed_decrypted R (r_state rks)) as Hkd.
  destruct rec as [| | |app]; try (cbn [decrypt_record]; eapply wlp_mono; [by apply callback_wlp|intros ? s|intros s]; by apply (Hkd rx)).
  destruct Hat as (hdr & pre & body & post & Hh & -> & ->). unfold wlp. rewrite decrypt_record_view by done.
  destruct (open_record _ _) as [p|] eqn:Hp; [|done]. cbv zeta.
  apply open_record_length in Hp. assert (length p <= length body) as Hpl by (lens; lia).
  assert (length (pre ++ (p ++ drop (length p) body) ++ post) = R) as Hl' by (lens; lia).
  destruct (inner_view p) as [[t n]|e| |]; try done.
  change (wlp (dispatch cb (mkAppData (mkRecordHeader hdr) (length pre) (length body) (length body))
    t (take n p);; on_fst (on_fst kss_read_increment)) (rks, pre ++ (p ++ drop (length p) body) ++ post, x)
    (fun _ => decrypted_wf R) (decrypted_wf R)).
  apply wlp_bind. eapply wlp_mono; [by apply dispatch_wlp| |intros s; by apply (Hkd _ s Hk Hl')].
  intros [] [[rks' rx'] x'] [[Hr Hx] Hrx]. cbn [fst snd] in *. subst rx'. rewrite <-Hr in Hk.
  apply wlp_zoom, wlp_zoom, wlp_zoom. cbn [fst snd]. eapply wlp_mono; [by apply increment_wlp|done|done].
Qed.
End Decrypting.

(** The handler of an open connection keeps the decrypted region in the buffer. *)
Lemma handle_wlp `{CS : TlsCipherSuite} R rec rks x :
  info_wf R (fst x) ->
  wlp (handle_callback R rec) (rks, x) (fun _ => keyed (fun x => info_wf R (fst x)) (r_state rks))
    (keyed (fun x => info_wf R (fst x)) (r_state rks)).
Proof.
  intros Hi. unfold handle_callback. apply wlp_zoom. unfold wlp. destruct x as [info o].
  destruct rec as [[]| |al|app]; cbn [handle]; try done.
  - by destruct (alert_description al).
  - cbn [snd]. case_decide; [|done]. cbn. split; [done|]. split; cbn; lia.
Qed.

(** ** The connection *)

Section Conn.
Context `{CS : TlsCipherSuite, !TlsCipherSuiteLaws CS} {T : Type}.
Implicit Types c : TlsConnection (T := T).

Record conn_wf (R N : nat) (c : TlsConnection (T := T)) : Prop := {
  wf_reader : reader_wf R (record_reader c);
  wf_info : info_wf R (decrypted c);
  wf_tx : exists data, tx_holds N data (record_write_buf c);
  wf_tx_keys : kss_wf (tx_keys c);
  wf_rx_keys : kss_wf (server_keys (key_schedule c));
}.

Context (R N : nat) (HN : buffer_size_ok N) (HN' : 134 <= N).
Abbreviation wf := (conn_wf R N).

Lemma wf_delegate t c : wf c -> wf (upd delegate_lens t c).
Proof. by intros []. Qed.

(** *** Reading *)

Lemma decrypt_incoming_wlp rec c :
  wf c -> at_record rec (rr_buf (record_reader c)) -> wlp (decrypt_incoming rec) c (fun _ => wf) wf.
Proof.
  intros [[Hl Hd] Hi Ht Hk Hr] Hat. unfold decrypt_incoming. apply wlp_bind. unfold wlp at 1. cbn [get].
  apply wlp_zoom. rewrite Hl. eapply wlp_mono; [apply (decrypt_wlp _ _ (handle_wlp R) R); [done|by split]| |].
  - intros [] [[rks rx] [info o]] (H1 & H2 & H3). cbn in *. by split.
  - intros [[rks rx] [info o]] (H1 & H2 & H3). cbn in *. by split.
Qed.

Lemma read_application_data_inv c : wf c -> inv wf (fun _ => wf) read_application_data c.
Proof.
  intros Hwf. eapply (inv_bind _ (fun rec c' => wf c' /\ at_record rec (rr_buf (record_reader c')))).
  - apply inv_within. destruct Hwf as [Hr Hi Ht Hk Hs].
    eapply inv_mono; [| |apply (read_inv R (record_reader c) (delegate c) (transcript_hash (key_schedule c)) Hr)].
    + intros [[r t] d] H. cbn in *. by split.
    + intros rec [[r t] d] [H Hat]. cbn in *. by split; [split|].
  - intros rec c' [Hc Hat]. apply inv_sync. by apply decrypt_incoming_wlp.
Qed.

Lemma is_empty_wlp c i : wf c -> wlp (info_is_empty (E := TlsError) i) c (fun _ => wf) wf.
Proof. intros H. unfold wlp, info_is_empty. by destruct (info_len i). Qed.

Lemma wait_loop_inv fuel : forall c, wf c -> inv wf (fun _ => wf) (wait_loop fuel) c.
Proof.
  induction fuel as [|fuel IH]; intros c Hc; cbn [wait_loop];
    (eapply (inv_bind _ (fun _ => wf)); [done|]); intros c0 c1 H1;
    (eapply (inv_bind _ (fun _ => wf)); [by apply inv_sync, is_empty_wlp|]); intros [] c2 H2; try done.
  eapply inv_bind; [by apply read_application_data_inv|]. intros [] c3 H3. by apply IH.
Qed.

(** The buffer handed out is what is left of the decrypted region. *)
Definition handed_out (b : ReadBuffer) c : Prop :=
  wf c /\ b = mkRB (available (decrypted c) (rr_buf (record_reader c))) 0 false.

Lemma create_buffer_wlp c : wf c -> wlp create_buffer c handed_out wf.
Proof.
  intros Hc. unfold create_buffer. apply wlp_bind. unfold wlp at 1. cbn [get]. unfold wlp.
  destruct Hc as [[Hl Hd] Hi ? ? ?]. rewrite create_read_buffer_spec by (by rewrite Hl).
  split; [|done]. by split.
Qed.

Lemma read_buffered_inv fuel c : wf c -> inv wf handed_out (read_buffered fuel) c.
Proof.
  intros Hc. eapply (inv_bind _ (fun _ => wf)); [done|]. intros c0 c1 H1. destruct (opened c0); [|done].
  eapply inv_bind; [by apply wait_loop_inv|]. intros [] c2 H2. apply inv_sync. by apply create_buffer_wlp.
Qed.

Lemma drop_wf (b b' : ReadBuffer) c :
  handed_out b c -> rb_consumed b' <= length (rb_data b) -> rb_used b' = true ->
  wf (snd (set_decrypted (drop_buffer b' (decrypted c)) c)).
Proof.
  intros [[Hr [Hi Hi'] Ht Hk Hs] ->] Hb Hu. cbn [rb_data] in Hb.
  assert (info_wf R (decrypted c)) as Hw by done. destruct Hr as [Hl Hd].
  rewrite length_available in Hb by (by rewrite Hl). split; cbn; try done.
  unfold drop_buffer. rewrite Hu. split; cbn; [lia|done].
Qed.

Lemma handed_out_rest b c n : handed_out b c -> rb_wf b /\ rb_consumed b + length (take n (rb_rest b)) <= length (rb_data b).
Proof. intros [_ ->]. unfold rb_wf, rb_rest. cbn [rb_consumed rb_data]. rewrite length_take, length_drop. lia. Qed.

Lemma pop_into_wlp b buf c : handed_out b c -> wlp (use_buffer b (pop_into buf)) c (fun _ => wf) wf.
Proof.
  intros Hb. destruct (handed_out_rest b c (length buf) Hb) as [Hw Hle].
  unfold wlp, use_buffer. rewrite pop_into_spec by done. by apply (drop_wf b).
Qed.

Lemma pop_run b n c : handed_out b c -> exists xs c', use_buffer b (pop n) c = (Ok xs, c') /\ wf c'.
Proof.
  intros Hb. destruct (handed_out_rest b c n Hb) as [Hw Hle].
  unfold use_buffer. rewrite pop_spec by done. eexists _, _. split; [done|]. by apply (drop_wf b).
Qed.

Lemma peek_all_wlp b c : handed_out b c -> wlp (use_buffer b peek_all) c (fun _ => wf) wf.
Proof.
  intros Hb. destruct (handed_out_rest b c 0 Hb) as [Hw Hle].
  unfold wlp, use_buffer, peek_all. rewrite (bind_Ok _ _ _ _ _ (rb_len_spec b Hw)), peek_spec by done.
  apply (drop_wf b); [done|cbn; lia|done].
Qed.

Lemma read_inv_conn fuel buf c : wf c -> inv wf (fun _ => wf) (read fuel buf) c.
Proof.
  intros Hc. unfold read. case_decide; [done|]. eapply inv_bind; [by apply read_buffered_inv|].
  intros b c' Hb. apply inv_sync. by apply pop_into_wlp.
Qed.

Lemma fill_buf_inv fuel c : wf c -> inv wf (fun _ => wf) (fill_buf fuel) c.
Proof.
  intros Hc. eapply inv_bind; [by apply read_buffered_inv|]. intros b c' Hb. apply inv_sync. by apply peek_all_wlp.
Qed.

(** [consume] always finds its region. *)
Lemma consume_ok amt c : wf c -> exists c', consume amt c = (Ok tt, c') /\ wf c'.
Proof.
  intros Hc. pose proof Hc as [[Hl _] Hi _ _ _]. unfold consume. rewrite bind_get.
  rewrite create_read_buffer_spec by (by rewrite Hl). rewrite bind_unwrap_Some.
  destruct (pop_run (mkRB (available (decrypted c) (rr_buf (record_reader c))) 0 false) amt c)
    as (xs & c' & Hp & Hw); [done|].
  exists c'. by rewrite (bind_Ok _ _ _ _ _ Hp).
Qed.

(** *** Writing *)

Lemma wf_with_tx w c : wf c -> (exists data, tx_holds N data w) -> wf (with_tx w c).
Proof. by intros [] ?; split. Qed.

Lemma increment_conn_wlp c : wf c -> wlp (on_key_schedule write_increment_counter) c (fun _ => wf) wf.
Proof.
  intros [Hr Hi Ht Hk Hs]. apply wlp_zoom. unfold wlp. rewrite write_increment_spec. case_decide as Hc; [|done].
  split; cbn; try done. destruct Hk as (? & ? & ?). unfold kss_wf. cbn. split_and!; (done || unfold tx_keys in *; lia).
Qed.

(** The record under construction may have used up its room. *)
Definition closable c : Prop :=
  wf c \/ exists data tail, record_write_buf c = building CRH_ApplicationData data tail /\
    5 + length data + length tail = N /\ TLS_RECORD_OVERHEAD <= length tail /\
    (forall buf, length buf = N -> wf (with_tx (mkWB buf 0 None) c)).

Lemma close_record_run c : closable c -> wb_is_empty (record_write_buf c) = false ->
  exists frame c', on_write_buf (close_record (client_state (key_schedule c))) c = (Ok frame, c') /\ wf c'.
Proof.
  intros Hc He.
  assert (exists data tail, record_write_buf c = building CRH_ApplicationData data tail /\
    5 + length data + length tail = N /\ TLS_RECORD_OVERHEAD <= length tail /\ kss_wf (tx_keys c) /\
    (forall buf, length buf = N -> wf (with_tx (mkWB buf 0 None) c))) as (data & tail & Hb & Hlen & Ht & Hk & Hw).
  { destruct Hc as [Hc|(data & tail & Hb & Hlen & Ht & Hw)].
    - pose proof Hc as [_ _ [data Hh] Hk _]. remember (record_write_buf c) as b. destruct Hh as [buf|data tail]; [done|].
      exists data, tail. split_and!; [done|done|lia|done|]. intros buf Hbuf. apply wf_with_tx; [done|].
      exists []. by apply tx_idle.
    - exists data, tail. split_and!; try done. by destruct (Hw (zeros N)); [unfold zeros; by rewrite length_replicate|]. }
  pose proof tag_len as Htag. unfold TLS_RECORD_OVERHEAD, buffer_size_ok in *.
  pose proof (close_record_spec (client_state (key_schedule c)) CRH_ApplicationData data tail Hk
    ltac:(lia) ltac:(unfold closing; simpl; lia)) as Hcl. rewrite <-Hb in Hcl.
  eexists _, _. split; [exact (on_write_buf_run _ _ _ _ Hcl)|]. apply Hw.
  rewrite length_app, length_drop, length_client_frame by (done || lia). unfold closing. simpl. lia.
Qed.

Lemma flush_inv c : closable c -> (wb_is_empty (record_write_buf c) = true -> wf c) -> inv wf (fun _ => wf) flush c.
Proof.
  intros Hc He. eapply (inv_bind _ (fun c0 c1 => c0 = c /\ c1 = c)); [done|]. intros c0 c1 [-> ->].
  destruct (wb_is_empty (record_write_buf c)) eqn:Hem; cbn [negb]; [by apply He|].
  destruct (close_record_run c Hc Hem) as (frame & c' & Hcl & Hw).
  eapply (inv_bind _ (fun _ c1 => wf c1)); [apply inv_sync; unfold wlp; by rewrite Hcl|]. intros fr c1 H1.
  eapply (inv_bind _ (fun _ => wf)); [apply inv_await; auto using wf_delegate|]. intros [] c2 H2.
  eapply (inv_bind _ (fun _ => wf)); [by apply inv_sync, increment_conn_wlp|]. intros [] c3 H3.
  destruct (Blocking.flush_transport _); [|done]. apply inv_await; auto using wf_delegate.
Qed.

Lemma flush_inv_wf c : wf c -> inv wf (fun _ => wf) flush c.
Proof. intros. apply flush_inv; [by left|done]. Qed.

(** A record of application data under construction. *)
Definition writing_record c : Prop := wf c /\ exists data tail,
  record_write_buf c = building CRH_ApplicationData data tail /\
  5 + length data + length tail = N /\ TLS_RECORD_OVERHEAD < length tail.

Lemma start_inv c :
  wf c ->
  inv wf (fun _ => writing_record)
    (if negb (contains (record_write_buf c) CRH_ApplicationData)
     then flush;; sync (on_write_buf (start_record CRH_ApplicationData)) else mret tt) c.
Proof.
  intros Hc. pose proof Hc as [_ _ [data Hh] _ _]. remember (record_write_buf c) as b eqn:Hb.
  destruct Hh as [buf Hbuf|data tail Hl Ht]; unfold contains; cbn [current_header building].
  - rewrite bool_decide_false by done. cbn [negb].
    eapply (inv_bind _ (fun _ c1 => c1 = c)); [cbn; by rewrite <-Hb|]. intros [] c1 ->.
    pose proof (start_record_spec CRH_ApplicationData buf ltac:(lia)) as Hst. rewrite Hb in Hst.
    apply inv_sync. unfold wlp. rewrite (on_write_buf_run _ _ _ _ Hst).
    assert (5 + length (@nil byte) + length (drop 5 buf) = N) as Hlen by (rewrite length_drop; simpl; lia).
    assert (TLS_RECORD_OVERHEAD < length (drop 5 buf)) as Hov by (unfold TLS_RECORD_OVERHEAD; rewrite length_drop; lia).
    split; [|by exists [], (drop 5 buf)]. apply wf_with_tx; [done|].
    exists []. by apply (tx_building N [] (drop 5 buf)).
  - rewrite bool_decide_true by done. split; [done|]. by exists data, tail.
Qed.

Lemma append_inv w c :
  writing_record c ->
  inv wf (fun _ => wf)
    (buffered ← sync (on_write_buf (wb_append w));
     full ← sync (on_write_buf is_full);
     (if full : bool then flush else mret tt);;
     mret buffered) c.
Proof.
  intros (Hc & data & tail & Hb & Hl & Ht). unfold TLS_RECORD_OVERHEAD in Ht.
  pose proof (wb_append_spec (E := TlsError) CRH_ApplicationData data tail w ltac:(unfold TLS_RECORD_OVERHEAD; lia)) as Ha.
  rewrite <-Hb in Ha. cbv zeta in Ha. set (n := min (length w) (usable tail)) in Ha. unfold usable, TLS_RECORD_OVERHEAD in n.
  set (c1 := with_tx (building CRH_ApplicationData (data ++ take n w) (drop n tail)) c).
  assert (5 + length (data ++ take n w) + length (drop n tail) = N) as Hlen by (unfold n; lens; lia).
  eapply (inv_bind _ (fun _ c' => c' = c1)).
  { apply inv_sync. unfold wlp. by rewrite (on_write_buf_run _ _ _ _ Ha). }
  intros m ? ->. eapply (inv_bind _ (fun f c' => f = bool_decide (length tail - n = 128) /\ c' = c1)).
  { apply inv_sync. unfold wlp. erewrite on_write_buf_run; [|unfold is_full, max_block_size, TLS_RECORD_OVERHEAD;
      rewrite bind_get; cbn [c1 with_tx record_write_buf building wb_buffer wb_pos];
      rewrite usub_Some by len; rewrite bind_unwrap_Some; reflexivity].
    split; [|done]. apply bool_decide_ext. unfold n. lens. lia. }
  intros full ? [-> ->]. eapply (inv_bind _ (fun _ => wf)); [|by intros [] c3 H3].
  case_bool_decide as Hd.
  - apply flush_inv; [|by intros He%bool_decide_eq_true].
    right. exists (data ++ take n w), (drop n tail). split_and!; [done|done|unfold TLS_RECORD_OVERHEAD; lens; lia|].
    intros buf Hbuf. apply (wf_with_tx _ c); [done|]. exists []. by apply tx_idle.
  - apply wf_with_tx; [done|]. exists (data ++ take n w).
    apply tx_building; [done|]. unfold TLS_RECORD_OVERHEAD, n in *. lens. lia.
Qed.

Lemma write_inv w c : wf c -> inv wf (fun _ => wf) (write w) c.
Proof.
  intros Hc. eapply (inv_bind _ (fun c0 c1 => c0 = c /\ c1 = c)); [done|]. intros c0 c1 [-> ->].
  destruct (opened c); [|done]. eapply inv_bind; [by apply start_inv|]. intros [] c2 H2. by apply append_inv.
Qed.
End Conn.

(** ** Using a connection *)

(** A call that was polled some number of times and then dropped, unless it had ended.
    A panic ends the use of the connection. *)
Definition survived {X E A} (x : X + result E A) : Prop :=
  match x with inr Panic | inr Diverge => False | _ => True end.

Section Uses.
Context `{CS : TlsCipherSuite} {T : Type} `{ASock : AsyncSocket T}.
Abbreviation Conn := (TlsConnection (T := T)).

Inductive uses (c c' : Conn) : Prop :=
| uses_read n fuel buf x :
    polls n (inl (Unpolled (read fuel buf))) c = (x, c') -> survived x -> uses c c'
| uses_fill_buf n fuel x :
    polls n (inl (Unpolled (fill_buf fuel))) c = (x, c') -> survived x -> uses c c'
| uses_consume amt r :
    consume amt c = (r, c') -> survived (X := unit) (inr r) -> uses c c'
| uses_write n buf x :
    polls n (inl (Unpolled (write buf))) c = (x, c') -> survived x -> uses c c'
| uses_flush n x :
    polls n (inl (Unpolled flush)) c = (x, c') -> survived x -> uses c c'
| uses_policy p : set_flush_policy p c = (Ok tt, c') -> uses c c'.
End Uses.

Section Stays.
Context `{CS : TlsCipherSuite, !TlsCipherSuiteLaws CS} {T : Type} `{ASock : AsyncSocket T, !ReadBounded T}.
Context (R N : nat) (HN : buffer_size_ok N) (HN' : 134 <= N).
Implicit Types c : TlsConnection (T := T).

(** An invariant of the future holds after any number of polls. *)
Lemma survives {A} (f : Fut T (TlsConnection (T := T)) TlsError A) n c x c' :
  inv (conn_wf R N) (fun _ => conn_wf R N) f c -> conn_wf R N c ->
  polls n (inl (Unpolled f)) c = (x, c') -> survived x -> conn_wf R N c'.
Proof.
  intros Hi Hc Hp Hs. pose proof (inv_sound _ _ f n c Hi Hc) as H. rewrite Hp in H.
  by destruct x as [?|[]].
Qed.

Lemma uses_wf c c' : conn_wf R N c -> uses c c' -> conn_wf R N c'.
Proof.
  intros Hc [n fuel buf x Hp Hs|n fuel x Hp Hs|amt r Hp _|n buf x Hp Hs|n x Hp Hs|p [= <-]].
  - by eapply (survives _ n c x); [apply read_inv_conn|..].
  - by eapply (survives _ n c x); [apply fill_buf_inv|..].
  - edestruct (consume_ok (T := T)) with (c := c) (amt := amt) as (? & Hk & ?); [done..|]. rewrite Hk in Hp. by injection Hp as <- <-.
  - by eapply (survives _ n c x); [apply write_inv|..].
  - by eapply (survives _ n c x); [apply flush_inv_wf|..].
  - by destruct Hc.
Qed.

(** After any sequence of calls, each of which ended with a value or an error or was dropped
    after any number of polls. *)
Lemma connection_stays_wf c c' :
  conn_wf R N c -> rtc uses c c' ->
  conn_wf R N c' /\
  create_read_buffer (decrypted c') (rr_buf (record_reader c')) =
    Some (mkRB (available (decrypted c') (rr_buf (record_reader c'))) 0 false).
Proof.
  intros Hc Hu. assert (conn_wf R N c') as Hw by (induction Hu; eauto using uses_wf).
  split; [done|]. pose proof Hw as [[Hl _] Hi _ _ _]. apply create_read_buffer_spec. by rewrite Hl.
Qed.
End Stays.
