(* ===== verification/OpenInvariant.v ===== *)
(** An opened connection is well formed.

    [open] writes and reads records in the two buffers it borrowed; whatever the transport
    delivers, and whatever the encoders of the messages do, a handshake that succeeds
    leaves the buffers with their sizes, nothing half written, and keys of the right
    length.  [sized] is the invariant of the encoders, the logic of futures is that of
    ConnectionInvariant. *)

From S2P Require Import Prelude Errors CryptoBuffer ParseBuffer Wire ExtensionData Extensions.
From S2P Require Import CryptoSuite KeySchedule KeyScheduleProps ClientHello Handshake Server.
From S2P Require Import ServerRecords Record WriteBuffer RecordReader ReadBuffer Connection.
From S2P Require Import ClientRecords Blocking ClientData ClientHandshake ClientStream ClientTermination Split.
From S2P Require Import ServerSteps Future AsyncHandshake Asynch AsyncCancel ConnectionInvariant.
From Stdlib Require Import ZArith Lia.
From Stdlib Require Import Strings.Byte.
From stdpp Require Import base list option numbers tactics sets relations.

(** ** Encoders stay in their buffer *)

Definition cb_sized (n : nat) (c : CryptoBuffer) : Prop :=
  cb_wf c /\ capacity c = n /\ (Z.of_nat n < 2 ^ 16)%Z.

(** From a buffer of [n] bytes, a successful [m] leaves a buffer of [n] bytes. *)
Definition sized {E A} (m : M CryptoBuffer E A) : Prop :=
  forall n c, cb_sized n c -> post m c (fun _ => cb_sized n).

Section Sized.
Context {E : Type}.

Lemma sized_ret {A} (a : A) : sized (mret a : M CryptoBuffer E A).
Proof. intros n c H. by apply post_ret. Qed.
Lemma sized_err {A} (e : E) : sized (err e : M CryptoBuffer E A).
Proof. intros n c H. apply post_err. Qed.
Lemma sized_panic {A} : sized (panic : M CryptoBuffer E A).
Proof. intros n c H. apply post_panic. Qed.
Lemma sized_get : sized (get : M CryptoBuffer E CryptoBuffer).
Proof. intros n c H. by apply post_get. Qed.
Lemma sized_ok_or {A} (o : option A) (e : E) : sized (ok_or o e : M CryptoBuffer E A).
Proof. intros n c H. by apply post_ok_or. Qed.
Lemma sized_unwrap {A} (o : option A) : sized (unwrap o : M CryptoBuffer E A).
Proof. intros n c H. by apply post_unwrap. Qed.
Lemma sized_bind {A B} (m : M CryptoBuffer E A) (k : A -> M CryptoBuffer E B) :
  sized m -> (forall a, sized (k a)) -> sized (m ≫= k).
Proof. intros Hm Hk n c H. apply post_bind. eapply post_mono; [by apply Hm|]. intros a c'. apply Hk. Qed.
Lemma sized_map_err {E' A} (f : E' -> E) (m : M CryptoBuffer E' A) : sized m -> sized (map_err f m).
Proof. intros Hm n c H. by apply post_map_err, Hm. Qed.
Lemma sized_for_each {A} (l : list A) (body : A -> M CryptoBuffer E unit) :
  (forall a, sized (body a)) -> sized (for_each l body).
Proof. intros Hb. induction l; simpl; [apply sized_ret|]. by apply sized_bind. Qed.
End Sized.

Create HintDb sized.
#[export] Hint Resolve sized_ret sized_err sized_panic sized_get sized_ok_or sized_unwrap : sized.

Ltac sized_step :=
  first
    [ progress intros
    | solve [auto with sized nocore]
    | lazymatch goal with
      | |- sized (mbind _ _) => apply sized_bind
      | |- sized (map_err _ _) => apply sized_map_err
      | |- sized (for_each _ _) => apply sized_for_each
      | |- sized (match _ with _ => _ end) => case_match
      end ].
Ltac sized := repeat sized_step.

Lemma sized_encodes m xs : encodes m xs -> sized m.
Proof.
  intros He n c (Hw & Hn & ?) [] c' Hm. destruct (encodes_inv_Ok m xs c c' He Hw Hm) as [Hr ->].
  split_and!; [by apply wf_append|by rewrite capacity_append|done].
Qed.
Lemma sized_push b : sized (push b).
Proof. exact (sized_encodes _ _ (encodes_push b)). Qed.
Lemma sized_extend xs : sized (extend_from_slice xs).
Proof. exact (sized_encodes _ _ (encodes_extend xs)). Qed.
Lemma sized_push_u16 z : sized (push_u16 z).
Proof. exact (sized_encodes _ _ (encodes_push_u16 z)). Qed.
Lemma sized_push_u24 z : sized (push_u24 z).
Proof. exact (sized_encodes _ _ (encodes_push_u24 z)). Qed.
Lemma sized_push_u32 z : sized (push_u32 z).
Proof. exact (sized_encodes _ _ (encodes_push_u32 z)). Qed.
Lemma sized_set i v : sized (set i v).
Proof.
  intros n c (Hw & Hn & Hl). unfold set. apply post_bind, post_get. case_decide; [|apply post_err].
  intros ? c'. unfold buf_set. case_decide; [|done]. intros [= <- <-]. unfold cb_sized, cb_wf, capacity in *. cbn.
  by rewrite length_insert.
Qed.
#[export] Hint Resolve sized_push sized_extend sized_push_u16 sized_push_u24 sized_push_u32 sized_set : sized.

Lemma sized_with_u8_length {R} (op : EncM R) : sized op -> sized (with_u8_length op).
Proof. unfold with_u8_length. sized. Qed.
Lemma sized_with_u16_length {R} (op : EncM R) : sized op -> sized (with_u16_length op).
Proof. unfold with_u16_length, set_u16. sized. Qed.
Lemma sized_with_u24_length {R} (op : EncM R) : sized op -> sized (with_u24_length op).
Proof. unfold with_u24_length, set_u24. sized. Qed.

Lemma sized_move {E} f : (forall c c', f c = Some c' -> cb_wf c -> cb_wf c' /\ cb_buf c' = cb_buf c) -> sized (cb_move (E := E) f).
Proof.
  intros Hf n c (Hw & Hn & Hl). unfold cb_move. repeat post_step. destruct (Hf _ _ H Hw) as [Hw' Hb].
  split_and!; [done| |done]. unfold capacity in *. by rewrite Hb.
Qed.
Lemma offset_keeps off c c' : offset c off = Some c' -> cb_wf c -> cb_wf c' /\ cb_buf c' = cb_buf c.
Proof.
  unfold offset, usub. case_decide; [|done]. intros [= <-]. unfold cb_wf, capacity. cbn. split; [lia|done].
Qed.
Lemma sized_offset {E} off : sized (cb_move (E := E) (fun c => offset c off)).
Proof. apply sized_move. intros c c'. apply offset_keeps. Qed.
Lemma sized_rewind {E} : sized (cb_move (E := E) rewind).
Proof. apply sized_move. intros c c'. apply offset_keeps. Qed.
Lemma sized_forward {E} : sized (cb_move (E := E) forward).
Proof. apply sized_move. intros c c'. apply offset_keeps. Qed.
#[export] Hint Resolve sized_offset sized_rewind sized_forward : sized.

Ltac encoder_sized :=
  unfold encode_error;
  repeat lazymatch goal with
  | |- sized (with_u8_length _) => apply sized_with_u8_length
  | |- sized (with_u16_length _) => apply sized_with_u16_length
  | |- sized (with_u24_length _) => apply sized_with_u24_length
  | _ => sized_step
  end.

Lemma sized_data_encode (x : ClientHelloExtension) : sized (data_encode x).
Proof.
  destruct x; cbn [data_encode ClientHelloExtension_group];
    unfold SupportedVersionsClientHello_encode, ProtocolVersion_encode, SignatureAlgorithms_encode,
      SupportedGroups_encode, NamedGroup_encode, PskKeyExchangeModes_encode, PskKeyExchangeMode_encode,
      KeyShareClientHello_encode, KeyShareEntry_encode, ServerNameList_encode, ServerName_encode,
      NameType_encode, Alpn_encode, PreSharedKeyClientHello_encode, MaxFragmentLength_encode,
      SignatureAlgorithmsCert_encode, Unimplemented_encode, NamedGroup_encode; encoder_sized.
Qed.
#[export] Hint Resolve sized_data_encode : sized.

Section Writing.
Context `{CS : TlsCipherSuite, !TlsCipherSuiteLaws CS}.

Lemma sized_encode_payload r : sized (encode_payload r).
Proof.
  unfold encode_payload, Alert_encode, ClientHandshake_encode, encode_inner, ClientHello_encode,
    Finished_encode, CertificateRef_encode, CertificateEntryRef_encode, CertificateVerify_encode,
    ext_encode, ExtensionType_encode. encoder_sized.
Qed.

(** *** Encryption in place *)

Lemma sized_aead k nonce a : length k = KeyLen -> length nonce = IvLen -> sized (encrypt_in_place k nonce a).
Proof.
  intros Hk Hi n [buf off len] (Hw & Hn & Hl). unfold cb_wf, capacity in *. cbn [cb_offset cb_len cb_buf] in *.
  destruct (list_split3 buf off len ltac:(lia)) as (pre & pt & gap & -> & <- & <-).
  destruct (seal_total k nonce a pt Hk Hi) as (c & t & Hs & Hc & Ht); [rewrite !length_app in Hn; lia|].
  destruct (decide (length t <= length gap)) as [Hg|Hg].
  - eapply post_run; [by apply (encrypt_in_place_spec k nonce a pre pt gap c t)|].
    unfold cb_sized, cb_wf, capacity. cbn [cb_offset cb_len cb_buf]. rewrite <-Hn in Hl |- *. lens. lia.
  - destruct (encrypt_in_place_full k nonce a pre pt gap c t Hs Hc ltac:(lia)) as (c' & He & _).
    intros ? ? He'. congruence.
Qed.

Lemma sized_encrypt wks : kss_wf (w_state wks) -> sized (encrypt wks).
Proof.
  intros (Hk & Hi & _) n c Hc. unfold encrypt, kss_get_nonce. apply post_bind.
  eapply post_run; [apply get_nonce_spec|]. apply post_bind, post_get. case_decide; [apply post_err|].
  apply post_map_err, sized_aead; auto using length_Record_Nonce.
Qed.

(** *** Records *)

Definition wb_sized (n : nat) (w : WriteBuffer) : Prop :=
  length (wb_buffer w) = n /\ wb_pos w <= n /\ (Z.of_nat n < 2 ^ 16)%Z.

Definition wb_idle (n : nat) (w : WriteBuffer) : Prop := exists buf, w = mkWB buf 0 None /\ length buf = n.

Lemma post_with_sized {X} (op : M (CryptoBuffer * X) TlsError unit) n w x :
  (forall c, cb_sized n c -> post op (c, x) (fun _ p => cb_sized n (fst p))) -> wb_sized n w ->
  post (with_buffer op) (w, x) (fun _ p => wb_sized n (fst p)).
Proof.
  intros Hop (Hb & Hp & Hn) a s'. unfold with_buffer. destruct (op _) as [r [c x']] eqn:Ho. intros [= -> <-].
  destruct (Hop (wrap_with_pos (wb_buffer w) (wb_pos w))) with (a := a) (s' := (c, x')) as (Hw & Hc & _); [|done|].
  - unfold cb_sized, cb_wf, capacity, wrap_with_pos. cbn. lia.
  - unfold wb_sized, cb_wf, capacity in *. cbn [fst wb_buffer wb_pos] in *. lia.
Qed.

Lemma post_with_only op n w : sized op -> wb_sized n w -> post (with_buffer_only op) w (fun _ => wb_sized n).
Proof.
  intros Hop Hw. unfold with_buffer_only. apply post_zoom.
  apply (post_with_sized _ n w tt); [|done]. intros c Hc. apply post_on_fst. eapply post_mono; [by apply Hop|]. by intros.
Qed.

Lemma start_record_sized h n w :
  wb_sized n w -> post (start_record h) w (fun _ => wb_sized n).
Proof.
  intros Hw. unfold start_record. apply post_bind, post_get. case_match; [apply post_panic|]. repeat post_step.
  apply post_with_only; [|done]. unfold ClientRecordHeader_encode. encoder_sized.
Qed.

Lemma lset_post {E} i v l : post (lset (E := E) i v) l (fun _ l' => length l' = length l).
Proof. intros a l'. unfold lset. case_decide; [|done]. intros [= <- <-]. by rewrite length_insert. Qed.

Lemma close_record_sized wks n w :
  kss_wf (w_state wks) -> wb_sized n w -> post (close_record wks) w (fun _ => wb_idle n).
Proof.
  intros Hk Hw. unfold close_record. repeat post_step.
  eapply post_mono; [apply (post_with_only _ n); [|exact Hw]|].
  - case_match; encoder_sized. by apply sized_encrypt.
  - intros _ w1 (Hb & Hp & Hn). repeat post_step. eapply post_mono; [apply lset_post|]. intros ? l1 Hl1. repeat post_step.
    eapply post_mono; [apply lset_post|]. intros ? l2 Hl2. repeat post_step. exists l2. split; [done|]. simpl in *. congruence.
Qed.

Lemma binders_sized wks n ids : forall c t,
  cb_sized n c ->
  post (for_each ids (fun _ : list byte =>
          st ← get; binder ← create_psk_binder wks (snd st); on_fst (PskBinder_encode binder)))
    (c, t) (fun _ p => cb_sized n (fst p)).
Proof.
  induction ids as [|id ids IH]; intros c t Hc; simpl; [by apply post_ret|].
  apply post_bind, post_bind, post_get, post_bind.
  eapply (post_mono _ _ (fun _ p => p = (c, t))).
  { unfold create_psk_binder, make_expanded_hkdf_label, Secret_as_ref. repeat post_step. case_match; by repeat post_step. }
  intros b ? ->. apply post_on_fst. eapply (post_mono _ _ (fun _ => cb_sized n)); [|intros [] c' Hc'; by apply IH].
  assert (sized (PskBinder_encode b)) as Hb by (unfold PskBinder_encode; encoder_sized). by apply Hb.
Qed.

Lemma finalize_length m wks s t :
  (Z.of_nat (length s) < 2 ^ 16)%Z ->
  post (ClientHandshake_finalize m wks) (s, t) (fun _ p => length (fst p) = length s).
Proof.
  intros Hs. destruct m; cbn [ClientHandshake_finalize]; try (repeat post_step; done).
  unfold finalize. apply post_bind, post_get. cbv beta iota. case_match; [|by repeat post_step]. case_match.
  repeat post_step. unfold usub in *. repeat case_decide; simplify_eq. cbn [fst snd].
  set (pos := length s - _) in *.
  eapply post_mono; [apply (binders_sized _ (length s - pos))|].
  - unfold cb_sized, cb_wf, capacity, wrap. cbn. rewrite length_drop. lia.
  - intros ? [c t'] (_ & Hc & _). repeat post_step. cbn. unfold capacity in Hc. lens. lia.
Qed.

Lemma finish_record_sized r wks n c t :
  cb_sized n c -> post (finish_record r wks) (c, t) (fun _ p => cb_sized n (fst p)).
Proof.
  intros Hc. destruct r as [m []|]; cbn [finish_record]; [|intros a [c' t']|by apply post_ret].
  - unfold finalize_encrypted, as_slice. by repeat post_step.
  - unfold on_slice. destruct (sub _ _ _) as [s|] eqn:Hs; [|done].
    destruct (ClientHandshake_finalize m wks (s, t)) as [r [s' t2]] eqn:Hf. intros [= -> <- <-].
    destruct Hc as (Hw & Hc & Hn). unfold cb_wf, capacity in *.
    assert (length s = cb_len c) as Hl by (rewrite sub_Some in Hs by lia; injection Hs as <-; lens; lia).
    apply finalize_length in Hf; [|lia]. unfold cb_sized, cb_wf, capacity. cbn in *.
    rewrite length_splice; lia.
Qed.

(** A record that was written leaves the buffer empty, with its size. *)
Lemma write_record_sized r wks n w rks :
  kss_wf (w_state wks) -> wb_sized n w ->
  post (write_record r wks) (w, rks) (fun _ p => wb_idle n (fst p)).
Proof.
  intros Hk Hw. unfold write_record. apply post_bind, post_get. case_decide; [apply post_err|].
  apply post_bind, post_on_fst. eapply post_mono; [by apply start_record_sized|]. intros ? w1 Hw1. apply post_bind.
  eapply post_mono; [apply (post_with_sized _ n); [|exact Hw1]|].
  - intros c Hc. apply post_bind, post_on_fst. eapply post_mono; [by apply sized_forward|]. intros ? c1 H1.
    apply post_bind, post_on_fst. eapply post_mono; [by apply (sized_encode_payload r n)|]. intros ? c2 H2.
    repeat post_step. eapply (post_mono _ _ (fun _ p => cb_sized n (fst p))); [by apply finish_record_sized|].
    intros ? [c3 t] H3. repeat post_step. by apply sized_rewind.
  - intros ? [w2 o] Hw2. by apply post_on_fst, close_record_sized.
Qed.
End Writing.

(** ** The handshake *)

Lemma wlp_post {S E A} (m : M S E A) s Q : post m s Q -> wlp m s Q (fun _ => True).
Proof. unfold post, wlp. destruct (m s) as [[] ?] eqn:Hm; auto. Qed.
Lemma post_wlp {S E A} (m : M S E A) s Q R : wlp m s Q R -> post m s Q.
Proof. unfold post, wlp. intros H a s' Hm. by rewrite Hm in H. Qed.
Lemma post_and {S E A} (m : M S E A) s (Q Q' : A -> S -> Prop) :
  post m s Q -> post m s Q' -> post m s (fun a s' => Q a s' /\ Q' a s').
Proof. unfold post. naive_solver. Qed.

Abbreviation leaves := (inv (fun _ => True)).

Lemma leaves_True {T S E A} (f : Fut T S E A) : forall s, leaves (fun _ _ => True) f s.
Proof.
  induction f as [r|B m k IH|B l op k IH]; intros s; cbn; [by destruct r| |].
  - eapply wlp_mono; [apply wlp_True|auto|done].
  - split; [done|]. auto.
Qed.
Lemma leaves_throw {T S E A B} (f : Fut T S E A) (e : E) Q (s : S) : leaves Q ((f;; throw e) : Fut T S E B) s.
Proof. eapply inv_bind; [apply leaves_True|]. done. Qed.
Lemma leaves_sync {T S E A} Q (m : M S E A) s : post m s Q -> leaves Q (sync m : Fut T S E A) s.
Proof. intros H. by apply inv_sync, wlp_post. Qed.

Section Handshake.
Context `{CS : TlsCipherSuite, !TlsCipherSuiteLaws CS} {T P : Type} `{CP : CryptoProvider P}.
Context (R N : nat) (HN : (Z.of_nat N < 2 ^ 16)%Z).
Implicit Types c : Client (T := T) (P := P).

Record client_wf (c : Client (T := T) (P := P)) : Prop := {
  cwf_reader : reader_wf R (cl_reader c);
  cwf_tx : wb_idle N (cl_tx c);
  cwf_write : kss_wf (w_state (client_state (cl_ks c)));
  cwf_read : kss_wf (r_state (server_state (cl_ks c)));
}.

Lemma write_tx_wf r c : client_wf c -> post (write_tx r) c (fun _ => client_wf).
Proof.
  intros [Hr (buf & Ht & Hl) Hw Hk]. unfold write_tx. apply post_bind, post_get, post_zoom.
  eapply post_mono; [apply post_and; [apply write_record_keeps|apply (write_record_sized _ _ N); [done|]]|].
  - rewrite Ht. split; cbn; lia.
  - intros a [w o] [[t Ho] Hi]. cbn [fst snd] in *. subst o. by split.
Qed.

Lemma respond_leaves tx c : client_wf c -> leaves (fun _ => client_wf) (respond tx) c.
Proof.
  intros [Hr Ht Hw Hk]. eapply (inv_bind _ (fun _ => client_wf)); [by apply inv_await; [|split]|]. intros [] c1 [? ? Hw1 ?].
  eapply (inv_bind _ (fun _ => client_wf)); [|intros [] c2 []; by apply inv_await; [|split]].
  apply inv_sync, wlp_zoom, wlp_zoom. eapply wlp_mono; [by apply increment_wlp| |done]. intros [] st Hst. by split.
Qed.

(** A step that writes one record and sends it. *)
Lemma answer_leaves {A B} (m : M (Client (T := T) (P := P)) TlsError (A * list byte))
    (k : A -> Fut T (Client (T := T) (P := P)) TlsError B) Q c :
  post m c (fun _ => client_wf) -> (forall a c', client_wf c' -> leaves Q (k a) c') ->
  leaves Q ('(a, tx) ← sync m; respond tx;; k a) c.
Proof.
  intros Hm Hk. eapply inv_bind; [by apply leaves_sync|]. intros [a tx] c1 H1.
  eapply inv_bind; [by apply respond_leaves|]. intros [] c2 H2. by apply Hk.
Qed.

(** *** The handlers *)

Lemma client_hello_wf config c : client_wf c -> post (client_hello config) c (fun _ => client_wf).
Proof.
  intros [Hr Ht Hw Hk]. unfold client_hello, on_ks, on_provider, on_handshake. apply post_bind, post_zoom.
  eapply post_run; [apply initialize_early_secret_spec|]. apply post_bind, post_zoom.
  eapply post_mono; [apply post_True|]. intros [[random secret] public] p' _. apply post_bind.
  eapply post_mono; [by apply write_tx_wf|]. intros slice c1 H1. repeat post_step. by destruct H1.
Qed.

Lemma client_cert_wf c : client_wf c -> post client_cert c (fun _ => client_wf).
Proof.
  intros [Hr Ht Hw Hk]. unfold client_cert, on_handshake. repeat post_step. cbv beta iota.
  eapply (post_mono _ _ (fun _ => client_wf)).
  - case_match; repeat post_step; [|done]. eapply post_mono; [apply post_True|]. intros [] ref _. by repeat post_step.
  - intros [cert st] c1 H1. apply post_bind. eapply post_mono; [by apply write_tx_wf|]. intros slice c2 H2.
    by repeat post_step.
Qed.

Lemma client_cert_verify_wf c : client_wf c -> post client_cert_verify c (fun _ => client_wf).
Proof.
  intros [Hr Ht Hw Hk]. unfold client_cert_verify. apply post_bind. eapply (post_mono _ _ (fun _ => client_wf)).
  { intros a c' Hrun. unfold on_provider, try_, zoom in Hrun. destruct (signer _) as [[]]; by simplify_eq. }
  intros s c1 [Hr1 Ht1 Hw1 Hk1]. apply post_bind. eapply (post_mono _ _ (fun _ => client_wf)).
  - destruct s; unfold signed_message, on_provider; repeat post_step; [|done].
    eapply post_mono; [apply post_True|]. intros sg p' _. by repeat post_step.
  - intros [res rec] c2 H2. apply post_bind. eapply post_mono; [by apply write_tx_wf|]. intros slice c3 H3.
    by repeat post_step.
Qed.

Lemma client_finished_wf c : client_wf c -> post client_finished c (fun _ => client_wf).
Proof.
  intros Hc. unfold client_finished. apply post_bind, post_get, post_bind, post_map_err.
  eapply (post_mono _ _ (fun _ c' => c' = c)).
  - unfold create_client_finished, make_expanded_hkdf_label, Secret_as_ref. repeat post_step.
    case_match; by repeat post_step.
  - intros f ? ->. by apply write_tx_wf.
Qed.

(** The two traffic secrets that a phase of the key schedule derives. *)
Lemma with_traffic_wf s i cl sl ks :
  kss_wf (w_state (client_state (with_traffic (Extract s i) cl sl ks))) /\
  kss_wf (r_state (server_state (with_traffic (Extract s i) cl sl ks))).
Proof.
  split; apply traffic_state_wf; cbn; rewrite length_Derive_Secret; try done; by rewrite length_Extract.
Qed.

Lemma finalize_wf c : client_wf c -> post client_finished_finalize c (fun _ => client_wf).
Proof.
  intros [Hr Ht Hw Hk]. unfold client_finished_finalize, on_handshake, on_ks, replace_transcript_hash. repeat post_step.
  eapply post_run; [apply initialize_master_secret_spec|]. apply post_ret. split; [done|done|apply with_traffic_wf..].
Qed.

Lemma process_server_hello_wf rec c : client_wf c -> post (process_server_hello rec) c (fun _ => client_wf).
Proof.
  intros [Hr Ht Hw Hk]. unfold process_server_hello. destruct rec as [[]| | |]; try apply post_err.
  unfold on_handshake, on_ks. repeat post_step.
  eapply post_run; [apply initialize_handshake_secret_spec|]. apply post_ret. split; [done|done|apply with_traffic_wf..].
Qed.

Lemma wlp_ok_or {S E A} (o : option A) (e : E) (s : S) Q (Q' : S -> Prop) :
  (forall a, Q a s) -> Q' s -> wlp (ok_or o e) s Q Q'.
Proof. intros. by destruct o; cbn. Qed.
Lemma verify_finished_keeps {S} rks f (s : S) :
  wlp (verify_server_finished rks f) s (fun _ s' => s' = s) (fun s' => s' = s).
Proof.
  unfold verify_server_finished, make_expanded_hkdf_label, Secret_as_ref.
  repeat first [done | apply wlp_bind | apply wlp_ok_or; [intros ?|done] | case_match].
Qed.

Lemma verify_callback_wlp rec (rks : ReadKeySchedule) (x : Handshake * P * State) :
  True -> wlp (verify_callback rec) (rks, x) (fun _ => keyed (fun _ => True) (r_state rks))
    (keyed (fun _ => True) (r_state rks)).
Proof.
  intros _. destruct x as [[h p] st]. destruct rec as [[| | | |req| |f]| | |]; cbn [verify_callback]; try done;
    apply wlp_bind.
  - cbn. case_match; [|done]. apply wlp_zoom, wlp_zoom, wlp_zoom. by eapply wlp_mono; [apply wlp_True|..].
  - unfold CertificateRequest_try_from, wlp at 1. by destruct (vec_extend _ _ _).
  - cbn. case_match; [|done]. apply wlp_zoom, wlp_zoom, wlp_zoom. by eapply wlp_mono; [apply wlp_True|..].
  - unfold wlp at 1. cbn [get]. apply wlp_bind.
    eapply wlp_mono; [apply verify_finished_keeps| |by intros ? ->].
    intros ok ? ->. destruct ok; [|done]. by case_decide.
Qed.

Lemma process_server_verify_wf rec c :
  client_wf c -> at_record rec (rr_buf (cl_reader c)) -> post (process_server_verify rec) c (fun _ => client_wf).
Proof.
  intros [[Hl Hd] Ht Hw Hk] Hat. unfold process_server_verify. apply post_zoom, post_bind. cbn [cl_ks].
  eapply post_mono; [eapply post_wlp, (decrypt_wlp _ _ verify_callback_wlp R); [done|by split]|].
  intros [] [[rks rx] [[h p] st]] (H1 & H2 & _). cbn [fst snd] in *. repeat post_step. by split.
Qed.

(** *** The steps *)

Lemma reading_leaves (k : ServerRecord -> Fut T (Client (T := T) (P := P)) TlsError State) c :
  client_wf c ->
  (forall rec c', client_wf c' -> at_record rec (rr_buf (cl_reader c')) -> leaves (fun _ => client_wf) (k rec) c') ->
  leaves (fun _ => client_wf) (record ← within reading_lens AsyncHandshake.read; k record) c.
Proof.
  intros [Hr Ht Hw Hks] Hk.
  eapply (inv_bind _ (fun rec c' => client_wf c' /\ at_record rec (rr_buf (cl_reader c'))));
    [|intros rec c' [H1 H2]; by apply Hk].
  apply inv_within. eapply inv_mono; [done| |by apply (read_inv R)].
  intros rec [[r t] d] [H1 H2]. cbn in *. by split; [split|].
Qed.

Lemma error_leaves (m : M (Client (T := T) (P := P)) TlsError State) c :
  post m c (fun _ => client_wf) ->
  leaves (fun _ => client_wf) (result ← sync (try_ m); handle_processing_error result) c.
Proof.
  intros Hm. eapply (inv_bind _ (fun r c' => match r with inl _ => client_wf c' | inr _ => True end)).
  - apply leaves_sync, post_try; [|done]. eapply post_mono; [exact Hm|done].
  - intros [st|e] c' Hc; [done|]. destruct e; try done. cbn [handle_processing_error].
    eapply inv_bind; [apply leaves_True|]. intros tx c2 _. apply leaves_throw.
Qed.

Lemma process_leaves config st c : client_wf c -> leaves (fun _ => client_wf) (process config st) c.
Proof.
  intros Hc. destruct st; cbn [process]; [| | | | | |done].
  - apply answer_leaves; [by apply client_hello_wf|done].
  - apply reading_leaves; [done|]. intros rec c' H1 H2. by apply error_leaves, process_server_hello_wf.
  - apply reading_leaves; [done|]. intros rec c' H1 H2. by apply error_leaves, process_server_verify_wf.
  - apply answer_leaves; [by apply client_cert_wf|done].
  - apply answer_leaves; [by apply client_cert_verify_wf|]. by intros [] c' H.
  - eapply inv_bind; [by apply leaves_sync, client_finished_wf|]. intros tx c1 H1.
    eapply inv_bind; [by apply respond_leaves|]. intros [] c2 H2. by apply leaves_sync, finalize_wf.
Qed.

Lemma open_loop_leaves fuel config : forall st c,
  client_wf c -> leaves (fun _ => client_wf) (open_loop fuel config st) c.
Proof.
  induction fuel as [|fuel IH]; intros st c Hc; cbn [open_loop]; case_decide; try done.
  eapply inv_bind; [by apply process_leaves|]. intros st' c' Hc'. by apply IH.
Qed.

Lemma hostname_wf config c : client_wf c -> post (hostname_step config) c (fun _ => client_wf).
Proof.
  intros Hc. unfold hostname_step, on_provider. apply post_bind, post_get. repeat case_match; try by apply post_ret.
  apply post_zoom. eapply post_mono; [apply post_True|]. intros [] p _. by destruct Hc.
Qed.
End Handshake.

(** ** Using an opened connection *)

Section Opened.
Context `{CS : TlsCipherSuite, !TlsCipherSuiteLaws CS} {T P : Type}.
Context `{CP : CryptoProvider P, ASock : AsyncSocket T, !ReadBounded T}.
Implicit Types c : TlsConnection (T := T).

Lemma kss_new_wf : kss_wf KeyScheduleState_new.
Proof. unfold kss_wf, KeyScheduleState_new, zeros. cbn. rewrite !length_replicate. lia. Qed.

Lemma client_idle_wf R N (s : TlsConnection (T := T) * (Handshake * P)) :
  info_wf R (decrypted (fst s)) -> client_wf R N (client_view s) -> conn_wf R N (fst s).
Proof. intros Hi [Hr (buf & Hb & Hl) Hw Hk]. split; try done. exists []. cbn in Hb. rewrite Hb. by apply tx_idle. Qed.

Lemma open_leaves R N fuel config (s : TlsConnection (T := T) * (Handshake * P)) :
  (Z.of_nat N < 2 ^ 16)%Z -> info_wf R (decrypted (fst s)) -> client_wf R N (client_view s) ->
  leaves (fun _ s' => conn_wf R N (fst s')) (open fuel config) s.
Proof.
  intros HN Hi Hc. unfold open.
  eapply (inv_bind _ (fun _ s' => info_wf R (decrypted (fst s')) /\ client_wf R N (client_view s'))).
  - apply inv_within. eapply (inv_mono (fun _ => True) _ (fun _ => client_wf R N)); [done| |].
    + intros [] cl Hcl. split; [done|]. by destruct s, cl.
    + eapply inv_bind; [by apply leaves_sync, hostname_wf|]. intros [] cl Hcl. by apply open_loop_leaves.
  - intros [] s' [Hi' Hc']. apply leaves_sync, post_zoom, post_modify. cbn [fst].
    pose proof (client_idle_wf R N s' Hi' Hc') as []. by split.
Qed.

(** [open] on [c0] returned [Ok] at the [n]-th poll, or before, and left [c]. *)
Definition opens (n fuel : nat) config (p : P) c0 c : Prop :=
  exists locals, polls n (inl (Unpolled (open fuel config))) (c0, (Handshake_new, p)) = (inr (Ok tt), (c, locals)).

(** C29: A connection is well formed from the handshake on, however it is used.  When [open]
    on a new connection has returned [Ok], after any number of polls over any transport
    and with any provider, then after any sequence of reads, writes, flushes, consumes and
    policy changes, each of which ended with a value or an error or was dropped after any
    number of polls, the cursors of the reader and of the decrypted region lie in the
    receive buffer, the write buffer is empty or holds a record with room for the overhead,
    and keys, IVs and counters have their width.  In particular the region that
    [create_read_buffer] slices always exists. *)
Theorem opened_connection_wf n fuel config (p : P) (t : T) rbuf wbuf c0 c c' :
  TlsConnection_new t rbuf wbuf = Some c0 -> buffer_size_ok (length wbuf) -> 134 <= length wbuf ->
  opens n fuel config p c0 c -> rtc uses c c' ->
  conn_wf (length rbuf) (length wbuf) c' /\
  create_read_buffer (decrypted c') (rr_buf (record_reader c')) =
    Some (mkRB (available (decrypted c') (rr_buf (record_reader c'))) 0 false).
Proof.
  intros Hnew HN HN' [s' Ho] Hu. apply (connection_stays_wf _ _ HN HN' c c'); [|done].
  unfold TlsConnection_new, WriteBuffer_new in Hnew. case_decide; [|done]. injection Hnew as <-.
  pose proof kss_new_wf as Hk.
  pose proof (inv_sound _ _ _ n _ (open_leaves (length rbuf) (length wbuf) fuel config
    (mkConn t false KeySchedule_new (RecordReader_new rbuf) (mkWB wbuf 0 None) DecryptedBufferInfo_default
       FlushPolicy_default, (Handshake_new, p)) ltac:(unfold buffer_size_ok in HN; lia)
    ltac:(split; cbn; lia) ltac:(split; [split; cbn; lia|by exists wbuf|done..])) I) as H'.
  by rewrite Ho in H'.
Qed.
End Opened.

(** A handshake over a transport that delivers a few bytes at a time and answers every
    other poll; then two polls of a read, which is dropped, and a change of the policy. *)
Definition demo_socket : Laggy := mkLaggy (mkChunked (fl_bytes (demo_flight psk_config)) [] 6) 2.
Definition demo_new : TlsConnection (CS := Toy.suite) (T := Laggy) :=
  mkConn demo_socket false KeySchedule_new (RecordReader_new (zeros 256)) (mkWB (zeros 400) 0 None)
    DecryptedBufferInfo_default FlushPolicy_default.
Abbreviation demo_open :=
  (polls 2000 (inl (Unpolled (open 5 psk_config))) (demo_new, (Handshake_new, demo_provider))).

Definition suspended {A B} (x : (A + B) * TlsConnection (CS := Toy.suite) (T := Laggy)) : bool :=
  match x with (inl _, _) => true | _ => false end.
Definition dropped_read {A} (x : (A + result TlsError unit) * (TlsConnection (CS := Toy.suite) (T := Laggy) * (Handshake * DemoProvider))) : bool :=
  match x with (inr (Ok tt), (c, _)) => suspended (polls 2 (inl (Unpolled (read 9 (zeros 8)))) c) | _ => false end.

Example demo_open_polled : dropped_read demo_open = true.
Proof. vm_compute. reflexivity. Qed.

Lemma opened_connection_wf_witness :
  exists c c', opens 2000 5 psk_config demo_provider demo_new c /\ uses c c' /\
    conn_wf 256 400 (snd (set_flush_policy Strict c')).
Proof.
  pose proof demo_open_polled as Hd. destruct demo_open as [[task|[[]|e| |]] [c s']] eqn:Ho; try discriminate Hd.
  unfold dropped_read in Hd. destruct (polls 2 (inl (Unpolled (read 9 (zeros 8)))) c) as [[task|r] c'] eqn:Hp;
    [|discriminate Hd].
  assert (uses c c') as Hu by (apply (uses_read _ _ 2 9 (zeros 8) (inl task)); [exact Hp|exact I]).
  assert (opens 2000 5 psk_config demo_provider demo_new c) as Hopen by (exists s'; exact Ho).
  exists c, c'. split; [exact Hopen|]. split; [exact Hu|].
  apply (opened_connection_wf (CS := Toy.suite) 2000 5 psk_config demo_provider demo_socket (zeros 256) (zeros 400)
    demo_new c (snd (set_flush_policy Strict c')) eq_refl);
    [unfold buffer_size_ok; simpl; lia|simpl; lia|exact Hopen|].
  eapply rtc_l; [exact Hu|]. eapply rtc_l; [exact (uses_policy c' _ Strict eq_refl)|]. apply rtc_refl.
Defined.
