(* ===== verification/Hostname.v ===== *)
(** Matching a host name against the names of a certificate (pki.rs).

    [tls_hostname_match_impl] compares one name with the host, byte by byte, with loops
    and indices.  The reference [name_matches] reads both names as lists of labels, as
    RFC 6125 section 6.4.3 does: labels are compared without regard to case, and a first
    label ["*"] stands for exactly one label of the host.  [tls_hostname_match] applies it
    to the names of a certificate; [documented_match] is the rule its doc comment gives
    (section 6.4.4: the common name counts only when there are no DNS names), which the
    code does not follow. *)

From S2P Require Import Prelude Errors KeySchedule.
From Stdlib Require Import ZArith Lia.
From Stdlib Require Import Strings.Byte.
From Stdlib Require Strings.String.
From stdpp Require Import base list option numbers tactics sets.

Import Stdlib.Strings.String.StringSyntax.

(** ** ASCII *)

Definition in_range (lo hi b : byte) : bool :=
  bool_decide (byte_val lo <= byte_val b <= byte_val hi)%Z.

Definition dot : byte := x2e.
Definition star : byte := x2a.

(** [b'a'..=b'z' | b'A'..=b'Z' | b'0'..=b'9' | b'-' | b'.'] *)
Definition host_char (b : byte) : bool :=
  in_range x61 x7a b || in_range x41 x5a b || in_range x30 x39 b
  || bool_decide (b = x2d) || bool_decide (b = dot).

(** the same, with [b'*'] *)
Definition cn_char (b : byte) : bool := host_char b || bool_decide (b = star).

(** [u8::to_ascii_lowercase] *)
Definition lower (b : byte) : byte :=
  if in_range x41 x5a b then u8 (Z.lor (byte_val b) 32) else b.

(** ** tls_hostname_match_impl *)

Section Match.
Context {St E : Type}.

(** [n += 1] on an [i32]. *)
Definition i32_succ (n : Z) : M St E Z :=
  unwrap (if decide (n < 2 ^ 31 - 1)%Z then Some (n + 1)%Z else None).

(** The two scanning loops; [None] stands for [return false]. *)
Fixpoint scan_cn (cn : list byte) (cn_labels stars : Z) : M St E (option (Z * Z)) :=
  match cn with
  | [] => mret (Some (cn_labels, stars))
  | b :: cn' =>
      if cn_char b then
        cn_labels' ← (if decide (b = dot) then i32_succ cn_labels else mret cn_labels);
        stars' ← (if decide (b = star) then i32_succ stars else mret stars);
        scan_cn cn' cn_labels' stars'
      else mret None
  end.

Fixpoint scan_host (host : list byte) (host_labels : Z) : M St E (option Z) :=
  match host with
  | [] => mret (Some host_labels)
  | b :: host' =>
      if host_char b then
        host_labels' ← (if decide (b = dot) then i32_succ host_labels else mret host_labels);
        scan_host host' host_labels'
      else mret None
  end.

(** [for i in i..i + n { if a[i].lower() != b[i].lower() { return false; } } true] *)
Fixpoint eq_loop (n i : nat) (a b : list byte) : M St E bool :=
  match n with
  | O => mret true
  | S n' =>
      x ← unwrap (a !! i);
      y ← unwrap (b !! i);
      if decide (lower x <> lower y) then mret false else eq_loop n' (i + 1) a b
  end.

(** [for i in i..i + n { if host[i] == b'.' { dot_idx = Some(i); break; } }] *)
Fixpoint dot_loop (n i : nat) (host : list byte) : M St E (option nat) :=
  match n with
  | O => mret None
  | S n' =>
      x ← unwrap (host !! i);
      if decide (x = dot) then mret (Some i) else dot_loop n' (i + 1) host
  end.

Definition tls_hostname_match_impl (cn host : list byte) : M St E bool :=
  r ← scan_cn cn 1 0;
  match r with
  | None => mret false
  | Some (cn_labels, stars) =>
      r ← scan_host host 1;
      match r with
      | None => mret false
      | Some host_labels =>
          if decide (stars = 0)%Z then
            if decide (length cn <> length host) then mret false
            else eq_loop (length cn) 0 cn host
          else if decide (stars <> 1)%Z then mret false
          else if decide (take 2 cn <> [star; dot]) then mret false
          else if decide (cn_labels < 3)%Z then mret false
          else if decide (cn_labels <> host_labels) then mret false
          else
            suffix ← unwrap (sub cn 2 (length cn));
            dot_idx ← dot_loop (length host) 0 host;
            match dot_idx with
            | None => mret false
            | Some i =>
                host_suffix ← unwrap (sub host (i + 1) (length host));
                if decide (length suffix <> length host_suffix) then mret false
                else eq_loop (length suffix) 0 suffix host_suffix
            end
      end
  end.
End Match.

(** ** CertificateNames and tls_hostname_match *)

Definition HOSTNAME_MAXLEN : nat := 64.
Definition MAX_SAN_DNS_NAMES : nat := 3.

Record CertificateNames : Type := mkNames {
  common_name : option (list byte);
  san_dns_names : list (list byte);
}.

#[global] Instance CertificateNames_eq_dec : EqDecision CertificateNames.
Proof. solve_decision. Defined.

Section Names.
Context {St E : Type}.

Fixpoint match_sans (sans : list (list byte)) (host : list byte) : M St E bool :=
  match sans with
  | [] => mret false
  | san :: sans' =>
      b ← tls_hostname_match_impl san host;
      if b : bool then mret true else match_sans sans' host
  end.

Definition tls_hostname_match (names : CertificateNames) (hostname : option (list byte)) : M St E bool :=
  match hostname with
  | None => mret (bool_decide (common_name names = None) && bool_decide (san_dns_names names = []))
  | Some h =>
      b ← match_sans (san_dns_names names) h;
      if b : bool then mret true
      else match common_name names with
           | Some cn => tls_hostname_match_impl cn h
           | None => mret false
           end
  end.
End Names.

(** ** The reference: names as lists of labels *)

Fixpoint labels (name : list byte) : list (list byte) :=
  match name with
  | [] => [[]]
  | b :: name' =>
      if decide (b = dot) then [] :: labels name'
      else match labels name' with
           | l :: ls => (b :: l) :: ls
           | [] => [[b]]
           end
  end.

Definition same_label (a b : list byte) : bool := bool_decide (map lower a = map lower b).

Fixpoint same_labels (a b : list (list byte)) : bool :=
  match a, b with
  | [], [] => true
  | x :: a', y :: b' => same_label x y && same_labels a' b'
  | _, _ => false
  end.

(** A certificate name matches a host name. *)
Definition name_matches (cn host : list byte) : bool :=
  forallb cn_char cn && forallb host_char host
  && match labels cn, labels host with
     | [w] :: ls, _ :: hs =>
         if decide (w = star)
         then bool_decide (star ∉ drop 1 cn) && bool_decide (2 <= length ls) && same_labels ls hs
         else bool_decide (star ∉ cn) && same_labels (labels cn) (labels host)
     | _, _ => bool_decide (star ∉ cn) && same_labels (labels cn) (labels host)
     end.

Definition any_matches (ns : list (list byte)) (host : list byte) : bool :=
  existsb (fun n => name_matches n host) ns.

(** The rule of the doc comment of [tls_hostname_match]: with DNS names only those are
    used and the common name is ignored, without them the common name is. *)
Definition documented_match (names : CertificateNames) (host : list byte) : bool :=
  match san_dns_names names with
  | [] => any_matches (option_list (common_name names)) host
  | sans => any_matches sans host
  end.

(** ** Labels *)

Lemma labels_nodot l : dot ∉ l -> labels l = [l].
Proof.
  induction l as [|b l IH]; [done|]. intros [Hb Hl]%not_elem_of_cons. simpl.
  rewrite decide_False by done. by rewrite IH.
Qed.

Lemma labels_dot l r : dot ∉ l -> labels (l ++ dot :: r) = l :: labels r.
Proof.
  induction l as [|b l IH]; simpl; [done|].
  intros [Hb Hl]%not_elem_of_cons. rewrite decide_False by done. by rewrite IH.
Qed.

(** A name is its first label, alone or before a dot. *)
Lemma first_label name :
  dot ∉ name \/ exists l r, name = l ++ dot :: r /\ dot ∉ l.
Proof.
  destruct (decide (dot ∈ name)) as [Hin|]; [right|by left].
  by apply list_elem_of_split_l in Hin as (l & r & -> & ?); exists l, r.
Qed.

Lemma labels_cons name : exists l ls, labels name = l :: ls.
Proof.
  destruct (first_label name) as [H|(l & r & -> & H)];
    [rewrite labels_nodot by done|rewrite labels_dot by done]; eauto.
Qed.

Lemma length_labels name :
  Z.of_nat (length (labels name)) = (1 + Z.of_nat (length (filter (.= dot) name)))%Z.
Proof.
  induction name as [|b name IH]; [done|]. simpl. rewrite filter_cons.
  destruct (labels_cons name) as (l & ls & Hl). rewrite Hl in *.
  destruct (decide (b = dot)); simpl in *; lia.
Qed.

Lemma lower_dot b : lower b = dot <-> b = dot.
Proof. by destruct b. Qed.

Lemma labels_lower name : labels (map lower name) = map (map lower) (labels name).
Proof.
  induction name as [|b name IH]; [done|]. simpl. rewrite IH.
  destruct (decide (b = dot)) as [->|Hb]; [done|].
  rewrite decide_False by (by rewrite lower_dot). by destruct (labels_cons name) as (l & ls & ->).
Qed.

Fixpoint unlabels (ls : list (list byte)) : list byte :=
  match ls with
  | [] => []
  | [l] => l
  | l :: ls' => l ++ dot :: unlabels ls'
  end.

Lemma unlabels_labels name : unlabels (labels name) = name.
Proof.
  induction name as [|b name IH]; [done|]. simpl.
  destruct (labels_cons name) as (l & ls & Hl). rewrite Hl in *.
  destruct (decide (b = dot)) as [->|]; [by rewrite <-IH|]. destruct ls; by rewrite <-IH.
Qed.

Lemma same_labels_iff a b : same_labels a b = true <-> map (map lower) a = map (map lower) b.
Proof.
  revert b. induction a as [|x a IH]; intros [|y b]; simpl; try (split; congruence).
  unfold same_label. rewrite andb_true_iff, bool_decide_eq_true, IH.
  split; [by intros [-> ->]|by intros [= -> ->]].
Qed.

(** Comparing labels is comparing names. *)
Lemma same_labels_names a b :
  same_labels (labels a) (labels b) = bool_decide (map lower a = map lower b).
Proof.
  apply eq_true_iff_eq. rewrite same_labels_iff, bool_decide_eq_true, <-!labels_lower.
  split; [|congruence]. intros H%(f_equal unlabels). by rewrite !unlabels_labels in H.
Qed.

Lemma same_labels_length a b : same_labels a b = true -> length a = length b.
Proof. intros H%same_labels_iff%(f_equal length). by rewrite !length_map in H. Qed.

(** ** The loops *)

Section Loops.
Context {St E : Type}.
Implicit Types st : St.

Lemma scan_cn_run cn l s st :
  (l + Z.of_nat (length (filter (.= dot) cn)) < 2 ^ 31)%Z ->
  (s + Z.of_nat (length (filter (.= star) cn)) < 2 ^ 31)%Z ->
  scan_cn (E := E) cn l s st
  = (Ok (if forallb cn_char cn
         then Some (l + Z.of_nat (length (filter (.= dot) cn)),
                    s + Z.of_nat (length (filter (.= star) cn)))%Z
         else None), st).
Proof.
  revert l s. induction cn as [|b cn IH]; intros l s Hl Hs; [by rewrite !Z.add_0_r|].
  simpl. rewrite !filter_cons in *. destruct (cn_char b); [|done]. simpl.
  unfold mbind, M_bind, i32_succ, unwrap, mret, M_ret.
  destruct (decide (b = dot)), (decide (b = star)); simplify_eq; simpl in *.
  all: repeat rewrite decide_True by lia; simpl; rewrite IH by lia;
    destruct (forallb _ _); repeat (f_equal; try lia).
Qed.

Lemma scan_host_run host l st :
  (l + Z.of_nat (length (filter (.= dot) host)) < 2 ^ 31)%Z ->
  scan_host (E := E) host l st
  = (Ok (if forallb host_char host
         then Some (l + Z.of_nat (length (filter (.= dot) host)))%Z else None), st).
Proof.
  revert l. induction host as [|b host IH]; intros l Hl; [by rewrite Z.add_0_r|].
  simpl. rewrite filter_cons in *. destruct (host_char b); [|done]. simpl.
  unfold mbind, M_bind, i32_succ, unwrap, mret, M_ret.
  destruct (decide (b = dot)); simplify_eq; simpl in *.
  all: repeat rewrite decide_True by lia; simpl; rewrite IH by lia;
    destruct (forallb _ _); repeat (f_equal; try lia).
Qed.

Lemma eq_loop_run n i (a b : list byte) st :
  i + n <= length a -> i + n <= length b ->
  eq_loop (E := E) n i a b st
  = (Ok (bool_decide (map lower (take n (drop i a)) = map lower (take n (drop i b)))), st).
Proof.
  revert i. induction n as [|n IH]; intros i Ha Hb; [done|]. simpl.
  destruct (lookup_lt_is_Some_2 a i ltac:(lia)) as [x Hx], (lookup_lt_is_Some_2 b i ltac:(lia)) as [y Hy].
  rewrite Hx, Hy. unfold mbind, M_bind. simpl. rewrite (drop_S a x i Hx), (drop_S b y i Hy). simpl.
  destruct (decide (lower x <> lower y)) as [Hn|Hn].
  - rewrite bool_decide_eq_false_2 by congruence. done.
  - rewrite IH by lia. rewrite Nat.add_1_r. do 2 f_equal. apply bool_decide_ext.
    apply dec_stable in Hn. split; congruence.
Qed.

Lemma eq_loop_all (a b : list byte) st :
  length a = length b ->
  eq_loop (E := E) (length a) 0 a b st = (Ok (bool_decide (map lower a = map lower b)), st).
Proof. intros Hl. rewrite eq_loop_run by lia. by rewrite !drop_0, take_ge, take_ge by lia. Qed.

Lemma dot_loop_none pre (h : list byte) st :
  dot ∉ h -> dot_loop (E := E) (length h) (length pre) (pre ++ h) st = (Ok None, st).
Proof.
  revert pre. induction h as [|b h IH]; intros pre Hd; [done|].
  apply not_elem_of_cons in Hd as [Hb Hd]. simpl. unfold mbind, M_bind.
  rewrite list_lookup_middle by done. simpl. rewrite decide_False by done.
  replace (length pre + 1) with (length (pre ++ [b])) by len.
  replace (pre ++ b :: h) with ((pre ++ [b]) ++ h) by by rewrite <-app_assoc. by apply IH.
Qed.

Lemma dot_loop_some pre (l r : list byte) st :
  dot ∉ l ->
  dot_loop (E := E) (length (l ++ dot :: r)) (length pre) (pre ++ l ++ dot :: r) st
  = (Ok (Some (length pre + length l)), st).
Proof.
  revert pre. induction l as [|b l IH]; intros pre Hd; simpl; unfold mbind, M_bind.
  - rewrite list_lookup_middle by done. simpl. by rewrite Nat.add_0_r.
  - apply not_elem_of_cons in Hd as [Hb Hd].
    rewrite list_lookup_middle by done. simpl. rewrite decide_False by done.
    replace (length pre + 1) with (length (pre ++ [b])) by len.
    replace (pre ++ b :: l ++ dot :: r) with ((pre ++ [b]) ++ l ++ dot :: r) by by rewrite <-app_assoc.
    rewrite IH by done. do 3 f_equal. len.
Qed.
End Loops.

Lemma filter_star_zero (cn : list byte) : length (filter (.= star) cn) = 0 <-> star ∉ cn.
Proof.
  induction cn as [|b cn IH]; [split; [set_solver|done]|]. rewrite filter_cons, not_elem_of_cons, <-IH.
  destruct (decide (b = star)) as [->|Hb]; simpl; [by split; [|intros [? _]]|].
  split; [by intros ?; split; [intros ?; apply Hb|]|by intros [_ ?]].
Qed.

(** ** The loops compute the reference *)

Lemma wildcard_dots cn :
  take 2 cn = [star; dot] -> exists suffix, cn = star :: dot :: suffix /\ labels cn = [star] :: labels suffix.
Proof. destruct cn as [|? [|? suffix]]; intros [= -> ->]. by exists suffix. Qed.

(** Without the prefix ["*."] only names without a star match. *)
Lemma name_matches_plain cn host :
  star ∉ cn \/ take 2 cn <> [star; dot] ->
  name_matches cn host
  = forallb cn_char cn && forallb host_char host
    && (bool_decide (star ∉ cn) && bool_decide (map lower cn = map lower host)).
Proof.
  intros Hn. unfold name_matches. f_equal. rewrite <-same_labels_names.
  destruct (labels cn) as [|[|w [|? ?]] ls] eqn:Hc, (labels host) as [|h hs] eqn:Hh; try done.
  destruct (decide (w = star)) as [->|]; [|done].
  assert (cn = unlabels ([star] :: ls)) as Hcn by (by rewrite <-Hc, unlabels_labels).
  destruct ls as [|l ls]; simpl in Hcn.
  - subst cn. rewrite (bool_decide_eq_false_2 (star ∉ [star])) by (intros []; left).
    by rewrite (bool_decide_eq_false_2 (2 <= length [])), andb_false_r by (simpl; lia).
  - exfalso. subst cn. destruct Hn as [Hn|Hn]; [set_solver|done].
Qed.

Lemma match_plain cn host {St E} (st : St) :
  (if decide (length cn <> length host) then mret false else eq_loop (E := E) (length cn) 0 cn host) st
  = (Ok (bool_decide (map lower cn = map lower host)), st).
Proof.
  case_decide as Hl.
  - rewrite bool_decide_eq_false_2; [done|]. intros H%(f_equal length). by rewrite !length_map in H.
  - by rewrite eq_loop_all.
Qed.

(** The body of the wildcard case, on a pattern ["*."] and [suffix]. *)
Lemma match_wildcard suffix host {St E} (st : St) :
  (dot_idx ← dot_loop (E := E) (length host) 0 host;
   match dot_idx with
   | None => mret false
   | Some i =>
       host_suffix ← unwrap (sub host (i + 1) (length host));
       if decide (length suffix <> length host_suffix) then mret false
       else eq_loop (length suffix) 0 suffix host_suffix
   end) st
  = (Ok (bool_decide (2 <= length (labels host))
         && same_labels (labels suffix) (drop 1 (labels host))), st).
Proof.
  unfold mbind at 1, M_bind at 1. destruct (first_label host) as [H|(l & r & -> & H)].
  - rewrite (dot_loop_none []) by done. by rewrite labels_nodot.
  - rewrite (dot_loop_some []) by done. simpl. rewrite labels_dot by done. simpl.
    unfold mbind at 1, M_bind at 1. rewrite sub_Some by len.
    assert (drop (length l + 1) (l ++ dot :: r) = r) as ->.
    { replace (length l + 1) with (length (l ++ [dot])) by len.
      replace (l ++ dot :: r) with ((l ++ [dot]) ++ r) by by rewrite <-app_assoc. apply drop_app_length. }
    rewrite take_ge by len. simpl. rewrite match_plain, drop_0, <-same_labels_names.
    destruct (labels_cons r) as (? & ? & ->). by rewrite bool_decide_eq_true_2 by (simpl; lia).
Qed.

Lemma hostname_match_run cn host {St E} (st : St) :
  (Z.of_nat (length cn) < 2 ^ 31 - 1)%Z -> (Z.of_nat (length host) < 2 ^ 31 - 1)%Z ->
  tls_hostname_match_impl (E := E) cn host st = (Ok (name_matches cn host), st).
Proof.
  intros Hcn Hhost. unfold tls_hostname_match_impl. unfold mbind at 1, M_bind at 1.
  pose proof (length_filter (.= dot) cn). pose proof (length_filter (.= star) cn).
  pose proof (length_filter (.= dot) host).
  rewrite scan_cn_run by lia.
  destruct (forallb cn_char cn) eqn:Hc; [|unfold name_matches; by rewrite Hc].
  unfold mbind at 1, M_bind at 1. rewrite scan_host_run by lia.
  destruct (forallb host_char host) eqn:Hh; [|unfold name_matches; by rewrite Hc, Hh].
  rewrite Z.add_0_l. rewrite <-!length_labels.
  destruct (decide (Z.of_nat (length (filter (.= star) cn)) = 0)%Z) as [Hs|Hs].
  { assert (star ∉ cn) by (apply filter_star_zero; lia).
    rewrite match_plain, name_matches_plain, Hc, Hh by auto. by rewrite (bool_decide_eq_true_2 (star ∉ cn)). }
  assert (star ∈ cn) as Hin.
  { destruct (decide (star ∈ cn)) as [|Hn]; [done|]. apply filter_star_zero in Hn. lia. }
  destruct (decide (take 2 cn = [star; dot])) as [Ht|Ht]; last first.
  { rewrite name_matches_plain by auto. rewrite (bool_decide_eq_false_2 (star ∉ cn)) by auto.
    rewrite !andb_false_r. simpl. repeat case_decide; done. }
  destruct (wildcard_dots cn Ht) as (suffix & -> & Hl). rewrite Hl.
  unfold name_matches. rewrite Hc, Hh, Hl. simpl.
  destruct (labels_cons host) as (h & hs & Hlh). rewrite Hlh. simpl.
  destruct (decide (star ∉ dot :: suffix)) as [Hn|Hn]; last first.
  { rewrite bool_decide_eq_false_2 by done. rewrite decide_True; [done|].
    rewrite <-filter_star_zero in Hn. lia. }
  rewrite bool_decide_eq_true_2 by done. apply filter_star_zero in Hn. rewrite Hn. simpl.
  destruct (decide _) as [H2|H2]; [by rewrite bool_decide_eq_false_2 by lia|].
  rewrite bool_decide_eq_true_2 by lia. simpl. destruct (decide _) as [H3|H3].
  { destruct (same_labels _ _) eqn:Hsame; [|done]. apply same_labels_length in Hsame. lia. }
  unfold mbind at 1, M_bind at 1. rewrite sub_Some by (simpl; lia). simpl.
  rewrite drop_0, take_ge by lia. rewrite match_wildcard, Hlh, bool_decide_eq_true_2 by (simpl; lia).
  done.
Qed.

(** ** Exactness *)

(** The names a certificate can carry and the host name fit their buffers. *)
Definition names_fit (names : CertificateNames) : Prop :=
  Forall (fun n => length n <= HOSTNAME_MAXLEN) (san_dns_names names) /\
  (forall n, common_name names = Some n -> length n <= HOSTNAME_MAXLEN).

Lemma match_sans_run sans host {St E} (st : St) :
  Forall (fun n => length n <= HOSTNAME_MAXLEN) sans -> length host <= HOSTNAME_MAXLEN ->
  match_sans (E := E) sans host st = (Ok (existsb (fun n => name_matches n host) sans), st).
Proof.
  unfold HOSTNAME_MAXLEN. intros HF Hh. induction HF as [|n sans Hn _ IH]; [done|]. simpl.
  unfold mbind, M_bind. rewrite hostname_match_run by lia. by destruct (name_matches n host).
Qed.

Lemma hostname_match_names names hostname {St E} (st : St) :
  names_fit names -> (forall h, hostname = Some h -> length h <= HOSTNAME_MAXLEN) ->
  tls_hostname_match (E := E) names hostname st
  = (Ok (match hostname with
         | None => bool_decide (names = mkNames None [])
         | Some h => existsb (fun n => name_matches n h)
                       (san_dns_names names ++ option_list (common_name names))
         end), st).
Proof.
  intros [Hs Hc] Hh. destruct hostname as [h|]; simpl.
  - specialize (Hh h eq_refl). unfold mbind, M_bind. rewrite match_sans_run by done.
    rewrite existsb_app. destruct (existsb _ (san_dns_names names)); [done|]. simpl.
    destruct (common_name names) as [cn|]; [|done]. specialize (Hc cn eq_refl). simpl.
    unfold HOSTNAME_MAXLEN in *. rewrite hostname_match_run by lia. by rewrite orb_false_r.
  - destruct names as [[] []]; simpl; repeat f_equal; done.
Qed.

(** C38: what [tls_hostname_match] accepts, and where it departs from its doc comment.
    Matching returns.  With a host name it is true exactly when one of the certificate's
    names, a DNS name or the common name, matches it label by label (letter case is
    ignored, a first label "*" of a name of at least three labels stands for one label, no
    other star matches); without a host name only a certificate without names matches.
    The doc comment says, after RFC 6125 6.4.4, that the common name is ignored when there
    are DNS names.  The code does not do that: its answer differs from the documented one
    exactly when there are DNS names, none of them matches and the common name does, and
    then it accepts what the documentation refuses. *)
Theorem hostname_match_exact names hostname {St E} (st : St) :
  names_fit names -> (forall h, hostname = Some h -> length h <= HOSTNAME_MAXLEN) ->
  exists answer, tls_hostname_match (E := E) names hostname st = (Ok answer, st) /\
    match hostname with
    | None => answer = bool_decide (names = mkNames None [])
    | Some h =>
        answer = any_matches (san_dns_names names ++ option_list (common_name names)) h /\
        (answer <> documented_match names h <->
         san_dns_names names <> [] /\ any_matches (san_dns_names names) h = false /\
         any_matches (option_list (common_name names)) h = true)
    end.
Proof.
  intros Hn Hh. eexists. split; [by apply hostname_match_names|]. destruct hostname as [h|]; [|done].
  split; [done|]. fold (any_matches (san_dns_names names ++ option_list (common_name names)) h).
  unfold documented_match. destruct (san_dns_names names) as [|san sans]; [naive_solver|].
  unfold any_matches at 1. rewrite existsb_app.
  fold (any_matches (san :: sans) h) (any_matches (option_list (common_name names)) h).
  destruct (any_matches (san :: sans) h), (any_matches (option_list _) h); naive_solver.
Qed.

(** A DNS name matches; and a host that only the common name matches, which the documented
    rule refuses. *)
Lemma hostname_match_exact_witness :
  let names := mkNames (Some (b_ "Api.Example.Com")) [b_ "*.example.org"] in
  tls_hostname_match (St := unit) (E := TlsError) names (Some (b_ "www.example.org")) tt = (Ok true, tt) /\
  documented_match names (b_ "www.example.org") = true /\
  tls_hostname_match (St := unit) (E := TlsError) names (Some (b_ "api.example.com")) tt = (Ok true, tt) /\
  documented_match names (b_ "api.example.com") = false.
Proof.
  intros names.
  assert (names_fit names) as Hn
    by (split; [repeat constructor; vm_compute; lia|intros ? [= <-]; vm_compute; lia]).
  destruct (hostname_match_exact (E := TlsError) names (Some (b_ "www.example.org")) tt Hn) as (a & -> & -> & _);
    [intros ? [= <-]; vm_compute; lia|].
  destruct (hostname_match_exact (E := TlsError) names (Some (b_ "api.example.com")) tt Hn) as (b & -> & -> & _);
    [intros ? [= <-]; vm_compute; lia|].
  split_and!; vm_compute; reflexivity.
Defined.

(** The tests of pki.rs. *)
Example hostname_tests :
  let m := name_matches in
  [m (b_ "EXAMPLE.COM") (b_ "example.com"); m (b_ "*.example.com") (b_ "WWW.example.com");
   m (b_ "*.xn--bcher-kva.example") (b_ "api.xn--bcher-kva.example")] = replicate 3 true /\
  [m (b_ "example.com") (b_ "sub.example.com"); m (b_ "*.example.com") (b_ "a.b.example.com");
   m (b_ "*.example.com") (b_ "example.com"); m (b_ "api.*.example.com") (b_ "api.test.example.com");
   m (b_ "foo*.example.xx") (b_ "foobar.example.xx"); m (b_ "*.com") (b_ "example.com");
   m (b_ "*.*.example.com") (b_ "a.b.example.com"); m (b_ "**.example.com") (b_ "api.example.com");
   m (b_ "example!.com") (b_ "example!.com"); m (b_ "example.com") (b_ "exa mple.com")] = replicate 10 false.
Proof. split; vm_compute; reflexivity. Qed.
