(* ===== verification/DerCertificate.v ===== *)
(** X.509 certificates as the client's verifier reads them (der_certificate.rs).

    The records are the structures of the source.  Reading DER is the [der] crate's: its
    types, its reader and the decoder its derive macro generates are the parameters
    [DerOps] and [DerDecode]; [DerLaws] says of the reader that a decoded header consumes
    input. *)

From S2P Require Import Prelude Errors KeySchedule Hostname.
From Stdlib Require Import ZArith Lia.
From Stdlib Require Import Strings.Byte.
From Stdlib Require Strings.String.
From stdpp Require Import base list option numbers tactics sets.

Import Stdlib.Strings.String.StringSyntax.

(** ** core::str::from_utf8 *)

Definition continuation (b : byte) : bool := in_range x80 xbf b.

(** Well-formed UTF-8 (Unicode, table 3-7). *)
Fixpoint utf8_valid (s : list byte) : bool :=
  match s with
  | [] => true
  | b :: s1 =>
      if in_range x00 x7f b then utf8_valid s1 else
      match s1 with
      | [] => false
      | c :: s2 =>
          if in_range xc2 xdf b then continuation c && utf8_valid s2 else
          match s2 with
          | [] => false
          | d :: s3 =>
              if bool_decide (b = xe0) then in_range xa0 xbf c && continuation d && utf8_valid s3
              else if bool_decide (b = xed) then in_range x80 x9f c && continuation d && utf8_valid s3
              else if in_range xe1 xef b then continuation c && continuation d && utf8_valid s3 else
              match s3 with
              | [] => false
              | e :: s4 =>
                  (if bool_decide (b = xf0) then in_range x90 xbf c
                   else if bool_decide (b = xf4) then in_range x80 x8f c
                   else in_range xf1 xf3 b && continuation c)
                  && continuation d && continuation e && utf8_valid s4
              end
          end
      end
  end.

(** ** The der crate *)

(** [Reader] is [SliceReader]; its operations return [None] for an error, after which the
    source drops the reader.  [remaining_len] is [Reader::remaining_len]. *)
Class DerOps : Type := {
  ObjectIdentifier : Type;
  ObjectIdentifier_eq_dec :: EqDecision ObjectIdentifier;
  new_unwrap : list byte -> ObjectIdentifier;
  Tag : Type;
  Tag_eq_dec :: EqDecision Tag;
  Tag_OctetString : Tag;
  Tag_Sequence : Tag;
  AnyRef : Type;
  AnyRef_eq_dec :: EqDecision AnyRef;
  AnyRef_NULL : AnyRef;
  any_tag : AnyRef -> Tag;
  any_value : AnyRef -> list byte;
  BitStringRef : Type;
  as_bytes : BitStringRef -> option (list byte);
  IntRef : Type;
  UtcTime : Type;
  utc_unix_secs : UtcTime -> Z;
  GeneralizedTime : Type;
  generalized_unix_secs : GeneralizedTime -> Z;
  Reader : Type;
  SliceReader_new : list byte -> option Reader;
  is_finished : Reader -> bool;
  remaining_len : Reader -> nat;
  peek_byte : Reader -> option byte;
  Header_decode : Reader -> option (Tag * nat * Reader);
  Header_peek : Reader -> option (Tag * nat * Reader);
  read_slice : nat -> Reader -> option (list byte * Reader);
  tlv_bytes : Reader -> option (list byte * Reader);
}.

Class DerLaws `{DO : DerOps} : Prop := {
  is_finished_empty r : is_finished r = true <-> remaining_len r = 0;
  Header_decode_consumes r h r' : Header_decode r = Some (h, r') -> remaining_len r' < remaining_len r;
  read_slice_consumes n r s r' : read_slice n r = Some (s, r') -> remaining_len r' <= remaining_len r;
}.

Section Certificates.
Context `{DO : DerOps}.

(** ** The structures *)

Definition COMMON_NAME_OID : ObjectIdentifier := new_unwrap (b_ "2.5.4.3").
Definition SUBJECT_ALT_NAME_OID : ObjectIdentifier := new_unwrap (b_ "2.5.29.17").
Definition DNS_NAME_TAG : byte := x82.

Record AlgorithmIdentifier : Type := mkAlg { alg_oid : ObjectIdentifier; parameters : option AnyRef }.

#[global] Instance AlgorithmIdentifier_eq_dec : EqDecision AlgorithmIdentifier.
Proof. solve_decision. Defined.

Definition ECDSA_SHA256 : AlgorithmIdentifier := mkAlg (new_unwrap (b_ "1.2.840.10045.4.3.2")) None.
Definition ECDSA_SHA384 : AlgorithmIdentifier := mkAlg (new_unwrap (b_ "1.2.840.10045.4.3.3")) None.
Definition ED25519 : AlgorithmIdentifier := mkAlg (new_unwrap (b_ "1.3.101.112")) None.
Definition RSA_PKCS1_SHA256 : AlgorithmIdentifier :=
  mkAlg (new_unwrap (b_ "1.2.840.113549.1.1.11")) (Some AnyRef_NULL).
Definition RSA_PKCS1_SHA384 : AlgorithmIdentifier :=
  mkAlg (new_unwrap (b_ "1.2.840.113549.1.1.12")) (Some AnyRef_NULL).
Definition RSA_PKCS1_SHA512 : AlgorithmIdentifier :=
  mkAlg (new_unwrap (b_ "1.2.840.113549.1.1.13")) (Some AnyRef_NULL).

Inductive Version : Type := V1 | V2 | V3.

Definition Version_default : Version := V1.

Record AttributeTypeAndValue : Type := mkAttribute { attr_oid : ObjectIdentifier; attr_value : AnyRef }.

Record ExtensionIdAndValue : Type := mkExtension {
  extn_id : ObjectIdentifier;
  critical : option bool;
  extn_value : AnyRef;
}.

Inductive Time : Type :=
| Time_UtcTime (t : UtcTime)
| Time_GeneralTime (t : GeneralizedTime).

Record Validity : Type := mkValidity { not_before : Time; not_after : Time }.

Record SubjectPublicKeyInfoRef : Type := mkSpki {
  spki_algorithm : AlgorithmIdentifier;
  spki_public_key : BitStringRef;
}.

(** [SequenceOf] and [SetOf] are lists. *)
Record TbsCertificate : Type := mkTbs {
  version : Version;
  serial_number : IntRef;
  tbs_signature : AlgorithmIdentifier;
  issuer : list (list AttributeTypeAndValue);
  validity : Validity;
  subject : list (list AttributeTypeAndValue);
  subject_public_key_info : SubjectPublicKeyInfoRef;
  issuer_unique_id : option BitStringRef;
  subject_unique_id : option BitStringRef;
  tbs_extensions : option (list ExtensionIdAndValue);
}.

Record DecodedCertificate : Type := mkDecoded {
  tbs_certificate : TbsCertificate;
  signature_algorithm : AlgorithmIdentifier;
  decoded_signature : BitStringRef;
}.

(** ** Names *)

Section Extract.
Context {St : Type}.

(** A [der::Error]; every caller maps it to [DecodeError]. *)
Abbreviation DM := (M St unit).

(** One iteration of the loop of [extract_common_name]. *)
Definition common_name_step (acc : option (list byte)) (elems : list AttributeTypeAndValue) :
    DM (option (list byte)) :=
  attrs ← ok_or (elems !! 0) tt;
  if decide (attr_oid attrs = COMMON_NAME_OID) then
    v ← ok_or (vec_extend HOSTNAME_MAXLEN [] (any_value (attr_value attrs))) tt;
    mret (if utf8_valid v then Some v else None)
  else mret acc.

Fixpoint common_name_loop (rdns : list (list AttributeTypeAndValue)) (acc : option (list byte)) :
    DM (option (list byte)) :=
  match rdns with
  | [] => mret acc
  | elems :: rdns' => acc' ← common_name_step acc elems; common_name_loop rdns' acc'
  end.

Definition extract_common_name (tbs : TbsCertificate) : DM (option (list byte)) :=
  common_name_loop (subject tbs) None.
End Extract.

(** An operation of the reader. *)
Definition reading_op {A} (f : Reader -> option (A * Reader)) : M Reader unit A := fun r =>
  match f r with
  | Some (a, r') => (Ok a, r')
  | None => (Err tt, r)
  end.

(** [tag.assert_eq(expected)?] *)
Definition assert_tag {S} (t expected : Tag) : M S unit unit :=
  if decide (t = expected) then mret tt else err tt.

(** [while !gn_reader.is_finished() { .. }] *)
Fixpoint general_names_loop (fuel : nat) (dns_names : list (list byte)) : M Reader unit (list (list byte)) :=
  r ← get;
  if is_finished r then mret dns_names
  else match fuel with
  | O => diverge
  | S fuel' =>
      tag_byte ← ok_or (peek_byte r) tt;
      '(_, len) ← reading_op Header_decode;
      gn_value ← reading_op (read_slice len);
      if decide (tag_byte = DNS_NAME_TAG) then
        gn_value_str ← ok_or (if utf8_valid gn_value then Some gn_value else None) tt;
        dns_name ← ok_or (vec_extend HOSTNAME_MAXLEN [] gn_value_str) tt;
        let dns_names' := default dns_names (vec_push MAX_SAN_DNS_NAMES dns_names dns_name) in
        if decide (length dns_names' = MAX_SAN_DNS_NAMES) then mret dns_names'
        else general_names_loop fuel' dns_names'
      else general_names_loop fuel' dns_names
  end.

Section ExtractSan.
Context {St : Type}.
Abbreviation DM := (M St unit).

(** The body of the loop over the extensions. *)
Definition san_step (dns_names : list (list byte)) (elems : ExtensionIdAndValue) :
    DM (list (list byte)) :=
  if decide (extn_id elems <> SUBJECT_ALT_NAME_OID) then mret dns_names
  else
    assert_tag (any_tag (extn_value elems)) Tag_OctetString;;
    san_reader ← ok_or (SliceReader_new (any_value (extn_value elems))) tt;
    san_content ← run_on san_reader
      ('(tag, len) ← reading_op Header_decode;
       assert_tag tag Tag_Sequence;;
       reading_op (read_slice len));
    gn_reader ← ok_or (SliceReader_new san_content) tt;
    run_on gn_reader (general_names_loop (remaining_len gn_reader) dns_names).

Fixpoint san_loop (exts : list ExtensionIdAndValue) (dns_names : list (list byte)) :
    DM (list (list byte)) :=
  match exts with
  | [] => mret dns_names
  | elems :: exts' => dns_names' ← san_step dns_names elems; san_loop exts' dns_names'
  end.

Definition extract_san_dns_names (tbs : TbsCertificate) : DM (list (list byte)) :=
  match tbs_extensions tbs with
  | None => mret []
  | Some exts => san_loop exts []
  end.
End ExtractSan.
End Certificates.
Arguments AlgorithmIdentifier {DO}.
Arguments DecodedCertificate {DO}.
Arguments TbsCertificate {DO}.
Arguments Time {DO}.

(** [DecodedCertificate::from_der], generated by the derive macro of the crate. *)
Class DerDecode `{DO : DerOps} : Type := {
  from_der : list byte -> option DecodedCertificate;
}.

(** ** The extraction of names returns, whatever the certificate

    The names fit the buffers of the source, at most three DNS names are kept. *)

Definition fits (n : list byte) : Prop := length n <= HOSTNAME_MAXLEN.

Section Total.
Context `{DO : DerOps} {St : Type}.
Implicit Types st : St.

Lemma vec_extend_fits xs v : vec_extend HOSTNAME_MAXLEN [] xs = Some v -> fits v.
Proof. unfold vec_extend, fits. case_decide; [|done]. by intros [= <-]. Qed.

Lemma common_name_loop_wp rdns acc st :
  (forall n, acc = Some n -> fits n) ->
  wp (common_name_loop rdns acc) st
    (fun o st' => st' = st /\ forall n, o = Some n -> fits n) (fun _ st' => st' = st).
Proof.
  revert acc. induction rdns as [|elems rdns IH]; intros acc Hacc; [done|].
  simpl. apply wp_bind. unfold common_name_step. rewrite wp_bind, wp_ok_or.
  destruct (elems !! 0) as [attrs|]; [|done]. case_decide; [|by apply IH].
  rewrite wp_bind, wp_ok_or. destruct (vec_extend _ _ _) as [v|] eqn:Hv; [|done].
  apply vec_extend_fits in Hv. apply IH. destruct (utf8_valid v); naive_solver.
Qed.

Lemma extract_common_name_wp tbs st :
  wp (extract_common_name tbs) st
    (fun o st' => st' = st /\ forall n, o = Some n -> fits n) (fun _ st' => st' = st).
Proof. by apply common_name_loop_wp. Qed.

Definition names_ok (ns : list (list byte)) : Prop := Forall fits ns /\ length ns <= MAX_SAN_DNS_NAMES.

Lemma names_ok_push ns n :
  names_ok ns -> fits n -> names_ok (default ns (vec_push MAX_SAN_DNS_NAMES ns n)).
Proof.
  unfold names_ok, vec_push. intros [HF Hl] Hn. case_decide; simpl; [|done].
  split; [apply Forall_app; auto|]. len.
Qed.

Context `{!DerLaws}.

Lemma wp_reading_op {A} (f : Reader -> option (A * Reader)) r Q R :
  wp (reading_op f) r Q R <->
  match f r with Some (a, r') => Q a r' | None => R tt r end.
Proof. unfold wp, reading_op. by destruct (f r) as [[]|]. Qed.

Lemma general_names_loop_wp fuel ns r :
  remaining_len r <= fuel -> names_ok ns ->
  wp (general_names_loop fuel ns) r (fun ns' _ => names_ok ns') (fun _ _ => True).
Proof.
  revert ns r. induction fuel as [|fuel IH]; intros ns r Hr Hns; simpl; rewrite wp_bind, wp_get.
  all: destruct (is_finished r) eqn:Hf; [done|].
  { assert (remaining_len r = 0) as H0 by lia. apply is_finished_empty in H0. congruence. }
  rewrite wp_bind, wp_ok_or. destruct (peek_byte r) as [tag|]; [|done].
  rewrite wp_bind, wp_reading_op. destruct (Header_decode r) as [[[t len] r1]|] eqn:Hh; [|done].
  apply Header_decode_consumes in Hh.
  rewrite wp_bind, wp_reading_op. destruct (read_slice len r1) as [[v r2]|] eqn:Hv; [|done].
  apply read_slice_consumes in Hv.
  case_decide; [|by apply IH; [lia|]].
  rewrite wp_bind, wp_ok_or. destruct (utf8_valid v); [|done].
  rewrite wp_bind, wp_ok_or. destruct (vec_extend _ _ _) as [n|] eqn:Hn; [|done].
  pose proof (names_ok_push ns n Hns (vec_extend_fits _ _ Hn)).
  case_decide; [done|]. apply IH; [lia|done].
Qed.

Lemma assert_tag_wp {S} t t' (s : S) Q R :
  (t = t' -> Q tt s) -> R tt s -> wp (assert_tag t t') s Q R.
Proof. intros HQ HR. unfold assert_tag. case_decide; [by apply HQ|done]. Qed.

Lemma san_step_wp ns elems st :
  names_ok ns ->
  wp (san_step ns elems) st (fun ns' st' => st' = st /\ names_ok ns') (fun _ st' => st' = st).
Proof.
  intros Hns. unfold san_step. case_decide; [done|].
  apply wp_bind, assert_tag_wp; [intros _|done].
  rewrite wp_bind, wp_ok_or. destruct (SliceReader_new _) as [r|]; [|done].
  rewrite wp_bind, wp_run_on, wp_bind, wp_reading_op.
  destruct (Header_decode r) as [[[t len] r1]|]; [|done].
  apply wp_bind, assert_tag_wp; [intros _|done].
  rewrite wp_reading_op. destruct (read_slice _ _) as [[content r2]|]; [|done].
  rewrite wp_bind, wp_ok_or. destruct (SliceReader_new content) as [gn|]; [|done].
  rewrite wp_run_on. eapply wp_mono; [by apply general_names_loop_wp|done|done].
Qed.

Lemma extract_san_dns_names_wp tbs st :
  wp (extract_san_dns_names tbs) st
    (fun ns st' => st' = st /\ names_ok ns) (fun _ st' => st' = st).
Proof.
  assert (names_ok []) as H0 by (split; [constructor|simpl; lia]).
  unfold extract_san_dns_names. destruct (tbs_extensions tbs) as [exts|]; [|done].
  revert H0. generalize (@nil (list byte)) as ns. induction exts as [|e exts IH]; intros ns Hns; [done|].
  simpl. apply wp_bind. eapply wp_mono; [by apply san_step_wp| |done]. intros ns' ? [-> ?]. by apply IH.
Qed.
End Total.
