(* ===== verification/Pki.v ===== *)
(** The certificate verifier of the rustpki feature (pki.rs).

    [CertVerifier] checks the chain of a Certificate message from the configured CA down
    to the server's certificate, the host name, and the signature of CertificateVerify.
    The signature schemes are crates: [Scheme] is what the source uses of one, and
    [SignatureCrates] lists them.  [Features] are the cargo features that add schemes. *)

From S2P Require Import Prelude Errors CryptoBuffer ParseBuffer Wire ExtensionData Extensions.
From S2P Require Import CryptoSuite KeySchedule ClientHello Handshake Hostname DerCertificate.
From Stdlib Require Import ZArith Lia.
From Stdlib Require Import Strings.Byte.
From Stdlib Require Strings.String.
From stdpp Require Import base list option numbers tactics sets.

Import Stdlib.Strings.String.StringSyntax.

(** ** The signature crates *)

(** [from_sec1_bytes], [from_bytes] or [from_pkcs1_der]; [from_der] or [try_from]; and
    [Verifier::verify(..).is_ok()]. *)
Record Scheme : Type := mkScheme {
  VerifyingKey : Type;
  Signature : Type;
  key_of : list byte -> option VerifyingKey;
  signature_of : list byte -> option Signature;
  verifies : VerifyingKey -> list byte -> Signature -> bool;
}.

Inductive Sha2 : Type := Sha256 | Sha384 | Sha512.

Class SignatureCrates : Type := {
  p256_ecdsa : Scheme;
  p384_ecdsa : Scheme;
  ed25519_dalek : Scheme;
  rsa_pss : Sha2 -> Scheme;
  rsa_pkcs1v15 : Sha2 -> Scheme;
}.

Class Features : Type := { f_p384 : bool; f_ed25519 : bool; f_rsa : bool }.

(** [bytes.try_into()] to a [[u8; 32]]. *)
Definition array32 (bytes : list byte) : option (list byte) :=
  if decide (length bytes = 32) then Some bytes else None.

Section Pki.
Context `{DO : DerOps, DD : !DerDecode, SC : SignatureCrates, FT : Features}.

Section Checks.
Context {St : Type}.
Abbreviation TM := (M St TlsError).

(** The end of every case of [verify_signature]: the signature is decoded and checked. *)
Definition check_signature (s : Scheme) (vk : VerifyingKey s) (message signature : list byte) : TM bool :=
  sg ← ok_or (signature_of s signature) DecodeError;
  mret (verifies s vk message sg).

(** The [match] on the scheme of the message. *)
Definition signature_verified (message public_key : list byte) (verify : CertificateVerifyRef) : TM bool :=
  match signature_scheme verify with
  | EcdsaSecp256r1Sha256 =>
      vk ← ok_or (key_of p256_ecdsa public_key) DecodeError;
      check_signature p256_ecdsa vk message (signature verify)
  | EcdsaSecp384r1Sha384 =>
      if f_p384 then
        vk ← ok_or (key_of p384_ecdsa public_key) DecodeError;
        check_signature p384_ecdsa vk message (signature verify)
      else err InvalidSignatureScheme
  | Ed25519 =>
      if f_ed25519 then
        bytes ← unwrap (array32 public_key);
        vk ← ok_or (key_of ed25519_dalek bytes) DecodeError;
        check_signature ed25519_dalek vk message (signature verify)
      else err InvalidSignatureScheme
  | RsaPssRsaeSha256 =>
      if f_rsa then
        vk ← unwrap (key_of (rsa_pss Sha256) public_key);
        check_signature (rsa_pss Sha256) vk message (signature verify)
      else err InvalidSignatureScheme
  | RsaPssRsaeSha384 =>
      if f_rsa then
        vk ← ok_or (key_of (rsa_pss Sha384) public_key) DecodeError;
        check_signature (rsa_pss Sha384) vk message (signature verify)
      else err InvalidSignatureScheme
  | RsaPssRsaeSha512 =>
      if f_rsa then
        vk ← ok_or (key_of (rsa_pss Sha512) public_key) DecodeError;
        check_signature (rsa_pss Sha512) vk message (signature verify)
      else err InvalidSignatureScheme
  | _ => err InvalidSignatureScheme
  end.

Definition verify_signature (message : list byte) (certificate : CertificateRef)
    (verify : CertificateVerifyRef) : TM unit :=
  certificate ← match entries certificate with
                | X509 certificate :: _ => mret certificate
                | _ => err DecodeError
                end;
  certificate ← ok_or (from_der certificate) DecodeError;
  public_key ← ok_or (as_bytes (spki_public_key (subject_public_key_info (tbs_certificate certificate))))
                 DecodeError;
  verified ← signature_verified message public_key verify;
  if negb verified then err InvalidSignature else mret tt.

(** The bytes of [tbsCertificate]. *)
Definition get_certificate_tlv_bytes (input : list byte) {S} : M S unit (list byte) :=
  reader ← ok_or (SliceReader_new input) tt;
  run_on reader
    ('(tag, _) ← reading_op Header_decode;
     assert_tag tag Tag_Sequence;;
     '(tag, _) ← reading_op Header_peek;
     assert_tag tag Tag_Sequence;;
     reading_op tlv_bytes).

Definition get_cert_time (time : Time) : Z :=
  match time with
  | Time_UtcTime utc_time => utc_unix_secs utc_time
  | Time_GeneralTime generalized_time => generalized_unix_secs generalized_time
  end.

(** The end of every case of [verify_certificate]. *)
Definition check_certificate (s : Scheme) (vk : VerifyingKey s) (certificate_data : list byte)
    (sig : BitStringRef) : TM bool :=
  bytes ← ok_or (as_bytes sig) (TlsParseError InvalidData);
  sg ← ok_or (signature_of s bytes) (TlsParseError InvalidData);
  mret (verifies s vk certificate_data sg).

(** The [match] on the signature algorithm; a case of a missing feature falls through. *)
Definition certificate_verified (alg : AlgorithmIdentifier) (ca_public_key certificate_data : list byte)
    (sig : BitStringRef) : TM bool :=
  if decide (alg = ECDSA_SHA256) then
    vk ← ok_or (key_of p256_ecdsa ca_public_key) DecodeError;
    check_certificate p256_ecdsa vk certificate_data sig
  else if f_p384 && bool_decide (alg = ECDSA_SHA384) then
    vk ← ok_or (key_of p384_ecdsa ca_public_key) DecodeError;
    check_certificate p384_ecdsa vk certificate_data sig
  else if f_ed25519 && bool_decide (alg = ED25519) then
    bytes ← unwrap (array32 ca_public_key);
    vk ← ok_or (key_of ed25519_dalek bytes) DecodeError;
    check_certificate ed25519_dalek vk certificate_data sig
  else if f_rsa && bool_decide (alg = RSA_PKCS1_SHA256) then
    vk ← ok_or (key_of (rsa_pkcs1v15 Sha256) ca_public_key) DecodeError;
    check_certificate (rsa_pkcs1v15 Sha256) vk certificate_data sig
  else if f_rsa && bool_decide (alg = RSA_PKCS1_SHA384) then
    vk ← ok_or (key_of (rsa_pkcs1v15 Sha384) ca_public_key) DecodeError;
    check_certificate (rsa_pkcs1v15 Sha384) vk certificate_data sig
  else if f_rsa && bool_decide (alg = RSA_PKCS1_SHA512) then
    vk ← ok_or (key_of (rsa_pkcs1v15 Sha512) ca_public_key) DecodeError;
    check_certificate (rsa_pkcs1v15 Sha512) vk certificate_data sig
  else err InvalidSignatureScheme.

(** [if let Some(now) = now { .. }] *)
Definition in_validity (v : Validity) (now : option Z) : bool :=
  match now with
  | None => true
  | Some now => negb (bool_decide (now < get_cert_time (not_before v))%Z
                      || bool_decide (get_cert_time (not_after v) < now)%Z)
  end.

Definition verify_certificate (verifier certificate : CertificateEntryRef) (now : option Z) :
    TM CertificateNames :=
  ca_certificate ← match verifier with
                   | X509 verifier => ok_or (from_der verifier) DecodeError
                   | RawPublicKey _ => err DecodeError
                   end;
  '(verified, names) ←
    match certificate with
    | X509 certificate =>
        parsed ← ok_or (from_der certificate) DecodeError;
        ca_public_key ←
          ok_or (as_bytes (spki_public_key (subject_public_key_info (tbs_certificate ca_certificate))))
            DecodeError;
        common_name ← map_err (fun _ => DecodeError) (extract_common_name (tbs_certificate parsed));
        san_dns_names ← map_err (fun _ => DecodeError) (extract_san_dns_names (tbs_certificate parsed));
        if negb (in_validity (validity (tbs_certificate parsed)) now) then err InvalidCertificate
        else
          certificate_data ← map_err (fun _ => DecodeError) (get_certificate_tlv_bytes certificate);
          verified ← certificate_verified (signature_algorithm parsed) ca_public_key certificate_data
                       (decoded_signature parsed);
          mret (verified, mkNames common_name san_dns_names)
    | RawPublicKey _ => mret (false, mkNames None [])
    end;
  if negb verified then err InvalidCertificate else mret names.
End Checks.

(** ** CertificateChain *)

(** The iterator over the links of the chain, from the CA down; [idx] is an [isize]. *)
Record CertificateChain : Type := mkChain {
  prev : CertificateEntryRef;
  chain : CertificateRef;
  idx : Z;
}.

Definition CertificateChain_new (ca : CertificateEntryRef) (chain : CertificateRef) : CertificateChain :=
  mkChain ca chain (Z.of_nat (length (entries chain)) - 1).

Definition chain_next {E} : M CertificateChain E (option (CertificateEntryRef * CertificateEntryRef)) :=
  c ← get;
  if decide (idx c < 0)%Z then mret None
  else
    cur ← unwrap (entries (chain c) !! Z.to_nat (idx c));
    put (mkChain cur (chain c) (idx c - 1));;
    mret (Some (prev c, cur)).

(** [for (p, q) in chain { names = verify_certificate(p, q, Clock::now())?; }]; [now i] is
    the [i]-th reading of the clock. *)
Fixpoint chain_loop (fuel i : nat) (now : nat -> option Z) (names : CertificateNames) :
    M CertificateChain TlsError CertificateNames :=
  match fuel with
  | O => diverge
  | S fuel' =>
      r ← chain_next;
      match r with
      | None => mret names
      | Some (p, q) =>
          names' ← verify_certificate p q (now i);
          chain_loop fuel' (i + 1) now names'
      end
  end.

(** ** CertVerifier *)

(** [config::Certificate] and its conversion to an entry. *)
Inductive ConfigCertificate : Type :=
| Config_X509 (data : list byte)
| Config_RawPublicKey (data : list byte).

Definition CertificateEntryRef_from (c : ConfigCertificate) : CertificateEntryRef :=
  match c with
  | Config_X509 data => X509 data
  | Config_RawPublicKey data => RawPublicKey data
  end.

(** [certificate_transcript] is the running hash, the bytes absorbed so far. *)
Record CertVerifier : Type := mkVerifier {
  ca : ConfigCertificate;
  host : option (list byte);
  certificate_transcript : option (list byte);
  certificate : option Certificate;
}.

Definition CertVerifier_new (ca : ConfigCertificate) : CertVerifier := mkVerifier ca None None None.

Abbreviation VM := (M CertVerifier TlsError).

(** [heapless::String::<64>::try_from] *)
Definition cv_set_hostname_verification (hostname : list byte) : VM unit :=
  h ← ok_or (vec_extend 64 [] hostname) InsufficientSpace;
  modify (fun v => mkVerifier (ca v) (Some h) (certificate_transcript v) (certificate v)).

Context (CERT_SIZE : nat).

Definition cv_verify_certificate (now : nat -> option Z) (transcript : list byte) (cert : CertificateRef) :
    VM unit :=
  v ← get;
  names ← run_on (CertificateChain_new (CertificateEntryRef_from (ca v)) cert)
            (chain_loop (S (length (entries cert))) 0 now (mkNames None []));
  matched ← tls_hostname_match names (host v);
  if negb matched then err InvalidCertificate
  else
    owned ← Certificate_try_from CERT_SIZE cert;
    modify (fun v => mkVerifier (ca v) (host v) (certificate_transcript v) (Some owned));;
    modify (fun v => mkVerifier (ca v) (host v) (Some transcript) (certificate v)).

(** The message that is signed, built in a vector of [capacity] bytes. *)
Definition server_signed_message (capacity : nat) (hash : list byte) {S} : M S TlsError (list byte) :=
  m1 ← ok_or (vec_extend capacity [] (replicate 64 x20)) EncodeError;
  m2 ← ok_or (vec_extend capacity m1 (b_ "TLS 1.3, server CertificateVerify" ++ [x00])) EncodeError;
  ok_or (vec_extend capacity m2 hash) EncodeError.

Definition cv_verify_signature `{CS : TlsCipherSuite} (verify : CertificateVerifyRef) : VM unit :=
  v ← get;
  put (mkVerifier (ca v) (host v) None (certificate v));;
  handshake_hash ← unwrap (certificate_transcript v);
  msg ← server_signed_message 146 (digest_out handshake_hash);
  owned ← unwrap (certificate v);
  cert ← CertificateRef_try_from owned;
  verify_signature msg cert verify.
End Pki.

(** ** What an accepted certificate and signature prove *)

Section Spec.
Context `{DO : DerOps, DD : !DerDecode, SC : SignatureCrates, FT : Features}.

(** [signature] is a signature of [message] under the key encoded by [pk]. *)
Definition accepts (s : Scheme) (pk message signature : list byte) : bool :=
  match key_of s pk, signature_of s signature with
  | Some vk, Some sg => verifies s vk message sg
  | _, _ => false
  end.

(** The algorithms of a certificate's signature and of CertificateVerify, with the
    features that enable them. *)
Definition certificate_algorithms : list (bool * AlgorithmIdentifier * Scheme) :=
  [(true, ECDSA_SHA256, p256_ecdsa); (f_p384, ECDSA_SHA384, p384_ecdsa);
   (f_ed25519, ED25519, ed25519_dalek); (f_rsa, RSA_PKCS1_SHA256, rsa_pkcs1v15 Sha256);
   (f_rsa, RSA_PKCS1_SHA384, rsa_pkcs1v15 Sha384); (f_rsa, RSA_PKCS1_SHA512, rsa_pkcs1v15 Sha512)].

Definition verify_algorithms : list (bool * SignatureScheme * Scheme) :=
  [(true, EcdsaSecp256r1Sha256, p256_ecdsa); (f_p384, EcdsaSecp384r1Sha384, p384_ecdsa);
   (f_ed25519, Ed25519, ed25519_dalek); (f_rsa, RsaPssRsaeSha256, rsa_pss Sha256);
   (f_rsa, RsaPssRsaeSha384, rsa_pss Sha384); (f_rsa, RsaPssRsaeSha512, rsa_pss Sha512)].

Definition public_key_of (c : DecodedCertificate) : option (list byte) :=
  as_bytes (spki_public_key (subject_public_key_info (tbs_certificate c))).

(** [q] is a certificate, valid at [now], whose contents the key of [p] signed; it
    carries [names]. *)
Definition link (p q : CertificateEntryRef) (now : option Z) (names : CertificateNames) : Prop :=
  exists pd qd ca c pk data sig s,
    p = X509 pd /\ q = X509 qd /\ from_der pd = Some ca /\ from_der qd = Some c /\
    public_key_of ca = Some pk /\
    in_validity (validity (tbs_certificate c)) now = true /\
    fst (get_certificate_tlv_bytes qd tt) = Ok data /\ as_bytes (decoded_signature c) = Some sig /\
    (true, signature_algorithm c, s) ∈ certificate_algorithms /\ accepts s pk data sig = true /\
    fst (extract_common_name (tbs_certificate c) tt) = Ok (common_name names) /\
    fst (extract_san_dns_names (tbs_certificate c) tt) = Ok (san_dns_names names).

(** Every certificate of the path [l] is signed by its predecessor, the first one by
    [issuer]; [names] are those of the last one. *)
Fixpoint trusted (now : nat -> option Z) (i : nat) (issuer : CertificateEntryRef)
    (l : list CertificateEntryRef) (names0 names : CertificateNames) : Prop :=
  match l with
  | [] => names = names0
  | q :: l' => exists n, link issuer q (now i) n /\ trusted now (i + 1) q l' n names
  end.

(** What the server signs (RFC 8446, section 4.4.3). *)
Definition server_context (hash : list byte) : list byte :=
  replicate 64 x20 ++ (b_ "TLS 1.3, server CertificateVerify" ++ [x00]) ++ hash.

(** The owner of the first certificate of [cert] signed [message]. *)
Definition signed_by_leaf (cert : CertificateRef) (message : list byte) (verify : CertificateVerifyRef) : Prop :=
  exists leaf rest c pk s,
    entries cert = X509 leaf :: rest /\ from_der leaf = Some c /\ public_key_of c = Some pk /\
    (true, signature_scheme verify, s) ∈ verify_algorithms /\
    accepts s pk message (signature verify) = true.

End Spec.

(** ** Computations that do not look at the state they run on *)

Definition agnostic {S1 S2 E A} (m1 : M S1 E A) (m2 : M S2 E A) : Prop :=
  forall s1 s2, fst (m1 s1) = fst (m2 s2) /\ snd (m1 s1) = s1 /\ snd (m2 s2) = s2.

Section Agnostic.
Context {S1 S2 E : Type}.

Lemma agnostic_ret {A} (a : A) : agnostic (mret a : M S1 E A) (mret a : M S2 E A).
Proof. by intros ? ?. Qed.
Lemma agnostic_err {A} (e : E) : agnostic (err e : M S1 E A) (err e : M S2 E A).
Proof. by intros ? ?. Qed.
Lemma agnostic_ok_or {A} (o : option A) (e : E) : agnostic (ok_or o e : M S1 E A) (ok_or o e : M S2 E A).
Proof. destruct o; [apply agnostic_ret|apply agnostic_err]. Qed.
Lemma agnostic_run_on {T A} (t : T) (m : M T E A) : agnostic (run_on t m : M S1 E A) (run_on t m : M S2 E A).
Proof. intros ? ?. unfold run_on. by destruct (m t) as [[] ?]. Qed.
Lemma agnostic_bind {A B} (m1 : M S1 E A) (m2 : M S2 E A) (k1 : A -> M S1 E B) (k2 : A -> M S2 E B) :
  agnostic m1 m2 -> (forall a, agnostic (k1 a) (k2 a)) -> agnostic (m1 ≫= k1) (m2 ≫= k2).
Proof.
  intros Hm Hk s1 s2. unfold mbind, M_bind. specialize (Hm s1 s2).
  destruct (m1 s1) as [r1 t1], (m2 s2) as [r2 t2]. simpl in Hm. destruct Hm as (-> & -> & ->).
  destruct r2; try done. apply Hk.
Qed.
End Agnostic.

Ltac agnostic :=
  repeat first [apply agnostic_bind; [|intros ?] | apply agnostic_ret | apply agnostic_err
               | apply agnostic_ok_or | apply agnostic_run_on | case_decide | assumption].

Section Names.
Context `{DO : DerOps} {S1 S2 : Type}.

Lemma extract_common_name_any tbs :
  agnostic (extract_common_name (St := S1) tbs) (extract_common_name (St := S2) tbs).
Proof.
  unfold extract_common_name. generalize (@None (list byte)) as acc.
  induction (subject tbs) as [|e rdns IH]; intros acc; simpl; [apply agnostic_ret|].
  apply agnostic_bind; [|apply IH]. unfold common_name_step. agnostic.
Qed.

Lemma extract_san_any tbs :
  agnostic (extract_san_dns_names (St := S1) tbs) (extract_san_dns_names (St := S2) tbs).
Proof.
  unfold extract_san_dns_names. destruct (tbs_extensions tbs) as [exts|]; [|apply agnostic_ret].
  generalize (@nil (list byte)) as ns.
  induction exts as [|e exts IH]; intros ns; simpl; [apply agnostic_ret|].
  apply agnostic_bind; [|apply IH]. unfold san_step, assert_tag. agnostic.
Qed.

Lemma get_certificate_any d :
  agnostic (get_certificate_tlv_bytes d (S := S1)) (get_certificate_tlv_bytes d (S := S2)).
Proof. unfold get_certificate_tlv_bytes. agnostic. Qed.
End Names.

(** ** Soundness *)

Section Sound.
Context `{DO : DerOps, DD : !DerDecode, SC : SignatureCrates, FT : Features}.

(** An accepted signature, when the source decodes the key and then the signature. *)
Lemma accepts_intro s pk msg sig vk sg :
  key_of s pk = Some vk -> signature_of s sig = Some sg -> verifies s vk msg sg = true ->
  accepts s pk msg sig = true.
Proof. unfold accepts. by intros -> ->. Qed.

Lemma array32_Some xs ys : array32 xs = Some ys -> ys = xs.
Proof. unfold array32. case_decide; congruence. Qed.

Lemma check_certificate_post {St} s vk pk data sig (st : St) :
  key_of s pk = Some vk ->
  post (check_certificate s vk data sig) st
    (fun b st' => st' = st /\ (b = true -> exists bytes, as_bytes sig = Some bytes /\ accepts s pk data bytes = true)).
Proof.
  intros Hk. unfold check_certificate. do 2 (post_step; post_step). post_step. split; [done|].
  eauto using accepts_intro.
Qed.

Lemma certificate_verified_post {St} alg pk data sig (st : St) :
  post (certificate_verified alg pk data sig) st
    (fun b st' => st' = st /\ (b = true -> exists s bytes, (true, alg, s) ∈ certificate_algorithms /\
       as_bytes sig = Some bytes /\ accepts s pk data bytes = true)).
Proof.
  assert (forall s vk, (true, alg, s) ∈ certificate_algorithms -> key_of s pk = Some vk ->
    post (check_certificate s vk data sig) st
      (fun b st' => st' = st /\ (b = true -> exists s bytes, (true, alg, s) ∈ certificate_algorithms /\
         as_bytes sig = Some bytes /\ accepts s pk data bytes = true))) as Hcase.
  { intros s vk Hs Hk. eapply post_mono; [by apply check_certificate_post|].
    intros b st' [-> Hb]. split; [done|]. intros Ht. destruct (Hb Ht) as (bytes & ? & ?). eauto. }
  unfold certificate_verified, certificate_algorithms in *. case_decide as Ha.
  { subst alg. do 2 post_step. apply Hcase; [by repeat constructor|done]. }
  clear Ha. destruct f_p384, f_ed25519, f_rsa; cbn [andb].
  all: repeat match goal with
  | |- post (if bool_decide (?x = ?a) then _ else _) _ _ =>
      destruct (bool_decide_reflect (x = a)) as [->|];
        [do 2 post_step; try (apply array32_Some in H as ->; do 2 post_step); apply Hcase; [by repeat constructor|done]|]
  end.
  all: apply post_err.
Qed.

(** A computation that leaves the state alone, run elsewhere. *)
Lemma agnostic_post {S E A} (m : M S E A) (m' : M unit E A) st (Q : A -> S -> Prop) :
  agnostic m m' -> (forall a, fst (m' tt) = Ok a -> Q a st) -> post m st Q.
Proof.
  intros Hm HQ a s' Hs'. destruct (Hm st tt) as (Hr & Hs & _). rewrite Hs' in Hr, Hs. simpl in *.
  subst s'. by apply HQ.
Qed.

Lemma verify_certificate_post {St} p q now (st : St) :
  post (verify_certificate p q now) st (fun names st' => st' = st /\ link p q now names).
Proof.
  unfold verify_certificate. post_step. destruct p as [pd|]; [|post_step].
  post_step. rename a into ca_cert, H into Hca.
  post_step. destruct q as [qd|]; [|post_step; cbn; post_step].
  post_step. post_step. rename a into c, H into Hc. post_step. post_step. rename a into pk, H into Hpk.
  post_step. post_step. eapply agnostic_post; [apply extract_common_name_any|]. intros cn Hcn.
  post_step. post_step. eapply agnostic_post; [apply extract_san_any|]. intros sans Hsans.
  destruct (in_validity _ _) eqn:Hv; cbn [negb]; [|post_step].
  post_step. post_step. eapply agnostic_post; [apply get_certificate_any|]. intros data Hdata.
  post_step. eapply post_mono; [apply certificate_verified_post|]. intros b st' [-> Hb].
  post_step. destruct b; cbn [negb]; [|post_step]. post_step. split; [done|].
  destruct (Hb eq_refl) as (s & bytes & Hs & Hsig & Hacc).
  exists pd, qd, ca_cert, c, pk, data, bytes, s. by split_and!.
Qed.

(** The loop over the chain checks every link, from the CA to the first entry. *)
Lemma chain_loop_post fuel i now names p c n :
  n <= length (entries c) ->
  post (chain_loop fuel i now names) (mkChain p c (Z.of_nat n - 1))
    (fun names' _ => trusted now i p (rev (take n (entries c))) names names').
Proof.
  revert i names p n. induction fuel as [|fuel IH]; intros i names p n Hn; simpl; [done|].
  post_step. unfold chain_next. do 2 post_step. cbn [idx prev chain]. destruct n as [|n].
  { rewrite decide_True by lia. do 2 post_step. done. }
  rewrite decide_False by lia. do 2 post_step. rename a into cur, H into Hcur.
  replace (Z.to_nat (Z.of_nat (S n) - 1)) with n in Hcur by lia.
  rewrite (take_S_r _ _ _ Hcur), rev_app_distr. simpl.
  do 3 post_step. post_step. eapply post_mono; [apply verify_certificate_post|].
  intros names' ? [-> Hlink]. eapply post_mono.
  - replace (Z.of_nat (S n) - 1 - 1)%Z with (Z.of_nat n - 1)%Z by lia. apply IH. lia.
  - intros names'' ? Ht. by exists names'.
Qed.

(** The names a trusted path ends with come from its last certificate, and fit. *)
Lemma trusted_fit `{!DerLaws} now i p l names0 names :
  names_fit names0 -> trusted now i p l names0 names -> names_fit names.
Proof.
  revert i p names0. induction l as [|q l IH]; simpl; intros i p names0 H0; [by intros ->|].
  intros (n & Hlink & Ht). eapply IH; [|done].
  destruct Hlink as (pd & qd & ca & c & pk & data & sig & s & _ & _ & _ & _ & _ & _ & _ & _ & _ & _ & Hcn & Hsan).
  pose proof (extract_common_name_wp (tbs_certificate c) tt) as H1.
  pose proof (extract_san_dns_names_wp (tbs_certificate c) tt) as H2. unfold wp in H1, H2.
  destruct (extract_common_name _ _) as [r1 ?], (extract_san_dns_names _ _) as [r2 ?]. simpl in *. subst r1 r2.
  split; [by destruct H2 as [_ [? _]]|]. by destruct H1 as [_ ?].
Qed.

(** The names of the server's certificate match the configured host. *)
Definition host_ok (host : option (list byte)) (names : CertificateNames) : Prop :=
  match host with
  | Some h => existsb (fun n => name_matches n h) (san_dns_names names ++ option_list (common_name names)) = true
  | None => names = mkNames None []
  end.

Lemma vec_extend_Some N (v xs w : list byte) : vec_extend N v xs = Some w -> w = v ++ xs.
Proof. unfold vec_extend. case_decide; congruence. Qed.

Lemma vec_extend_all N xs v : vec_extend N [] xs = Some v -> v = xs.
Proof. unfold vec_extend. case_decide; [|done]. by intros [= <-]. Qed.

Lemma cv_verify_certificate_post `{!DerLaws} N now transcript cert v :
  (forall h, host v = Some h -> length h <= HOSTNAME_MAXLEN) ->
  post (cv_verify_certificate N now transcript cert) v (fun _ v' => exists names,
    trusted now 0 (CertificateEntryRef_from (ca v)) (rev (entries cert)) (mkNames None []) names /\
    host_ok (host v) names /\
    v' = mkVerifier (ca v) (host v) (Some transcript) (Some (mkOwnedCert (request_context cert) (raw_entries cert)))).
Proof.
  intros Hh. unfold cv_verify_certificate. do 4 post_step. eapply post_mono.
  { apply chain_loop_post. lia. }
  intros names ? Ht. cbn beta in Ht. rewrite take_ge in Ht by lia.
  assert (names_fit names) as Hfit.
  { eapply trusted_fit; [|done]. split; [constructor|done]. }
  post_step. eapply post_run; [by apply hostname_match_names|].
  match goal with |- context [negb ?b] => destruct b eqn:Hm end; cbn [negb]; [|post_step].
  unfold Certificate_try_from. repeat post_step.
  repeat match goal with H : vec_extend _ _ _ = Some _ |- _ => apply vec_extend_all in H as -> end.
  exists names. split_and!; [done| |done].
  unfold host_ok. destruct (host v); [done|]. by apply bool_decide_eq_true in Hm.
Qed.

Lemma check_signature_post {St} s vk pk msg verify (st : St) :
  (true, signature_scheme verify, s) ∈ verify_algorithms -> key_of s pk = Some vk ->
  post (check_signature s vk msg (signature verify)) st
    (fun b st' => st' = st /\ (b = true -> exists s, (true, signature_scheme verify, s) ∈ verify_algorithms /\
                                     accepts s pk msg (signature verify) = true)).
Proof. intros Hs Hk. unfold check_signature. repeat post_step. split; [done|]. eauto using accepts_intro. Qed.

Lemma signature_verified_post {St} msg pk verify (st : St) :
  post (signature_verified msg pk verify) st
    (fun b st' => st' = st /\ (b = true -> exists s, (true, signature_scheme verify, s) ∈ verify_algorithms /\
                                     accepts s pk msg (signature verify) = true)).
Proof.
  pose proof (fun s vk => check_signature_post s vk pk msg verify st) as Hcase.
  unfold signature_verified, verify_algorithms in *.
  destruct f_p384, f_ed25519, f_rsa, (signature_scheme verify); try post_step.
  all: post_step; try (apply array32_Some in H as ->; do 2 post_step); apply Hcase; [by repeat constructor|done].
Qed.

Lemma verify_signature_post {St} msg cert verify (st : St) :
  post (verify_signature msg cert verify) st (fun _ st' => st' = st /\ signed_by_leaf cert msg verify).
Proof.
  unfold verify_signature. post_step. destruct (entries cert) as [|[leaf|] rest] eqn:He; try post_step.
  post_step. post_step. rename a into c, H into Hc. post_step. post_step. rename a into pk, H into Hpk.
  post_step. eapply post_mono; [apply signature_verified_post|].
  intros [] s' [-> Hs]; cbn [negb]; post_step. destruct (Hs eq_refl) as (s & ? & ?).
  split; [done|]. by exists leaf, rest, c, pk, s.
Qed.

(** The entries of a parsed message are those of its raw bytes. *)
Lemma certificate_parse_entries b :
  post CertificateRef_parse b (fun cert _ =>
    fst (CertificateEntryRef_parse_vector 16 (pb_new (raw_entries cert))) = Ok (entries cert)).
Proof.
  unfold CertificateRef_parse. do 3 (post_step; eapply post_mono; [apply post_True|intros ? ? _]).
  post_step. apply (post_mono _ _ (fun raw _ => exists xs, raw = pb_new xs)).
  { unfold slice. post_step. do 2 post_step. case_decide; [|post_step]. do 2 post_step.
    post_step. eapply post_mono; [apply post_True|intros ? ? _]. post_step. eauto. }
  intros raw b4 [xs ->]. post_step. post_step. intros es b5 Hes. post_step. simpl.
  unfold pb_as_slice. simpl. by rewrite Hes.
Qed.

Context `{CS : TlsCipherSuite}.

Lemma server_signed_message_post capacity hash {S} (s : S) :
  post (server_signed_message capacity hash) s (fun m s' => m = server_context hash /\ s' = s).
Proof.
  unfold server_signed_message. do 5 post_step.
  repeat match goal with H : vec_extend _ _ _ = Some _ |- _ => apply vec_extend_Some in H as -> end.
  split; [|done]. unfold server_context. by rewrite !app_assoc.
Qed.

Lemma cv_verify_signature_post verify v :
  post (cv_verify_signature verify) v (fun _ v' => v' = mkVerifier (ca v) (host v) None (certificate v) /\
    exists t owned es, certificate_transcript v = Some t /\ certificate v = Some owned /\
    fst (CertificateEntryRef_parse_vector 16 (pb_new (entries_data owned))) = Ok es /\
    signed_by_leaf (mkCert (entries_data owned) (oc_context owned) es) (server_context (digest_out t)) verify).
Proof.
  unfold cv_verify_signature. do 4 post_step. post_step. post_step. rename a into t, H into Ht.
  post_step. eapply post_mono; [apply server_signed_message_post|]. intros ? ? [-> ->].
  do 2 post_step. rename a into owned. unfold CertificateRef_try_from. post_step. post_step. post_step.
  intros es b Hes. post_step. eapply post_mono; [apply verify_signature_post|]. intros ? ? [-> Hs].
  split; [done|]. exists t, owned, es. split_and!; [done|done|by rewrite Hes|done].
Qed.

(** C37: When the verifier, configured with a CA and a host name, accepts a parsed
    Certificate message and then a CertificateVerify, there is a path of certificates from
    the CA down to the first entry of the message, each valid at its reading of the clock
    and signed under the key of its predecessor; the names of the first entry match the
    host; and its key made the signature over the RFC 8446 context string and the hash
    of the transcript up to the certificate. *)
Theorem pki_authenticates `{!DerLaws} N now t b cert b' ca_cert h verify v' :
  CertificateRef_parse b = (Ok cert, b') ->
  (cv_set_hostname_verification h;; cv_verify_certificate N now t cert;; cv_verify_signature verify)
    (CertVerifier_new ca_cert) = (Ok tt, v') ->
  exists names,
    trusted now 0 (CertificateEntryRef_from ca_cert) (rev (entries cert)) (mkNames None []) names /\
    host_ok (Some h) names /\
    signed_by_leaf cert (server_context (digest_out t)) verify.
Proof.
  intros Hes%certificate_parse_entries.
  refine ((_ : post _ _ (fun _ _ => _)) tt v'). unfold cv_set_hostname_verification.
  do 4 post_step. assert (a = h /\ length h <= 64) as [-> Hh].
  { unfold vec_extend in *. case_decide; [|done]. by simplify_eq/=. }
  post_step. eapply post_mono; [apply cv_verify_certificate_post|].
  { by intros ? [= <-]. }
  intros _ v1 (names & Ht & Hhost & ->). eapply post_mono; [apply cv_verify_signature_post|].
  intros _ v2 (_ & t' & owned & es & [= <-] & [= <-] & He & Hs). simpl in He. rewrite Hes in He.
  injection He as <-. exists names. split_and!; [done|done|].
  destruct Hs as (leaf & rest & c & pk & s & ? & ? & ? & ? & ?). by exists leaf, rest, c, pk, s.
Qed.
End Sound.

(** ** The outcomes of verify_signature *)

Section Outcomes.
Context `{DO : DerOps, DD : !DerDecode, SC : SignatureCrates, FT : Features}.

(** [pk] is the key of the first certificate. *)
Definition leaf_key (es : list CertificateEntryRef) (pk : list byte) : Prop :=
  exists leaf rest c, es = X509 leaf :: rest /\ from_der leaf = Some c /\ public_key_of c = Some pk.

(** The scheme of the message and the key of the certificate make a conversion panic. *)
Definition key_panics (verify : CertificateVerifyRef) (pk : list byte) : Prop :=
  (signature_scheme verify = Ed25519 /\ f_ed25519 = true /\ length pk <> 32) \/
  (signature_scheme verify = RsaPssRsaeSha256 /\ f_rsa = true /\ key_of (rsa_pss Sha256) pk = None).

(** [m] returns, or panics exactly when [P]. *)
Definition outcome {S E A} (m : M S E A) (s : S) (P : Prop) : Prop :=
  fst (m s) <> Diverge /\ (fst (m s) = Panic <-> P).

Lemma outcome_wp {S E A} (m : M S E A) s : wp m s (fun _ _ => True) (fun _ _ => True) -> outcome m s False.
Proof. unfold wp, outcome. by destruct (m s) as [[] ?]. Qed.

Lemma outcome_bind {S E A B} (m : M S E A) (k : A -> M S E B) s P :
  outcome m s P -> (forall a s', outcome (k a) s' False) -> outcome (m ≫= k) s P.
Proof.
  unfold outcome, mbind, M_bind. intros [Hd Hp] Hk. destruct (m s) as [[a|e| |] s']; simpl in *.
  - destruct (Hk a s') as [? Hp']. split; [done|]. rewrite Hp', <-Hp. by split.
  - split; [done|]. rewrite <-Hp. by split.
  - split; [done|]. rewrite <-Hp. by split.
  - done.
Qed.

Lemma outcome_ext {S E A} (m : M S E A) s P P' : outcome m s P -> (P <-> P') -> outcome m s P'.
Proof. unfold outcome. intros [? ->]. done. Qed.

Lemma outcome_err {S E A} (e : E) (s : S) : outcome (err e : M S E A) s False.
Proof. by split; [|split]. Qed.

(** The cases of the match: the key is decoded, with an error or a panic. *)
Lemma check_outcome {St} s vk msg sig (st : St) : outcome (check_signature s vk msg sig) st False.
Proof.
  apply outcome_wp. unfold check_signature. rewrite wp_bind, wp_ok_or. by destruct (signature_of s sig).
Qed.

Lemma key_err_outcome {St} s pk e msg sig (st : St) :
  outcome (vk ← ok_or (key_of s pk) e; check_signature s vk msg sig) st False.
Proof. destruct (key_of s pk); [apply check_outcome|apply outcome_err]. Qed.

Lemma unwrap_outcome {St A B} (o : option A) (k : A -> M St TlsError B) st :
  (forall a, outcome (k a) st False) -> outcome (a ← unwrap o; k a) st (o = None).
Proof. destruct o; intros Hk; [eapply outcome_ext; [apply Hk|by split]|by split; [|split]]. Qed.

(** [ok_or] that succeeds, and one that does not. *)
Lemma ok_or_outcome {St A B} (o : option A) e (k : A -> M St TlsError B) st P :
  (forall a, o = Some a -> outcome (k a) st P) -> (o = None -> ~ P) -> outcome (a ← ok_or o e; k a) st P.
Proof.
  intros Hk Hn. destruct o; [by apply Hk|]. eapply outcome_ext; [apply outcome_err|].
  split; [done|]. by apply Hn.
Qed.

Lemma signature_verified_outcome {St} msg pk verify (st : St) :
  outcome (signature_verified msg pk verify) st (key_panics verify pk).
Proof.
  assert (forall m : M St TlsError bool, ~ key_panics verify pk -> outcome m st False ->
    outcome m st (key_panics verify pk)) as Hno by (intros m Hn Hm; eapply outcome_ext; [done|]; by split).
  unfold signature_verified, key_panics in *. destruct (signature_scheme verify).
  all: try (apply Hno; [by intros [[? _]|[? _]]|];
            first [apply outcome_err|apply key_err_outcome
                  |case_match; [apply key_err_outcome|apply outcome_err]]).
  - destruct f_rsa; [|apply Hno; [by intros [(? & _)|(_ & ? & _)]|apply outcome_err]].
    eapply outcome_ext; [apply unwrap_outcome; intros ?; apply check_outcome|].
    split; [by right|]. by intros [[]|(_ & _ & ?)].
  - destruct f_ed25519; [|apply Hno; [by intros [(_ & ? & _)|(? & _)]|apply outcome_err]].
    eapply outcome_ext; [apply unwrap_outcome; intros ?; apply key_err_outcome|].
    unfold array32. case_decide; split; [done|by intros [(_ & _ & ?)|[]]|by left|done].
Qed.

Lemma verify_signature_outcome {St} msg cert verify (st : St) :
  outcome (verify_signature msg cert verify) st
    (exists pk, leaf_key (entries cert) pk /\ key_panics verify pk).
Proof.
  unfold verify_signature, leaf_key. destruct (entries cert) as [|[leaf|] rest].
  1, 3: eapply outcome_ext; [apply (outcome_err DecodeError)|];
    split; [done|by intros (? & (? & ? & ? & ? & _) & _)].
  apply (ok_or_outcome (from_der leaf)).
  - intros c Hc. apply ok_or_outcome.
    + intros pk Hpk. eapply outcome_ext.
      { apply outcome_bind; [apply signature_verified_outcome|]. intros [] ?; by split; [|split]. }
      split; [intros H; exists pk; split; [by exists leaf, rest, c|done]|].
      intros (pk' & (? & ? & c' & [= <- <-] & ? & ?) & Hpan). unfold public_key_of in *. congruence.
    + intros Hpk (pk' & (? & ? & c' & [= <- <-] & ? & ?) & _). unfold public_key_of in *. congruence.
  - intros Hc (pk' & (? & ? & c' & [= <- <-] & ? & ?) & _). congruence.
Qed.

Context `{CS : TlsCipherSuite, !TlsCipherSuiteLaws CS}.

Lemma server_signed_message_run capacity hash {S} (s : S) :
  98 + length hash <= capacity ->
  server_signed_message capacity hash s = (Ok (server_context hash), s).
Proof.
  intros Hl. unfold server_signed_message, server_context, vec_extend.
  rewrite !decide_True by (cbn; lia). unfold mbind, M_bind. cbn [ok_or mret M_ret].
  rewrite decide_True by (cbn; lia). cbn [ok_or mret M_ret].
  rewrite decide_True by (rewrite !length_app; cbn; lia). by rewrite <-app_assoc.
Qed.

Lemma server_signed_message_full capacity hash {S} (s : S) :
  capacity < 98 + length hash -> server_signed_message capacity hash s = (Err EncodeError, s).
Proof.
  intros Hl. unfold server_signed_message, vec_extend, mbind, M_bind.
  case_decide; [|done]. cbn [ok_or mret M_ret]. case_decide; [|done]. cbn [ok_or mret M_ret].
  rewrite decide_False by (rewrite !length_app; cbn; lia). done.
Qed.

(** C39: With a hash of at most 48 bytes, verifying a signature always ends, and it panics
    exactly when no certificate was accepted before (a CertificateVerify message without a
    Certificate message), or when the scheme named by the message does not fit the key of
    the first certificate: Ed25519 with a key that is not 32 bytes long, or RSA-PSS with
    SHA-256 and a key that is not an RSA key. *)
Theorem pki_signature_panics verify v :
  HashLen <= 48 ->
  fst (cv_verify_signature verify v) <> Diverge /\
  (fst (cv_verify_signature verify v) = Panic <->
   certificate_transcript v = None \/ certificate v = None \/
   exists owned es pk, certificate v = Some owned /\
     fst (CertificateEntryRef_parse_vector 16 (pb_new (entries_data owned))) = Ok es /\
     leaf_key es pk /\ key_panics verify pk).
Proof.
  intros Hh. change (outcome (cv_verify_signature verify) v
    (certificate_transcript v = None \/ certificate v = None \/
     exists owned es pk, certificate v = Some owned /\
       fst (CertificateEntryRef_parse_vector 16 (pb_new (entries_data owned))) = Ok es /\
       leaf_key es pk /\ key_panics verify pk)).
  unfold cv_verify_signature, outcome, mbind, M_bind. cbn [get put].
  destruct (certificate_transcript v) as [t|]; cbn [unwrap mret M_ret]; [|split; [discriminate|split; [by left|reflexivity]]].
  rewrite server_signed_message_run by (rewrite length_digest; lia).
  destruct (certificate v) as [owned|]; cbn [unwrap mret M_ret]; [|split; [discriminate|split; [intros _; right; by left|reflexivity]]].
  unfold CertificateRef_try_from, mbind, M_bind, run_on.
  pose proof (CertificateEntryRef_parse_vector_total 16 (entries_data owned)) as Htot. unfold wp in Htot.
  destruct (CertificateEntryRef_parse_vector 16 _) as [[es|e| |] b] eqn:Hp; [|  |done|done]; simpl.
  - pose proof (verify_signature_outcome (server_context (digest_out t))
      (mkCert (entries_data owned) (oc_context owned) es) verify
      (mkVerifier (ca v) (host v) None (Some owned))) as [Hd Hpan]. split; [done|]. rewrite Hpan. simpl.
    split.
    + intros (pk & ? & ?). right; right. exists owned, es, pk. by rewrite Hp.
    + intros [?|[?|(? & es' & pk & [= <-] & He & ? & ?)]]; [done|done|]. rewrite Hp in He. injection He as <-. eauto.
  - split; [done|]. split; [done|]. intros [?|[?|(? & es' & pk & [= <-] & He & _)]]; try done. by rewrite Hp in He.
Qed.
End Outcomes.

(** ** A concrete instance

    A small tag-length-value reader and a certificate format on it, and a signature scheme
    that checks a key and the length of the message: enough to run the code. *)

Module ToyPki.

Definition toy_header (r : list byte) : option (byte * nat * list byte) :=
  match r with
  | t :: n :: r' => Some (t, Z.to_nat (byte_val n), r')
  | _ => None
  end.

Definition toy_slice (n : nat) (r : list byte) : option (list byte * list byte) :=
  if decide (n <= length r) then Some (take n r, drop n r) else None.

#[global] Instance toy_der : DerOps := {|
  ObjectIdentifier := list byte; new_unwrap := id;
  Tag := byte; Tag_OctetString := x04; Tag_Sequence := x30;
  AnyRef := byte * list byte; AnyRef_NULL := (x05, []); any_tag := fst; any_value := snd;
  BitStringRef := list byte; as_bytes := Some; IntRef := unit;
  UtcTime := Z; utc_unix_secs := id; GeneralizedTime := Z; generalized_unix_secs := id;
  Reader := list byte; SliceReader_new := Some; is_finished r := bool_decide (length r = 0);
  remaining_len := length; peek_byte := head; Header_decode := toy_header;
  Header_peek r := '(h, _) ← toy_header r; Some (h, r);
  read_slice := toy_slice;
  tlv_bytes r := '(_, n, _) ← toy_header r; toy_slice (2 + n) r;
|}.

#[global] Instance toy_der_laws : DerLaws.
Proof.
  split; simpl.
  - intros r. apply bool_decide_eq_true.
  - intros [|t [|n r]] h r' [= <- <-]. simpl. lia.
  - intros n r s r'. unfold toy_slice. case_decide; [|done]. intros [= _ <-]. len.
Qed.

(** [30 len (30 n key name) signature]: one byte of key, the rest of the contents is the
    common name; valid from 10 to 20. *)
#[global] Instance toy_decode : DerDecode := {|
  from_der d :=
    match d with
    | _ :: _ :: _ :: n :: d' =>
        let n := Z.to_nat (byte_val n) in
        Some (mkDecoded
          (mkTbs V3 tt ECDSA_SHA256 [] (mkValidity (Time_UtcTime 10%Z) (Time_GeneralTime 20%Z))
             [[mkAttribute COMMON_NAME_OID (x0c, drop 1 (take n d'))]]
             (mkSpki ECDSA_SHA256 (take 1 d')) None None None)
          ECDSA_SHA256 (drop n d'))
    | _ => None
    end;
|}.

Definition toy_scheme : Scheme :=
  mkScheme (list byte) (list byte) Some Some
    (fun vk msg sg => bool_decide (sg = vk ++ [u8_of_nat (length msg)])).

#[global] Instance toy_crates : SignatureCrates :=
  {| p256_ecdsa := toy_scheme; p384_ecdsa := toy_scheme;
     ed25519_dalek := toy_scheme; rsa_pss _ := toy_scheme; rsa_pkcs1v15 _ := toy_scheme |}.

#[global] Instance toy_features : Features := {| f_p384 := true; f_ed25519 := true; f_rsa := true |}.

(** A certificate with key [k] and common name [cn], signed by [signer]. *)
Definition toy_cert (k : byte) (cn : list byte) (signer : byte) : list byte :=
  let tbs := [x30; u8_of_nat (1 + length cn); k] ++ cn in
  [x30; u8_of_nat (length tbs + 2)] ++ tbs ++ [signer; u8_of_nat (length tbs)].

Definition toy_ca : ConfigCertificate := Config_X509 (toy_cert x01 (b_ "ca") x01).
Definition toy_leaf : list byte := toy_cert x03 (b_ "*.example.com") x02.
Definition toy_issuer : list byte := toy_cert x02 (b_ "issuer") x01.

Definition toy_entry (c : list byte) : list byte :=
  be_bytes 3 (Z.of_nat (length c)) ++ c ++ [x00; x00].
Definition toy_raw : list byte := toy_entry toy_leaf ++ toy_entry toy_issuer.
Definition toy_chain : CertificateRef := mkCert toy_raw [] [X509 toy_leaf; X509 toy_issuer].
Definition toy_message : list byte := [x00] ++ be_bytes 3 (Z.of_nat (length toy_raw)) ++ toy_raw.

Definition toy_verify : CertificateVerifyRef :=
  mkCertVerify EcdsaSecp256r1Sha256
    [x03; u8_of_nat (length (server_context (digest_out (TlsCipherSuite := Toy.suite) (b_ "transcript"))))].
End ToyPki.

Lemma pki_authenticates_witness :
  exists names,
    trusted (fun _ => Some 15%Z) 0 (CertificateEntryRef_from ToyPki.toy_ca) (rev (entries ToyPki.toy_chain))
      (mkNames None []) names /\
    host_ok (Some (b_ "api.example.com")) names /\
    signed_by_leaf ToyPki.toy_chain
      (server_context (digest_out (TlsCipherSuite := Toy.suite) (b_ "transcript"))) ToyPki.toy_verify.
Proof.
  eapply (pki_authenticates (CS := Toy.suite) 256 (fun _ => Some 15%Z) (b_ "transcript")
            (pb_new ToyPki.toy_message) ToyPki.toy_chain _ ToyPki.toy_ca (b_ "api.example.com")
            ToyPki.toy_verify).
  - vm_compute. reflexivity.
  - vm_compute. reflexivity.
Defined.

(** The panic of a message that names a scheme the key does not fit. *)
Lemma pki_signature_panics_witness :
  fst (cv_verify_signature (CS := Toy.suite) (mkCertVerify Ed25519 [x03; x00])
         (mkVerifier ToyPki.toy_ca None (Some []) (Some (mkOwnedCert [] ToyPki.toy_raw)))) = Panic.
Proof.
  apply (pki_signature_panics (CS := Toy.suite)); [vm_compute; lia|].
  right; right. exists (mkOwnedCert [] ToyPki.toy_raw), (entries ToyPki.toy_chain), [x03].
  split; [reflexivity|]. split; [vm_compute; reflexivity|]. split.
  - exists ToyPki.toy_leaf, [X509 ToyPki.toy_issuer]. eexists. split; [reflexivity|]. split; reflexivity.
  - left. split; [reflexivity|]. split; [reflexivity|discriminate].
Defined.
