(* ===== verification/WebPki.v ===== *)
(** The certificate verifier of the webpki feature (webpki.rs).

    Certificates are read and verified by the rustls-webpki crate: the class [WebpkiCrate]
    is what the source uses of it.  The verifier has the same fields as that of pki.rs and
    shares its record; its message buffer is smaller, which [webpki_message_bound] turns
    into the suites it can verify. *)

From S2P Require Import Prelude Errors CryptoBuffer ParseBuffer Wire ExtensionData Extensions.
From S2P Require Import CryptoSuite KeySchedule ClientHello Handshake Hostname DerCertificate Pki.
From Stdlib Require Import ZArith Lia.
From Stdlib Require Import Strings.Byte.
From Stdlib Require Strings.String.
From stdpp Require Import base list option numbers tactics sets.

Import Stdlib.Strings.String.StringSyntax.

(** [verify_for_usage] is called for server authentication, without intermediate
    certificates and revocation lists. *)
Class WebpkiCrate : Type := {
  SignatureAlgorithm : Type;
  ECDSA_P256_SHA256 : SignatureAlgorithm;
  ECDSA_P256_SHA384 : SignatureAlgorithm;
  ECDSA_P384_SHA256 : SignatureAlgorithm;
  ECDSA_P384_SHA384 : SignatureAlgorithm;
  WEBPKI_ED25519 : SignatureAlgorithm;
  RSA_PKCS1_2048_8192_SHA256 : SignatureAlgorithm;
  RSA_PKCS1_2048_8192_SHA384 : SignatureAlgorithm;
  RSA_PKCS1_2048_8192_SHA512 : SignatureAlgorithm;
  RSA_PSS_2048_8192_SHA256_LEGACY_KEY : SignatureAlgorithm;
  RSA_PSS_2048_8192_SHA384_LEGACY_KEY : SignatureAlgorithm;
  RSA_PSS_2048_8192_SHA512_LEGACY_KEY : SignatureAlgorithm;
  TrustAnchor : Type;
  try_from_cert_der : list byte -> option TrustAnchor;
  EndEntityCert : Type;
  EndEntityCert_try_from : list byte -> option EndEntityCert;
  ee_verify_signature : EndEntityCert -> SignatureAlgorithm -> list byte -> list byte -> bool;
  verify_for_usage : EndEntityCert -> list SignatureAlgorithm -> list TrustAnchor -> Z -> bool;
  SubjectNameRef : Type;
  try_from_ascii : list byte -> option SubjectNameRef;
  verify_is_valid_for_subject_name : EndEntityCert -> SubjectNameRef -> bool;
}.

Section WebPki.
Context `{WP : WebpkiCrate}.

(** [TryInto<&SignatureAlgorithm> for SignatureScheme] without the [alloc] feature. *)
Definition try_into_no_alloc (s : SignatureScheme) {S} : M S TlsError SignatureAlgorithm :=
  match s with
  | RsaPkcs1Sha256 | RsaPkcs1Sha384 | RsaPkcs1Sha512 => err InvalidSignatureScheme
  | EcdsaSecp256r1Sha256 => mret ECDSA_P256_SHA256
  | EcdsaSecp384r1Sha384 => mret ECDSA_P384_SHA384
  | EcdsaSecp521r1Sha512 => err InvalidSignatureScheme
  | RsaPssRsaeSha256 | RsaPssRsaeSha384 | RsaPssRsaeSha512 => err InvalidSignatureScheme
  | Ed25519 => mret WEBPKI_ED25519
  | Ed448 | Sha224Ecdsa | Sha224Rsa | Sha224Dsa => err InvalidSignatureScheme
  | RsaPssPssSha256 | RsaPssPssSha384 | RsaPssPssSha512 => err InvalidSignatureScheme
  | RsaPkcs1Sha1 | EcdsaSha1 => err InvalidSignatureScheme
  | MlDsa44 | MlDsa65 | MlDsa87 => err InvalidSignatureScheme
  | Sha256BrainpoolP256r1 | Sha384BrainpoolP384r1 | Sha512BrainpoolP512r1 => err InvalidSignatureScheme
  end.

(** The same with the [alloc] feature, which adds RSA. *)
Definition try_into_alloc (s : SignatureScheme) {S} : M S TlsError SignatureAlgorithm :=
  match s with
  | RsaPkcs1Sha256 => mret RSA_PKCS1_2048_8192_SHA256
  | RsaPkcs1Sha384 => mret RSA_PKCS1_2048_8192_SHA384
  | RsaPkcs1Sha512 => mret RSA_PKCS1_2048_8192_SHA512
  | EcdsaSecp256r1Sha256 => mret ECDSA_P256_SHA256
  | EcdsaSecp384r1Sha384 => mret ECDSA_P384_SHA384
  | EcdsaSecp521r1Sha512 => err InvalidSignatureScheme
  | RsaPssRsaeSha256 => mret RSA_PSS_2048_8192_SHA256_LEGACY_KEY
  | RsaPssRsaeSha384 => mret RSA_PSS_2048_8192_SHA384_LEGACY_KEY
  | RsaPssRsaeSha512 => mret RSA_PSS_2048_8192_SHA512_LEGACY_KEY
  | Ed25519 => mret WEBPKI_ED25519
  | Ed448 => err InvalidSignatureScheme
  | Sha224Ecdsa => err InvalidSignatureScheme
  | Sha224Rsa => err InvalidSignatureScheme
  | Sha224Dsa => err InvalidSignatureScheme
  | RsaPssPssSha256 => err InvalidSignatureScheme
  | RsaPssPssSha384 => err InvalidSignatureScheme
  | RsaPssPssSha512 => err InvalidSignatureScheme
  | RsaPkcs1Sha1 => err InvalidSignatureScheme
  | EcdsaSha1 => err InvalidSignatureScheme
  | MlDsa44 => err InvalidSignatureScheme
  | MlDsa65 => err InvalidSignatureScheme
  | MlDsa87 => err InvalidSignatureScheme
  | Sha256BrainpoolP256r1 => err InvalidSignatureScheme
  | Sha384BrainpoolP384r1 => err InvalidSignatureScheme
  | Sha512BrainpoolP512r1 => err InvalidSignatureScheme
  end.

Definition ALL_SIGALGS : list SignatureAlgorithm :=
  [ECDSA_P256_SHA256; ECDSA_P256_SHA384; ECDSA_P384_SHA256; ECDSA_P384_SHA384; WEBPKI_ED25519].

(** [alloc]: is the feature on? *)
Context (alloc : bool).

Definition scheme_try_into (s : SignatureScheme) {S} : M S TlsError SignatureAlgorithm :=
  if alloc then try_into_alloc s else try_into_no_alloc s.

Section Checks.
Context {St : Type}.
Abbreviation TM := (M St TlsError).

Definition web_verify_signature (message : list byte) (certificate : CertificateRef)
    (verify : CertificateVerifyRef) : TM unit :=
  verified ←
    match entries certificate with
    | X509 certificate :: _ =>
        cert ← ok_or (EndEntityCert_try_from certificate) DecodeError;
        pkisig ← scheme_try_into (signature_scheme verify);
        mret (ee_verify_signature cert pkisig message (signature verify))
    | _ => mret false
    end;
  if negb verified then err InvalidSignature else mret tt.

Definition web_verify_certificate (verify_host : option (list byte)) (ca : ConfigCertificate)
    (certificate : CertificateRef) (now : option Z) : TM unit :=
  '(verified, host_verified) ←
    match ca with
    | Config_X509 ca =>
        trust ← ok_or (try_from_cert_der ca) DecodeError;
        match entries certificate with
        | X509 certificate :: _ =>
            cert ← ok_or (EndEntityCert_try_from certificate) DecodeError;
            let time := match now with Some now => now | None => 0%Z end in
            let verified := verify_for_usage cert ALL_SIGALGS [trust] time in
            let host_verified :=
              match verify_host with
              | Some server_name =>
                  match try_from_ascii server_name with
                  | Some subject => verify_is_valid_for_subject_name cert subject
                  | None => false
                  end
              | None => false
              end in
            mret (verified, host_verified)
        | _ => mret (false, false)
        end
    | Config_RawPublicKey _ => mret (false, false)
    end;
  if negb verified then err InvalidCertificate
  else if negb host_verified && bool_decide (is_Some verify_host) then err InvalidCertificate
  else mret tt.
End Checks.

Abbreviation VM := (M CertVerifier TlsError).
Context (CERT_SIZE : nat).

Definition wv_set_hostname_verification (hostname : list byte) : VM unit :=
  h ← ok_or (vec_extend 64 [] hostname) InsufficientSpace;
  modify (fun v => mkVerifier (ca v) (Some h) (certificate_transcript v) (certificate v)).

Definition wv_verify_certificate (now : option Z) (transcript : list byte) (cert : CertificateRef) : VM unit :=
  v ← get;
  web_verify_certificate (host v) (ca v) cert now;;
  owned ← Certificate_try_from CERT_SIZE cert;
  modify (fun v => mkVerifier (ca v) (host v) (certificate_transcript v) (Some owned));;
  modify (fun v => mkVerifier (ca v) (host v) (Some transcript) (certificate v)).

Definition wv_verify_signature `{CS : TlsCipherSuite} (verify : CertificateVerifyRef) : VM unit :=
  v ← get;
  put (mkVerifier (ca v) (host v) None (certificate v));;
  handshake_hash ← unwrap (certificate_transcript v);
  msg ← server_signed_message 130 (digest_out handshake_hash);
  owned ← unwrap (certificate v);
  cert ← CertificateRef_try_from owned;
  web_verify_signature msg cert verify.
End WebPki.

(** ** What an accepted certificate and signature prove *)

Section Sound.
Context `{WP : WebpkiCrate}.

(** The first entry of [cert] is an end-entity certificate that webpki accepts under the
    CA, at [now], for the host [h] (when there is one). *)
Definition web_trusted (ca : ConfigCertificate) (h : option (list byte)) (now : option Z)
    (cert : CertificateRef) : Prop :=
  exists der trust leaf rest ee,
    ca = Config_X509 der /\ try_from_cert_der der = Some trust /\
    entries cert = X509 leaf :: rest /\ EndEntityCert_try_from leaf = Some ee /\
    verify_for_usage ee ALL_SIGALGS [trust] (default 0%Z now) = true /\
    forall name, h = Some name -> exists subject,
      try_from_ascii name = Some subject /\ verify_is_valid_for_subject_name ee subject = true.

Definition web_signed (alloc : bool) (cert : CertificateRef) (message : list byte)
    (verify : CertificateVerifyRef) : Prop :=
  exists leaf rest ee alg,
    entries cert = X509 leaf :: rest /\ EndEntityCert_try_from leaf = Some ee /\
    scheme_try_into alloc (signature_scheme verify) tt = (Ok alg, tt) /\
    ee_verify_signature ee alg message (signature verify) = true.

Lemma scheme_try_into_any {S1 S2} alloc s :
  agnostic (scheme_try_into alloc s (S := S1)) (scheme_try_into alloc s (S := S2)).
Proof.
  unfold scheme_try_into. destruct alloc, s; simpl; first [apply agnostic_ret|apply agnostic_err].
Qed.

Lemma web_verify_signature_post {St} alloc msg cert verify (st : St) :
  post (web_verify_signature alloc msg cert verify) st (fun _ st' => st' = st /\ web_signed alloc cert msg verify).
Proof.
  unfold web_verify_signature. post_step. destruct (entries cert) as [|[leaf|] rest] eqn:He;
    [post_step; cbn; post_step| |post_step; cbn; post_step].
  do 2 post_step. rename a into ee. post_step. intros alg st' Halg. post_step.
  destruct (ee_verify_signature ee alg msg (signature verify)) eqn:Hv; cbn [negb]; post_step.
  destruct (scheme_try_into_any alloc (signature_scheme verify) st tt) as (H1 & _ & H2).
  rewrite Halg in H1. destruct (scheme_try_into_any alloc (signature_scheme verify) st st) as (_ & Hst & _).
  rewrite Halg in Hst. split; [done|]. exists leaf, rest, ee, alg. split_and!; [done|done| |done].
  destruct (scheme_try_into _ _ tt) as [r []]. simpl in H1. by rewrite <-H1.
Qed.

Lemma web_verify_certificate_post {St} h ca cert now (st : St) :
  post (web_verify_certificate h ca cert now) st (fun _ st' => st' = st /\ web_trusted ca h now cert).
Proof.
  unfold web_verify_certificate. post_step. destruct ca as [der|]; [|post_step; cbn; post_step].
  do 2 post_step. rename a into trust. destruct (entries cert) as [|[leaf|] rest] eqn:He.
  1, 3: post_step; cbn; post_step. do 2 post_step. rename a into ee. post_step.
  destruct (verify_for_usage _ _ _ _) eqn:Hu; cbn [negb]; [|post_step].
  match goal with |- context [negb ?b && _] => destruct b eqn:Hh end; cbn [negb andb].
  - post_step. split; [done|]. exists der, trust, leaf, rest, ee. split_and!; [done|done|done|done|by destruct now|].
    intros name ->. destruct (try_from_ascii name) as [subject|]; [|done]. by exists subject.
  - case_bool_decide as Hn; post_step. split; [done|].
    exists der, trust, leaf, rest, ee. split_and!; [done|done|done|done|by destruct now|].
    intros name ->. by destruct Hn.
Qed.

Lemma wv_verify_certificate_post N now t cert v :
  post (wv_verify_certificate N now t cert) v (fun _ v' => web_trusted (ca v) (host v) now cert /\
    v' = mkVerifier (ca v) (host v) (Some t) (Some (mkOwnedCert (request_context cert) (raw_entries cert)))).
Proof.
  unfold wv_verify_certificate. do 3 post_step. eapply post_mono; [apply web_verify_certificate_post|].
  intros _ v1 [-> Ht]. unfold Certificate_try_from. repeat post_step.
  repeat match goal with H : vec_extend _ _ _ = Some _ |- _ => apply vec_extend_all in H as -> end. done.
Qed.

Lemma wv_verify_signature_post `{CS : TlsCipherSuite} alloc verify v :
  post (wv_verify_signature alloc verify) v (fun _ v' => v' = mkVerifier (ca v) (host v) None (certificate v) /\
    exists t owned es, certificate_transcript v = Some t /\ certificate v = Some owned /\
    fst (CertificateEntryRef_parse_vector 16 (pb_new (entries_data owned))) = Ok es /\
    web_signed alloc (mkCert (entries_data owned) (oc_context owned) es) (server_context (digest_out t)) verify).
Proof.
  unfold wv_verify_signature. do 4 post_step. post_step. post_step. rename a into t, H into Ht.
  post_step. eapply post_mono; [apply server_signed_message_post|]. intros ? ? [-> ->].
  do 2 post_step. rename a into owned. unfold CertificateRef_try_from. post_step. post_step. post_step.
  intros es b Hes. post_step. eapply post_mono; [apply web_verify_signature_post|]. intros ? ? [-> Hs].
  split; [done|]. exists t, owned, es. split_and!; [done|done|by rewrite Hes|done].
Qed.
End Sound.

(** ** The size of the signed message *)

(** C40: On a verifier that accepted a certificate, verify_signature checks the signature of
    the RFC 8446 message when the hash of the suite has at most 32 bytes, and fails with
    EncodeError on every message otherwise: the buffer of 130 bytes holds the context
    string and a SHA-256 hash but not a SHA-384 one, so that no server is accepted with
    TLS_AES_256_GCM_SHA384. *)
Theorem webpki_message_bound `{WP : WebpkiCrate, CS : TlsCipherSuite} alloc verify v t :
  (forall m, length (digest_out m) = HashLen) -> certificate_transcript v = Some t ->
  let v' := mkVerifier (ca v) (host v) None (certificate v) in
  wv_verify_signature alloc verify v
  = (if decide (HashLen <= 32)
     then owned ← unwrap (certificate v);
          cert ← CertificateRef_try_from owned;
          web_verify_signature alloc (server_context (digest_out t)) cert verify
     else err EncodeError) v'.
Proof.
  intros Hd Ht. unfold wv_verify_signature. unfold mbind at 1, M_bind at 1. cbn [get].
  unfold mbind at 1, M_bind at 1. cbn [put]. rewrite Ht. unfold mbind at 1, M_bind at 1. cbn [unwrap mret M_ret].
  unfold mbind at 1, M_bind at 1. case_decide.
  - by rewrite server_signed_message_run by (rewrite Hd; lia).
  - by rewrite server_signed_message_full by (rewrite Hd; lia).
Qed.

(** ** A concrete instance *)

Module ToyWeb.

(** A certificate is its key, the key of its issuer and its name; a signature is the key,
    the algorithm and the length of the message. *)
#[global] Instance toy_webpki : WebpkiCrate := {|
  SignatureAlgorithm := byte;
  ECDSA_P256_SHA256 := x00; ECDSA_P256_SHA384 := x01; ECDSA_P384_SHA256 := x02; ECDSA_P384_SHA384 := x03;
  WEBPKI_ED25519 := x04; RSA_PKCS1_2048_8192_SHA256 := x05; RSA_PKCS1_2048_8192_SHA384 := x06;
  RSA_PKCS1_2048_8192_SHA512 := x07; RSA_PSS_2048_8192_SHA256_LEGACY_KEY := x08;
  RSA_PSS_2048_8192_SHA384_LEGACY_KEY := x09; RSA_PSS_2048_8192_SHA512_LEGACY_KEY := x0a;
  TrustAnchor := list byte; try_from_cert_der := Some;
  EndEntityCert := list byte; EndEntityCert_try_from := Some;
  ee_verify_signature ee alg msg sg := bool_decide (sg = take 1 ee ++ [alg; u8_of_nat (length msg)]);
  verify_for_usage ee _ trust time :=
    bool_decide (Exists (fun a => take 1 a = take 1 (drop 1 ee)) trust) && bool_decide (0 < time)%Z;
  SubjectNameRef := list byte; try_from_ascii := Some;
  verify_is_valid_for_subject_name ee name := bool_decide (drop 2 ee = name);
|}.

Definition toy_leaf : list byte := [x02; x01] ++ b_ "host".
Definition toy_chain : CertificateRef :=
  mkCert (be_bytes 3 6 ++ toy_leaf ++ [x00; x00]) [] [X509 toy_leaf].

(** The SHA-384 suite of config.rs with a constant hash. *)
Definition sha384_suite : TlsCipherSuite :=
  Aes256GcmSha384 (fun _ => replicate 48 x5a) (fun _ _ => None) unit (fun _ _ => ([], tt)) (fun _ => None)
    (fun _ _ _ => None) (fun _ _ _ _ => None) (fun _ _ _ _ _ => None) (fun _ _ _ => err tt) (fun _ _ _ => err tt).

Definition toy_verifier : CertVerifier :=
  mkVerifier (Config_X509 [x01]) (Some (b_ "host")) (Some []) (Some (mkOwnedCert [] (raw_entries toy_chain))).
End ToyWeb.

(** A signature over the right message is rejected. *)
Lemma webpki_message_bound_witness :
  fst (wv_verify_signature (CS := ToyWeb.sha384_suite) true
         (mkCertVerify EcdsaSecp384r1Sha384 [x02; x03; u8_of_nat (98 + 48)]) ToyWeb.toy_verifier)
  = Err EncodeError.
Proof.
  rewrite (webpki_message_bound (CS := ToyWeb.sha384_suite) true _ ToyWeb.toy_verifier []);
    [reflexivity|reflexivity|reflexivity].
Defined.

(** The verifier accepts a server with a SHA-256 suite. *)
Example webpki_accepts :
  fst ((wv_set_hostname_verification (b_ "host");; wv_verify_certificate 64 (Some 7%Z) [] ToyWeb.toy_chain;;
        wv_verify_signature (CS := Toy.suite) true
          (mkCertVerify EcdsaSecp256r1Sha256
             [x02; x00; u8_of_nat (98 + length (digest_out (TlsCipherSuite := Toy.suite) []))]))
       (CertVerifier_new (Config_X509 [x01]))) = Ok tt.
Proof. vm_compute. reflexivity. Qed.

(** When the verifier accepts a parsed Certificate and then a CertificateVerify, webpki
    accepted the first certificate under the CA, at the time of the clock and for the host
    name, and its key made the signature over the RFC 8446 message. *)
Theorem webpki_authenticates `{WP : WebpkiCrate, CS : TlsCipherSuite} alloc N now t b cert b' ca_cert h verify v' :
  CertificateRef_parse b = (Ok cert, b') ->
  (wv_set_hostname_verification h;; wv_verify_certificate N now t cert;; wv_verify_signature alloc verify)
    (CertVerifier_new ca_cert) = (Ok tt, v') ->
  web_trusted ca_cert (Some h) now cert /\
  web_signed alloc cert (server_context (digest_out t)) verify.
Proof.
  intros Hes%certificate_parse_entries.
  refine ((_ : post _ _ (fun _ _ => _)) tt v'). unfold wv_set_hostname_verification.
  do 4 post_step. apply vec_extend_all in H as ->.
  post_step. eapply post_mono; [apply wv_verify_certificate_post|]. intros _ v1 [Ht ->].
  eapply post_mono; [apply wv_verify_signature_post|].
  intros _ v2 (_ & t' & owned & es & [= <-] & [= <-] & He & Hs). simpl in He. rewrite Hes in He. injection He as <-.
  split; [done|]. destruct Hs as (leaf & rest & Hs). by exists leaf, rest.
Qed.
