(* ===== verification/Providers.v ===== *)
(** Providers of the client's cryptography (config.rs): [UnsecureProvider], which has no
    verifier, and providers that add one, of the trait [TlsVerifier]: NoVerify, the
    verifier of pki.rs and that of webpki.rs.  The random generator and P-256 are crates,
    the class [P256Crate]. *)

From S2P Require Import Prelude Errors CryptoBuffer ParseBuffer Wire ExtensionData Extensions.
From S2P Require Import CryptoSuite KeySchedule KeyScheduleProps ClientHello Handshake Server.
From S2P Require Import ServerRecords ServerSteps Record WriteBuffer RecordReader ReadBuffer Connection Blocking.
From S2P Require Import ClientHandshake Hostname DerCertificate Pki WebPki.
From Stdlib Require Import ZArith Lia.
From Stdlib Require Import Strings.Byte.
From Stdlib Require Strings.String.
From stdpp Require Import base list option numbers tactics sets.

Import Stdlib.Strings.String.StringSyntax.

(** [hello_secrets] draws the random bytes and the ephemeral secret of a ClientHello and
    computes its public point; [p256_sign] gives the DER encoding of a signature. *)
Class P256Crate (RNG : Type) : Type := {
  EphemeralSecret : Type;
  hello_secrets : RNG -> list byte * EphemeralSecret * list byte * RNG;
  diffie_hellman : EphemeralSecret -> list byte -> option (list byte);
  SecretKey : Type;
  from_sec1_der : list byte -> option SecretKey;
  p256_sign : SecretKey -> list byte -> list byte;
}.

Section Unsecure.
Context {RNG : Type} `{PC : P256Crate RNG}.

Record UnsecureProvider : Type := mkUnsecure {
  rng : RNG;
  priv_key : option (list byte);
  up_client_cert : option ConfigCertificate;
}.

Definition UnsecureProvider_new (rng : RNG) : UnsecureProvider := mkUnsecure rng None None.
Definition with_priv_key (k : list byte) (p : UnsecureProvider) : UnsecureProvider :=
  mkUnsecure (rng p) (Some k) (up_client_cert p).
Definition with_cert (c : ConfigCertificate) (p : UnsecureProvider) : UnsecureProvider :=
  mkUnsecure (rng p) (priv_key p) (Some c).

Definition up_secret_key : M UnsecureProvider TlsError SecretKey :=
  p ← get;
  key_der ← ok_or (priv_key p) InvalidPrivateKey;
  ok_or (from_sec1_der key_der) InvalidPrivateKey.

Definition up_signer : M UnsecureProvider TlsError SignatureScheme :=
  up_secret_key;; mret EcdsaSecp256r1Sha256.

Definition up_draw : M UnsecureProvider TlsError (list byte * EphemeralSecret * list byte) := fun p =>
  let '(random, secret, public, rng') := hello_secrets (rng p) in
  (Ok (random, secret, public), mkUnsecure rng' (priv_key p) (up_client_cert p)).

(** [verifier] is the default of the trait, an error: the operations of the verifier are
    never called.  A DER signature has at most 72 bytes. *)
#[global] Instance UnsecureProvider_provider : CryptoProvider UnsecureProvider := {|
  Esk := EphemeralSecret;
  ecdh := diffie_hellman;
  draw := up_draw;
  has_verifier _ := false;
  set_hostname_verification _ := err UnimplementedError;
  Connection.verify_certificate _ _ := err UnimplementedError;
  Connection.verify_signature _ := err UnimplementedError;
  signer := up_signer;
  sign msg := sk ← up_secret_key; mret (p256_sign sk msg);
  SIGNATURE_SIZE := 72;
  client_certificate p := CertificateEntryRef_from <$> up_client_cert p;
|}.

End Unsecure.

(** ** Verifiers *)

(** The trait [TlsVerifier]. *)
Class TlsVerifier (V : Type) : Type := {
  tv_set_hostname_verification : list byte -> M V TlsError unit;
  tv_verify_certificate : list byte -> CertificateRef -> M V TlsError unit;
  tv_verify_signature : CertificateVerifyRef -> M V TlsError unit;
}.

Inductive NoVerify : Type := no_verify.

#[global] Instance NoVerify_verifier : TlsVerifier NoVerify := {|
  tv_set_hostname_verification _ := mret tt;
  tv_verify_certificate _ _ := mret tt;
  tv_verify_signature _ := mret tt;
|}.

(** [NoClock]: no reading of the clock gives a time. *)
Definition NoClock_now : nat -> option Z := fun _ => None.

(** The verifiers of pki.rs and webpki.rs have the same fields. *)
Definition pki_verifier `{DO : DerOps, DD : !DerDecode, SC : SignatureCrates, FT : Features, CS : TlsCipherSuite}
    (CERT_SIZE : nat) (now : nat -> option Z) : TlsVerifier CertVerifier := {|
  tv_set_hostname_verification := cv_set_hostname_verification;
  tv_verify_certificate := cv_verify_certificate CERT_SIZE now;
  tv_verify_signature := cv_verify_signature;
|}.

Definition webpki_verifier `{WP : WebpkiCrate, CS : TlsCipherSuite} (alloc : bool) (CERT_SIZE : nat)
    (now : option Z) : TlsVerifier CertVerifier := {|
  tv_set_hostname_verification := wv_set_hostname_verification;
  tv_verify_certificate := wv_verify_certificate CERT_SIZE now;
  tv_verify_signature := wv_verify_signature alloc;
|}.

(** ** A provider with a verifier

    What the user writes to have certificates checked (tests/rustpki_test.rs): the
    provider above with a [verifier] that is [Ok]. *)

Section Verifying.
Context {RNG V : Type} `{PC : P256Crate RNG}.

Record VerifyingProvider : Type := mkVerifying {
  up_base : UnsecureProvider (RNG := RNG);
  up_verifier : V;
}.

Definition on_base {A} (m : M (UnsecureProvider (RNG := RNG)) TlsError A) : M VerifyingProvider TlsError A :=
  zoom up_base (fun b p => mkVerifying b (up_verifier p)) m.
Definition on_verifier {A} (m : M V TlsError A) : M VerifyingProvider TlsError A :=
  zoom up_verifier (fun v p => mkVerifying (up_base p) v) m.

Definition verifying_provider (TV : TlsVerifier V) : CryptoProvider VerifyingProvider := {|
  Esk := EphemeralSecret;
  ecdh := diffie_hellman;
  draw := on_base up_draw;
  has_verifier _ := true;
  set_hostname_verification name := on_verifier (tv_set_hostname_verification name);
  Connection.verify_certificate transcript cert := on_verifier (tv_verify_certificate transcript cert);
  Connection.verify_signature verify := on_verifier (tv_verify_signature verify);
  signer := on_base up_signer;
  sign msg := on_base (sk ← up_secret_key; mret (p256_sign sk msg));
  SIGNATURE_SIZE := 72;
  client_certificate p := CertificateEntryRef_from <$> up_client_cert (up_base p);
|}.
End Verifying.
Arguments VerifyingProvider : clear implicits.

(** ** A run *)

#[global] Instance demo_p256 : P256Crate unit := {|
  EphemeralSecret := list byte;
  hello_secrets _ := (replicate 32 x77, [x01; x02], x04 :: replicate 64 x55, tt);
  diffie_hellman secret point := Some (secret ++ take 4 point);
  SecretKey := list byte;
  from_sec1_der := Some;
  p256_sign k msg := k ++ take 8 msg;
|}.

Definition demo_pki : VerifyingProvider unit CertVerifier :=
  mkVerifying (UnsecureProvider_new tt) (CertVerifier_new ToyPki.toy_ca).

(** What a server without any certificate can send: a ServerHello and an encrypted
    CertificateVerify. *)
Definition verify_first : list byte :=
  let f := demo_flight (demo_config None) in
  fl_hello f ++ sealed (CS := Toy.suite) (traffic_state (CS := Toy.suite) (fl_server_ts (CS := Toy.suite) f))
    (handshake_message HT_CertificateVerify [x04; x03; x00; x00]) CT_Handshake.

(** A client with the verifier of pki.rs panics when CertificateVerify comes without a
    Certificate: the order of the server's messages is not checked, and the verifier
    unwraps the transcript of the certificate. *)
Example certificate_verify_first_panics :
  fst (open (CP := verifying_provider (pki_verifier (CS := Toy.suite) 512 NoClock_now)) 5 (demo_config None) demo_pki
         (demo_fresh verify_first)) = Panic.
Proof. vm_compute. reflexivity. Qed.

(** A client whose provider has no verifier connects to a server that presents nothing. *)
Example unsecure_connects :
  fst (open 5 (demo_config None) (UnsecureProvider_new tt)
         (demo_fresh (fl_bytes (CS := Toy.suite) (demo_flight (demo_config None))))) = Ok tt.
Proof. vm_compute. reflexivity. Qed.
