(* ===== verification/ClientVerifier.v ===== *)
(** The handshake of a client that verifies certificates.

    ClientHandshake shows that a successful handshake passed every certificate and every
    CertificateVerify of the server to the verifier of the provider.  [VerifierContract] is
    what a verifier promises when it accepts them; the theorem about the client is proved
    against it, and the verifiers of pki.rs and of webpki.rs satisfy it.  NoVerify does not:
    it promises nothing. *)

From S2P Require Import Prelude Errors CryptoBuffer ParseBuffer Wire ExtensionData Extensions.
From S2P Require Import CryptoSuite KeySchedule KeyScheduleProps ClientHello Handshake Server.
From S2P Require Import ServerRecords ServerHandshake ServerSteps Record WriteBuffer RecordReader ReadBuffer Connection Blocking.
From S2P Require Import ClientHandshake Hostname DerCertificate Pki WebPki Providers.
From Stdlib Require Import ZArith Lia.
From Stdlib Require Import Strings.Byte.
From Stdlib Require Strings.String.
From stdpp Require Import base list option numbers tactics sets.

Import Stdlib.Strings.String.StringSyntax.

(** ** The promise of a verifier *)

(** [trusts cert]: the certificates of the message are trusted for the server;
    [vouches cert t verify]: [verify] is a signature of the transcript [t] under the key of
    the first one.  [memory] is what the verifier keeps between the two messages, the
    transcript and the raw entries, and [good] the states it can be in once it was told the
    name of the server. *)
Class VerifierContract {V} (TV : TlsVerifier V) (good : V -> Prop) (memory : V -> option (list byte * list byte))
    (trusts : CertificateRef -> Prop) (vouches : CertificateRef -> list byte -> CertificateVerifyRef -> Prop) : Prop := {
  accepts_certificate t cert v v' :
    good v -> tv_verify_certificate t cert v = (Ok tt, v') ->
    trusts cert /\ good v' /\ memory v' = Some (t, raw_entries cert);
  accepts_signature verify v v' :
    good v -> tv_verify_signature verify v = (Ok tt, v') ->
    good v' /\ memory v' = None /\ exists t raw, memory v = Some (t, raw) /\
      forall cert, raw_entries cert = raw ->
        fst (CertificateEntryRef_parse_vector 16 (pb_new raw)) = Ok (entries cert) -> vouches cert t verify;
}.

(** ** What the messages of a handshake prove *)

(** [t] ends with the Certificate message [cert], one of [ms]. *)
Definition presented (ms : list ServerHandshake) (cert : CertificateRef) (t : list byte) : Prop :=
  SHS_Certificate cert ∈ ms /\ exists t0 xs, t = t0 ++ xs /\ message_wire (SHS_Certificate cert) xs.

Section Trace.
Context {RNG V : Type} `{PC : P256Crate RNG, CS : TlsCipherSuite} {TV : TlsVerifier V}.
Context {good : V -> Prop} {memory : V -> option (list byte * list byte)}.
Context {trusts : CertificateRef -> Prop} {vouches : CertificateRef -> list byte -> CertificateVerifyRef -> Prop}.
Context `{VC : !VerifierContract TV good memory trusts vouches}.

#[local] Instance trace_provider : CryptoProvider (VerifyingProvider RNG V) := verifying_provider TV.

(** The certificate the verifier remembers was presented. *)
Definition remembers (ms : list ServerHandshake) (th : list byte) (v : V) : Prop :=
  good v /\ forall t raw, memory v = Some (t, raw) ->
    exists cert, presented ms cert t /\ t `prefix_of` th /\ raw = raw_entries cert.

(** A signature of a certificate that was presented before. *)
Definition signed (ms : list ServerHandshake) (th : list byte) (verify : CertificateVerifyRef) : Prop :=
  exists cert t, presented ms cert t /\ t `prefix_of` th /\ vouches cert t verify.

Definition proves (ms : list ServerHandshake) (th : list byte) : Prop :=
  (forall cert, SHS_Certificate cert ∈ ms -> trusts cert) /\
  (forall verify, SHS_CertificateVerify verify ∈ ms -> signed ms th verify).

Lemma presented_app ms m cert t : presented ms cert t -> presented (ms ++ [m]) cert t.
Proof. intros [Hin Hw]. split; [|done]. apply elem_of_app. by left. Qed.

Lemma remembers_app ms m th xs v : remembers ms th v -> remembers (ms ++ [m]) (th ++ xs) v.
Proof.
  intros [Hg Hm]. split; [done|]. intros t raw Hv. destruct (Hm t raw Hv) as (cert & Hp & Hpr & ->).
  exists cert. split_and!; [by apply presented_app|by apply prefix_app_r|done].
Qed.

(** One more message, with what it adds. *)
Lemma proves_app ms m th xs :
  proves ms th -> (forall cert, m = SHS_Certificate cert -> trusts cert) ->
  (forall verify, m = SHS_CertificateVerify verify -> signed ms th verify) ->
  proves (ms ++ [m]) (th ++ xs).
Proof.
  intros [Hc Hv] Hmc Hmv. split.
  - intros cert [?|<-%list_elem_of_singleton]%elem_of_app; auto.
  - intros verify Hin. assert (signed ms th verify) as (cert & t & Hp & Hpr & Hs).
    { apply elem_of_app in Hin as [?|Hin%list_elem_of_singleton]; auto. }
    exists cert, t. split_and!; [by apply presented_app|by apply prefix_app_r|done].
Qed.

Lemma checked_proves p0 tsh ms th p1 :
  checked p0 tsh ms th p1 -> good (up_verifier p0) -> memory (up_verifier p0) = None ->
  remembers ms th (up_verifier p1) /\ proves ms th.
Proof.
  intros Hc Hg Hm. induction Hc as [|ms m xs t1 p1 p2 _ [IHr IHp] Hw Ha].
  - split; [|split; set_solver]. split; [done|]. by rewrite Hm.
  - pose proof IHr as [Hg1 Hm1].
    destruct m as [| | |cert| |verify|]; cbn in Ha;
      try (subst p2; split; [by apply remembers_app|by apply proves_app]); unfold on_verifier, zoom in Ha.
    + destruct (tv_verify_certificate _ _ _) as [r v] eqn:Hv. injection Ha as -> <-. cbn [up_verifier].
      apply accepts_certificate in Hv as (Htr & Hgv & Hmv); [|done].
      split; [|apply proves_app; [done| |done]; by intros ? [= <-]].
      split; [done|]. rewrite Hmv. intros ? ? [= <- <-]. exists cert. split_and!; [|done|done].
      split; [apply elem_of_app; right; by apply list_elem_of_singleton|]. by exists t1, xs.
    + destruct (tv_verify_signature _ _) as [r v] eqn:Hv. injection Ha as -> <-. cbn [up_verifier].
      apply accepts_signature in Hv as (Hgv & Hmv & t & raw & Hmem & Hsig); [|done].
      destruct (Hm1 t raw Hmem) as (cert & Hpres & Hpre & ->).
      split; [split; [done|]; by rewrite Hmv|]. apply proves_app; [done|done|]. intros ? [= <-]. exists cert, t.
      split_and!; [done|done|]. apply Hsig; [done|].
      by destruct Hpres as (_ & ? & ? & _ & ? & ? & ? & _ & _ & _ & ? & _ & _ & Hparse).
Qed.

Context `{!TlsCipherSuiteLaws CS} {T : Type} `{Sock : Socket T}.

(** What a successful [open] establishes: the handshake secret is shared with the peer, the
    transcript consists of the messages of the server, and these prove what they prove. *)
Definition server_proved (config : TlsConfig) (provider : VerifyingProvider RNG V) (c' : TlsConnection (T := T)) : Prop :=
  exists p0 hs tsh msgs th, agreed config provider p0 hs tsh /\ authenticated hs tsh th /\
    (exists wires, Forall2 message_wire msgs wires /\ th = tsh ++ mjoin wires) /\ proves msgs th /\
    let ms := Extract (Derive_Secret hs (b_ "derived") []) (zeros HashLen) in
    w_state (client_state (key_schedule c')) = traffic_state (Derive_Secret ms (b_ "c ap traffic") th) /\
    r_state (server_state (key_schedule c')) = traffic_state (Derive_Secret ms (b_ "s ap traffic") th).

Lemma verifier_authentic fuel config name base v0 (c c' : TlsConnection (T := T)) :
  (forall v, tv_set_hostname_verification name v0 = (Ok tt, v) -> good v /\ memory v = None) ->
  key_schedule c = KeySchedule_new -> wb_pos (record_write_buf c) = 0 ->
  current_header (record_write_buf c) = None -> server_name config = Some name ->
  open fuel config (mkVerifying base v0) c = (Ok tt, c') -> server_proved config (mkVerifying base v0) c'.
Proof.
  intros Hv0 Hks Hpos Hhd Hsn Hopen.
  destruct (open_run fuel config _ c c' Hks Hpos Hhd Hopen) as
    (_ & cl & (hs & tsh & th & p0 & msgs & p1 & Hag & Ha & Hc & Hk) & Hkeys).
  exists p0, hs, tsh, msgs, th. rewrite Hkeys. split_and!; [done|done|by eapply checked_wires| |apply Hk..].
  destruct Hag as (ch & sec & sh & xs & ikm & (random & public & p & Hin & Hdraw & _) & _).
  unfold introduced in Hin. rewrite Hsn in Hin. cbn in Hin. unfold on_verifier, zoom in Hin. cbn [up_verifier up_base] in Hin.
  destruct (tv_set_hostname_verification name v0) as [r v] eqn:Hv. injection Hin as -> <-.
  assert (up_verifier p0 = v) as Hvp.
  { cbn in Hdraw. unfold on_base, zoom, up_draw in Hdraw. cbn in Hdraw.
    destruct (hello_secrets _) as [[[? ?] ?] ?]. by injection Hdraw as <- <- <- <-. }
  destruct (Hv0 v eq_refl) as [Hg Hm]. by eapply (checked_proves p0); [|rewrite Hvp..].
Qed.
End Trace.

(** ** The verifiers of pki.rs and webpki.rs *)

Section Verifiers.
Context (ca_cert : ConfigCertificate) (name : list byte).

Definition cv_good (v : CertVerifier) : Prop :=
  ca v = ca_cert /\ host v = Some name /\ length name <= HOSTNAME_MAXLEN.
Definition cv_memory (v : CertVerifier) : option (list byte * list byte) :=
  match certificate_transcript v, certificate v with
  | Some t, Some owned => Some (t, entries_data owned)
  | _, _ => None
  end.

(** [set_hostname_verification] is the same function in both. *)
Lemma told_name v :
  cv_set_hostname_verification name (CertVerifier_new ca_cert) = (Ok tt, v) -> cv_good v /\ cv_memory v = None.
Proof.
  unfold cv_set_hostname_verification, vec_extend. case_decide as Hl; [|done]. intros [= <-]. cbn in Hl.
  split; [|done]. unfold cv_good, HOSTNAME_MAXLEN. cbn. split_and!; [done|done|lia].
Qed.

Section RustPki.
Context `{DO : DerOps, DD : !DerDecode, SC : SignatureCrates, FT : Features, !DerLaws, CS : TlsCipherSuite}.
Context (CERT_SIZE : nat) (now : nat -> option Z).

(** A path from the CA to the first entry, valid at the times read from the clock, with
    names that match the host. *)
Definition pki_trusts (cert : CertificateRef) : Prop :=
  exists names, trusted now 0 (CertificateEntryRef_from ca_cert) (rev (entries cert)) (mkNames None []) names /\
    host_ok (Some name) names.
Definition pki_vouches (cert : CertificateRef) (t : list byte) (verify : CertificateVerifyRef) : Prop :=
  signed_by_leaf cert (server_context (digest_out t)) verify.

#[export] Instance pki_contract :
  VerifierContract (pki_verifier CERT_SIZE now) cv_good cv_memory pki_trusts pki_vouches.
Proof.
  split.
  - intros t cert v v' (Hca & Hh & Hl) Hv.
    apply cv_verify_certificate_post in Hv as (names & Htr & Hho & ->); [|by rewrite Hh; intros ? [= <-]].
    rewrite Hca, Hh in *. split_and!; [by exists names|done|done].
  - intros verify v v' (Hca & Hh & Hl) Hv.
    apply cv_verify_signature_post in Hv as (-> & t & owned & es & Hct & Hce & Hes & Hs).
    split_and!; [done|done|]. exists t, (entries_data owned). unfold cv_memory. rewrite Hct, Hce.
    split; [done|]. intros cert Hraw Hparse. rewrite Hes in Hparse. injection Hparse as ->.
    destruct Hs as (leaf & rest & Hs). by exists leaf, rest.
Qed.
End RustPki.

Section WebPki.
Context `{WP : WebpkiCrate, CS : TlsCipherSuite} (alloc : bool) (CERT_SIZE : nat) (now : option Z).

Definition web_vouches (cert : CertificateRef) (t : list byte) (verify : CertificateVerifyRef) : Prop :=
  web_signed alloc cert (server_context (digest_out t)) verify.

#[export] Instance webpki_contract :
  VerifierContract (webpki_verifier alloc CERT_SIZE now) cv_good cv_memory (web_trusted ca_cert (Some name) now) web_vouches.
Proof.
  split.
  - intros t cert v v' (Hca & Hh & Hl) Hv.
    apply wv_verify_certificate_post in Hv as [Htr ->]. rewrite Hca, Hh in *. by split_and!.
  - intros verify v v' (Hca & Hh & Hl) Hv.
    apply wv_verify_signature_post in Hv as (-> & t & owned & es & Hct & Hce & Hes & Hs).
    split_and!; [done|done|]. exists t, (entries_data owned). unfold cv_memory. rewrite Hct, Hce.
    split; [done|]. intros cert Hraw Hparse. rewrite Hes in Hparse. injection Hparse as ->.
    destruct Hs as (leaf & rest & Hs). by exists leaf, rest.
Qed.
End WebPki.
End Verifiers.

(** ** Properties *)

(** C28: What a client that verifies with pki.rs knows when its handshake has succeeded, over
    any network.  The peer knows the handshake secret (a Finished with the RFC's MAC is in
    the transcript), the transcript consists of the messages of the server, every
    certificate among them has a path from the CA, valid and with the name of the server,
    every CertificateVerify among them is a signature under the key of such a certificate
    over the RFC's context and the transcript up to that certificate, and the keys of the
    connection are the RFC's for that transcript.  (The handshake also succeeds when the
    server sends neither message.) *)
Theorem client_pki_authentic
    `{PC : P256Crate RNG, DO : DerOps, DD : !DerDecode, SC : SignatureCrates, FT : Features, !DerLaws}
    `{CS : TlsCipherSuite, !TlsCipherSuiteLaws CS, Sock : Socket T}
    CERT_SIZE now ca_cert name fuel config base (c c' : TlsConnection (T := T)) :
  let provider := mkVerifying base (CertVerifier_new ca_cert) in
  key_schedule c = KeySchedule_new -> wb_pos (record_write_buf c) = 0 ->
  current_header (record_write_buf c) = None -> server_name config = Some name ->
  open (CP := verifying_provider (pki_verifier CERT_SIZE now)) fuel config provider c = (Ok tt, c') ->
  server_proved (TV := pki_verifier CERT_SIZE now) (trusts := pki_trusts ca_cert name now) (vouches := pki_vouches)
    config provider c'.
Proof.
  intros provider Hks Hpos Hhd Hsn Hopen.
  by eapply (verifier_authentic (VC := pki_contract ca_cert name CERT_SIZE now) fuel config name base
    (CertVerifier_new ca_cert) c c'); [apply told_name|..].
Qed.

(** The same with webpki.rs: each certificate is accepted by webpki under the CA, at the
    time of the clock and for the name of the server. *)
Theorem client_webpki_authentic
    `{PC : P256Crate RNG, WP : WebpkiCrate, CS : TlsCipherSuite, !TlsCipherSuiteLaws CS, Sock : Socket T}
    alloc CERT_SIZE now ca_cert name fuel config base (c c' : TlsConnection (T := T)) :
  let provider := mkVerifying base (CertVerifier_new ca_cert) in
  key_schedule c = KeySchedule_new -> wb_pos (record_write_buf c) = 0 ->
  current_header (record_write_buf c) = None -> server_name config = Some name ->
  open (CP := verifying_provider (webpki_verifier alloc CERT_SIZE now)) fuel config provider c = (Ok tt, c') ->
  server_proved (TV := webpki_verifier alloc CERT_SIZE now) (trusts := web_trusted ca_cert (Some name) now)
    (vouches := web_vouches alloc) config provider c'.
Proof.
  intros provider Hks Hpos Hhd Hsn Hopen.
  by eapply (verifier_authentic (VC := webpki_contract ca_cert name alloc CERT_SIZE now) fuel config name base
    (CertVerifier_new ca_cert) c c'); [apply told_name|..].
Qed.

(** ** A run *)

(** A server with a certificate for *.example.com: ServerHello, then EncryptedExtensions,
    Certificate, CertificateVerify and Finished in one encrypted record. *)
Definition pki_config : TlsConfig :=
  mkConfig (Some (b_ "api.example.com")) None None (signature_schemes TlsConfig_new) (named_groups TlsConfig_new) None.

Definition pki_messages (f : Flight) : list byte :=
  let t1 := ee_message ++ handshake_message HT_Certificate ToyPki.toy_message in
  let hash := digest_out (TlsCipherSuite := Toy.suite) (fl_transcript f ++ t1) in
  let sig := [x03; u8_of_nat (length (server_context hash))] in
  let t2 := t1 ++ handshake_message HT_CertificateVerify ([x04; x03] ++ vec16 sig) in
  t2 ++ finished_message (Finished_Mac (CS := Toy.suite) (fl_server_ts (CS := Toy.suite) f) (fl_transcript f ++ t2)).

Definition pki_stream : list byte :=
  let f := demo_flight pki_config in
  fl_hello f ++ sealed (CS := Toy.suite) (traffic_state (CS := Toy.suite) (fl_server_ts (CS := Toy.suite) f))
                  (pki_messages f) CT_Handshake.

Definition pki_clock : nat -> option Z := fun _ => Some 15%Z.
Definition pki_fresh (stream : list byte) : TlsConnection (CS := Toy.suite) (T := Chunked) :=
  mkConn (mkChunked stream [] 6) false KeySchedule_new (RecordReader_new (zeros 512))
    (mkWB (zeros 400) 0 None) DecryptedBufferInfo_default Strict.

Abbreviation pki_open stream :=
  (open (CP := verifying_provider (pki_verifier (CS := Toy.suite) 512 pki_clock)) 5 pki_config demo_pki
     (pki_fresh stream)).

Example pki_open_ok : fst (pki_open pki_stream) = Ok tt.
Proof. vm_compute. reflexivity. Qed.

(** The same server is not the one the client asked for. *)
Example pki_open_other_host :
  fst (open (CP := verifying_provider (pki_verifier (CS := Toy.suite) 512 pki_clock)) 5 (demo_config None) demo_pki
         (pki_fresh (let f := demo_flight (demo_config None) in
            fl_hello f ++ sealed (CS := Toy.suite) (traffic_state (CS := Toy.suite) (fl_server_ts (CS := Toy.suite) f))
                            (pki_messages f) CT_Handshake))) = Err InvalidCertificate.
Proof. vm_compute. reflexivity. Qed.

Lemma client_pki_authentic_witness :
  exists c', pki_open pki_stream = (Ok tt, c') /\
    server_proved (TV := pki_verifier (CS := Toy.suite) 512 pki_clock)
      (trusts := pki_trusts ToyPki.toy_ca (b_ "api.example.com") pki_clock) (vouches := pki_vouches (CS := Toy.suite))
      pki_config demo_pki c'.
Proof.
  pose proof pki_open_ok as Hok. destruct (pki_open pki_stream) as [r c'] eqn:Hrun. cbn [fst] in Hok. subst r.
  exists c'. split; [reflexivity|].
  exact (client_pki_authentic (CS := Toy.suite) 512 pki_clock ToyPki.toy_ca (b_ "api.example.com") 5 pki_config
    (UnsecureProvider_new tt) (pki_fresh pki_stream) c' eq_refl eq_refl eq_refl eq_refl Hrun).
Defined.
