(* ===== verification/TestClient.v ===== *)
(** The simulated client of the server's tests (server.rs, module [tests]).

    The test module of server.rs builds ClientHellos byte by byte, computes their
    binders with the client side of [KeySchedule], and opens and seals records with
    the client's keys.  These helpers are translated here over any suite; a failed
    assertion, [unwrap] or [expect] is a panic.  The lemmas give what each helper
    computes: the ClientHello builders write the [hello_message] of a few fields, and
    the record helpers open and seal the records of ServerRecords.v. *)

From S2P Require Import Prelude Errors CryptoBuffer ParseBuffer Wire ExtensionData Extensions.
From S2P Require Import CryptoSuite KeySchedule KeyScheduleProps ClientHello Handshake Server.
From S2P Require Import ServerRecords ServerHandshake ServerSteps ServerSpec.
From Stdlib Require Import ZArith Lia.
From Stdlib Require Import Strings.Byte.
From Stdlib Require Strings.String.
From stdpp Require Import base list option numbers tactics sets.

Import Stdlib.Strings.String.StringSyntax.

(** ** Assertions and vectors *)

(** [.unwrap()] and [.expect(..)] of a [Result] *)
Definition expect {S E E' A} (m : M S E' A) : M S E A := fun s =>
  match m s with
  | (Ok a, s') => (Ok a, s')
  | (Err _, s') => (Panic, s')
  | (Panic, s') => (Panic, s')
  | (Diverge, s') => (Diverge, s')
  end.

(** [assert!(b)] *)
Definition assert_ {S E} (b : bool) : M S E unit := if b then mret tt else panic.

(** [v.extend_from_slice(xs)] and [v.push(x)] on a [std::vec::Vec] *)
Definition extend {E} (xs : list byte) : M (list byte) E unit := modify (fun l => l ++ xs).
Definition vlen {E} : M (list byte) E nat := fun l => (Ok (length l), l).

(** [buf[a..a + n].copy_from_slice(xs)] *)
Definition copy_at {E} (a n : nat) (xs : list byte) : M (list byte) E unit :=
  if decide (length xs = n) then lwrite a xs else panic.

Lemma expect_Ok {S E E' A} (m : M S E' A) s a s' : m s = (Ok a, s') -> expect (E := E) m s = (Ok a, s').
Proof. unfold expect. by intros ->. Qed.

Lemma bind_assert {S E B} (b : bool) (k : unit -> M S E B) s : b = true -> (assert_ b ≫= k) s = k tt s.
Proof. by intros ->. Qed.

(** ** Synthetic ClientHellos *)

Definition SHA256_LEN : nat := 32.
Definition AES_GCM_TAG_SIZE : nat := 16.
Definition HS_TYPE_CLIENT_HELLO : byte := x01.
Definition LEGACY_VERSION_BYTES : list byte := [x03; x03].
Definition TLS13_BYTES : list byte := [x03; x04].

Record ChLayout : Type := mkLayout {
  lay_bytes : list byte;
  lay_binders_start : nat;
  lay_binder_pos : nat;
}.

Abbreviation VM := (M (list byte) TlsError).

(** Header, version, random, session id, suite and compression; the positions are
    [body_start], [ext_list_len_pos] and [ext_content_start]. *)
Definition ch_front : VM (nat * nat * nat) :=
  extend [HS_TYPE_CLIENT_HELLO];;
  extend [x00; x00; x00];;
  body_start ← vlen;
  extend LEGACY_VERSION_BYTES;;
  extend (replicate 32 xa5);;
  extend [x00];;
  extend (be_bytes 2 2);;
  extend (be_bytes 2 TLS_AES_128_GCM_SHA256);;
  extend [x01];;
  extend [x00];;
  ext_list_len_pos ← vlen;
  extend [x00; x00];;
  ext_content_start ← vlen;
  mret (body_start, ext_list_len_pos, ext_content_start).

Definition ch_versions : VM unit :=
  extend (be_bytes 2 0x002b);;
  extend (be_bytes 2 3);;
  extend [x02];;
  extend TLS13_BYTES.

Definition ch_psk_modes (mode : byte) : VM unit :=
  extend (be_bytes 2 0x002d);;
  extend (be_bytes 2 2);;
  extend [x01];;
  extend [mode].

(** The pre_shared_key extension with a blank binder, and the three lengths. *)
Definition ch_psk_and_lengths (identity : list byte) (pos : nat * nat * nat) : VM ChLayout :=
  let '(body_start, ext_list_len_pos, ext_content_start) := pos in
  extend (be_bytes 2 0x0029);;
  psk_data_len_pos ← vlen;
  extend [x00; x00];;
  psk_data_start ← vlen;
  let id_entry_len := 2 + length identity + 4 in
  extend (be_bytes 2 (Z.of_nat id_entry_len));;
  extend (be_bytes 2 (Z.of_nat (length identity)));;
  extend identity;;
  extend (be_bytes 4 0);;
  binders_start_offset ← vlen;
  extend (be_bytes 2 (Z.of_nat (1 + SHA256_LEN)));;
  extend [u8_of_nat SHA256_LEN];;
  binder_value_pos ← vlen;
  extend (zeros SHA256_LEN);;
  psk_data_end ← vlen;
  psk_data_len ← unwrap (usub psk_data_end psk_data_start);
  lwrite psk_data_len_pos (be_bytes 2 (Z.of_nat psk_data_len));;
  ext_content_end ← vlen;
  ext_list_len ← unwrap (usub ext_content_end ext_content_start);
  lwrite ext_list_len_pos (be_bytes 2 (Z.of_nat ext_list_len));;
  body_end ← vlen;
  body_len ← unwrap (usub body_end body_start);
  lset 1 (u8 (Z.of_nat body_len ≫ 16));;
  lset 2 (u8 (Z.of_nat body_len ≫ 8));;
  lset 3 (u8 (Z.of_nat body_len));;
  out ← get;
  mret (mkLayout out binders_start_offset binder_value_pos).

(** [psk_ke] only. *)
Definition build_synthetic_client_hello (identity : list byte) : VM ChLayout :=
  pos ← ch_front;
  ch_versions;;
  ch_psk_modes x00;;
  ch_psk_and_lengths identity pos.

(** [psk_dhe_ke] with one X25519 share. *)
Definition build_synthetic_client_hello_dhe (identity client_x25519_pub : list byte) : VM ChLayout :=
  pos ← ch_front;
  ch_versions;;
  ch_psk_modes x01;;
  extend (be_bytes 2 0x0033);;
  extend (be_bytes 2 38);;
  extend (be_bytes 2 36);;
  extend (be_bytes 2 0x001D);;
  extend (be_bytes 2 32);;
  extend client_x25519_pub;;
  ch_psk_and_lengths identity pos.

(** [psk_dhe_ke] with X25519 in supported_groups and an empty key_share. *)
Definition build_synthetic_ch_dhe_no_share (identity : list byte) : VM ChLayout :=
  pos ← ch_front;
  ch_versions;;
  extend (be_bytes 2 0x000a);;
  extend (be_bytes 2 4);;
  extend (be_bytes 2 2);;
  extend (be_bytes 2 0x001D);;
  ch_psk_modes x01;;
  extend (be_bytes 2 0x0033);;
  extend (be_bytes 2 2);;
  extend (be_bytes 2 0);;
  ch_psk_and_lengths identity pos.

Section Client.
Context `{CS : TlsCipherSuite}.
Abbreviation CM := (M KeySchedule TlsError).

(** ** Binders *)

(** Splice the binder over [transcript] and the prefix into the layout. *)
Definition splice_binder (transcript : list byte) (layout : ChLayout) : CM (list byte) :=
  prefix ← unwrap (sub (lay_bytes layout) 0 (lay_binders_start layout));
  ks ← get;
  binder ← expect (create_psk_binder (client_state ks) (transcript ++ prefix));
  run_on (lay_bytes layout) (copy_at (lay_binder_pos layout) SHA256_LEN (binder_verify binder);; get).

Definition build_client_hello_with_binder (identity : list byte) : CM (list byte) :=
  layout ← run_on [] (build_synthetic_client_hello identity);
  splice_binder [] layout.

Definition build_client_hello_dhe_with_binder (identity client_x25519_pub : list byte) : CM (list byte) :=
  layout ← run_on [] (build_synthetic_client_hello_dhe identity client_x25519_pub);
  splice_binder [] layout.

Definition finalize_ch1_binder (layout : ChLayout) : CM ChLayout :=
  bytes ← splice_binder [] layout;
  mret (mkLayout bytes (lay_binders_start layout) (lay_binder_pos layout)).

Definition build_client_hello_dhe_with_binder_after_hrr (identity client_x25519_pub : list byte) :
    CM (list byte) :=
  layout ← run_on [] (build_synthetic_client_hello_dhe identity client_x25519_pub);
  ks ← get;
  splice_binder (transcript_hash ks) layout.

(** The transcript after a HelloRetryRequest. *)
Definition munge_client_transcript_for_hrr (ch1_handshake_message hrr_handshake_message : list byte) :
    CM unit :=
  let ch1_hash := digest_out ch1_handshake_message in
  replace_transcript_hash
    ([hs_byte HT_MessageHash; x00; x00; u8_of_nat SHA256_LEN] ++ ch1_hash ++ hrr_handshake_message).

(** ** Records *)

(** [key], [nonce] and [cipher] of a direction, then [f]. *)
Definition read_cipher {S A} (ks : KeySchedule) (f : list byte -> list byte -> M S TlsError A) :
    M S TlsError A :=
  nonce ← expect (read_get_nonce ks);
  f (key (r_state (server_state ks))) nonce.
Definition write_cipher {S A} (ks : KeySchedule) (f : list byte -> list byte -> M S TlsError A) :
    M S TlsError A :=
  nonce ← expect (write_get_nonce ks);
  f (key (w_state (client_state ks))) nonce.

Definition record_body_len {S} (record : list byte) : M S TlsError nat :=
  b3 ← unwrap (record !! 3);
  b4 ← unwrap (record !! 4);
  mret (Z.to_nat (from_be [b3; b4])).

(** Copy the body into the buffer, decrypt it there and count the record. *)
Definition client_decrypt_in (record : list byte) (body_len : nat) :
    M (KeySchedule * list byte) TlsError nat :=
  body ← unwrap (sub record RECORD_HEADER_LEN (length record));
  on_snd (copy_at 0 body_len body);;
  '(ks, _) ← get;
  header ← unwrap (sub record 0 RECORD_HEADER_LEN);
  plaintext_len ← read_cipher ks (fun key nonce =>
    on_snd (with_region 0 body_len body_len
      (expect (decrypt_in_place key nonce header);; c ← get; mret (cb_len c))));
  on_fst read_increment_counter;;
  mret plaintext_len.

Definition client_decrypt_handshake_record (record : list byte) : CM (list byte) :=
  t ← unwrap (record !! 0);
  assert_ (bool_decide (t = ct_byte CT_ApplicationData));;
  body_len ← record_body_len record;
  assert_ (bool_decide (length record = RECORD_HEADER_LEN + body_len));;
  zoom (fun ks => (ks, zeros 256)) (fun p _ => fst p)
    (plaintext_len ← client_decrypt_in record body_len;
     '(_, buf) ← get;
     plaintext ← unwrap (sub buf 0 plaintext_len);
     pad_end ← unwrap (rposition nonzero plaintext);
     mret (take pad_end plaintext)).

Definition client_decrypt_app_data (record : list byte) : M (KeySchedule * list byte) TlsError (list byte) :=
  t ← unwrap (record !! 0);
  assert_ (bool_decide (t = ct_byte CT_ApplicationData));;
  body_len ← record_body_len record;
  plaintext_len ← client_decrypt_in record body_len;
  '(_, buf) ← get;
  plaintext ← unwrap (sub buf 0 plaintext_len);
  pad_end ← unwrap (rposition nonzero plaintext);
  marker ← unwrap (buf !! pad_end);
  assert_ (bool_decide (marker = ct_byte CT_ApplicationData));;
  unwrap (sub buf 0 pad_end).

(** Encrypt [inner], already in the buffer at [at_], and count the record. *)
Definition client_encrypt_at (at_ plaintext_len ciphertext_len : nat) :
    M (KeySchedule * list byte) TlsError unit :=
  '(ks, _) ← get;
  write_cipher ks (fun key nonce =>
    on_snd (with_region at_ (at_ + ciphertext_len) plaintext_len
      (expect (encrypt_in_place key nonce (record_header ciphertext_len)))));;
  on_fst write_increment_counter.

(** A record of [inner] (content and type) made in a buffer of [cap] bytes. *)
Definition client_seal (cap : nat) (inner : list byte) : CM (list byte) :=
  let plaintext_len := length inner in
  let ciphertext_len := plaintext_len + AES_GCM_TAG_SIZE in
  zoom (fun ks => (ks, zeros cap)) (fun p _ => fst p)
    (on_snd (copy_at 0 plaintext_len inner);;
     client_encrypt_at 0 plaintext_len ciphertext_len;;
     '(_, backing) ← get;
     body ← unwrap (sub backing 0 ciphertext_len);
     mret (record_header ciphertext_len ++ body)).

Definition build_client_finished_record : CM (list byte) :=
  ks ← get;
  finished ← expect (create_client_finished ks);
  let v := verify finished in
  client_seal 256
    ([hs_byte HT_Finished] ++ [x00; x00; u8_of_nat (length v)] ++ v ++ [ct_byte CT_Handshake]).

Definition client_encrypt_alert (level : AlertLevel) (description : AlertDescription) : CM (list byte) :=
  client_seal 64
    [u8 (AlertLevel_code level); u8 (AlertDescription_code description); ct_byte CT_Alert].

Definition client_encrypt_app_data (plaintext : list byte) : M (KeySchedule * list byte) TlsError (list byte) :=
  let plaintext_with_marker := length plaintext + 1 in
  let ciphertext_len := plaintext_with_marker + AES_GCM_TAG_SIZE in
  let total := RECORD_HEADER_LEN + ciphertext_len in
  on_snd (lwrite 0 (record_header ciphertext_len));;
  on_snd (copy_at RECORD_HEADER_LEN (length plaintext) plaintext);;
  on_snd (lset (RECORD_HEADER_LEN + length plaintext) (ct_byte CT_ApplicationData));;
  client_encrypt_at RECORD_HEADER_LEN plaintext_with_marker ciphertext_len;;
  '(_, out) ← get;
  unwrap (sub out 0 total).

(** The ServerHello, EncryptedExtensions and Finished records of a flight. *)
Definition one_record {S} (s : list byte) : M S TlsError (list byte * list byte) :=
  body_len ← record_body_len s;
  let total := RECORD_HEADER_LEN + body_len in
  r ← unwrap (sub s 0 total);
  rest ← unwrap (sub s total (length s));
  mret (r, rest).

Definition split_first_flight {S} (bytes : list byte) :
    M S TlsError (list byte * list byte * list byte) :=
  '(sh, rest) ← one_record bytes;
  '(ee, rest) ← one_record rest;
  '(fin, rest) ← one_record rest;
  assert_ (bool_decide (rest = []));;
  mret (sh, ee, fin).
End Client.

(** ** What the builders write *)

Definition ch_fields (raws : list RawExtension) (identity binder : list byte) : HelloFields :=
  mkFields 0x0303 (replicate 32 xa5) [] (be_bytes 2 TLS_AES_128_GCM_SHA256) [x00]
    (raws ++ [mkRaw (ExtensionType_code ET_PreSharedKey) (psk_wire [(identity, 0%Z)] [binder])]).

Definition raw_versions : RawExtension := mkRaw 0x002b ([x02] ++ TLS13_BYTES).
Definition raw_modes (mode : byte) : RawExtension := mkRaw 0x002d [x01; mode].
Definition raw_groups : RawExtension := mkRaw 0x000a (vec16 (be_bytes 2 0x001D)).
Definition raw_share (pub : list byte) : RawExtension :=
  mkRaw 0x0033 (vec16 (be_bytes 2 0x001D ++ vec16 pub)).
Definition raw_no_share : RawExtension := mkRaw 0x0033 [x00; x00].

Definition psk_ke_raws : list RawExtension := [raw_versions; raw_modes x00].
Definition dhe_raws (pub : list byte) : list RawExtension := [raw_versions; raw_modes x01; raw_share pub].
Definition retry_raws : list RawExtension := [raw_versions; raw_groups; raw_modes x01; raw_no_share].

(** Everything before the binders; only its lengths depend on what follows. *)
Definition psk_len (identity : list byte) : nat := 2 + (2 + length identity + 4) + 35.
Definition exts_len (raws : list RawExtension) (identity : list byte) : nat :=
  length (raws_bytes raws) + 4 + psk_len identity.
Definition ch_prefix (raws : list RawExtension) (identity : list byte) : list byte :=
  [x01] ++ be_bytes 3 (Z.of_nat (43 + exts_len raws identity)) ++
  ([x03; x03] ++ replicate 32 xa5 ++ [x00] ++ be_bytes 2 2 ++ be_bytes 2 TLS_AES_128_GCM_SHA256 ++
   [x01; x00]) ++
  be_bytes 2 (Z.of_nat (exts_len raws identity)) ++
  raws_bytes raws ++ be_bytes 2 0x0029 ++
  be_bytes 2 (Z.of_nat (psk_len identity)) ++
  be_bytes 2 (Z.of_nat (2 + length identity + 4)) ++ be_bytes 2 (Z.of_nat (length identity)) ++
  identity ++ be_bytes 4 0.

Lemma length_ch_prefix raws identity :
  length (ch_prefix raws identity) = 12 + exts_len raws identity.
Proof. unfold ch_prefix, exts_len, psk_len. lens. lia. Qed.

Lemma raws_bytes_app rs rs' : raws_bytes (rs ++ rs') = raws_bytes rs ++ raws_bytes rs'.
Proof. unfold raws_bytes. by rewrite fmap_app, join_app. Qed.

(** The pre_shared_key extension of one identity and one binder. *)
Lemma psk_wire_single identity binder :
  length binder = SHA256_LEN ->
  psk_wire [(identity, 0%Z)] [binder]
  = be_bytes 2 (Z.of_nat (2 + length identity + 4)) ++ be_bytes 2 (Z.of_nat (length identity)) ++
    identity ++ be_bytes 4 0 ++ [x00; x21; x20] ++ binder.
Proof.
  intros Hb. unfold psk_wire, psk_identity_bytes, psk_binders_bytes, vec8, vec16.
  cbn [fmap list_fmap mjoin list_join fst snd]. rewrite !app_nil_r, !length_app, !length_be_bytes.
  cbn [length]. rewrite Hb. by rewrite <-!(assoc_L (++)).
Qed.

Lemma length_psk_wire_single identity binder :
  length binder = SHA256_LEN -> length (psk_wire [(identity, 0%Z)] [binder]) = psk_len identity.
Proof. intros Hb. rewrite psk_wire_single by done. unfold psk_len, SHA256_LEN in *. lens. lia. Qed.

Lemma hello_message_split raws identity binder :
  length binder = SHA256_LEN ->
  hello_message (ch_fields raws identity binder)
  = ch_prefix raws identity ++ [x00; x21; x20] ++ binder.
Proof.
  intros Hb. pose proof (length_psk_wire_single identity binder Hb) as Hl.
  pose proof (psk_wire_single identity binder Hb) as Hw.
  assert (raws_bytes (f_extensions (ch_fields raws identity binder))
    = raws_bytes raws ++ be_bytes 2 0x0029 ++ vec16 (psk_wire [(identity, 0%Z)] [binder])) as He.
  { cbn [ch_fields f_extensions]. rewrite raws_bytes_app. unfold raws_bytes at 2.
    cbn [fmap list_fmap mjoin list_join]. by rewrite app_nil_r. }
  unfold hello_message, hello_body. rewrite He.
  cbn [ch_fields f_version f_random f_session_id f_suites f_compression].
  set (w := psk_wire _ _) in *. unfold ch_prefix, vec24.
  match goal with |- context [be_bytes 3 (Z.of_nat (length ?b))] =>
    assert (length b = 43 + exts_len raws identity) as -> by (unfold exts_len; lens; lia) end.
  unfold vec16 at 2 3. rewrite Hl.
  assert (length (raws_bytes raws ++ be_bytes 2 41 ++ be_bytes 2 (Z.of_nat (psk_len identity)) ++ w)
    = exts_len raws identity) as -> by (unfold exts_len; lens; lia).
  rewrite Hw. generalize (replicate 32 xa5). intros rnd. by rewrite <-!(assoc_L (++)).
Qed.

(** The bytes before the extension list, its length and the body length blank. *)
Definition blank_front : list byte :=
  [x01; x00; x00; x00] ++
  ([x03; x03] ++ replicate 32 xa5 ++ [x00] ++ be_bytes 2 2 ++ be_bytes 2 TLS_AES_128_GCM_SHA256 ++
   [x01; x00]).

Lemma ch_front_run : ch_front [] = (Ok (4, 45, 47), blank_front ++ [x00; x00]).
Proof. reflexivity. Qed.

Lemma bind_extend {B} xs (k : unit -> VM B) l : (extend xs ≫= k) l = k tt (l ++ xs).
Proof. done. Qed.
Lemma bind_vlen {B} (k : nat -> VM B) l : (vlen ≫= k) l = k (length l) l.
Proof. done. Qed.
Lemma bind_lwrite {B} a pre old post xs (k : unit -> VM B) :
  a = length pre -> length old = length xs ->
  (lwrite a xs ≫= k) (pre ++ old ++ post) = k tt (pre ++ xs ++ post).
Proof. intros -> Hl. by rewrite (bind_Ok _ _ _ _ _ (lwrite_app pre old post xs _ eq_refl Hl)). Qed.

Lemma bind_lset_u24 {B} (t : byte) n rest (k : unit -> VM B) :
  (lset 1 (u8 (n ≫ 16));; lset 2 (u8 (n ≫ 8));; lset 3 (u8 n) ≫= k) (t :: [x00; x00; x00] ++ rest)
  = k tt (t :: be_bytes 3 n ++ rest).
Proof.
  rewrite be_bytes_3.
  pose proof (lset_app (E := TlsError) [t] x00 ([x00; x00] ++ rest) (u8 (n ≫ 16)) 1 eq_refl) as H1.
  rewrite (bind_Ok _ _ _ _ _ H1).
  pose proof (lset_app (E := TlsError) [t; u8 (n ≫ 16)] x00 ([x00] ++ rest) (u8 (n ≫ 8)) 2 eq_refl) as H2.
  rewrite (bind_Ok _ _ _ _ _ H2).
  pose proof (lset_app (E := TlsError) [t; u8 (n ≫ 16); u8 (n ≫ 8)] x00 rest (u8 n) 3 eq_refl) as H3.
  by rewrite (bind_Ok _ _ _ _ _ H3).
Qed.

Lemma ch_psk_and_lengths_run raws identity :
  ch_psk_and_lengths identity (4, 45, 47) (blank_front ++ [x00; x00] ++ raws_bytes raws)
  = let out := ch_prefix raws identity ++ [x00; x21; x20] ++ zeros 32 in
    let n := length (ch_prefix raws identity) in
    (Ok (mkLayout out n (n + 3)), out).
Proof.
  unfold ch_psk_and_lengths.
  rewrite !bind_extend, bind_vlen, !bind_extend, bind_vlen, !bind_extend, bind_vlen, !bind_extend, bind_vlen,
    bind_extend, bind_vlen.
  set (R := raws_bytes raws).
  set (I := be_bytes 2 (Z.of_nat (2 + length identity + 4)) ++ be_bytes 2 (Z.of_nat (length identity)) ++
              identity ++ be_bytes 4 0).
  set (T := be_bytes 2 0x0029). set (b := [x00; x21; x20] ++ zeros 32).
  match goal with |- ?k ?l = _ =>
    replace l with ((blank_front ++ [x00; x00] ++ R ++ T) ++ [x00; x00] ++ (I ++ b))
      by (unfold I, b; by rewrite <-!(assoc_L (++))) end.
  assert (length blank_front = 45) as Hf by done.
  assert (length I + 35 = psk_len identity /\ length b = 35) as [HI Hb]
    by (unfold I, psk_len; split; [lens; lia|done]).
  rewrite usub_Some, bind_unwrap_Some by (lens; lia).
  match goal with |- context [be_bytes 2 (Z.of_nat (?x - ?y))] =>
    replace (x - y) with (psk_len identity) by (lens; lia) end.
  erewrite bind_lwrite by (first [by rewrite length_be_bytes | rewrite !length_app, Hf; simpl; lia]).
  rewrite bind_vlen, usub_Some, bind_unwrap_Some by (lens; lia).
  match goal with |- (lwrite _ (be_bytes 2 (Z.of_nat ?n)) ≫= ?k) ?l = _ =>
    replace n with (exts_len raws identity) by (unfold exts_len; fold R; lens; lia) end.
  set (P := be_bytes 2 (Z.of_nat (psk_len identity))).
  match goal with |- ?k ?l = _ =>
    replace l with (blank_front ++ [x00; x00] ++ (R ++ T ++ P ++ I ++ b)) by (by rewrite <-!(assoc_L (++))) end.
  erewrite bind_lwrite by (first [by rewrite length_be_bytes | done]).
  rewrite bind_vlen, usub_Some, bind_unwrap_Some by (lens; lia).
  match goal with |- context [Z.of_nat (?x - 4)] =>
    replace (x - 4) with (43 + exts_len raws identity)
      by (unfold exts_len, P, T; fold R; lens; lia) end.
  match goal with |- ?k (blank_front ++ ?l) = _ =>
    change (blank_front ++ l) with (x01 :: [x00; x00; x00] ++ drop 4 blank_front ++ l) end.
  rewrite (bind_lset_u24 x01), bind_get.
  match goal with |- mret (mkLayout ?l _ _) _ = _ =>
    assert (l = ch_prefix raws identity ++ b) as -> end.
  { change (drop 4 blank_front) with ([x03; x03] ++ replicate 32 xa5 ++ [x00] ++ be_bytes 2 2 ++
      be_bytes 2 TLS_AES_128_GCM_SHA256 ++ [x01; x00]).
    unfold ch_prefix, P, I. fold R T. generalize (replicate 32 xa5). intros rnd.
    by rewrite <-!(assoc_L (++)). }
  cbv zeta. rewrite length_ch_prefix. unfold mret, M_ret, exts_len, psk_len. fold R.
  rewrite !length_app, !length_be_bytes, Hf. cbn [length]. change (length T) with 2. do 3 f_equal; lia.
Qed.

Definition layout_of (raws : list RawExtension) (identity : list byte) : ChLayout :=
  let n := length (ch_prefix raws identity) in
  mkLayout (ch_prefix raws identity ++ [x00; x21; x20] ++ zeros 32) n (n + 3).

Lemma run_on_Ok {S T E A} (m : M T E A) t a t' (s : S) : m t = (Ok a, t') -> run_on t m s = (Ok a, s).
Proof. unfold run_on. by intros ->. Qed.

(** Run the [extend]s between the front and the PSK offer. *)
Ltac build_run :=
  eapply run_on_Ok;
  cbv delta [build_synthetic_client_hello build_synthetic_client_hello_dhe build_synthetic_ch_dhe_no_share];
  cbv beta; rewrite (bind_Ok _ _ _ _ _ ch_front_run);
  cbv [ch_versions ch_psk_modes extend mbind M_bind modify];
  match goal with |- ch_psk_and_lengths ?i _ ?l = (Ok (layout_of ?raws _), _) =>
    replace l with (blank_front ++ [x00; x00] ++ raws_bytes raws); [apply ch_psk_and_lengths_run|] end.

Lemma build_synthetic_client_hello_run {S} identity (s : S) :
  run_on [] (build_synthetic_client_hello identity) s = (Ok (layout_of psk_ke_raws identity), s).
Proof. build_run. by rewrite <-!(assoc_L (++)). Qed.

Lemma build_synthetic_client_hello_dhe_run {S} identity pub (s : S) :
  length pub = X25519_LEN ->
  run_on [] (build_synthetic_client_hello_dhe identity pub) s = (Ok (layout_of (dhe_raws pub) identity), s).
Proof.
  intros Hp. unfold X25519_LEN in Hp. build_run. rewrite <-!(assoc_L (++)). do 2 f_equal.
  unfold dhe_raws, raws_bytes. cbn [fmap list_fmap mjoin list_join]. unfold raw_bytes at 3.
  cbn [raw_share raw_type raw_data]. unfold vec16 at 1 2 3. rewrite !length_app, !length_be_bytes, Hp, app_nil_r.
  done.
Qed.

Lemma build_synthetic_ch_dhe_no_share_run {S} identity (s : S) :
  run_on [] (build_synthetic_ch_dhe_no_share identity) s = (Ok (layout_of retry_raws identity), s).
Proof. build_run. by rewrite <-!(assoc_L (++)). Qed.

(** ** What the helpers compute *)

Section Helpers.
Context `{CS : TlsCipherSuite, !TlsCipherSuiteLaws CS}.
Implicit Types ks : KeySchedule.

(** A ClientHello whose binder covers [transcript] and the bytes before it. *)
Definition bound_hello (raws : list RawExtension) (identity base transcript : list byte) : list byte :=
  hello_message (ch_fields raws identity (Finished_Mac base (transcript ++ ch_prefix raws identity))).

Lemma splice_binder_run raws identity base transcript ks :
  HashLen = SHA256_LEN -> HashLen <= length base -> binder_key (client_state ks) = secret_of base ->
  splice_binder transcript (layout_of raws identity) ks
  = (Ok (bound_hello raws identity base transcript), ks).
Proof.
  intros HH Hb Hk. unfold splice_binder, layout_of. cbn [lay_bytes lay_binders_start lay_binder_pos].
  rewrite sub_0_app, bind_unwrap_Some, bind_get.
  rewrite (bind_Ok _ _ _ _ _ (expect_Ok _ _ _ _ (create_psk_binder_spec base _ _ ks Hb Hk))).
  cbn [binder_verify]. set (mac := Finished_Mac base _).
  assert (length mac = SHA256_LEN) as Hm by (unfold mac; by rewrite length_Finished_Mac).
  unfold bound_hello. fold mac. rewrite hello_message_split by done. clearbody mac.
  generalize (ch_prefix raws identity). intros P. eapply run_on_Ok. unfold copy_at. rewrite decide_True by done.
  pose proof (lwrite_app (E := TlsError) (P ++ [x00; x21; x20]) (zeros 32) [] mac (length P + 3)
    ltac:(len) ltac:(by rewrite Hm)) as Hw.
  rewrite !app_nil_r, <-!(assoc_L (++)) in Hw. rewrite (bind_Ok _ _ _ _ _ Hw). reflexivity.
Qed.

Lemma sub_app_tail {A} (l1 l2 : list A) : sub (l1 ++ l2) (length l1) (length (l1 ++ l2)) = Some l2.
Proof. pose proof (sub_app l1 l2 []) as H. by rewrite app_nil_r, <-length_app in H. Qed.

Lemma record_body_len_sealed {S} st inner t (s : S) :
  kss_wf st -> (Z.of_nat (length inner + 1 + TagLen) < 2 ^ 16)%Z ->
  record_body_len (sealed st inner t) s = (Ok (length inner + 1 + TagLen), s).
Proof.
  intros Hw Hl. destruct (sealed_spec st inner t Hw ltac:(lia)) as (c & tag & _ & _ & _ & ->).
  unfold record_body_len, record_header. set (n := length inner + 1 + TagLen) in *.
  pose proof (from_be_be_bytes 2 (Z.of_nat n)) as Hf. rewrite be_bytes_2 in *.
  cbn [app lookup list_lookup]. rewrite !bind_unwrap_Some.
  by rewrite Hf, Z.mod_small, Nat2Z.id by lia.
Qed.

(** A panic on an error is the same inside and outside of a region. *)
Lemma with_region_expect {E E' A} a b pos (m : M CryptoBuffer E' A) l :
  with_region (E := E) a b pos (expect m) l = expect (with_region a b pos m) l.
Proof. unfold with_region, expect. destruct (sub l a b); [|done]. by destruct (m _) as [[] ?]. Qed.

(** Decryption in the front of a buffer. *)
Lemma with_region_decrypt {E} k n a body tail p :
  TagLen <= length body ->
  aead_open k n a (take (length body - TagLen) body) (drop (length body - TagLen) body) = Some p ->
  with_region (E := E) 0 (length body) (length body)
    (expect (decrypt_in_place k n a);; c ← get; mret (cb_len c)) (body ++ tail)
  = (Ok (length p), p ++ drop (length p) body ++ tail).
Proof.
  intros Hl Hp. pose proof (open_length _ _ _ _ _ _ Hp) as Hlen. rewrite length_take in Hlen.
  unfold with_region. pose proof (sub_app [] body tail) as Hsub. simpl in Hsub. rewrite Hsub.
  unfold mbind at 1, M_bind at 1, expect. rewrite decrypt_in_place_spec, decide_False by lia. cbv zeta.
  rewrite Hp, bind_get. unfold mret, M_ret. cbn [cb_buf cb_len take app].
  rewrite drop_app_length, <-(assoc_L (++)). by replace (length body - TagLen) with (length p) by lia.
Qed.

Lemma client_decrypt_in_run st inner t ks buf :
  same_keys st (server_keys ks) -> kss_wf st -> (counter st + 1 < 2 ^ 64)%Z ->
  (Z.of_nat (length inner + 1 + TagLen) < 2 ^ 16)%Z -> length inner + 1 + TagLen <= length buf ->
  exists rest, client_decrypt_in (sealed st inner t) (length inner + 1 + TagLen) (ks, buf)
  = (Ok (length inner + 1), (with_server_keys (bump (server_keys ks)) ks, (inner ++ [ct_byte t]) ++ rest)) /\
    length ((inner ++ [ct_byte t]) ++ rest) = length buf.
Proof.
  intros (Hk & Hi & Hc) Hw Hctr Hl Hbuf.
  destruct (sealed_spec st inner t Hw ltac:(lia)) as (c & tag & Hs & Hlc & Ht & ->).
  set (n := length inner + 1 + TagLen) in *. set (hdr := record_header n) in *.
  assert (length (c ++ tag) = n) as Hn by (unfold n; len).
  unfold client_decrypt_in. change RECORD_HEADER_LEN with (length hdr).
  rewrite (sub_app_tail hdr (c ++ tag)), bind_unwrap_Some.
  erewrite bind_Ok.
  2:{ unfold on_snd, zoom, copy_at. cbn [fst snd]. rewrite decide_True by done.
      rewrite <-(take_drop n buf) at 1.
      pose proof (lwrite_app (E := TlsError) [] (take n buf) (drop n buf) (c ++ tag) 0 eq_refl ltac:(len)) as Hcp.
      cbn [app] in Hcp. rewrite Hcp. reflexivity. }
  rewrite bind_get. cbv beta iota. rewrite sub_0_app, bind_unwrap_Some.
  erewrite bind_Ok.
  2:{ unfold read_cipher, read_get_nonce, kss_get_nonce. rewrite (bind_Ok _ _ _ _ _ (expect_Ok _ _ _ _ (get_nonce_spec _ _ _))).
      fold (server_keys ks). rewrite <-Hk, <-Hi, <-Hc. unfold on_snd, zoom. cbn [fst snd]. rewrite <-Hn.
      rewrite (with_region_decrypt _ _ _ _ _ (inner ++ [ct_byte t])); [reflexivity|lia|].
      rewrite length_app. replace (length c + length tag - TagLen) with (length c) by lia.
      rewrite take_app_length, drop_app_length. by apply open_seal. }
  erewrite bind_Ok by (unfold on_fst, zoom; cbn [fst snd]; rewrite read_increment_spec by (by rewrite <-Hc);
    reflexivity).
  set (rest := drop _ _ ++ _). exists rest. split; [by rewrite length_app|].
  unfold rest. rewrite !length_app, !length_drop, length_app. simpl. lia.
Qed.

Lemma sealed_first st inner t :
  kss_wf st -> (Z.of_nat (length inner) < 2 ^ 16 - 1)%Z ->
  sealed st inner t !! 0 = Some (ct_byte CT_ApplicationData).
Proof. intros Hw Hl. by destruct (sealed_spec st inner t Hw Hl) as (c & tag & _ & _ & _ & ->). Qed.

(** What is left when the padding and the content type are cut off. *)
Lemma rposition_marker inner t : ct_byte t <> x00 -> rposition nonzero (inner ++ [ct_byte t]) = Some (length inner).
Proof. intros Ht. apply rposition_app; [by apply bool_decide_true|done]. Qed.

Lemma client_decrypt_handshake_record_run st inner t ks :
  same_keys st (server_keys ks) -> kss_wf st -> (counter st + 1 < 2 ^ 64)%Z -> ct_byte t <> x00 ->
  length inner + 1 + TagLen <= 256 ->
  client_decrypt_handshake_record (sealed st inner t) ks
  = (Ok inner, with_server_keys (bump (server_keys ks)) ks).
Proof.
  intros Hs Hw Hctr Ht Hl. unfold client_decrypt_handshake_record.
  rewrite sealed_first, bind_unwrap_Some, bind_assert by (first [done|lia]).
  rewrite (bind_Ok _ _ _ _ _ (record_body_len_sealed st inner t ks Hw ltac:(lia))).
  rewrite bind_assert by (rewrite length_sealed by (first [done|lia]); by apply bool_decide_true).
  unfold zoom at 1.
  destruct (client_decrypt_in_run st inner t ks (zeros 256) Hs Hw Hctr ltac:(lia) Hl) as (rest & Hrun & _).
  rewrite (bind_Ok _ _ _ _ _ Hrun), bind_get. cbv beta iota.
  replace (length inner + 1) with (length (inner ++ [ct_byte t])) by len.
  rewrite sub_0_app, bind_unwrap_Some, rposition_marker, bind_unwrap_Some by done.
  unfold mret, M_ret. by rewrite take_app_length.
Qed.

Lemma client_decrypt_app_data_run st d ks buf :
  same_keys st (server_keys ks) -> kss_wf st -> (counter st + 1 < 2 ^ 64)%Z ->
  (Z.of_nat (length d + 1 + TagLen) < 2 ^ 16)%Z -> length d + 1 + TagLen <= length buf ->
  exists buf', client_decrypt_app_data (sealed st d CT_ApplicationData) (ks, buf)
  = (Ok d, (with_server_keys (bump (server_keys ks)) ks, buf')).
Proof.
  intros Hs Hw Hctr Hl Hbuf. unfold client_decrypt_app_data.
  rewrite sealed_first, bind_unwrap_Some, bind_assert by (first [done|lia]).
  rewrite (bind_Ok _ _ _ _ _ (record_body_len_sealed st d _ (ks, buf) Hw ltac:(lia))).
  destruct (client_decrypt_in_run st d CT_ApplicationData ks buf Hs Hw Hctr Hl Hbuf) as (rest & Hrun & _).
  rewrite (bind_Ok _ _ _ _ _ Hrun), bind_get. cbv beta iota.
  replace (length d + 1) with (length (d ++ [ct_byte CT_ApplicationData])) by len.
  rewrite sub_0_app, bind_unwrap_Some, rposition_marker, bind_unwrap_Some by done.
  rewrite <-(assoc_L (++)), lookup_app_r, Nat.sub_diag by lia. cbn [app lookup list_lookup].
  rewrite bind_unwrap_Some, bind_assert, sub_0_app by done.
  by eexists.
Qed.

(** ** Sealing *)

Lemma client_encrypt_at_run pre inner t gap post ks c tag :
  let n := length inner + 1 + TagLen in
  aead_seal (key (client_keys ks)) (Record_Nonce (iv (client_keys ks)) (counter (client_keys ks)))
    (record_header n) (inner ++ [ct_byte t]) = Some (c, tag) ->
  length c = length inner + 1 -> length tag = TagLen -> length gap = TagLen ->
  (counter (client_keys ks) + 1 < 2 ^ 64)%Z ->
  client_encrypt_at (length pre) (length inner + 1) n (ks, pre ++ ((inner ++ [ct_byte t]) ++ gap) ++ post)
  = (Ok tt, (with_client_keys (bump (client_keys ks)) ks, pre ++ (c ++ tag) ++ post)).
Proof.
  intros n Hs Hc Ht Hg Hctr. unfold client_encrypt_at. rewrite bind_get. cbv beta iota.
  erewrite bind_Ok.
  2:{ unfold write_cipher, write_get_nonce, kss_get_nonce.
      rewrite (bind_Ok _ _ _ _ _ (expect_Ok _ _ _ _ (get_nonce_spec _ _ _))). fold (client_keys ks).
      unfold on_snd, zoom. cbn [fst snd].
      replace (length pre + n) with (length pre + (length (inner ++ [ct_byte t]) + length tag))
        by (unfold n; len).
      replace (length inner + 1) with (length (inner ++ [ct_byte t])) by len.
      rewrite with_region_expect, (expect_Ok _ _ _ _ (with_region_encrypt _ _ _ pre _ gap post c tag Hs
        ltac:(len) ltac:(by rewrite Ht))). reflexivity. }
  unfold on_fst, zoom. cbn [fst snd]. by rewrite write_increment_spec, decide_True.
Qed.

Lemma client_seal_run cap inner t ks :
  TagLen = AES_GCM_TAG_SIZE -> kss_wf (client_keys ks) -> (counter (client_keys ks) + 1 < 2 ^ 64)%Z ->
  length inner + 1 + TagLen <= cap -> (Z.of_nat (length inner) < 2 ^ 16 - 1)%Z ->
  client_seal cap (inner ++ [ct_byte t]) ks
  = (Ok (sealed (client_keys ks) inner t), with_client_keys (bump (client_keys ks)) ks).
Proof.
  intros HT Hw Hctr Hcap Hl.
  destruct (sealed_spec (client_keys ks) inner t Hw Hl) as (c & tag & Hs & Hc & Ht & ->).
  unfold client_seal. rewrite <-HT. cbv zeta. rewrite length_app. cbn [length].
  set (n := length inner + 1 + TagLen) in *. unfold zoom at 1.
  erewrite bind_Ok.
  2:{ unfold on_snd, zoom, copy_at. cbn [fst snd]. rewrite decide_True by len.
      assert (zeros cap = zeros (length inner + 1) ++ zeros TagLen ++ zeros (cap - n)) as ->.
      { unfold zeros. rewrite <-!replicate_add. f_equal. unfold n. lia. }
      pose proof (lwrite_app (E := TlsError) [] (zeros (length inner + 1)) (zeros TagLen ++ zeros (cap - n))
        (inner ++ [ct_byte t]) 0 eq_refl ltac:(unfold zeros; rewrite length_replicate; len)) as Hcp.
      cbn [app] in Hcp. rewrite Hcp. reflexivity. }
  pose proof (client_encrypt_at_run [] inner t (zeros TagLen) (zeros (cap - n)) ks c tag Hs Hc Ht
    (length_replicate _ _) Hctr) as He.
  cbn [app length] in He. fold n in He. cbn [fst]. rewrite (assoc_L (++)), (bind_Ok _ _ _ _ _ He), bind_get. cbv beta iota.
  assert (sub ((c ++ tag) ++ zeros (cap - n)) 0 n = Some (c ++ tag)) as ->.
  { replace n with (length (c ++ tag)) at 2 by (unfold n; len). apply sub_0_app. }
  by rewrite bind_unwrap_Some.
Qed.

Lemma build_client_finished_record_run base ks :
  HashLen <= length base -> traffic_secret (client_keys ks) = secret_of base ->
  TagLen = AES_GCM_TAG_SIZE -> kss_wf (client_keys ks) -> (counter (client_keys ks) + 1 < 2 ^ 64)%Z ->
  build_client_finished_record ks
  = (Ok (sealed (client_keys ks) (finished_message (Finished_Mac base (transcript_hash ks))) CT_Handshake),
     with_client_keys (bump (client_keys ks)) ks).
Proof.
  intros Hb Hs HT Hw Hctr. unfold build_client_finished_record. rewrite bind_get.
  rewrite (bind_Ok _ _ _ _ _ (expect_Ok _ _ _ _ (create_client_finished_spec base ks ks Hb Hs))).
  cbn [verify]. set (mac := Finished_Mac base _). pose proof hash_len. pose proof tag_len.
  assert (length mac = HashLen) as Hm by apply length_Finished_Mac.
  assert ([hs_byte HT_Finished] ++ [x00; x00; u8_of_nat (length mac)] ++ mac ++ [ct_byte CT_Handshake]
    = finished_message mac ++ [ct_byte CT_Handshake]) as ->.
  { unfold finished_message, handshake_message, vec24. rewrite be_bytes_3.
    assert (forall k, (8 <= k)%Z -> u8 (Z.of_nat (length mac) ≫ k) = x00) as Hz.
    { intros k Hk. rewrite Hm, Z.shiftr_div_pow2, Z.div_small; [done| |lia].
      split; [lia|]. apply Z.lt_le_trans with (2 ^ 8)%Z; [lia|]. apply Z.pow_le_mono_r; lia. }
    rewrite !Hz by lia. done. }
  pose proof (length_finished_message base (transcript_hash ks)) as Hl. fold mac in Hl.
  apply client_seal_run; [done..|lia|lia].
Qed.

Lemma client_encrypt_alert_run l d ks :
  TagLen = AES_GCM_TAG_SIZE -> kss_wf (client_keys ks) -> (counter (client_keys ks) + 1 < 2 ^ 64)%Z ->
  client_encrypt_alert l d ks
  = (Ok (sealed (client_keys ks) (fst (item_inner (AlertRecord l d))) CT_Alert),
     with_client_keys (bump (client_keys ks)) ks).
Proof.
  intros HT Hw Hctr. pose proof tag_len.
  apply (client_seal_run 64 [u8 (AlertLevel_code l); u8 (AlertDescription_code d)]); [done..|simpl; lia|simpl; lia].
Qed.

Lemma client_encrypt_app_data_run d ks out :
  TagLen = AES_GCM_TAG_SIZE -> kss_wf (client_keys ks) -> (counter (client_keys ks) + 1 < 2 ^ 64)%Z ->
  (Z.of_nat (length d) < 2 ^ 16 - 1)%Z -> 5 + (length d + 1 + TagLen) <= length out ->
  exists out', client_encrypt_app_data d (ks, out)
  = (Ok (sealed (client_keys ks) d CT_ApplicationData),
     (with_client_keys (bump (client_keys ks)) ks, out')).
Proof.
  intros HT Hw Hctr Hl Hout.
  destruct (sealed_spec (client_keys ks) d CT_ApplicationData Hw Hl) as (c & tag & Hs & Hc & Ht & ->).
  destruct (split_out out (length d) Hout) as (o1 & o2 & b4 & gap & Ho & Ho1 & Ho2 & Hgap).
  unfold client_encrypt_app_data. rewrite <-HT. cbv zeta.
  set (n := length d + 1 + TagLen) in *. set (hdr := record_header n) in *.
  set (rest := drop (5 + n) out) in *. clearbody rest. subst out.
  erewrite bind_Ok by (unfold on_snd, zoom; simpl snd;
    rewrite <-(app_nil_l (o1 ++ _)), (lwrite_app [] o1) by done; reflexivity).
  erewrite bind_Ok by (unfold on_snd, zoom, copy_at; cbn [fst snd app]; rewrite decide_True by done;
    rewrite (lwrite_app hdr o2) by done; reflexivity).
  erewrite bind_Ok by (unfold on_snd, zoom; cbn [fst snd];
    rewrite (assoc_L (++) hdr d), lset_app by (lens; done); reflexivity).
  cbn [fst].
  replace ((hdr ++ d) ++ ct_byte CT_ApplicationData :: gap ++ rest)
    with (hdr ++ ((d ++ [ct_byte CT_ApplicationData]) ++ gap) ++ rest) by (by rewrite <-!(assoc_L (++))).
  change RECORD_HEADER_LEN with (length hdr) at 1.
  rewrite (bind_Ok _ _ _ _ _ (client_encrypt_at_run hdr d CT_ApplicationData gap rest ks c tag Hs Hc Ht Hgap Hctr)).
  rewrite bind_get. cbv beta iota. rewrite (assoc_L (++) hdr).
  replace (length hdr + n) with (length (hdr ++ c ++ tag)) by (unfold n; rewrite !length_app; simpl; lia).
  rewrite sub_0_app. by eexists.
Qed.

(** ** Splitting the flight *)

Lemma one_record_run {S} r rest (s : S) n :
  record_body_len (S := S) (r ++ rest) s = (Ok n, s) -> length r = 5 + n ->
  one_record (r ++ rest) s = (Ok (r, rest), s).
Proof.
  intros Hb Hn. unfold one_record. rewrite (bind_Ok _ _ _ _ _ Hb). cbv zeta.
  replace (RECORD_HEADER_LEN + n) with (length r) by (rewrite Hn; done).
  by rewrite sub_0_app, bind_unwrap_Some, sub_app_tail, bind_unwrap_Some.
Qed.

Lemma record_body_len_app {S} r rest (s : S) n :
  record_body_len r s = (Ok n, s) -> record_body_len (r ++ rest) s = (Ok n, s).
Proof. destruct r as [|? [|? [|? [|? [|? ?]]]]]; done. Qed.

Lemma one_record_sealed {S} st inner t rest (s : S) :
  kss_wf st -> (Z.of_nat (length inner + 1 + TagLen) < 2 ^ 16)%Z ->
  one_record (sealed st inner t ++ rest) s = (Ok (sealed st inner t, rest), s).
Proof.
  intros Hw Hl. eapply one_record_run.
  - apply record_body_len_app. by apply record_body_len_sealed.
  - by rewrite length_sealed by (first [done|lia]).
Qed.

Lemma one_record_plain {S} t body rest (s : S) :
  (Z.of_nat (4 + length body) < 2 ^ 16)%Z ->
  one_record (plain_record t body ++ rest) s = (Ok (plain_record t body, rest), s).
Proof.
  intros Hl. eapply one_record_run; [|apply length_plain_record]. apply record_body_len_app.
  rewrite plain_record_eq. pose proof (from_be_be_bytes 2 (Z.of_nat (4 + length body))) as Hf.
  unfold record_body_len. rewrite be_bytes_2 in *. cbn [app lookup list_lookup].
  rewrite !bind_unwrap_Some, Hf, Z.mod_small, Nat2Z.id by lia. done.
Qed.

Lemma split_first_flight_run {S} t body st inner inner' ct (s : S) :
  (Z.of_nat (4 + length body) < 2 ^ 16)%Z -> kss_wf st -> kss_wf (bump st) ->
  (Z.of_nat (length inner + 1 + TagLen) < 2 ^ 16)%Z -> (Z.of_nat (length inner' + 1 + TagLen) < 2 ^ 16)%Z ->
  split_first_flight (plain_record t body ++ sealed st inner ct ++ sealed (bump st) inner' ct) s
  = (Ok (plain_record t body, sealed st inner ct, sealed (bump st) inner' ct), s).
Proof.
  intros Hb Hw Hw' Hi Hi'. unfold split_first_flight.
  rewrite (bind_Ok _ _ _ _ _ (one_record_plain t body _ s Hb)). cbv beta iota.
  rewrite (bind_Ok _ _ _ _ _ (one_record_sealed st inner ct _ s Hw Hi)). cbv beta iota.
  pose proof (one_record_sealed (bump st) inner' ct [] s Hw' Hi') as Hr. rewrite app_nil_r in Hr.
  by rewrite (bind_Ok _ _ _ _ _ Hr).
Qed.
End Helpers.
