(* ===== verification/TestSteps.v ===== *)
(** The steps of the self-loop tests (server.rs, module [tests]).

    The pieces the tests share, on the client's key schedule and the server: opening
    the flight, checking the Finished, finishing the handshake, driving a retry.  The
    lemmas say how each runs against the server: an acceptable ClientHello is answered
    with the flight of the specification, the ClientHellos of the simulated client are
    acceptable, and the client's schedule follows the server's step by step. *)

From S2P Require Import Prelude Errors CryptoBuffer ParseBuffer Wire ExtensionData Extensions.
From S2P Require Import CryptoSuite KeySchedule KeyScheduleProps ClientHello Handshake Server.
From S2P Require Import ServerRecords ServerHandshake ServerSteps ServerSpec TestClient.
From Stdlib Require Import ZArith Lia.
From Stdlib Require Import Strings.Byte.
From Stdlib Require Strings.String.
From stdpp Require Import base list option numbers tactics sets.

Import Stdlib.Strings.String.StringSyntax.

(** [let mut buf = [0u8; n];] for one call *)
Definition with_array {S A} (n : nat) (m : M (S * list byte) TlsError A) : M S TlsError A :=
  zoom (fun s => (s, zeros n)) (fun p _ => fst p) m.

Lemma with_array_run {S A} n (m : M (S * list byte) TlsError A) s a s' buf :
  m (s, zeros n) = (Ok a, (s', buf)) -> with_array n m s = (Ok a, s').
Proof. unfold with_array, zoom. by intros ->. Qed.

(** [assert_eq!(a, b)] on bytes *)
Definition assert_eq {S} (a b : list byte) : M S TlsError unit := assert_ (bool_decide (a = b)).

Lemma bind_assert_eq {S B} a b (k : unit -> M S TlsError B) s : a = b -> (assert_eq a b ≫= k) s = k tt s.
Proof. intros ->. unfold assert_eq. by rewrite bool_decide_true. Qed.

Section Tests.
Context `{CS : TlsCipherSuite, X : X25519Ops}.
Abbreviation CM := (M KeySchedule TlsError).

(** ** The client's part of a handshake *)

(** The bytes of a plaintext record after its header. *)
Definition record_message {S} (record : list byte) : M S TlsError (list byte) :=
  unwrap (sub record RECORD_HEADER_LEN (length record)).

Definition EE_EMPTY : list byte := [x08; x00; x00; x02; x00; x00].

(** Open EncryptedExtensions and the Finished, which is returned with the
    transcript hash before it. *)
Definition client_opens_flight (ee_record fin_record : list byte) : CM (list byte * list byte) :=
  ee_inner ← client_decrypt_handshake_record ee_record;
  transcript_update ee_inner;;
  assert_eq ee_inner EE_EMPTY;;
  fin_inner ← client_decrypt_handshake_record fin_record;
  ks ← get;
  let pre_fin_snapshot := digest_out (transcript_hash ks) in
  transcript_update fin_inner;;
  mret (fin_inner, pre_fin_snapshot).

Definition client_verifies_finished (fin_inner pre_fin_snapshot : list byte) : CM unit :=
  v ← unwrap (sub fin_inner 4 (4 + SHA256_LEN));
  ks ← get;
  ok ← expect (verify_server_finished (server_state ks) (mkFinished v (Some pre_fin_snapshot)));
  assert_ ok.

(** [ServerHello::parse] of the record, and the X25519 share in it. *)
Definition server_share (sh_record : list byte) {S} : M S TlsError (list byte) :=
  sh_body ← unwrap (sub sh_record (RECORD_HEADER_LEN + HANDSHAKE_HEADER_LEN) (length sh_record));
  parsed_sh ← run_on (pb_new sh_body) (expect ServerHello_parse);
  entry ← unwrap (sh_key_share parsed_sh);
  assert_ (bool_decide (length (ks_opaque entry) = X25519_LEN));;
  mret (ks_opaque entry).

(** ** psk_ke *)

Abbreviation Peers := (M (KeySchedule * KeySchedule) TlsError).

(** From the encrypted part of the flight to the application keys of both. *)
Definition finish_handshake (ee_record fin_record : list byte) : Peers unit :=
  '(fin_inner, pre_fin_snapshot) ← on_fst (client_opens_flight ee_record fin_record);
  t ← unwrap (fin_inner !! 0);
  assert_ (bool_decide (t = hs_byte HT_Finished));;
  on_fst (client_verifies_finished fin_inner pre_fin_snapshot);;
  client_fin_record ← on_fst build_client_finished_record;
  on_snd (expect (process_client_finished client_fin_record));;
  on_fst (expect initialize_master_secret).

Abbreviation Session := (M (KeySchedule * TlsServerSession) TlsError).

(** The first ClientHello and the retry it gets. *)
Definition drive_hrr (identity : list byte) (config : TlsServerConfig) : Session (list byte * list byte) :=
  layout ← run_on [] (build_synthetic_ch_dhe_no_share identity);
  ch1_layout ← on_fst (finalize_ch1_binder layout);
  let ch1 := lay_bytes ch1_layout in
  result ← on_snd (with_array 1024 (expect (session_process_client_hello ch1 config)));
  match result with
  | HelloRetryRequest hrr_record => mret (ch1, hrr_record)
  | FirstFlight _ => panic
  end.

Definition session_flight (ch : list byte) (config : TlsServerConfig) : Session (list byte) :=
  result ← on_snd (with_array 1024 (expect (session_process_client_hello ch config)));
  match result with
  | FirstFlight bytes => mret bytes
  | HelloRetryRequest _ => panic
  end.
End Tests.

(** ** The server's answer to an acceptable ClientHello *)

Section Answers.
Context `{CS : TlsCipherSuite, !TlsCipherSuiteLaws CS, X : X25519Ops}.
Implicit Types (cfg : TlsServerConfig).

Lemma offer_det cfg first ch hello dec idx binder hello' dec' idx' binder' :
  Offer cfg first ch hello dec idx binder -> Offer cfg first ch hello' dec' idx' binder' ->
  hello = hello' /\ dec = dec' /\ idx = idx'.
Proof.
  intros [Hm _ _ _ Hk [psk Hs] _] [Hm' _ _ _ Hk' [psk' Hs'] _].
  assert (hello = hello') as <- by (by eapply reads_as_unique).
  destruct (Selected_unique _ _ _ _ _ _ _ _ Hs Hs') as (_ & <- & _). split; [done|]. split; [congruence|done].
Qed.

Lemma hs_step_det cfg first ch bs a bs' a' :
  hs_step cfg (Start first) ch bs a -> hs_step cfg (Start first) ch bs' a' -> bs = bs' /\ a = a'.
Proof.
  intros H H'. inversion H; subst; inversion H'; subst.
  all: match goal with H1 : Offer _ _ _ _ _ _ _, H2 : Offer _ _ _ _ _ _ _ |- _ =>
    destruct (offer_det _ _ _ _ _ _ _ _ _ _ _ H1 H2) as (<- & Hd & <-) end.
  all: simplify_eq; done.
Qed.

(** A step of the specification that fits the buffer is the answer. *)
Lemma hello_answer cfg first ch bs a out :
  first_ok first -> hs_step cfg (Start first) ch bs a -> length bs <= length out ->
  exists o, session_process_client_hello ch cfg (session_of cfg (Start first), out)
    = (Ok o, (session_of cfg a, bs ++ drop (length bs) out)) /\
    o = (match a with Start _ => HelloRetryRequest bs | _ => FirstFlight bs end).
Proof.
  intros Hok Hs Hl. pose proof (hello_call cfg first ch out Hok) as H. unfold wp in H.
  destruct (session_process_client_hello ch cfg _) as [[o|e| |] [ses' out']]; try done.
  2:{ destruct H as [_ H]. specialize (H _ _ Hs). lia. }
  destruct H as (a' & Hs' & -> & Hret & ->). destruct (hs_step_det _ _ _ _ _ _ _ Hs Hs') as [-> <-].
  exists o. split; [done|]. inversion Hs'; subst.
  - destruct o; [|cbn in *; congruence]. by destruct Hret as [_ Hret]; discriminate Hret; eauto.
  - destruct o; [cbn in *; congruence|]. destruct Hret as [Hret _]. by destruct (Hret eq_refl).
Qed.

Lemma session_flight_run cfg first ch hello mode idx binder ikm ks :
  let f := flight cfg first ch hello mode idx ikm in
  first_ok first -> Offer cfg first ch hello (Use mode) idx binder -> kex_ikm cfg mode = Some ikm ->
  length (fl_bytes f) <= 1024 ->
  session_flight ch cfg (ks, session_of cfg (Start first))
  = (Ok (fl_bytes f), (ks, session_of cfg (AwaitFinished first f))).
Proof.
  intros f Hok Hof Hikm Hl.
  destruct (hello_answer cfg first ch (fl_bytes f) (AwaitFinished first f) (zeros 1024)) as (o & Hrun & ->);
    [done|by eapply hs_flight|unfold zeros; by rewrite length_replicate|].
  unfold session_flight.
  by rewrite (bind_Ok _ _ _ _ _ (on_snd_run _ _ _ _ _ (with_array_run _ _ _ _ _ _ (expect_Ok _ _ _ _ Hrun)))).
Qed.

(** The free function is the method on a fresh session. *)
Lemma free_of_session ch cfg out bs ses out' :
  session_process_client_hello ch cfg (TlsServerSession_new, out) = (Ok (FirstFlight bs), (ses, out')) ->
  process_client_hello ch cfg (KeySchedule_new, out) = (Ok bs, (ses_schedule ses, out')).
Proof.
  unfold session_process_client_hello, process_client_hello, zoom, mbind, M_bind. cbn [fst snd].
  change (ses_schedule TlsServerSession_new) with KeySchedule_new.
  change (ses_hrr TlsServerSession_new) with HrrState_default.
  destruct (process_client_hello_inner ch cfg _) as [r h]. by intros [= -> <- <-].
Qed.

Lemma free_flight_run cfg ch hello mode idx binder ikm (ks : KeySchedule) :
  let f := flight cfg None ch hello mode idx ikm in
  Offer cfg None ch hello (Use mode) idx binder -> kex_ikm cfg mode = Some ikm ->
  length (fl_bytes f) <= 1024 ->
  on_snd (with_array 1024 (expect (process_client_hello ch cfg))) (ks, KeySchedule_new)
  = (Ok (fl_bytes f), (ks, await_schedule cfg f)) :> (result TlsError _ * _).
Proof.
  intros f Hof Hikm Hl.
  destruct (hello_answer cfg None ch (fl_bytes f) (AwaitFinished None f) (zeros 1024)) as (o & Hrun & ->);
    [done|by eapply hs_flight|unfold zeros; by rewrite length_replicate|].
  apply on_snd_run. eapply with_array_run, expect_Ok. by apply free_of_session in Hrun.
Qed.
End Answers.

(** ** The simulated client's offers are acceptable *)

Section Offers.
Context `{CS : TlsCipherSuite, !TlsCipherSuiteLaws CS, X : X25519Ops}.
Implicit Types (cfg : TlsServerConfig).

Definition ext_versions : ClientHelloExtension := CH_SupportedVersions (mkVersionsCH [TLS13]).
Definition ext_modes (m : PskKeyExchangeMode) : ClientHelloExtension := CH_PskKeyExchangeModes (mkPskModes [m]).
Definition ext_groups : ClientHelloExtension := CH_SupportedGroups (mkGroups [X25519]).
Definition ext_share (pubs : list (list byte)) : ClientHelloExtension :=
  CH_KeyShare (mkKeyShareCH (mkKeyShareEntry X25519 <$> pubs)).

Definition psk_ke_exts : list ClientHelloExtension := [ext_versions; ext_modes PskKe].
Definition dhe_exts (pub : list byte) : list ClientHelloExtension :=
  [ext_versions; ext_modes PskDheKe; ext_share [pub]].
Definition retry_exts : list ClientHelloExtension :=
  [ext_versions; ext_groups; ext_modes PskDheKe; ext_share []].

Lemma psk_ke_raws_of : psk_ke_raws = raw_of <$> psk_ke_exts.
Proof. reflexivity. Qed.
Lemma retry_raws_of : retry_raws = raw_of <$> retry_exts.
Proof. reflexivity. Qed.
Lemma dhe_raws_of pub : dhe_raws pub = raw_of <$> dhe_exts pub.
Proof.
  unfold dhe_raws, dhe_exts. cbn [fmap list_fmap]. repeat f_equal. unfold raw_share, raw_of.
  cbn [ext_share extension_type ClientHelloExtension_group fmap list_fmap]. f_equal.
  cbn. by rewrite app_nil_r.
Qed.

(** The extensions a simulated client sends in front of its PSK offer. *)
Record FrontOk (exts : list ClientHelloExtension) : Prop := {
  fo_data : Forall data_ok exts;
  fo_psk : Forall (fun e => is_psk e = false) exts;
  fo_number : length exts <= 15;
  fo_size : length (raws_bytes (raw_of <$> exts)) <= 1000;
  fo_tls13 : head exts = Some ext_versions;
}.

Definition sim_hello (exts : list ClientHelloExtension) (identity binder : list byte) : ClientHelloRef :=
  mkHello 0x0303 (replicate 32 xa5) [] (be_bytes 2 TLS_AES_128_GCM_SHA256) [x00]
    (exts ++ [CH_PreSharedKey (mkPskCH [identity] [binder] 32)])
    (length (ch_prefix (raw_of <$> exts) identity)).

Definition identity_ok (identity : list byte) : Prop := (1 <= Z.of_nat (length identity) < 2 ^ 15)%Z.

Lemma psk_ke_front : FrontOk psk_ke_exts.
Proof. split; [|by repeat constructor|simpl; lia|vm_compute; lia|done]. repeat constructor; (done || (simpl; lia)). Qed.
Lemma retry_front : FrontOk retry_exts.
Proof. split; [|by repeat constructor|simpl; lia|vm_compute; lia|done]. repeat constructor; (done || (simpl; lia)). Qed.
Lemma dhe_front pub : length pub = X25519_LEN -> FrontOk (dhe_exts pub).
Proof.
  unfold X25519_LEN. intros Hp. split; [|by repeat constructor|simpl; lia| |done].
  - apply Forall_app_2 with (l1 := take 2 (dhe_exts pub)) (l2 := [ext_share [pub]]).
    + repeat constructor; (done || (simpl; lia)).
    + apply Forall_singleton. assert (length (KeyShareEntry_bytes (mkKeyShareEntry X25519 pub)) = 36) as Hl.
      { unfold KeyShareEntry_bytes. cbn [ks_opaque]. lens. lia. }
      split; cbn [CH_bytes CH_payload_ok ext_share]; unfold KeyShareClientHello_bytes, KeyShareClientHello_ok;
        cbn [client_shares fmap list_fmap mjoin list_join]; rewrite app_nil_r; [lens; lia|].
      split_and!; [lia|simpl; lia|]. apply Forall_singleton. unfold KeyShareEntry_ok. cbn [ks_opaque]. lia.
  - cbn. rewrite !app_nil_r. lens. lia.
Qed.

Lemma sim_hello_reads exts identity binder :
  FrontOk exts -> identity_ok identity -> length binder = SHA256_LEN ->
  reads_as (hello_message (ch_fields (raw_of <$> exts) identity binder)) (sim_hello exts identity binder).
Proof.
  intros [Hd Hp Hn Hs _] Hid Hb. set (raws := raw_of <$> exts) in *. exists (ch_fields raws identity binder).
  unfold SHA256_LEN, identity_ok in *.
  assert (length (psk_wire [(identity, 0%Z)] [binder]) = psk_len identity) as Hw
    by (by apply length_psk_wire_single).
  unfold psk_len in Hw. split_and!; [|done|].
  - unfold hello_fields_ok, ch_fields.
    cbn [f_version f_random f_session_id f_suites f_compression f_extensions].
    split_and!; try done; try (simpl; lia).
    + apply Forall_app_2.
      * apply Forall_fmap. eapply Forall_impl; [exact Hd|]. apply raw_of_ok.
      * apply Forall_singleton. split; cbn [raw_type raw_data]; [done|lia].
    + rewrite raws_bytes_app, length_app. unfold raws_bytes at 2. cbn [fmap list_fmap mjoin list_join].
      rewrite app_nil_r. unfold raw_bytes. cbn [raw_type raw_data]. lens. lia.
  - erewrite (hello_of_last_psk _ _ raws exts [(identity, 0%Z)] (mkPskCH [identity] [binder] 32)).
    + unfold sim_hello. cbn [ch_fields f_version f_random f_session_id f_suites f_compression binders].
      do 2 f_equal. rewrite length_psk_binders_bytes. cbn [sum_list_with]. rewrite Hb.
      rewrite hello_message_split by done. lens. unfold raws in *. lia.
    + done.
    + unfold psk_wire_ok, binders_ok. cbn [identities binders hash_size fmap list_fmap fst].
      split_and!; try done; try (simpl; lia).
      * apply Forall_singleton. unfold psk_identity_ok. cbn [fst snd]. lia.
      * by apply Forall_singleton.
      * unfold psk_identity_bytes. cbn [fst snd mjoin list_join]. rewrite app_nil_r. lens. lia.
      * cbn [mjoin list_join]. rewrite app_nil_r. lens. lia.
    + apply (vector_of_raws_of _ exts []); [done|]. unfold CLIENT_HELLO_MAX_EXTENSIONS. simpl. lia.
    + done.
    + unfold CLIENT_HELLO_MAX_EXTENSIONS. lia.
Qed.

Lemma find_psk_last exts p :
  Forall (fun e => is_psk e = false) exts -> find_map find_psk (exts ++ [CH_PreSharedKey p]) = Some p.
Proof. induction 1 as [|e exts He _ IH]; [done|]. by destruct e. Qed.

(** The binder of a hello that follows [first]. *)
Definition sim_binder cfg first (exts : list ClientHelloExtension) : list byte :=
  Finished_Mac (Binder_Key (psk_secret cfg))
    (hello_base first ++ ch_prefix (raw_of <$> exts) (psk_identity cfg)).
Definition sim_bytes cfg first (exts : list ClientHelloExtension) : list byte :=
  bound_hello (raw_of <$> exts) (psk_identity cfg) (Binder_Key (psk_secret cfg)) (hello_base first).
Definition sim_first cfg (exts : list ClientHelloExtension) : option (list byte * ClientHelloRef) :=
  Some (sim_bytes cfg None exts, sim_hello exts (psk_identity cfg) (sim_binder cfg None exts)).

Lemma sim_offer cfg first exts dec :
  HashLen = SHA256_LEN -> FrontOk exts -> identity_ok (psk_identity cfg) ->
  (first = None \/ exists exts1, first = sim_first cfg exts1) ->
  (forall b, kex_choice (sim_hello exts (psk_identity cfg) b) cfg (bool_decide (is_Some first)) = Ok dec) ->
  Offer cfg first (sim_bytes cfg first exts)
    (sim_hello exts (psk_identity cfg) (sim_binder cfg first exts)) dec 0 (sim_binder cfg first exts).
Proof.
  intros HH Hfo Hid Hfirst Hk.
  assert (length (sim_binder cfg first exts) = SHA256_LEN) as Hb by (rewrite <-HH; apply length_Finished_Mac).
  split; cbn [sim_hello random legacy_session_id extensions binders_start_offset].
  - by apply sim_hello_reads.
  - destruct Hfo as [_ _ _ _ Ht]. destruct exts as [|e exts]; [done|]. injection Ht as ->. done.
  - done.
  - intros ch1 h1 ->. destruct Hfirst as [|[exts1 [= -> ->]]]; done.
  - apply Hk.
  - exists (mkPskCH [psk_identity cfg] [sim_binder cfg first exts] 32). split; try done.
    + apply find_psk_last, Hfo.
    + intros j id Hj. lia.
  - unfold sim_binder at 1. do 2 f_equal. unfold sim_bytes, bound_hello.
    fold (sim_binder cfg first exts). rewrite hello_message_split by done. by rewrite take_app_length.
Qed.
End Offers.

(** ** The client's state through the handshake *)

Section ClientSide.
Context `{CS : TlsCipherSuite, !TlsCipherSuiteLaws CS, X : X25519Ops}.
Implicit Types (cfg : TlsServerConfig) (f : Flight).

(** After the early secret, and with the transcript [t]. *)
Definition client_early cfg (t : list byte) : KeySchedule :=
  with_transcript t (early_schedule (psk_secret cfg) KeySchedule_new).
(** After the handshake secret, before the encrypted part of the flight is read. *)
Definition client_keyed cfg f : KeySchedule :=
  mkKS (mkShared (Derive_Secret (fl_hs f) (b_ "derived") []) (secret_of (fl_hs f)))
       (mkWrite (traffic_state (fl_client_ts f)) (bk_of cfg))
       (mkRead (traffic_state (fl_server_ts f)) (fl_transcript f)).
(** After the client's Finished, and with the application keys. *)
Definition client_finishing cfg f : KeySchedule :=
  with_client_keys (bump (traffic_state (fl_client_ts f))) (await_schedule cfg f).
Definition client_connected cfg f : KeySchedule :=
  let ks := client_finishing cfg f in
  with_traffic (Extract (sh_secret (shared ks)) (zeros HashLen)) (b_ "c ap traffic") (b_ "s ap traffic") ks.

Lemma client_early_run psk cfg :
  psk_secret cfg = psk ->
  expect (E := TlsError) (initialize_early_secret (Some psk)) KeySchedule_new = (Ok tt, client_early cfg []).
Proof. intros <-. apply expect_Ok. by rewrite initialize_early_secret_spec. Qed.

Lemma client_keyed_run cfg first ch hello mode idx ikm :
  let f := flight cfg first ch hello mode idx ikm in
  initialize_handshake_secret ikm (client_early cfg (fl_transcript f)) = (Ok tt, client_keyed cfg f).
Proof. intros f. by rewrite initialize_handshake_secret_spec. Qed.

Lemma transcript_update_run {E} cfg t m :
  transcript_update (E := E) m (client_early cfg t) = (Ok tt, client_early cfg (t ++ m)).
Proof. done. Qed.

Lemma transcript_update_spec {E} m ks :
  transcript_update (E := E) m ks = (Ok tt, with_transcript (transcript_hash ks ++ m) ks).
Proof. done. Qed.

Definition flight_ok f : Prop :=
  length (fl_client_ts f) = HashLen /\ length (fl_server_ts f) = HashLen.

Lemma flight_is_ok cfg first ch hello mode idx ikm : flight_ok (flight cfg first ch hello mode idx ikm).
Proof. split; apply length_Derive_Secret; cbn; by rewrite length_Extract. Qed.

(** The two encrypted records, opened one after the other. *)
Definition client_read_ee cfg f : KeySchedule :=
  with_transcript (fl_transcript f ++ ee_message)
    (with_server_keys (bump (traffic_state (fl_server_ts f))) (client_keyed cfg f)).

Lemma client_opens_ee cfg f :
  flight_ok f ->
  client_decrypt_handshake_record (sealed (traffic_state (fl_server_ts f)) ee_message CT_Handshake)
    (client_keyed cfg f)
  = (Ok ee_message, with_server_keys (bump (traffic_state (fl_server_ts f))) (client_keyed cfg f)).
Proof.
  intros [_ Hts]. pose proof tag_len as Htag. assert (length ee_message = 6) as Hee by done.
  apply (client_decrypt_handshake_record_run (traffic_state (fl_server_ts f))); [done| |done|done|lia].
  apply traffic_state_wf. lia.
Qed.

Lemma client_opens_finished cfg f :
  HashLen = SHA256_LEN -> flight_ok f ->
  client_decrypt_handshake_record (sealed (bump (traffic_state (fl_server_ts f))) (fl_finished f) CT_Handshake)
    (client_read_ee cfg f)
  = (Ok (fl_finished f), with_server_keys (bump (bump (traffic_state (fl_server_ts f)))) (client_read_ee cfg f)).
Proof.
  intros HH [_ Hts]. pose proof tag_len as Htag. unfold SHA256_LEN in HH.
  assert (length (fl_finished f) = 36) as Hl by (unfold fl_finished; rewrite length_finished_message; lia).
  apply (client_decrypt_handshake_record_run (bump (traffic_state (fl_server_ts f)))); [done| |done|done|lia].
  apply bump_wf; [|done]. apply traffic_state_wf. lia.
Qed.

Lemma client_read_all cfg f :
  with_transcript ((fl_transcript f ++ ee_message) ++ fl_finished f)
    (with_server_keys (bump (bump (traffic_state (fl_server_ts f)))) (client_read_ee cfg f))
  = await_schedule cfg f.
Proof. unfold await_schedule, fl_schedule. by rewrite <-(assoc_L (++)). Qed.

Lemma client_opens_flight_run cfg f :
  HashLen = SHA256_LEN -> flight_ok f ->
  let st := traffic_state (fl_server_ts f) in
  client_opens_flight (sealed st ee_message CT_Handshake) (sealed (bump st) (fl_finished f) CT_Handshake)
    (client_keyed cfg f)
  = (Ok (fl_finished f, digest_out (fl_transcript f ++ ee_message)), await_schedule cfg f).
Proof.
  intros HH Hf st. unfold client_opens_flight.
  rewrite (bind_Ok _ _ _ _ _ (client_opens_ee cfg f Hf)).
  rewrite (bind_Ok _ _ _ _ _ (transcript_update_spec _ _)), bind_assert_eq by done.
  change (with_transcript _ _) with (client_read_ee cfg f).
  rewrite (bind_Ok _ _ _ _ _ (client_opens_finished cfg f HH Hf)), bind_get. cbv zeta.
  rewrite (bind_Ok _ _ _ _ _ (transcript_update_spec _ _)). unfold mret, M_ret.
  by rewrite <-client_read_all.
Qed.

Lemma client_verifies_finished_run cfg f :
  HashLen = SHA256_LEN -> flight_ok f ->
  client_verifies_finished (fl_finished f) (digest_out (fl_transcript f ++ ee_message)) (await_schedule cfg f)
  = (Ok tt, await_schedule cfg f).
Proof.
  intros HH [_ Hts]. unfold client_verifies_finished, fl_finished, finished_message, handshake_message, vec24.
  set (mac := Finished_Mac _ _).
  assert (length mac = SHA256_LEN) as Hm by (rewrite <-HH; apply length_Finished_Mac).
  assert (forall x : list byte, length x = 4 -> sub (x ++ mac) 4 (4 + SHA256_LEN) = Some mac) as Hsub.
  { intros x Hx. rewrite <-Hm, <-Hx. rewrite <-length_app. apply sub_app_tail. }
  change (hs_byte HT_Finished :: be_bytes 3 (Z.of_nat (length mac)) ++ mac)
    with ((hs_byte HT_Finished :: be_bytes 3 (Z.of_nat (length mac))) ++ mac).
  rewrite Hsub, bind_unwrap_Some, bind_get by done.
  assert (verify_server_finished (server_state (await_schedule cfg f))
    (mkFinished mac (Some (digest_out (fl_transcript f ++ ee_message)))) (await_schedule cfg f)
    = (Ok true, await_schedule cfg f)) as Hv.
  { rewrite (verify_server_finished_spec (fl_server_ts f)) by (first [lia|done]). by rewrite bool_decide_true. }
  by rewrite (bind_Ok _ _ _ _ _ (expect_Ok _ _ _ _ Hv)).
Qed.

Lemma sim_finished_run cfg f :
  flight_ok f ->
  build_client_finished_record (await_schedule cfg f)
  = (Ok (sealed (traffic_state (fl_client_ts f)) (client_finished f) CT_Handshake), client_finishing cfg f).
Proof.
  intros [Hts _]. pose proof tag_len.
  apply (build_client_finished_record_run (fl_client_ts f)); [lia|done|done| |done].
  apply traffic_state_wf. lia.
Qed.

Lemma server_finishes cfg first f :
  flight_ok f ->
  session_process_client_finished
    (sealed (traffic_state (fl_client_ts f)) (client_finished f) CT_Handshake)
    (session_of cfg (AwaitFinished first f))
  = (Ok tt, session_of cfg (Connected first f)).
Proof.
  intros [Hts _]. set (r := sealed _ _ _). pose proof (finished_call cfg first f r Hts) as H. unfold wp in H.
  destruct (session_process_client_finished r _) as [[[]|e| |] ses']; try done.
  - by destruct H as [_ ->].
  - destruct H as [Hno _]. destruct (Hno [] (Connected first f)). by apply finished_step_exists.
Qed.

Lemma client_connects_run cfg f :
  expect (E := TlsError) initialize_master_secret (client_finishing cfg f) = (Ok tt, client_connected cfg f).
Proof. apply expect_Ok, initialize_master_secret_spec. Qed.

(** Both ends hold the same keys, of the right sizes, with counters at zero. *)
Lemma connected_in_step cfg first f :
  let sks := ses_schedule (session_of cfg (Connected first f)) in
  server_keys sks = server_keys (client_connected cfg f) /\ client_keys sks = client_keys (client_connected cfg f).
Proof. done. Qed.

Lemma connected_wf cfg f :
  kss_wf (server_keys (client_connected cfg f)) /\ kss_wf (client_keys (client_connected cfg f)).
Proof.
  split; apply traffic_state_wf; rewrite length_Derive_Secret; rewrite ?length_Extract; done.
Qed.
End ClientSide.

(** ** Sizes *)

Section Sizes.
Context `{CS : TlsCipherSuite, !TlsCipherSuiteLaws CS, X : X25519Ops}.
Implicit Types (cfg : TlsServerConfig) (f : Flight).

(** A server whose random and key pair have the sizes of their types. *)
Definition cfg_ok cfg : Prop :=
  length (server_random cfg) = 32 /\
  match dhe_keypair cfg with Some d => length (dhe_public d) = X25519_LEN | None => True end.

Lemma length_sh_body cfg idx mode :
  cfg_ok cfg -> length (server_hello_body (server_hello cfg [] idx mode)) <= 100.
Proof.
  unfold cfg_ok, X25519_LEN. intros [Hr Hd]. unfold server_hello_body, server_hello.
  cbn [em_random legacy_session_id_echo em_cipher_suite em_extensions].
  assert (length (mjoin (ext_bytes <$> sh_exts cfg idx mode)) <= 52) as He.
  { unfold sh_exts. destruct mode as [|pub], (dhe_keypair cfg) as [d|];
      cbn [fmap list_fmap mjoin list_join app]; unfold ext_bytes; rewrite ?app_nil_r, ?length_app;
      cbn; rewrite ?length_app, ?Hd; cbn; lia. }
  generalize dependent (mjoin (ext_bytes <$> sh_exts cfg idx mode)). intros E He. lens. lia.
Qed.

Lemma length_flight cfg first ch hello mode idx ikm :
  HashLen = SHA256_LEN -> cfg_ok cfg -> legacy_session_id hello = [] ->
  length (fl_bytes (flight cfg first ch hello mode idx ikm)) <= 1024.
Proof.
  intros HH Hcfg Hsid. set (f := flight _ _ _ _ _ _ _).
  destruct (flight_is_ok cfg first ch hello mode idx ikm) as [_ Hts]. fold f in Hts.
  pose proof (length_sh_body cfg (Z.of_nat idx mod 2 ^ 16) mode Hcfg) as Hb. pose proof tag_len as Htag.
  unfold SHA256_LEN in HH.
  assert (kss_wf (traffic_state (fl_server_ts f))) as Hw by (apply traffic_state_wf; lia).
  assert (kss_wf (bump (traffic_state (fl_server_ts f)))) as Hw1 by (by apply bump_wf).
  assert (length (fl_finished f) = 36) as Hl by (unfold fl_finished; rewrite length_finished_message; lia).
  unfold fl_bytes. rewrite !length_app, !length_sealed by (first [done | rewrite Hl; lia | simpl; lia]).
  rewrite Hl, Htag. change (length ee_message) with 6.
  assert (length (fl_hello f) <= 109); [|lia].
  unfold f, flight, the_flight. cbn [fl_hello]. rewrite length_plain_record, Hsid. lia.
Qed.

(** The client takes the flight apart. *)
Lemma split_flight_run {S} cfg first ch hello mode idx ikm (s : S) :
  HashLen = SHA256_LEN -> cfg_ok cfg -> legacy_session_id hello = [] ->
  let f := flight cfg first ch hello mode idx ikm in
  let st := traffic_state (fl_server_ts f) in
  split_first_flight (fl_bytes f) s
  = (Ok (plain_record HT_ServerHello (server_hello_body (server_hello cfg [] (Z.of_nat idx mod 2 ^ 16) mode)),
         sealed st ee_message CT_Handshake, sealed (bump st) (fl_finished f) CT_Handshake), s).
Proof.
  intros HH Hcfg Hsid f st. destruct (flight_is_ok cfg first ch hello mode idx ikm) as [_ Hts]. fold f in Hts.
  pose proof (length_sh_body cfg (Z.of_nat idx mod 2 ^ 16) mode Hcfg) as Hb. pose proof tag_len as Htag.
  unfold SHA256_LEN in HH.
  assert (kss_wf st) as Hw by (apply traffic_state_wf; lia).
  assert (length (fl_finished f) = 36) as Hl by (unfold fl_finished; rewrite length_finished_message; lia).
  unfold fl_bytes. fold st. unfold f at 1, flight, the_flight. cbn [fl_hello]. rewrite Hsid.
  apply split_first_flight_run; [lia|done|by apply bump_wf|simpl; lia|lia].
Qed.

Lemma record_message_plain {S} t body (s : S) :
  record_message (plain_record t body) s = (Ok (handshake_message t body), s).
Proof.
  unfold record_message, plain_record, vec16. rewrite (assoc_L (++)).
  change RECORD_HEADER_LEN with (length ([ct_byte CT_Handshake; x03; x03] ++
    be_bytes 2 (Z.of_nat (length (handshake_message t body))))).
  by rewrite sub_app_tail.
Qed.

(** ** Application data *)

Lemma server_sends m (sks : KeySchedule) :
  kss_wf (server_keys sks) -> (counter (server_keys sks) + 1 < 2 ^ 64)%Z -> length m <= 234 ->
  exists out, encrypt_application_data m (sks, zeros 256)
  = (Ok (sealed (server_keys sks) m CT_ApplicationData), (with_server_keys (bump (server_keys sks)) sks, out)).
Proof.
  intros Hw Hc Hl. pose proof tag_len.
  destruct (send_item_spec (AppData m) sks (zeros 256) Hw Hc) as (out & Hrun & _).
  { unfold item_ok. cbn [item_inner]. unfold zeros. rewrite length_replicate. lia. }
  by exists out.
Qed.

Lemma client_receives st m (cks : KeySchedule) :
  same_keys st (server_keys cks) -> kss_wf st -> (counter st + 1 < 2 ^ 64)%Z -> length m <= 234 ->
  with_array 256 (client_decrypt_app_data (sealed st m CT_ApplicationData)) cks
  = (Ok m, with_server_keys (bump (server_keys cks)) cks).
Proof.
  intros Hs Hw Hc Hl. pose proof tag_len.
  destruct (client_decrypt_app_data_run st m cks (zeros 256) Hs Hw Hc) as (buf & Hrun);
    [lia|unfold zeros; rewrite length_replicate; lia|]. by eapply with_array_run.
Qed.

Lemma client_sends m (cks : KeySchedule) :
  kss_wf (client_keys cks) -> (counter (client_keys cks) + 1 < 2 ^ 64)%Z -> length m <= 234 ->
  with_array 256 (client_encrypt_app_data m) cks
  = (Ok (sealed (client_keys cks) m CT_ApplicationData), with_client_keys (bump (client_keys cks)) cks).
Proof.
  intros Hw Hc Hl. pose proof tag_len.
  destruct (client_encrypt_app_data_run m cks (zeros 256)) as (out & Hrun);
    [done|done|done|lia|unfold zeros; rewrite length_replicate; lia|]. by eapply with_array_run.
Qed.

Lemma server_receives st m (sks : KeySchedule) :
  same_keys st (client_keys sks) -> kss_wf st -> (counter st + 1 < 2 ^ 64)%Z -> length m <= 234 ->
  exists buf, decrypt_application_data (sealed st m CT_ApplicationData) (sks, zeros 256)
  = (Ok m, (with_client_keys (bump (client_keys sks)) sks, buf)).
Proof.
  intros Hs Hw Hc Hl. pose proof tag_len.
  destruct (decrypt_record_sealed st m CT_ApplicationData sks (zeros 256) Hs Hw Hc) as (rest & Hrun & _);
    [done|lia|unfold zeros; rewrite length_replicate; lia|].
  unfold decrypt_application_data. rewrite (bind_Ok _ _ _ _ _ Hrun). cbv beta iota.
  rewrite decide_False, bind_get by (intros Hn; by apply Hn). cbv beta iota.
  rewrite sub_0_app. by eexists.
Qed.
End Sizes.
