(* ===== verification/SelfLoop.v ===== *)
(** The self-loop tests of the server (server.rs, server_self_loop_test.rs).

    Each test runs the server against the simulated client of TestClient.v: plain PSK,
    PSK with X25519, a HelloRetryRequest first, and alerts in both directions.  The
    tests are translated with their constants as parameters; the state is the
    client's key schedule and the server.  A test passes when its run does not
    panic. *)

From S2P Require Import Prelude Errors CryptoBuffer ParseBuffer Wire ExtensionData Extensions.
From S2P Require Import CryptoSuite KeySchedule KeyScheduleProps ClientHello Handshake Server.
From S2P Require Import ServerRecords ServerHandshake ServerSteps ServerSpec TestClient TestSteps.
From Stdlib Require Import ZArith Lia.
From Stdlib Require Import Strings.Byte.
From Stdlib Require Strings.String.
From stdpp Require Import base list option numbers tactics sets.

Import Stdlib.Strings.String.StringSyntax.

Section Tests.
Context `{CS : TlsCipherSuite, X : X25519Ops}.
Abbreviation Peers := (M (KeySchedule * KeySchedule) TlsError).
Abbreviation Session := (M (KeySchedule * TlsServerSession) TlsError).

(** ** psk_ke *)

(** The part of the test up to the application data in both directions. *)
Definition psk_ke_round_trip (psk identity server_random m1 m2 m3 : list byte) : Peers (list byte) :=
  on_fst (expect (initialize_early_secret (Some psk)));;
  ch_bytes ← on_fst (build_client_hello_with_binder identity);
  let config := mkServerConfig identity psk server_random None in
  flight ← on_snd (with_array 1024 (expect (process_client_hello ch_bytes config)));
  '(sh_record, ee_record, fin_record) ← split_first_flight flight;
  on_fst (transcript_update ch_bytes);;
  t ← unwrap (sh_record !! 0);
  assert_ (bool_decide (t = ct_byte CT_Handshake));;
  sh ← record_message sh_record;
  on_fst (transcript_update sh);;
  on_fst (expect initialize_handshake_secret_psk_ke);;
  finish_handshake ee_record fin_record;;
  s2c_record ← on_snd (with_array 256 (expect (encrypt_application_data m1)));
  s2c_plain ← on_fst (with_array 256 (client_decrypt_app_data s2c_record));
  assert_eq s2c_plain m1;;
  s2c_record2 ← on_snd (with_array 256 (expect (encrypt_application_data m2)));
  s2c_plain2 ← on_fst (with_array 256 (client_decrypt_app_data s2c_record2));
  assert_eq s2c_plain2 m2;;
  c2s_record ← on_fst (with_array 256 (client_encrypt_app_data m3));
  c2s_plain ← on_snd (with_array 256 (expect (decrypt_application_data c2s_record)));
  assert_eq c2s_plain m3;;
  mret c2s_record.

(** A bit of the ciphertext is flipped and the record sent again. *)
Definition tampered_rejected (c2s_record : list byte) : Peers unit :=
  b ← unwrap (c2s_record !! 6);
  let tampered := <[6 := u8 (Z.lxor (byte_val b) 1)]> c2s_record in
  res ← on_snd (with_array 256 (try_ (decrypt_application_data tampered)));
  assert_ (match res with inr CryptoError => true | _ => false end).

Definition process_client_hello_and_finished_round_trip : Peers unit :=
  c2s_record ← psk_ke_round_trip (replicate 32 xc0) (b_ "smartbox-house-1") (replicate 32 x77)
    (b_ "hello, smartbox!") (b_ "second message") (b_ "thanks");
  tampered_rejected c2s_record.

(** ** psk_dhe_ke *)

Definition dhe_round_trip (psk identity server_random client_secret server_secret m : list byte) :
    Peers unit :=
  let client_pub := x25519 client_secret X25519_BASEPOINT_BYTES in
  let server_dhe := DheKeyShare_from_secret server_secret in
  assert_eq (x25519 client_secret (dhe_public server_dhe)) (x25519 (dhe_secret server_dhe) client_pub);;
  on_fst (expect (initialize_early_secret (Some psk)));;
  ch_bytes ← on_fst (build_client_hello_dhe_with_binder identity client_pub);
  let config := mkServerConfig identity psk server_random (Some server_dhe) in
  flight ← on_snd (with_array 1024 (expect (process_client_hello ch_bytes config)));
  '(sh_record, ee_record, fin_record) ← split_first_flight flight;
  sh_body ← record_message sh_record;
  t ← unwrap (sh_body !! 0);
  assert_ (bool_decide (t = hs_byte HT_ServerHello));;
  server_pub_bytes ← server_share sh_record;
  assert_eq server_pub_bytes (dhe_public server_dhe);;
  let shared := x25519 client_secret server_pub_bytes in
  assert_ (negb (all_zero shared));;
  on_fst (transcript_update ch_bytes);;
  on_fst (transcript_update sh_body);;
  on_fst (expect (initialize_handshake_secret shared));;
  finish_handshake ee_record fin_record;;
  s2c ← on_snd (with_array 256 (expect (encrypt_application_data m)));
  plain ← on_fst (with_array 256 (client_decrypt_app_data s2c));
  assert_eq plain m.

(** ** HelloRetryRequest *)

Definition hrr_round_trip (psk identity server_random client_secret server_secret m : list byte) :
    Session unit :=
  let client_pub := x25519 client_secret X25519_BASEPOINT_BYTES in
  let server_dhe := DheKeyShare_from_secret server_secret in
  on_fst (expect (initialize_early_secret (Some psk)));;
  let config := mkServerConfig identity psk server_random (Some server_dhe) in
  '(ch1, hrr_record) ← drive_hrr identity config;
  t ← unwrap (hrr_record !! 0);
  assert_ (bool_decide (t = ct_byte CT_Handshake));;
  let random_offset := RECORD_HEADER_LEN + HANDSHAKE_HEADER_LEN + 2 in
  r ← unwrap (sub hrr_record random_offset (random_offset + 32));
  assert_eq r HRR_SPECIAL_RANDOM;;
  hrr_hs_message ← record_message hrr_record;
  on_fst (munge_client_transcript_for_hrr ch1 hrr_hs_message);;
  ch2 ← on_fst (build_client_hello_dhe_with_binder_after_hrr identity client_pub);
  flight ← session_flight ch2 config;
  '(sh_record, ee_record, fin_record) ← split_first_flight flight;
  on_fst (transcript_update ch2);;
  sh ← record_message sh_record;
  on_fst (transcript_update sh);;
  server_pub ← server_share sh_record;
  assert_eq server_pub (dhe_public server_dhe);;
  let shared := x25519 client_secret server_pub in
  on_fst (expect (initialize_handshake_secret shared));;
  '(fin_inner, pre_fin) ← on_fst (client_opens_flight ee_record fin_record);
  on_fst (client_verifies_finished fin_inner pre_fin);;
  client_fin ← on_fst build_client_finished_record;
  on_snd (expect (session_process_client_finished client_fin));;
  on_fst (expect initialize_master_secret);;
  s2c ← on_snd (with_array 256 (expect (session_encrypt_app_data m)));
  plain ← on_fst (with_array 256 (client_decrypt_app_data s2c));
  assert_eq plain m.
End Tests.

(** ** The tests pass *)

(** Run the next call of a test, of the client or of the server, by its equation. *)
Tactic Notation "call" uconstr(H) := rewrite (bind_Ok _ _ _ _ _ H); cbv beta iota zeta.
Tactic Notation "client" uconstr(H) :=
  rewrite (bind_Ok _ _ _ _ _ (on_fst_run _ _ _ _ _ H)); cbv beta iota zeta.
Tactic Notation "server" uconstr(H) :=
  rewrite (bind_Ok _ _ _ _ _ (on_snd_run _ _ _ _ _ H)); cbv beta iota zeta.

(** What the code relies on in X25519 (RFC 7748): shared secrets agree. *)
Class X25519Laws (X : X25519Ops) : Prop := {
  x25519_length s p : length (x25519 s p) = X25519_LEN;
  x25519_comm a b :
    x25519 a (x25519 b X25519_BASEPOINT_BYTES) = x25519 b (x25519 a X25519_BASEPOINT_BYTES);
}.

Section Passing.
Context `{CS : TlsCipherSuite, !TlsCipherSuiteLaws CS, X : X25519Ops}.
Context (Hhash : HashLen = SHA256_LEN).
Implicit Types (cfg : TlsServerConfig) (f : Flight).

Lemma splice_binder_early (exts : list ClientHelloExtension) cfg t :
  splice_binder t (layout_of (raw_of <$> exts) (psk_identity cfg)) (client_early cfg t)
  = (Ok (bound_hello (raw_of <$> exts) (psk_identity cfg) (Binder_Key (psk_secret cfg)) t), client_early cfg t).
Proof. apply splice_binder_run; [done| |done]. by rewrite length_Binder_Key. Qed.

Lemma client_offers_psk_ke cfg :
  build_client_hello_with_binder (psk_identity cfg) (client_early cfg [])
  = (Ok (sim_bytes cfg None psk_ke_exts), client_early cfg []).
Proof.
  unfold build_client_hello_with_binder.
  rewrite (bind_Ok _ _ _ _ _ (build_synthetic_client_hello_run _ _)), psk_ke_raws_of.
  by rewrite (splice_binder_early psk_ke_exts cfg []).
Qed.

Lemma client_offers_dhe cfg pub :
  length pub = X25519_LEN ->
  build_client_hello_dhe_with_binder (psk_identity cfg) pub (client_early cfg [])
  = (Ok (sim_bytes cfg None (dhe_exts pub)), client_early cfg []).
Proof.
  intros Hp. unfold build_client_hello_dhe_with_binder.
  rewrite (bind_Ok _ _ _ _ _ (build_synthetic_client_hello_dhe_run _ _ _ Hp)), dhe_raws_of.
  by rewrite (splice_binder_early (dhe_exts pub) cfg []).
Qed.

Definition server_connected cfg f : KeySchedule := ses_schedule (session_of cfg (Connected None f)).

Lemma finish_handshake_run cfg f :
  flight_ok f ->
  let st := traffic_state (fl_server_ts f) in
  finish_handshake (sealed st ee_message CT_Handshake) (sealed (bump st) (fl_finished f) CT_Handshake)
    (client_keyed cfg f, await_schedule cfg f)
  = (Ok tt, (client_connected cfg f, server_connected cfg f)).
Proof.
  intros Hf st. unfold finish_handshake.
  client (client_opens_flight_run cfg f Hhash Hf).
  change (fl_finished f !! 0) with (Some (hs_byte HT_Finished)).
  rewrite bind_unwrap_Some, bind_assert by (by apply bool_decide_true).
  client (client_verifies_finished_run cfg f Hhash Hf).
  client (sim_finished_run cfg f Hf).
  pose proof (server_finishes cfg None f Hf) as Hs.
  assert (process_client_finished (sealed (traffic_state (fl_client_ts f)) (client_finished f) CT_Handshake)
    (await_schedule cfg f) = (Ok tt, server_connected cfg f)) as Hfree.
  { unfold session_process_client_finished, zoom in Hs. cbn [session_of ses_schedule] in Hs.
    destruct (process_client_finished _ _) as [r ks']. by injection Hs as -> ->. }
  server (expect_Ok (E := TlsError) _ _ _ _ Hfree).
  apply on_fst_run, client_connects_run.
Qed.

(** The two ends hold the same keys and counters, which are at most [n]. *)
Definition in_step (n : Z) (cks sks : KeySchedule) : Prop :=
  server_keys sks = server_keys cks /\ client_keys sks = client_keys cks /\
  kss_wf (server_keys cks) /\ kss_wf (client_keys cks) /\
  (counter (server_keys cks) <= n)%Z /\ (counter (client_keys cks) <= n)%Z.

Lemma connected_in_step_0 cfg first f :
  in_step 0 (client_connected cfg f) (ses_schedule (session_of cfg (Connected first f))).
Proof. destruct (connected_wf cfg f). by split_and!. Qed.

(** The server sends [m] and the client reads it. *)
Lemma server_turn n m (cks sks : KeySchedule) :
  in_step n cks sks -> (n + 1 < 2 ^ 64)%Z -> length m <= 234 ->
  exists r out cks' sks', encrypt_application_data m (sks, zeros 256) = (Ok r, (sks', out)) /\
    with_array 256 (client_decrypt_app_data r) cks = (Ok m, cks') /\ in_step (n + 1) cks' sks'.
Proof.
  intros (Hs & Hc & Hws & Hwc & Hns & Hnc) Hn Hl.
  destruct (server_sends m sks) as [out Hrun]; [by rewrite Hs|rewrite Hs; lia|done|].
  eexists _, out, _, _. split; [exact Hrun|]. split; [apply client_receives; [by rewrite Hs|by rewrite Hs|rewrite Hs; lia|done]|].
  split_and!; cbn [server_keys client_keys with_server_keys r_state server_state client_state] in *; try done.
  - by rewrite Hs.
  - apply bump_wf; [done|lia].
  - cbn [bump counter]. lia.
  - change (client_keys (with_server_keys ?st ?ks)) with (client_keys ks). lia.
Qed.

(** The client sends [m] and the server reads it. *)
Lemma client_turn n m (cks sks : KeySchedule) :
  in_step n cks sks -> (n + 1 < 2 ^ 64)%Z -> length m <= 234 ->
  exists r buf cks' sks', with_array 256 (client_encrypt_app_data m) cks = (Ok r, cks') /\
    decrypt_application_data r (sks, zeros 256) = (Ok m, (sks', buf)) /\ in_step (n + 1) cks' sks'.
Proof.
  intros (Hs & Hc & Hws & Hwc & Hns & Hnc) Hn Hl.
  destruct (server_receives (client_keys cks) m sks) as [buf Hrun]; [by rewrite Hc|done|lia|done|].
  eexists _, buf, _, _. split; [apply client_sends; (done || lia)|]. split; [exact Hrun|].
  split_and!; cbn [server_keys client_keys with_client_keys w_state server_state client_state] in *; try done.
  - by rewrite Hc.
  - apply bump_wf; [done|lia].
  - change (server_keys (with_client_keys ?st ?ks)) with (server_keys ks). lia.
  - cbn [bump counter]. lia.
Qed.

Lemma kex_psk_ke identity b cfg first :
  dhe_keypair cfg = None ->
  kex_choice (sim_hello psk_ke_exts identity b) cfg first = Ok (Use KexPskKe).
Proof. intros Hd. unfold kex_choice, decide_kex. cbn. by rewrite Hd. Qed.

Lemma psk_ke_run psk identity server_random m1 m2 m3 :
  identity_ok identity -> length server_random = 32 ->
  length m1 <= 234 -> length m2 <= 234 -> length m3 <= 234 ->
  exists r peers, psk_ke_round_trip psk identity server_random m1 m2 m3 (KeySchedule_new, KeySchedule_new)
    = (Ok r, peers).
Proof.
  intros Hid Hr H1 H2 H3. set (cfg := mkServerConfig identity psk server_random None).
  assert (cfg_ok cfg) as Hcfg by done.
  unfold psk_ke_round_trip. fold cfg.
  client (client_early_run psk cfg eq_refl).
  client (client_offers_psk_ke cfg).
  set (ch := sim_bytes cfg None psk_ke_exts).
  set (hello := sim_hello psk_ke_exts identity (sim_binder cfg None psk_ke_exts)).
  assert (Offer cfg None ch hello (Use KexPskKe) 0 (sim_binder cfg None psk_ke_exts)) as Hof.
  { apply sim_offer; [done|apply psk_ke_front|done|by left|]. intros b. by apply kex_psk_ke. }
  set (f := flight cfg None ch hello KexPskKe 0 (zeros HashLen)).
  assert (legacy_session_id hello = []) as Hsid by done.
  pose proof (length_flight cfg None ch hello KexPskKe 0 (zeros HashLen) Hhash Hcfg Hsid) as Hlen.
  call (free_flight_run cfg ch hello KexPskKe 0 _ (zeros HashLen) _ Hof eq_refl Hlen).
  call (split_flight_run cfg None ch hello KexPskKe 0 (zeros HashLen) _ Hhash Hcfg Hsid).
  client (transcript_update_run cfg _ _).
  change (plain_record _ _ !! 0) with (Some (ct_byte CT_Handshake)).
  rewrite bind_unwrap_Some, bind_assert by (by apply bool_decide_true).
  call (record_message_plain _ _ _).
  client (transcript_update_run cfg _ _).
  match goal with |- context [client_early cfg ?t] => change (client_early cfg t) with (client_early cfg (fl_transcript f)) end.
  change initialize_handshake_secret_psk_ke with (initialize_handshake_secret (zeros HashLen)).
  client (expect_Ok _ _ _ _ (client_keyed_run cfg None ch hello KexPskKe 0 (zeros HashLen))).
  pose proof (flight_is_ok cfg None ch hello KexPskKe 0 (zeros HashLen)) as Hf. fold f in Hf |- *.
  call (finish_handshake_run cfg f Hf).
  destruct (server_turn 0 m1 _ _ (connected_in_step_0 cfg None f)) as (r1 & o1 & c1 & s1 & Hs1 & Hc1 & Hi1); [done..|].
  server (with_array_run _ _ _ _ _ _ (expect_Ok _ _ _ _ Hs1)). client Hc1.
  rewrite bind_assert_eq by done.
  destruct (server_turn _ m2 _ _ Hi1) as (r2 & o2 & c2 & s2 & Hs2 & Hc2 & Hi2); [done..|].
  server (with_array_run _ _ _ _ _ _ (expect_Ok _ _ _ _ Hs2)). client Hc2.
  rewrite bind_assert_eq by done.
  destruct (client_turn _ m3 _ _ Hi2) as (r3 & o3 & c3 & s3 & Hc3 & Hs3 & Hi3); [done..|].
  client Hc3. server (with_array_run _ _ _ _ _ _ (expect_Ok _ _ _ _ Hs3)).
  rewrite bind_assert_eq by done. by eexists _, _.
Qed.

(** ** X25519 *)

Context `{!X25519Laws X}.

(** The share of the ServerHello record is the server's public key. *)
Lemma server_share_run {S} cfg d pub idx (s : S) :
  cfg_ok cfg -> dhe_keypair cfg = Some d ->
  server_share (plain_record HT_ServerHello
    (server_hello_body (server_hello cfg [] (Z.of_nat idx mod 2 ^ 16) (KexPskDheKe pub)))) s
  = (Ok (dhe_public d), s).
Proof.
  intros Hcfg Hd. pose proof (length_sh_body cfg (Z.of_nat idx mod 2 ^ 16) (KexPskDheKe pub) Hcfg) as Hlen.
  destruct Hcfg as [Hr Hpub]. rewrite Hd in Hpub.
  set (sh := server_hello cfg [] _ (KexPskDheKe pub)) in *.
  assert (em_extensions sh = [SH_SupportedVersions (mkVersionsSH TLS13);
    SH_KeyShare (mkKeyShareSH (mkKeyShareEntry X25519 (dhe_public d)));
    SH_PreSharedKey (mkPskSH (Z.of_nat idx mod 2 ^ 16))]) as Hexts.
  { unfold sh, server_hello, sh_exts. cbn [em_extensions]. by rewrite Hd. }
  unfold server_share. rewrite plain_record_eq, !(assoc_L (++)).
  match goal with |- context [sub (?h ++ server_hello_body sh) _ _] =>
    change (RECORD_HEADER_LEN + HANDSHAKE_HEADER_LEN) with (length h); rewrite sub_app_tail, bind_unwrap_Some end.
  assert (exists b, ServerHello_parse (pb_new (server_hello_body sh)) = (Ok (mkServerHello (em_extensions sh)), b))
    as [b Hparse].
  { eexists. eapply parses_whole, (ServerHello_parses TlsAes128GcmSha256).
    - done.
    - simpl; lia.
    - done.
    - rewrite Hexts. unfold X25519_LEN in Hpub. repeat apply Forall_cons_2; [| | |done].
      + by split; [simpl; lia|].
      + split; cbn [SH_bytes SH_payload_ok]; unfold KeyShareServerHello_bytes, KeyShareEntry_bytes, KeyShareEntry_ok;
          cbn [kssh_entry ks_opaque]; lens; lia.
      + split; cbn [SH_bytes SH_payload_ok]; [simpl; lia|]. cbn [selected_identity]. apply Z.mod_pos_bound. lia.
    - rewrite Hexts. simpl; lia.
    - unfold server_hello_body in Hlen. rewrite !length_app, length_vec16 in Hlen. lia. }
  call (run_on_Ok _ _ _ _ s (expect_Ok (E := TlsError) _ _ _ _ Hparse)). rewrite Hexts.
  change (sh_key_share _) with (Some (mkKeyShareEntry X25519 (dhe_public d))).
  rewrite bind_unwrap_Some. cbn [ks_opaque]. by rewrite bind_assert by (by apply bool_decide_true).
Qed.

Lemma kex_dhe identity pub b cfg d first :
  dhe_keypair cfg = Some d -> length pub = X25519_LEN ->
  kex_choice (sim_hello (dhe_exts pub) identity b) cfg first = Ok (Use (KexPskDheKe pub)).
Proof.
  intros Hd Hp. unfold kex_choice, decide_kex. cbn. rewrite Hd. cbn.
  unfold find_client_x25519_share. cbn. destruct (decide (length pub <> X25519_LEN)); done.
Qed.

Lemma kex_retry identity b cfg d :
  dhe_keypair cfg = Some d ->
  kex_choice (sim_hello retry_exts identity b) cfg false = Ok (Retry X25519).
Proof. intros Hd. unfold kex_choice, decide_kex. cbn. by rewrite Hd. Qed.

(** The server of the DHE tests. *)
Definition dhe_config (psk identity server_random server_secret : list byte) : TlsServerConfig :=
  mkServerConfig identity psk server_random (Some (DheKeyShare_from_secret server_secret)).

Lemma dhe_config_ok psk identity server_random server_secret :
  length server_random = 32 -> cfg_ok (dhe_config psk identity server_random server_secret).
Proof. intros Hr. split; [done|]. apply x25519_length. Qed.

(** The flight of a DHE handshake, after [first] if there was a retry. *)
Lemma dhe_offer psk identity server_random client_secret server_secret first :
  let cfg := dhe_config psk identity server_random server_secret in
  let pub := x25519 client_secret X25519_BASEPOINT_BYTES in
  let z := x25519 client_secret (x25519 server_secret X25519_BASEPOINT_BYTES) in
  let ch := sim_bytes cfg first (dhe_exts pub) in
  let hello := sim_hello (dhe_exts pub) identity (sim_binder cfg first (dhe_exts pub)) in
  identity_ok identity -> length server_random = 32 -> all_zero z = false ->
  (first = None \/ exists exts, first = sim_first cfg exts) ->
  Offer cfg first ch hello (Use (KexPskDheKe pub)) 0 (sim_binder cfg first (dhe_exts pub)) /\
  kex_ikm cfg (KexPskDheKe pub) = Some z /\
  length (fl_bytes (flight cfg first ch hello (KexPskDheKe pub) 0 z)) <= 1024.
Proof.
  intros cfg pub z ch hello Hid Hr Hz Hfirst.
  assert (length pub = X25519_LEN) as Hpub by apply x25519_length. split_and!.
  - apply sim_offer; [done|by apply dhe_front|done|done|]. intros b. by eapply kex_dhe.
  - unfold kex_ikm. cbn. unfold pub. rewrite x25519_comm. fold z. by rewrite Hz.
  - apply length_flight; [done|by apply dhe_config_ok|done].
Qed.

Lemma dhe_run psk identity server_random client_secret server_secret m :
  identity_ok identity -> length server_random = 32 -> length m <= 234 ->
  all_zero (x25519 client_secret (x25519 server_secret X25519_BASEPOINT_BYTES)) = false ->
  exists peers, dhe_round_trip psk identity server_random client_secret server_secret m
    (KeySchedule_new, KeySchedule_new) = (Ok tt, peers).
Proof.
  intros Hid Hr Hm Hz. set (cfg := dhe_config psk identity server_random server_secret).
  set (pub := x25519 client_secret X25519_BASEPOINT_BYTES).
  set (z := x25519 client_secret (x25519 server_secret X25519_BASEPOINT_BYTES)) in *.
  assert (length pub = X25519_LEN) as Hpub by apply x25519_length.
  pose proof (dhe_config_ok psk identity server_random server_secret Hr) as Hcfg. fold cfg in Hcfg.
  assert (x25519 server_secret pub = z) as Hcomm by (unfold z, pub; by rewrite x25519_comm).
  unfold dhe_round_trip. fold pub. cbv zeta. fold (dhe_config psk identity server_random server_secret). fold cfg.
  rewrite bind_assert_eq by (exact (eq_sym Hcomm)).
  client (client_early_run psk cfg eq_refl).
  client (client_offers_dhe cfg pub Hpub).
  set (ch := sim_bytes cfg None (dhe_exts pub)).
  set (hello := sim_hello (dhe_exts pub) identity (sim_binder cfg None (dhe_exts pub))).
  set (f := flight cfg None ch hello (KexPskDheKe pub) 0 z).
  destruct (dhe_offer psk identity server_random client_secret server_secret None) as (Hof & Hikm & Hlen);
    [done|done|done|by left|]. fold cfg pub z ch hello in Hof, Hikm, Hlen.
  assert (legacy_session_id hello = []) as Hsid by done.
  call (free_flight_run cfg ch hello (KexPskDheKe pub) 0 _ z _ Hof Hikm Hlen).
  call (split_flight_run cfg None ch hello (KexPskDheKe pub) 0 z _ Hhash Hcfg Hsid).
  call (record_message_plain _ _ _).
  change (handshake_message _ _ !! 0) with (Some (hs_byte HT_ServerHello)).
  rewrite bind_unwrap_Some, bind_assert by (by apply bool_decide_true).
  call (server_share_run cfg _ pub 0 _ Hcfg eq_refl).
  rewrite bind_assert_eq by done.
  rewrite bind_assert by (change (negb (all_zero z) = true); by rewrite Hz).
  client (transcript_update_run cfg _ _). client (transcript_update_run cfg _ _).
  match goal with |- context [client_early cfg ?t] => change (client_early cfg t) with (client_early cfg (fl_transcript f)) end.
  change (initialize_handshake_secret _) with (initialize_handshake_secret z).
  client (expect_Ok _ _ _ _ (client_keyed_run cfg None ch hello (KexPskDheKe pub) 0 z)).
  pose proof (flight_is_ok cfg None ch hello (KexPskDheKe pub) 0 z) as Hf. fold f in Hf |- *.
  call (finish_handshake_run cfg f Hf).
  destruct (server_turn 0 m _ _ (connected_in_step_0 cfg None f)) as (r1 & o1 & c1 & s1 & Hs1 & Hc1 & Hi1); [done..|].
  server (with_array_run _ _ _ _ _ _ (expect_Ok _ _ _ _ Hs1)). client Hc1.
  unfold assert_eq. rewrite bool_decide_true by done. by eexists.
Qed.

(** ** After a HelloRetryRequest *)

Definition hrr_record : list byte := plain_record HT_ServerHello (hrr_body [] X25519).

Lemma drive_hrr_run cfg d :
  identity_ok (psk_identity cfg) -> dhe_keypair cfg = Some d ->
  drive_hrr (psk_identity cfg) cfg (client_early cfg [], TlsServerSession_new)
  = (Ok (sim_bytes cfg None retry_exts, hrr_record),
     (client_early cfg [], session_of cfg (Start (sim_first cfg retry_exts)))) /\
  first_ok (sim_first cfg retry_exts).
Proof.
  intros Hid Hd. set (ch1 := sim_bytes cfg None retry_exts).
  set (hello1 := sim_hello retry_exts (psk_identity cfg) (sim_binder cfg None retry_exts)).
  assert (Offer cfg None ch1 hello1 (Retry X25519) 0 (sim_binder cfg None retry_exts)) as Hof.
  { apply sim_offer; [done|apply retry_front|done|by left|]. intros b. by eapply kex_retry. }
  split; [|apply Hof].
  destruct (hello_answer cfg None ch1 hrr_record (Start (Some (ch1, hello1))) (zeros 1024)) as (o & Hrun & ->);
    [done|exact (hs_retry cfg ch1 hello1 X25519 0 _ Hof)|unfold zeros; rewrite length_replicate; vm_compute; lia|].
  unfold drive_hrr. call (build_synthetic_ch_dhe_no_share_run _ _). rewrite retry_raws_of.
  assert (finalize_ch1_binder (layout_of (raw_of <$> retry_exts) (psk_identity cfg)) (client_early cfg [])
    = (Ok (mkLayout ch1 (lay_binders_start (layout_of (raw_of <$> retry_exts) (psk_identity cfg)))
                        (lay_binder_pos (layout_of (raw_of <$> retry_exts) (psk_identity cfg)))),
       client_early cfg [])) as Hfin.
  { unfold finalize_ch1_binder. by rewrite (bind_Ok _ _ _ _ _ (splice_binder_early retry_exts cfg [])). }
  client Hfin. cbn [lay_bytes].
  change (session_of cfg (Start None)) with TlsServerSession_new in Hrun.
  by server (with_array_run _ _ _ _ _ _ (expect_Ok _ _ _ _ Hrun)).
Qed.

Lemma munge_run cfg ch1 h1 :
  legacy_session_id h1 = [] ->
  munge_client_transcript_for_hrr ch1 (hrr_message [] X25519) (client_early cfg [])
  = (Ok tt, client_early cfg (hello_base (Some (ch1, h1)))).
Proof.
  intros Hsid. unfold munge_client_transcript_for_hrr, hello_base. rewrite Hsid.
  rewrite <-message_hash_eq, Hhash, <-(assoc_L (++)). done.
Qed.

Lemma client_offers_after_hrr cfg pub first :
  length pub = X25519_LEN ->
  build_client_hello_dhe_with_binder_after_hrr (psk_identity cfg) pub (client_early cfg (hello_base first))
  = (Ok (sim_bytes cfg first (dhe_exts pub)), client_early cfg (hello_base first)).
Proof.
  intros Hp. unfold build_client_hello_dhe_with_binder_after_hrr.
  call (build_synthetic_client_hello_dhe_run _ _ _ Hp). rewrite dhe_raws_of, bind_get.
  change (transcript_hash (client_early cfg ?t)) with t.
  by rewrite (splice_binder_early (dhe_exts pub) cfg (hello_base first)).
Qed.

(** The retry the client sees: a handshake record with the special random. *)
Lemma hrr_record_checks {S B} (k : unit -> M S TlsError B) s :
  (t ← unwrap (hrr_record !! 0);
   assert_ (bool_decide (t = ct_byte CT_Handshake));;
   r ← unwrap (sub hrr_record (RECORD_HEADER_LEN + HANDSHAKE_HEADER_LEN + 2)
                              (RECORD_HEADER_LEN + HANDSHAKE_HEADER_LEN + 2 + 32));
   assert_eq r HRR_SPECIAL_RANDOM ≫= k) s = k tt s.
Proof. reflexivity. Qed.

(** The session sends [m] and the client reads it. *)
Lemma session_server_turn cfg first f m :
  length m <= 234 ->
  exists r out cks' ses', session_encrypt_app_data m (session_of cfg (Connected first f), zeros 256)
      = (Ok r, (ses', out)) /\
    with_array 256 (client_decrypt_app_data r) (client_connected cfg f) = (Ok m, cks').
Proof.
  intros Hm. destruct (server_turn 0 m _ _ (connected_in_step_0 cfg first f)) as (r & o & c & s & Hs & Hc & _);
    [done..|]. exists r, o, c, (mkSession s (hrr_of first)). split; [|done].
  unfold session_encrypt_app_data, on_session, zoom. cbn [fst snd]. by rewrite Hs.
Qed.

Lemma hrr_run psk identity server_random client_secret server_secret m :
  identity_ok identity -> length server_random = 32 -> length m <= 234 ->
  all_zero (x25519 client_secret (x25519 server_secret X25519_BASEPOINT_BYTES)) = false ->
  exists peers, hrr_round_trip psk identity server_random client_secret server_secret m
    (KeySchedule_new, TlsServerSession_new) = (Ok tt, peers).
Proof.
  intros Hid Hr Hm Hz. set (cfg := dhe_config psk identity server_random server_secret).
  set (pub := x25519 client_secret X25519_BASEPOINT_BYTES).
  set (z := x25519 client_secret (x25519 server_secret X25519_BASEPOINT_BYTES)) in *.
  assert (length pub = X25519_LEN) as Hpub by apply x25519_length.
  pose proof (dhe_config_ok psk identity server_random server_secret Hr) as Hcfg. fold cfg in Hcfg.
  unfold hrr_round_trip. fold pub. cbv zeta. fold (dhe_config psk identity server_random server_secret). fold cfg.
  client (client_early_run psk cfg eq_refl).
  destruct (drive_hrr_run cfg _ Hid eq_refl) as [Hhrr Hfirst]. call Hhrr.
  set (first := sim_first cfg retry_exts) in *.
  rewrite hrr_record_checks. change hrr_record with (plain_record HT_ServerHello (hrr_body [] X25519)).
  call (record_message_plain _ _ _). fold (hrr_message [] X25519).
  client (munge_run cfg _ (sim_hello retry_exts identity (sim_binder cfg None retry_exts)) eq_refl).
  change (Some (sim_bytes cfg None retry_exts, sim_hello retry_exts identity (sim_binder cfg None retry_exts)))
    with first.
  client (client_offers_after_hrr cfg pub first Hpub).
  set (ch := sim_bytes cfg first (dhe_exts pub)).
  set (hello := sim_hello (dhe_exts pub) identity (sim_binder cfg first (dhe_exts pub))).
  set (f := flight cfg first ch hello (KexPskDheKe pub) 0 z).
  destruct (dhe_offer psk identity server_random client_secret server_secret first) as (Hof & Hikm & Hlen);
    [done|done|done|right; by exists retry_exts|]. fold cfg pub z ch hello in Hof, Hikm, Hlen.
  assert (legacy_session_id hello = []) as Hsid by done.
  call (session_flight_run cfg first ch hello (KexPskDheKe pub) 0 _ z _ Hfirst Hof Hikm Hlen).
  call (split_flight_run cfg first ch hello (KexPskDheKe pub) 0 z _ Hhash Hcfg Hsid).
  client (transcript_update_run cfg _ _).
  call (record_message_plain _ _ _).
  client (transcript_update_run cfg _ _).
  call (server_share_run cfg _ pub 0 _ Hcfg eq_refl).
  rewrite bind_assert_eq by done.
  match goal with |- context [client_early cfg ?t] => change (client_early cfg t) with (client_early cfg (fl_transcript f)) end.
  change (initialize_handshake_secret _) with (initialize_handshake_secret z).
  pose proof (client_keyed_run cfg first ch hello (KexPskDheKe pub) 0 z) as Hkeyed. cbv zeta in Hkeyed. fold f in Hkeyed.
  client (expect_Ok _ _ _ _ Hkeyed).
  pose proof (flight_is_ok cfg first ch hello (KexPskDheKe pub) 0 z) as Hf. fold f in Hf |- *.
  client (client_opens_flight_run cfg f Hhash Hf).
  client (client_verifies_finished_run cfg f Hhash Hf).
  client (sim_finished_run cfg f Hf).
  server (expect_Ok (E := TlsError) _ _ _ _ (server_finishes cfg first f Hf)).
  client (client_connects_run cfg f).
  destruct (session_server_turn cfg first f m Hm) as (r1 & o1 & c1 & ses & Hses & Hc1).
  server (with_array_run _ _ _ _ _ _ (expect_Ok _ _ _ _ Hses)). client Hc1.
  unfold assert_eq. rewrite bool_decide_true by done. by eexists.
Qed.
End Passing.

(** ** Properties *)

(** C7: a plain PSK session completes.  For every suite with 32-byte hashes that
    meets the laws, every PSK, every identity of 1 to 2^15 - 1 bytes, every server
    random and every three messages of at most 234 bytes, the test passes up to its
    tampered record: the server accepts the simulated client's ClientHello, the
    client opens the flight and verifies the server's Finished, the server accepts
    the client's, and the messages sent in both directions arrive unchanged. *)
Theorem psk_ke_session_completes
    `{CS : TlsCipherSuite, !TlsCipherSuiteLaws CS, X : X25519Ops} psk identity server_random m1 m2 m3 :
  HashLen = SHA256_LEN -> identity_ok identity -> length server_random = 32 ->
  length m1 <= 234 -> length m2 <= 234 -> length m3 <= 234 ->
  exists r peers, psk_ke_round_trip psk identity server_random m1 m2 m3 (KeySchedule_new, KeySchedule_new)
    = (Ok r, peers).
Proof. intros Hh. by apply psk_ke_run. Qed.

(** C8: an X25519 session completes, also after a HelloRetryRequest.  With X25519
    operations whose shared secrets agree, for every PSK, identity, server random
    and message as above and every two X25519 secrets whose shared secret is not all
    zeros, the two tests pass: the handshake with the client's share in the first
    ClientHello, and the handshake in which the server first asks for the share. *)
Theorem x25519_sessions_complete
    `{CS : TlsCipherSuite, !TlsCipherSuiteLaws CS, X : X25519Ops, !X25519Laws X}
    psk identity server_random client_secret server_secret m :
  HashLen = SHA256_LEN -> identity_ok identity -> length server_random = 32 -> length m <= 234 ->
  all_zero (x25519 client_secret (x25519 server_secret X25519_BASEPOINT_BYTES)) = false ->
  (exists peers, dhe_round_trip psk identity server_random client_secret server_secret m
     (KeySchedule_new, KeySchedule_new) = (Ok tt, peers)) /\
  (exists peers, hrr_round_trip psk identity server_random client_secret server_secret m
     (KeySchedule_new, TlsServerSession_new) = (Ok tt, peers)).
Proof. intros. split; [by apply dhe_run|by apply hrr_run]. Qed.

(** ** The tests of the repository *)

(** Numbers modulo 2^256 under multiplication: a key agreement that is easy to
    compute, for the runs on the toy suite. *)
Module Loop.
Existing Instance Toy.suite.
Existing Instance Toy.suite_laws.

Definition mul25519 (s p : list byte) : list byte := be_bytes 32 (from_be s * from_be p).
#[global] Instance x25519_mul : X25519Ops :=
  {| x25519 := mul25519; X25519_BASEPOINT_BYTES := x01 :: replicate 31 x05 |}.

#[global] Instance x25519_mul_laws : X25519Laws x25519_mul.
Proof.
  split; [intros; apply length_be_bytes|]. intros a b. cbn [x25519 x25519_mul]. unfold mul25519.
  rewrite !from_be_be_bytes. generalize (from_be a) (from_be b) (from_be X25519_BASEPOINT_BYTES).
  intros x y n. set (q := (256 ^ Z.of_nat 32)%Z).
  assert (forall u v, be_bytes 32 (u * (v mod q)) = be_bytes 32 (u * v)) as Hmod.
  { intros u v. rewrite <-(be_bytes_mod 32 (u * (v mod q))), <-(be_bytes_mod 32 (u * v)).
    f_equal. unfold q. by rewrite Zmult_mod_idemp_r. }
  rewrite !Hmod. f_equal. ring.
Qed.

Definition psk : list byte := replicate 32 xc0.
Definition server_random : list byte := replicate 32 x77.
Definition client_secret : list byte := replicate 32 x42.
Definition server_secret : list byte := replicate 32 x99.

Definition passes {S A} (r : result TlsError A * S) : bool :=
  match fst r with Ok _ => true | _ => false end.

Example round_trip_passes :
  passes (process_client_hello_and_finished_round_trip (KeySchedule_new, KeySchedule_new)) = true.
Proof. vm_compute. reflexivity. Qed.
End Loop.

Lemma psk_ke_session_completes_witness :
  identity_ok (b_ "smartbox-house-1") /\
  exists r peers, psk_ke_round_trip Loop.psk (b_ "smartbox-house-1") Loop.server_random
    (b_ "hello, smartbox!") (b_ "second message") (b_ "thanks") (KeySchedule_new, KeySchedule_new)
    = (Ok r, peers).
Proof.
  split; [done|]. apply (psk_ke_session_completes Loop.psk (b_ "smartbox-house-1") Loop.server_random);
    [done|done|done|vm_compute; lia..].
Defined.

Lemma x25519_sessions_complete_witness :
  all_zero (x25519 Loop.client_secret (x25519 Loop.server_secret X25519_BASEPOINT_BYTES)) = false /\
  (exists peers, dhe_round_trip Loop.psk (b_ "hrr-device") Loop.server_random Loop.client_secret
     Loop.server_secret (b_ "hrr-OK") (KeySchedule_new, KeySchedule_new) = (Ok tt, peers)) /\
  (exists peers, hrr_round_trip Loop.psk (b_ "hrr-device") Loop.server_random Loop.client_secret
     Loop.server_secret (b_ "hrr-OK") (KeySchedule_new, TlsServerSession_new) = (Ok tt, peers)).
Proof.
  split; [vm_compute; reflexivity|].
  apply (x25519_sessions_complete Loop.psk (b_ "hrr-device") Loop.server_random Loop.client_secret
    Loop.server_secret (b_ "hrr-OK")); [done|done|done|vm_compute; lia|vm_compute; reflexivity].
Defined.
