(* ===== verification/ServerTests.v ===== *)
(** The other tests of server.rs: alerts in both directions, the choice of the key
    exchange, the second ClientHello, the all-zero shared secret.

    The alert tests are proved to pass for every alert and every message; the others
    have their constants in them and are evaluated on the toy suite. *)

From S2P Require Import Prelude Errors CryptoBuffer ParseBuffer Wire ExtensionData Extensions.
From S2P Require Import CryptoSuite KeySchedule KeyScheduleProps ClientHello Handshake Server.
From S2P Require Import ServerRecords ServerHandshake ServerSteps ServerSpec TestClient TestSteps SelfLoop.
From Stdlib Require Import ZArith Lia.
From Stdlib Require Import Strings.Byte.
From Stdlib Require Strings.String.
From stdpp Require Import base list option numbers tactics sets.

Import Stdlib.Strings.String.StringSyntax.

(** [assert!(matches!(res, Err(TlsError::AbortHandshake(Fatal, d))))] *)
Definition assert_abort {S A} (res : A + TlsError) (d : AlertDescription) : M S TlsError unit :=
  assert_ (match res with inr e => bool_decide (e = abort_fatal d) | inl _ => false end).

Section Tests.
Context `{CS : TlsCipherSuite, X : X25519Ops}.
Abbreviation Session := (M (KeySchedule * TlsServerSession) TlsError).
Abbreviation Peers := (M (KeySchedule * KeySchedule) TlsError).
Abbreviation Test := (M unit TlsError).

(** ** Alerts *)

(** The handshake of the two alert tests. *)
Definition alert_handshake (psk identity server_random client_secret server_secret : list byte) :
    Session unit :=
  let client_pub := x25519 client_secret X25519_BASEPOINT_BYTES in
  let server_dhe := DheKeyShare_from_secret server_secret in
  on_fst (expect (initialize_early_secret (Some psk)));;
  ch_bytes ← on_fst (build_client_hello_dhe_with_binder identity client_pub);
  let config := mkServerConfig identity psk server_random (Some server_dhe) in
  flight ← session_flight ch_bytes config;
  '(sh_record, ee_record, fin_record) ← split_first_flight flight;
  on_fst (transcript_update ch_bytes);;
  sh ← record_message sh_record;
  on_fst (transcript_update sh);;
  let shared := x25519 client_secret (dhe_public server_dhe) in
  on_fst (expect (initialize_handshake_secret shared));;
  ee_inner ← on_fst (client_decrypt_handshake_record ee_record);
  on_fst (transcript_update ee_inner);;
  fin_inner ← on_fst (client_decrypt_handshake_record fin_record);
  on_fst (transcript_update fin_inner);;
  cf_record ← on_fst build_client_finished_record;
  on_snd (expect (session_process_client_finished cf_record));;
  on_fst (expect initialize_master_secret).

(** The server sends an alert; the client opens it. *)
Definition encrypt_alert_round_trip (level : AlertLevel) (description : AlertDescription) : Session unit :=
  alert_record ← on_snd (with_array 64 (expect (session_encrypt_alert level description)));
  t ← unwrap (alert_record !! 0);
  assert_ (bool_decide (t = ct_byte CT_ApplicationData));;
  alert_inner ← on_fst (client_decrypt_handshake_record alert_record);
  assert_ (bool_decide (length alert_inner = 2));;
  b0 ← unwrap (alert_inner !! 0);
  assert_ (bool_decide (b0 = u8 (AlertLevel_code level)));;
  b1 ← unwrap (alert_inner !! 1);
  assert_ (bool_decide (b1 = u8 (AlertDescription_code description))).

(** The client sends data and then an alert; the server tells them apart. *)
Definition app_data_then_alert (m : list byte) (level : AlertLevel) (description : AlertDescription) :
    Session unit :=
  app_record ← on_fst (with_array 256 (client_encrypt_app_data m));
  result ← on_snd (with_array 256 (expect (session_decrypt_app_data_or_alert app_record)));
  match result with
  | AppData plaintext => assert_eq plaintext m
  | AlertRecord _ _ => panic
  end;;
  alert_record ← on_fst (client_encrypt_alert level description);
  result2 ← on_snd (with_array 256 (expect (session_decrypt_app_data_or_alert alert_record)));
  match result2 with
  | AlertRecord l d => assert_ (bool_decide (l = level) && bool_decide (d = description))
  | AppData _ => panic
  end.

Definition encrypt_alert_round_trip_close_notify : Session unit :=
  alert_handshake (replicate 32 xc0) (b_ "alert-device") (replicate 32 x77) (replicate 32 x42) (replicate 32 x99);;
  encrypt_alert_round_trip Warning CloseNotify.

Definition decrypt_app_data_or_alert_distinguishes_alerts : Session unit :=
  alert_handshake (replicate 32 xc0) (b_ "alert-rx-device") (replicate 32 x77) (replicate 32 x42) (replicate 32 x99);;
  app_data_then_alert (b_ "hello") Warning CloseNotify.

(** ** The key exchange *)

(** Build and parse a ClientHello. *)
Definition built_hello (layout : M (list byte) TlsError ChLayout) : Test ClientHelloRef :=
  layout ← run_on [] layout;
  run_on (pb_new (lay_bytes layout)) (expect (ClientHelloRef_parse CLIENT_HELLO_MAX_EXTENSIONS)).

Definition test_config (identity : list byte) (dhe : option DheKeyShare) : TlsServerConfig :=
  mkServerConfig identity (zeros 32) (zeros 32) dhe.

Definition decide_kex_chooses_dhe_when_possible : Test unit :=
  let identity := b_ "x" in
  let client_pub := replicate 32 x11 in
  hello ← built_hello (build_synthetic_client_hello_dhe identity client_pub);
  let cfg := test_config identity (Some (DheKeyShare_from_secret (replicate 32 x33))) in
  decision ← expect (decide_kex hello cfg true);
  match decision with
  | Use (KexPskDheKe pub) => assert_eq pub client_pub
  | _ => panic
  end;;
  let cfg_no_dhe := test_config identity None in
  hello2 ← built_hello (build_synthetic_client_hello_dhe identity client_pub);
  result ← try_ (decide_kex hello2 cfg_no_dhe true);
  assert_abort result HandshakeFailure;;
  hello3 ← built_hello (build_synthetic_client_hello identity);
  decision3 ← expect (decide_kex hello3 cfg true);
  assert_ (match decision3 with Use KexPskKe => true | _ => false end).

Definition decide_kex_rejects_second_hrr : Test unit :=
  let identity := b_ "x" in
  hello ← built_hello (build_synthetic_ch_dhe_no_share identity);
  let cfg := test_config identity (Some (DheKeyShare_from_secret (replicate 32 x33))) in
  r1 ← expect (decide_kex hello cfg false);
  assert_ (match r1 with Retry g => bool_decide (g = X25519) | _ => false end);;
  r2 ← try_ (decide_kex hello cfg true);
  assert_abort r2 HandshakeFailure.

(** An all-zero public key makes the shared secret all zeros. *)
Definition reject_zero_x25519_shared_secret : Peers unit :=
  let psk := replicate 32 xc0 in
  let identity := b_ "x" in
  let zero_pub := zeros 32 in
  on_fst (expect (initialize_early_secret (Some psk)));;
  ch_bytes ← on_fst (build_client_hello_dhe_with_binder identity zero_pub);
  let config := mkServerConfig identity psk (replicate 32 x77)
                  (Some (DheKeyShare_from_secret (replicate 32 x99))) in
  res ← on_snd (with_array 1024 (try_ (process_client_hello ch_bytes config)));
  assert_abort res IllegalParameter.

(** ** The second ClientHello *)

Definition snapshot_with (random session_id : list byte) : Test HrrState :=
  sid ← run_on (zeros 32) (copy_at 0 (length session_id) session_id;; get);
  mret (mkHrr true random (u8_of_nat (length session_id)) sid).

Definition validate_ch2_consistency_random_mismatch : Test unit :=
  hello ← built_hello (build_synthetic_client_hello_dhe (b_ "x") (replicate 32 x11));
  snap ← snapshot_with (replicate 32 x77) [];
  result ← try_ (validate_ch2_consistency hello snap);
  assert_abort result IllegalParameter;;
  snap_ok ← snapshot_with (replicate 32 xa5) [];
  r ← try_ (validate_ch2_consistency hello snap_ok);
  assert_ (match r : unit + TlsError with inl _ => true | inr _ => false end).

Definition validate_ch2_consistency_session_id_mismatch : Test unit :=
  hello ← built_hello (build_synthetic_client_hello_dhe (b_ "x") (replicate 32 x11));
  snap ← snapshot_with (replicate 32 xa5) [xde; xad; xbe; xef];
  result ← try_ (validate_ch2_consistency hello snap);
  assert_abort result IllegalParameter.

(** A bit of the random is flipped in the second ClientHello. *)
Definition ch2_random_tamper_rejected_at_public_api : Session unit :=
  let psk := replicate 32 xc0 in
  let identity := b_ "x" in
  on_fst (expect (initialize_early_secret (Some psk)));;
  let config := mkServerConfig identity psk (replicate 32 x77)
                  (Some (DheKeyShare_from_secret (replicate 32 x99))) in
  '(ch1, hrr) ← drive_hrr identity config;
  hrr_message ← record_message hrr;
  on_fst (munge_client_transcript_for_hrr ch1 hrr_message);;
  let client_pub := x25519 (replicate 32 x42) X25519_BASEPOINT_BYTES in
  ch2 ← on_fst (build_client_hello_dhe_with_binder_after_hrr identity client_pub);
  let random_offset := HANDSHAKE_HEADER_LEN + 2 in
  b ← unwrap (ch2 !! random_offset);
  let ch2' := <[random_offset := u8 (Z.lxor (byte_val b) 0x80)]> ch2 in
  result ← on_snd (with_array 1024 (try_ (session_process_client_hello ch2' config)));
  assert_abort result IllegalParameter.
End Tests.

(** ** The alert tests pass for every alert *)

Section Alerts.
Context `{CS : TlsCipherSuite, !TlsCipherSuiteLaws CS, X : X25519Ops, !X25519Laws X}.
Context (Hhash : HashLen = SHA256_LEN).

(** The handshake ends with both ends in step. *)
Lemma alert_handshake_run psk identity server_random client_secret server_secret :
  identity_ok identity -> length server_random = 32 ->
  all_zero (x25519 client_secret (x25519 server_secret X25519_BASEPOINT_BYTES)) = false ->
  exists cks ses, alert_handshake psk identity server_random client_secret server_secret
    (KeySchedule_new, TlsServerSession_new) = (Ok tt, (cks, ses)) /\ in_step 0 cks (ses_schedule ses).
Proof.
  intros Hid Hr Hz. set (cfg := dhe_config psk identity server_random server_secret).
  set (pub := x25519 client_secret X25519_BASEPOINT_BYTES).
  set (z := x25519 client_secret (x25519 server_secret X25519_BASEPOINT_BYTES)) in *.
  pose proof (dhe_config_ok psk identity server_random server_secret Hr) as Hcfg. fold cfg in Hcfg.
  unfold alert_handshake. fold pub. cbv zeta. fold (dhe_config psk identity server_random server_secret). fold cfg.
  client (client_early_run psk cfg eq_refl).
  client (client_offers_dhe Hhash cfg pub (x25519_length _ _)).
  set (ch := sim_bytes cfg None (dhe_exts pub)).
  set (hello := sim_hello (dhe_exts pub) identity (sim_binder cfg None (dhe_exts pub))).
  set (f := flight cfg None ch hello (KexPskDheKe pub) 0 z).
  destruct (dhe_offer Hhash psk identity server_random client_secret server_secret None) as (Hof & Hikm & Hlen);
    [done|done|done|by left|]. fold cfg pub z ch hello in Hof, Hikm, Hlen.
  assert (legacy_session_id hello = []) as Hsid by done.
  change TlsServerSession_new with (session_of cfg (Start None)).
  call (session_flight_run cfg None ch hello (KexPskDheKe pub) 0 _ z _ I Hof Hikm Hlen).
  call (split_flight_run cfg None ch hello (KexPskDheKe pub) 0 z _ Hhash Hcfg Hsid).
  client (transcript_update_run cfg _ _). call (record_message_plain _ _ _). client (transcript_update_run cfg _ _).
  match goal with |- context [client_early cfg ?t] => change (client_early cfg t) with (client_early cfg (fl_transcript f)) end.
  change (initialize_handshake_secret _) with (initialize_handshake_secret z).
  pose proof (client_keyed_run cfg None ch hello (KexPskDheKe pub) 0 z) as Hkeyed. cbv zeta in Hkeyed. fold f in Hkeyed.
  client (expect_Ok _ _ _ _ Hkeyed).
  pose proof (flight_is_ok cfg None ch hello (KexPskDheKe pub) 0 z) as Hf. fold f in Hf |- *.
  client (client_opens_ee cfg f Hf). client (transcript_update_spec _ _).
  change (with_transcript _ _) with (client_read_ee cfg f).
  client (client_opens_finished cfg f Hhash Hf). client (transcript_update_spec _ _).
  change (transcript_hash _) with (fl_transcript f ++ ee_message). rewrite client_read_all.
  client (sim_finished_run cfg f Hf).
  server (expect_Ok (E := TlsError) _ _ _ _ (server_finishes cfg None f Hf)).
  rewrite (on_fst_run _ _ _ _ _ (client_connects_run cfg f)).
  eexists _, _. split; [reflexivity|]. apply connected_in_step_0.
Qed.

Lemma encrypt_alert_run l d cks ses n :
  in_step n cks (ses_schedule ses) -> (n + 1 < 2 ^ 64)%Z ->
  fst (encrypt_alert_round_trip l d (cks, ses)) = Ok tt.
Proof.
  intros (Hs & Hc & Hws & Hwc & Hns & Hnc) Hn. pose proof tag_len as Htag.
  unfold encrypt_alert_round_trip.
  destruct (send_item_spec (AlertRecord l d) (ses_schedule ses) (zeros 64)) as (out & Hrun & _);
    [by rewrite Hs|rewrite Hs; lia|unfold item_ok, zeros; cbn [item_inner]; rewrite length_replicate; simpl; lia|].
  assert (session_encrypt_alert l d (ses, zeros 64) = (Ok (sealed (server_keys (ses_schedule ses))
    (fst (item_inner (AlertRecord l d))) CT_Alert), (mkSession (with_server_keys (bump (server_keys (ses_schedule ses)))
    (ses_schedule ses)) (ses_hrr ses), out))) as Hses.
  { unfold session_encrypt_alert, on_session, zoom. cbn [fst snd send_item] in *. by rewrite Hrun. }
  server (with_array_run _ _ _ _ _ _ (expect_Ok _ _ _ _ Hses)).
  rewrite sealed_first, bind_unwrap_Some, bind_assert
    by (first [by rewrite Hs | by apply bool_decide_true | simpl; lia]).
  assert (client_decrypt_handshake_record (sealed (server_keys (ses_schedule ses))
      (fst (item_inner (AlertRecord l d))) CT_Alert) cks
    = (Ok (fst (item_inner (AlertRecord l d))), with_server_keys (bump (server_keys cks)) cks)) as Hopen.
  { apply client_decrypt_handshake_record_run; [by rewrite Hs|by rewrite Hs|rewrite Hs; lia|done|simpl; lia]. }
  client Hopen. cbn [item_inner fst]. rewrite bind_assert by done. cbn [lookup list_lookup].
  rewrite bind_unwrap_Some, bind_assert, bind_unwrap_Some by (by apply bool_decide_true).
  by unfold assert_; rewrite bool_decide_true.
Qed.

Lemma app_data_then_alert_run m l d cks ses n :
  in_step n cks (ses_schedule ses) -> (n + 2 < 2 ^ 64)%Z -> length m <= 234 ->
  fst (app_data_then_alert m l d (cks, ses)) = Ok tt.
Proof.
  intros (Hs & Hc & Hws & Hwc & Hns & Hnc) Hn Hm. pose proof tag_len as Htag.
  unfold app_data_then_alert. client (client_sends m cks Hwc ltac:(lia) Hm).
  destruct (receive_item_spec (AppData m) (client_keys cks) (ses_schedule ses) (zeros 256)) as (b1 & Hr1 & _);
    [by rewrite Hc|done|lia|unfold item_ok, zeros; cbn [item_inner]; rewrite length_replicate; lia|].
  cbn [item_inner fst snd] in Hr1.
  set (sks1 := with_client_keys (bump (client_keys (ses_schedule ses))) (ses_schedule ses)) in *.
  assert (session_decrypt_app_data_or_alert (sealed (client_keys cks) m CT_ApplicationData) (ses, zeros 256)
    = (Ok (AppData m), (mkSession sks1 (ses_hrr ses), b1))) as Hs1.
  { unfold session_decrypt_app_data_or_alert, on_session, zoom. cbn [fst snd]. by rewrite Hr1. }
  server (with_array_run _ _ _ _ _ _ (expect_Ok _ _ _ _ Hs1)). rewrite bind_assert_eq by done.
  set (cks1 := with_client_keys (bump (client_keys cks)) cks).
  assert (kss_wf (client_keys cks1)) as Hwc1 by (apply bump_wf; [done|lia]).
  assert (counter (client_keys cks1) + 1 < 2 ^ 64)%Z as Hctr
    by (change (counter (client_keys cks) + 1 + 1 < 2 ^ 64)%Z; lia).
  client (client_encrypt_alert_run l d cks1 tag_len Hwc1 Hctr).
  destruct (receive_item_spec (AlertRecord l d) (client_keys cks1) sks1 (zeros 256)) as (b2 & Hr2 & _);
    [|done|done|unfold item_ok, zeros; cbn [item_inner]; rewrite length_replicate; simpl; lia|].
  { change (same_keys (bump (client_keys cks)) (bump (client_keys (ses_schedule ses)))). by rewrite Hc. }
  assert (session_decrypt_app_data_or_alert (sealed (client_keys cks1) (fst (item_inner (AlertRecord l d))) CT_Alert)
      (mkSession sks1 (ses_hrr ses), zeros 256)
    = (Ok (AlertRecord l d), (mkSession (with_client_keys (bump (client_keys sks1)) sks1) (ses_hrr ses), b2))) as Hs2.
  { unfold session_decrypt_app_data_or_alert, on_session, zoom. cbn [fst snd ses_schedule ses_hrr item_inner] in *.
    by rewrite Hr2. }
  server (with_array_run _ _ _ _ _ _ (expect_Ok _ _ _ _ Hs2)).
  by rewrite !bool_decide_true by done.
Qed.
End Alerts.

(** Alerts in both directions.  After the handshake of the alert tests, with any PSK,
    identity, random and secrets as in the session theorems, every alert the server
    sends is opened by the client as its level and description, and data followed by
    any alert from the client is told apart by [decrypt_app_data_or_alert]. *)
Theorem alerts_round_trip
    `{CS : TlsCipherSuite, !TlsCipherSuiteLaws CS, X : X25519Ops, !X25519Laws X}
    psk identity server_random client_secret server_secret m l d :
  HashLen = SHA256_LEN -> identity_ok identity -> length server_random = 32 -> length m <= 234 ->
  all_zero (x25519 client_secret (x25519 server_secret X25519_BASEPOINT_BYTES)) = false ->
  exists peers, alert_handshake psk identity server_random client_secret server_secret
      (KeySchedule_new, TlsServerSession_new) = (Ok tt, peers) /\
    fst (encrypt_alert_round_trip l d peers) = Ok tt /\ fst (app_data_then_alert m l d peers) = Ok tt.
Proof.
  intros Hh Hid Hr Hm Hz.
  destruct (alert_handshake_run Hh psk identity server_random client_secret server_secret Hid Hr Hz)
    as (cks & ses & Hrun & Hin).
  exists (cks, ses). split; [done|]. split; [by eapply encrypt_alert_run|by eapply app_data_then_alert_run].
Qed.

(** ** The tests on the toy suite *)

Module Runs.
Existing Instance Toy.suite.
Existing Instance Loop.x25519_mul.

Definition start : KeySchedule * TlsServerSession := (KeySchedule_new, TlsServerSession_new).

Example alerts_pass :
  Loop.passes (encrypt_alert_round_trip_close_notify start) &&
  Loop.passes (decrypt_app_data_or_alert_distinguishes_alerts start) = true.
Proof. vm_compute. reflexivity. Qed.

Example key_exchange_passes :
  Loop.passes (decide_kex_chooses_dhe_when_possible tt) && Loop.passes (decide_kex_rejects_second_hrr tt) &&
  Loop.passes (reject_zero_x25519_shared_secret (KeySchedule_new, KeySchedule_new)) = true.
Proof. vm_compute. reflexivity. Qed.

Example second_hello_passes :
  Loop.passes (validate_ch2_consistency_random_mismatch tt) &&
  Loop.passes (validate_ch2_consistency_session_id_mismatch tt) &&
  Loop.passes (ch2_random_tamper_rejected_at_public_api start) = true.
Proof. vm_compute. reflexivity. Qed.
End Runs.
