(* ===== verification/PrimitivesLoop.v ===== *)
(** The integration test of the server's primitives (server_self_loop_test.rs).

    The test runs a plain PSK handshake without the driver of server.rs: it parses
    the ClientHello, checks the binder, encodes ServerHello and EncryptedExtensions and
    makes the Finished with the primitives, next to a client schedule.  It is
    translated with its constants as parameters and proved to pass for all of
    them. *)

From S2P Require Import Prelude Errors CryptoBuffer ParseBuffer Wire ExtensionData Extensions.
From S2P Require Import CryptoSuite KeySchedule KeyScheduleProps ClientHello Handshake Server.
From S2P Require Import ServerRecords ServerHandshake ServerSteps ServerSpec TestClient TestSteps SelfLoop.
From Stdlib Require Import ZArith Lia.
From Stdlib Require Import Strings.Byte.
From Stdlib Require Strings.String.
From stdpp Require Import base list option numbers tactics sets.

Import Stdlib.Strings.String.StringSyntax.

Definition LEGACY_VERSION_U16 : Z := 0x0303.
Definition TLS13_VERSION : Z := 0x0304.
Definition EXT_SUPPORTED_VERSIONS : Z := 0x002b.
Definition EXT_PSK_KEY_EXCHANGE_MODES : Z := 0x002d.
Definition EXT_PRE_SHARED_KEY : Z := 0x0029.
Definition PSK_KE_MODE : byte := x00.

(** [build_synthetic_client_hello] of this file. *)
Definition self_loop_client_hello (identity : list byte) : M (list byte) TlsError ChLayout :=
  extend [HS_TYPE_CLIENT_HELLO];;
  extend [x00; x00; x00];;
  body_start ← vlen;
  extend (be_bytes 2 LEGACY_VERSION_U16);;
  extend (replicate 32 xa5);;
  extend [x00];;
  extend (be_bytes 2 2);;
  extend (be_bytes 2 TLS_AES_128_GCM_SHA256);;
  extend [x01];;
  extend [x00];;
  ext_list_len_pos ← vlen;
  extend [x00; x00];;
  ext_content_start ← vlen;
  extend (be_bytes 2 EXT_SUPPORTED_VERSIONS);;
  extend (be_bytes 2 3);;
  extend [x02];;
  extend (be_bytes 2 TLS13_VERSION);;
  extend (be_bytes 2 EXT_PSK_KEY_EXCHANGE_MODES);;
  extend (be_bytes 2 2);;
  extend [x01];;
  extend [PSK_KE_MODE];;
  extend (be_bytes 2 EXT_PRE_SHARED_KEY);;
  psk_data_len_pos ← vlen;
  extend [x00; x00];;
  psk_data_start ← vlen;
  let id_entry_len := 2 + length identity + 4 in
  extend (be_bytes 2 (Z.of_nat id_entry_len));;
  extend (be_bytes 2 (Z.of_nat (length identity)));;
  extend identity;;
  extend (be_bytes 4 0);;
  binders_start_offset ← vlen;
  extend (be_bytes 2 (Z.of_nat (1 + SHA256_LEN)));;
  extend [u8_of_nat SHA256_LEN];;
  binder_value_pos ← vlen;
  extend (zeros SHA256_LEN);;
  psk_data_end ← vlen;
  psk_data_len ← unwrap (usub psk_data_end psk_data_start);
  lwrite psk_data_len_pos (be_bytes 2 (Z.of_nat psk_data_len));;
  ext_content_end ← vlen;
  ext_list_len ← unwrap (usub ext_content_end ext_content_start);
  lwrite ext_list_len_pos (be_bytes 2 (Z.of_nat ext_list_len));;
  body_end ← vlen;
  body_len ← unwrap (usub body_end body_start);
  lset 1 (u8 (Z.of_nat body_len ≫ 16));;
  lset 2 (u8 (Z.of_nat body_len ≫ 8));;
  lset 3 (u8 (Z.of_nat body_len));;
  out ← get;
  mret (mkLayout out binders_start_offset binder_value_pos).

Section Loop.
Context `{CS : TlsCipherSuite}.
Abbreviation Peers := (M (KeySchedule * KeySchedule) TlsError).

(** Encode a body into a fresh buffer and put a handshake header before it; the
    length is written in two bytes. *)
Definition encode_body (n : nat) (m : EncM unit) : Peers (list byte) :=
  run_on (wrap (zeros n)) (expect m;; as_slice).
Definition with_header (t : byte) (body : list byte) : list byte :=
  [t; x00; u8 (Z.of_nat (length body) ≫ 8); u8 (Z.of_nat (length body))] ++ body.

(** Steps 1 to 5: the ClientHello and its binder. *)
Definition self_loop_hello (psk identity : list byte) : Peers (list byte * ClientHelloRef) :=
  layout ← run_on [] (self_loop_client_hello identity);
  on_fst (expect (initialize_early_secret (Some psk)));;
  bytes ← on_fst (splice_binder [] layout);
  hello ← run_on (pb_new bytes) (expect (ClientHelloRef_parse 16));
  assert_ (bool_decide (binders_start_offset hello = lay_binders_start layout));;
  p ← unwrap (find_map find_psk (extensions hello));
  parsed_identity ← unwrap (identities p !! 0);
  parsed_binder ← unwrap (binders p !! 0);
  assert_eq parsed_identity identity;;
  assert_ (bool_decide (length parsed_binder = SHA256_LEN));;
  on_snd (expect (initialize_early_secret (Some psk)));;
  server_prefix ← unwrap (sub bytes 0 (binders_start_offset hello));
  '(_, server_ks) ← get;
  binder_ok ← expect (verify_psk_binder server_ks server_prefix parsed_binder);
  assert_ binder_ok;;
  on_snd (transcript_update bytes);;
  mret (bytes, hello).

(** Steps 6 to 10: the flight, and the client's view of it. *)
Definition self_loop_flight (server_random bytes : list byte) (hello : ClientHelloRef) : Peers unit :=
  exts1 ← unwrap (vec_push 4 [] (SH_SupportedVersions (mkVersionsSH TLS13)));
  sh_extensions ← unwrap (vec_push 4 exts1 (SH_PreSharedKey (mkPskSH 0)));
  let sh_emit := mkEmit server_random (legacy_session_id hello) TLS_AES_128_GCM_SHA256 sh_extensions in
  sh_body ← encode_body 256 (ServerHelloEmit_encode sh_emit);
  let sh_message := with_header x02 sh_body in
  on_snd (transcript_update sh_message);;
  on_snd (expect (initialize_handshake_secret (zeros 32)));;
  ee_body ← encode_body 16 (EncryptedExtensionsEmit_encode []);
  assert_eq ee_body [x00; x00];;
  let ee_message := with_header x08 ee_body in
  on_snd (transcript_update ee_message);;
  '(_, server_ks) ← get;
  server_finished ← expect (create_server_finished server_ks);
  on_fst (transcript_update bytes);;
  on_fst (transcript_update sh_message);;
  on_fst (expect (initialize_handshake_secret (zeros 32)));;
  on_fst (transcript_update ee_message);;
  '(client_ks, _) ← get;
  let snapshot := digest_out (transcript_hash client_ks) in
  ok ← expect (verify_server_finished (server_state client_ks)
                 (mkFinished (verify server_finished) (Some snapshot)));
  assert_ ok.

Definition full_psk_ke_handshake_self_loop (psk identity server_random : list byte) : Peers unit :=
  '(bytes, hello) ← self_loop_hello psk identity;
  self_loop_flight server_random bytes hello.
End Loop.

(** ** The test passes *)

Lemma self_loop_client_hello_eq identity :
  self_loop_client_hello identity [] = build_synthetic_client_hello identity [].
Proof. reflexivity. Qed.

Section Passing.
Context `{CS : TlsCipherSuite, !TlsCipherSuiteLaws CS}.
Context (Hhash : HashLen = SHA256_LEN).

Lemma self_loop_client_hello_run {S} identity (s : S) :
  run_on [] (self_loop_client_hello identity) s = (Ok (layout_of psk_ke_raws identity), s).
Proof. rewrite <-build_synthetic_client_hello_run. unfold run_on. by rewrite self_loop_client_hello_eq. Qed.

Lemma encode_body_run n m xs (s : KeySchedule * KeySchedule) :
  encodes m xs -> length xs <= n -> encode_body n m s = (Ok xs, s).
Proof.
  intros Hm Hl. pose proof (wrap_wf (zeros n)) as Hwf.
  assert (room (wrap (zeros n)) = n) as Hroom.
  { unfold room, capacity, zeros. simpl. rewrite length_replicate. lia. }
  rewrite <-Hroom in Hl. pose proof (wf_append _ _ Hwf Hl) as Hwf'.
  eapply run_on_Ok. rewrite (bind_Ok _ _ _ _ _ (expect_Ok _ _ _ _ (encodes_Ok _ _ _ Hm Hwf Hl))).
  rewrite as_slice_spec, contents_append by done. reflexivity.
Qed.

(** The header with a length of two bytes is the handshake header. *)
Lemma with_header_message t body :
  (Z.of_nat (length body) < 2 ^ 16)%Z -> with_header (hs_byte t) body = handshake_message t body.
Proof.
  intros Hl. unfold with_header, handshake_message, vec24. rewrite be_bytes_3.
  assert (Z.of_nat (length body) ≫ 16 = 0)%Z as ->; [|done].
  rewrite Z.shiftr_div_pow2 by lia. apply Z.div_small. lia.
Qed.

(** The configuration the two halves have in common. *)
Definition loop_cfg (psk identity server_random : list byte) : TlsServerConfig :=
  mkServerConfig identity psk server_random None.
Definition loop_hello (cfg : TlsServerConfig) : ClientHelloRef :=
  sim_hello psk_ke_exts (psk_identity cfg) (sim_binder cfg None psk_ke_exts).

Lemma self_loop_hello_run psk identity server_random :
  let cfg := loop_cfg psk identity server_random in
  let ch := sim_bytes cfg None psk_ke_exts in
  identity_ok identity ->
  self_loop_hello psk identity (KeySchedule_new, KeySchedule_new)
  = (Ok (ch, loop_hello cfg), (client_early cfg [], client_early cfg ch)).
Proof.
  intros cfg ch Hid. set (binder := sim_binder cfg None psk_ke_exts). set (hello := loop_hello cfg).
  assert (length binder = SHA256_LEN) as Hb by (rewrite <-Hhash; apply length_Finished_Mac).
  assert (reads_as ch hello) as Hparse%reads_as_parse by (by apply sim_hello_reads; [apply psk_ke_front| |]).
  change CLIENT_HELLO_MAX_EXTENSIONS with 16 in Hparse.
  unfold self_loop_hello. call (self_loop_client_hello_run _ _).
  client (client_early_run psk cfg eq_refl).
  pose proof (splice_binder_early Hhash psk_ke_exts cfg []) as Hsplice. rewrite <-psk_ke_raws_of in Hsplice.
  client Hsplice. change (bound_hello _ _ _ _) with ch.
  call (run_on_Ok _ _ _ _ _ (expect_Ok _ _ _ _ Hparse)).
  rewrite bind_assert by (by apply bool_decide_true).
  change (find_map find_psk (extensions hello)) with (Some (mkPskCH [identity] [binder] 32)).
  rewrite bind_unwrap_Some. cbn [identities binders lookup list_lookup].
  rewrite bind_unwrap_Some, bind_unwrap_Some, bind_assert_eq, bind_assert by (first [done|by apply bool_decide_true]).
  server (client_early_run psk cfg eq_refl).
  assert (sub ch 0 (binders_start_offset hello) = Some (ch_prefix (raw_of <$> psk_ke_exts) identity)) as ->.
  { unfold ch, sim_bytes, bound_hello. fold (sim_binder cfg None psk_ke_exts). fold binder.
    rewrite hello_message_split by done. apply sub_0_app. }
  rewrite bind_unwrap_Some, bind_get. cbv beta iota.
  assert (verify_psk_binder (client_early cfg []) (ch_prefix (raw_of <$> psk_ke_exts) identity) binder
    (client_early cfg [], client_early cfg []) = (Ok true, (client_early cfg [], client_early cfg []))) as Hver.
  { rewrite (verify_psk_binder_spec (Binder_Key psk)) by (first [by rewrite length_Binder_Key|done]).
    by rewrite bool_decide_true. }
  call (expect_Ok (E := TlsError) _ _ _ _ Hver). rewrite bind_assert by done.
  by server (transcript_update_run cfg _ _).
Qed.

Lemma self_loop_flight_run psk identity server_random :
  let cfg := loop_cfg psk identity server_random in
  let ch := sim_bytes cfg None psk_ke_exts in
  length server_random = 32 ->
  exists peers, self_loop_flight server_random ch (loop_hello cfg) (client_early cfg [], client_early cfg ch)
    = (Ok tt, peers).
Proof.
  intros cfg ch Hr. assert (cfg_ok cfg) as Hcfg by done. unfold self_loop_flight.
  change (vec_push 4 [] ?e) with (Some [e]). rewrite bind_unwrap_Some.
  change (vec_push 4 [?e] ?e') with (Some [e; e']). rewrite bind_unwrap_Some. cbv zeta.
  change (mkEmit server_random _ _ _) with (server_hello cfg [] 0 KexPskKe).
  set (sh := server_hello cfg [] 0 KexPskKe).
  pose proof (length_sh_body cfg 0 KexPskKe Hcfg) as Hlen. fold sh in Hlen.
  assert (encodes (ServerHelloEmit_encode sh) (server_hello_body sh)) as Henc
    by (apply ServerHelloEmit_encodes; simpl; lia).
  call (encode_body_run 256 _ _ _ Henc ltac:(lia)).
  rewrite (with_header_message HT_ServerHello) by lia.
  set (f := flight cfg None ch (loop_hello cfg) KexPskKe 0 (zeros 32)).
  pose proof (client_keyed_run cfg None ch (loop_hello cfg) KexPskKe 0 (zeros 32)) as Hkeyed.
  cbv zeta in Hkeyed. fold f in Hkeyed.
  server (transcript_update_run cfg _ _).
  change (client_early cfg (ch ++ _)) with (client_early cfg (fl_transcript f)).
  server (expect_Ok _ _ _ _ Hkeyed).
  call (encode_body_run 16 (EncryptedExtensionsEmit_encode []) [x00; x00] _ (ext_vector_encodes []) ltac:(simpl; lia)).
  rewrite bind_assert_eq by done. rewrite (with_header_message HT_EncryptedExtensions) by done.
  fold ee_message. server (transcript_update_spec _ _). rewrite bind_get. cbv beta iota.
  set (ks := with_transcript _ (client_keyed cfg f)).
  destruct (flight_is_ok cfg None ch (loop_hello cfg) KexPskKe 0 (zeros 32)) as [_ Hts]. fold f in Hts.
  call (expect_Ok (E := TlsError) _ _ _ _ (create_server_finished_spec (fl_server_ts f) ks _ ltac:(lia) eq_refl)).
  client (transcript_update_run cfg _ _). client (transcript_update_run cfg _ _).
  match goal with |- context [client_early cfg (?x ++ ?y)] =>
    change (client_early cfg (x ++ y)) with (client_early cfg (fl_transcript f)) end.
  client (expect_Ok _ _ _ _ Hkeyed). client (transcript_update_spec _ _). fold ks.
  rewrite bind_get. cbv beta iota zeta.
  call (expect_Ok (E := TlsError) _ _ _ _ (verify_server_finished_spec (fl_server_ts f) (server_state ks)
    (transcript_hash ks) _ _ ltac:(lia) eq_refl)).
  cbn [verify]. rewrite bool_decide_true by done. by eexists.
Qed.
End Passing.

(** The self-loop test passes for every PSK, every identity of 1 to 2^15 - 1 bytes
    and every server random: the parser, the binder check, the encoders and the two
    Finished functions compose as the test expects. *)
Theorem self_loop_completes
    `{CS : TlsCipherSuite, !TlsCipherSuiteLaws CS} psk identity server_random :
  HashLen = SHA256_LEN -> identity_ok identity -> length server_random = 32 ->
  exists peers, full_psk_ke_handshake_self_loop psk identity server_random (KeySchedule_new, KeySchedule_new)
    = (Ok tt, peers).
Proof.
  intros Hh Hid Hr. unfold full_psk_ke_handshake_self_loop.
  call (self_loop_hello_run Hh psk identity server_random Hid). by apply self_loop_flight_run.
Qed.

Example self_loop_passes :
  let _ := Toy.suite in
  Loop.passes (full_psk_ke_handshake_self_loop (replicate 32 x42) (b_ "smartbox-house-1") (replicate 32 xc3)
                 (KeySchedule_new, KeySchedule_new)) = true.
Proof. vm_compute. reflexivity. Qed.
