(* ===== verification/BufferTests.v ===== *)
(** The unit tests of buffer.rs, read_buffer.rs and record_reader.rs.

    Each test is translated as a computation that panics where an assertion fails.
    They are evaluated; the accounting of a [ReadBuffer] and the reading of records are
    proved for every sequence of [pop]s and for every transport. *)

From S2P Require Import Prelude Errors CryptoBuffer ParseBuffer Wire ExtensionData Extensions.
From S2P Require Import CryptoSuite KeySchedule KeyScheduleProps ClientHello Handshake Server.
From S2P Require Import ServerRecords ServerSpec Record RecordReader ReadBuffer Connection ClientRecords.
From S2P Require Import TestClient TestSteps SelfLoop.
From Stdlib Require Import ZArith Lia.
From Stdlib Require Import Strings.Byte.
From stdpp Require Import base list option numbers tactics sets.

(** [let mut x = s; ..]: the result of a computation on a local object together with the
    object, for the assertions that follow. *)
Definition with_local {S T E A} (t : T) (m : M T E A) : M S E (A * T) := fun s =>
  let '(r, t') := m t in
  (match r with Ok a => Ok (a, t') | Err e => Err e | Panic => Panic | Diverge => Diverge end, s).

(** ** buffer.rs *)

Definition encode : M unit TlsError unit :=
  '(_, c) ← with_local (wrap (zeros 4)) (expect (push_u24 1027));
  let buf1 := cb_buf c in
  '(_, c) ← with_local (wrap (zeros 4)) (expect (push_u24 0);; expect (set_u24 0 1027));
  let buf2 := cb_buf c in
  assert_eq buf1 buf2;;
  b0 ← unwrap (buf1 !! 0); b1 ← unwrap (buf1 !! 1); b2 ← unwrap (buf1 !! 2);
  let decoded := from_be [x00; b0; b1; b2] in
  assert_ (bool_decide (1027%Z = decoded)).

(** [let mut c = c.offset(n);] *)
Definition move_to (n : nat) : M CryptoBuffer TlsError unit :=
  c ← get; c' ← unwrap (offset c n); put c'.

Definition offset_calc : M CryptoBuffer TlsError unit :=
  expect (push x01);; expect (push x02);; expect (push x03);;
  s ← as_slice; assert_eq [x01; x02; x03] s;;
  c ← get; move_to (cb_len c);;
  expect (push x04);; expect (push x05);; expect (push x06);;
  s ← as_slice; assert_eq [x04; x05; x06] s;;
  move_to 0;;
  expect (push x07);; expect (push x08);;
  s ← as_slice; assert_eq [x01; x02; x03; x04; x05; x06; x07; x08] s;;
  move_to 6;;
  expect (set 0 x0e);; expect (set 1 x0f);;
  move_to 0;;
  s ← as_slice; assert_eq [x01; x02; x03; x04; x05; x06; x0e; x0f] s;;
  move_to 4;;
  truncate 0;;
  expect (extend_from_slice [x0a; x0b; x0c; x0d]);;
  s ← as_slice; assert_eq [x0a; x0b; x0c; x0d] s;;
  move_to 0;;
  s ← as_slice; assert_eq [x01; x02; x03; x04; x0a; x0b; x0c; x0d] s.

Example buffer_tests_pass :
  Loop.passes (encode tt) = true /\ Loop.passes (offset_calc (wrap (zeros 8))) = true.
Proof. vm_compute. split; reflexivity. Qed.

(** ** read_buffer.rs

    The counter the buffer reports to is the [dbi_consumed] of a
    [DecryptedBufferInfo]. *)

Definition counter (n : nat) : DecryptedBufferInfo := mkInfo 0 0 n.

Definition dropping_unused_buffer_consumes_all : M unit TlsError unit :=
  let consumed := counter 1000 in
  let buffer := [x00; x01; x02; x03] in
  let consumed := drop_buffer (ReadBuffer_new buffer) consumed in
  assert_ (bool_decide (dbi_consumed consumed = 1004)).

(** [assert_eq!(buffer.pop(n), xs)] *)
Definition pops (n : nat) (xs : list byte) : M ReadBuffer TlsError unit :=
  got ← pop n; assert_eq got xs.

Definition pop_moves_internal_cursor : M unit TlsError unit :=
  run_on (ReadBuffer_new [x00; x01; x02; x03]) (pops 1 [x00];; pops 1 [x01];; pops 1 [x02]).

Definition dropping_consumes_as_many_bytes_as_used : M unit TlsError unit :=
  '(_, buffer) ← with_local (ReadBuffer_new [x00; x01; x02; x03])
    (pops 1 [x00];; pops 1 [x01];; pops 1 [x02]);
  let consumed := drop_buffer buffer (counter 0) in
  assert_ (bool_decide (dbi_consumed consumed = 3)).

Definition pop_returns_fewer_bytes_if_requested_more_than_what_it_has : M unit TlsError unit :=
  '(_, buffer) ← with_local (ReadBuffer_new [x00; x01; x02; x03])
    (pops 1 [x00];; pops 1 [x01];; pops 4 [x02; x03];; pops 1 []);
  let consumed := drop_buffer buffer (counter 0) in
  assert_ (bool_decide (dbi_consumed consumed = 4)).

Definition peek_does_not_consume : M unit TlsError unit :=
  '(_, buffer) ← with_local (ReadBuffer_new [x00; x01; x02; x03])
    (got ← peek 1; assert_eq got [x00];; got ← peek 1; assert_eq got [x00]);
  let consumed := drop_buffer buffer (counter 0) in
  assert_ (bool_decide (dbi_consumed consumed = 0)).

Definition revert_undoes_pop : M unit TlsError unit :=
  '(_, buffer) ← with_local (ReadBuffer_new [x00; x01; x02; x03]) (pops 4 [x00; x01; x02; x03]);
  let consumed := revert buffer (counter 0) in
  assert_ (bool_decide (dbi_consumed consumed = 0)).

Example read_buffer_tests_pass :
  forallb (fun t => Loop.passes (t tt))
    [dropping_unused_buffer_consumes_all; pop_moves_internal_cursor;
     dropping_consumes_as_many_bytes_as_used;
     pop_returns_fewer_bytes_if_requested_more_than_what_it_has;
     peek_does_not_consume; revert_undoes_pop] = true.
Proof. vm_compute. reflexivity. Qed.

(** Popping with a list of counts returns consecutive pieces of the data; dropping the
    buffer then adds the number of bytes returned, whatever the counts were. *)
Fixpoint pop_list (counts : list nat) : M ReadBuffer TlsError (list byte) :=
  match counts with
  | [] => mret []
  | n :: counts' => xs ← pop n; ys ← pop_list counts'; mret (xs ++ ys)
  end.

Lemma pop_list_run counts b :
  rb_wf b ->
  let xs := take (sum_list counts) (rb_rest b) in
  pop_list counts b = (Ok xs, mkRB (rb_data b) (rb_consumed b + length xs)
                                  (rb_used b || bool_decide (counts <> []))).
Proof.
  revert b. induction counts as [|n counts IH]; intros b Hb; simpl.
  - rewrite take_0, orb_false_r. simpl. rewrite Nat.add_0_r. by destruct b.
  - rewrite (bind_Ok _ _ _ _ _ (pop_spec _ b Hb)).
    set (b' := mkRB _ _ _). assert (rb_wf b') as Hb'.
    { unfold rb_wf, rb_rest in *. simpl. rewrite length_take, length_drop. lia. }
    rewrite (bind_Ok _ _ _ _ _ (IH b' Hb')). unfold rb_rest in *. simpl.
    assert (forall l : list byte, take n l ++ take (sum_list counts) (drop (length (take n l)) l)
              = take (n + sum_list counts) l) as Htake.
    { intros l. rewrite length_take. destruct (decide (n <= length l)) as [Hn|Hn].
      - rewrite Nat.min_l by done. by rewrite take_take_drop.
      - rewrite Nat.min_r, drop_all, take_nil, app_nil_r by lia. by rewrite !take_ge by lia. }
    unfold mret, M_ret. rewrite <-drop_drop.
    rewrite <-(Htake (drop (rb_consumed b) (rb_data b))), length_app.
    by rewrite orb_true_r, Nat.add_assoc.
Qed.

Theorem read_buffer_accounts counts data i :
  counts <> [] ->
  exists b, pop_list counts (ReadBuffer_new data) = (Ok (take (sum_list counts) data), b) /\
    dbi_consumed (drop_buffer b i) = dbi_consumed i + min (sum_list counts) (length data) /\
    dbi_consumed (revert b i) = dbi_consumed i.
Proof.
  intros Hne. eexists. split; [|split]; [rewrite pop_list_run| |].
  - unfold rb_rest. simpl. by rewrite drop_0.
  - unfold rb_wf. simpl. lia.
  - unfold rb_rest. simpl. rewrite bool_decide_true by done. by rewrite length_take.
  - done.
Qed.

(** ** record_reader.rs

    [ChunkRead(bytes, n)] is the transport [Chunked] with [n - 1]; a slice as a
    transport delivers everything it is asked for, as [Chunked] with a large chunk. *)

Definition two_records : list byte :=
  [ct_byte CT_ApplicationData; x03; x03; x00; x04; xde; xad; xbe; xef;
   ct_byte CT_ApplicationData; x03; x03; x00; x02; xaa; xbb].
Definition two_empty_records : list byte :=
  [ct_byte CT_ApplicationData; x03; x03; x00; x00; ct_byte CT_ApplicationData; x03; x03; x00; x00].

Section ReaderTests.
Context {T : Type} `{Sock : Socket T, CS : TlsCipherSuite}.

(** One block of these tests: [read_blocking] returns application data with the bytes
    [want], and leaves [decoded] and [pending] as given. *)
Definition read_data (want : list byte) (now_decoded : nat) : M (RecordReader * T * list byte) TlsError unit :=
  record ← expect read;
  '(reader, _, _) ← get;
  match record with
  | SR_ApplicationData data =>
      bytes ← unwrap (sub (rr_buf reader) (ad_start data) (ad_start data + ad_len data));
      assert_eq want bytes
  | _ => panic
  end;;
  assert_ (bool_decide (now_decoded = decoded reader));;
  assert_ (bool_decide (0 = pending reader)).

(** From a reader over a fresh array and a fresh key schedule. *)
Definition can_read (size : nat) (test : M (RecordReader * T * list byte) TlsError unit) :
    M T TlsError unit :=
  zoom (fun transport => (RecordReader_new (zeros size), transport, transcript_hash KeySchedule_new))
       (fun st _ => snd (fst st)) test.
End ReaderTests.

Section ReaderCases.
Context `{CS : TlsCipherSuite}.

Definition can_read_blocking_case (chunk_size : nat) : M unit TlsError unit :=
  run_on (mkChunked two_records [] (chunk_size - 1))
    (can_read 32 (read_data [xde; xad; xbe; xef] 4;; read_data [xaa; xbb] 6)).

Definition can_read_blocking : M unit TlsError unit := for_each (seq 1 16) can_read_blocking_case.

(** The array cannot contain both data portions. *)
Definition can_read_blocking_must_rotate_buffer : M unit TlsError unit :=
  run_on (mkChunked two_records [] (length two_records))
    (can_read 4 (read_data [xde; xad; xbe; xef] 4;; read_data [xaa; xbb] 2)).

Definition can_read_empty_record : M unit TlsError unit :=
  run_on (mkChunked two_empty_records [] (length two_empty_records))
    (can_read 32 (read_data [] 0;; read_data [] 0)).
End ReaderCases.

Example reader_tests_pass :
  forallb (fun t => Loop.passes (t tt))
    [can_read_blocking (CS := Toy.suite); can_read_blocking_must_rotate_buffer (CS := Toy.suite);
     can_read_empty_record (CS := Toy.suite)] = true.
Proof. vm_compute. reflexivity. Qed.

(** The blocks pass on every transport that reports no error, however it cuts the
    stream, for any sequence of records that fit the array. *)
Definition data_record (payload : list byte) : list byte := record_header (length payload) ++ payload.

Section ReaderProps.
Context {T : Type} `{Sock : Socket T, !SocketLaws T, !Reliable T, CS : TlsCipherSuite}.

Fixpoint read_stream (r : RecordReader) (payloads : list (list byte)) :
    M (RecordReader * T * list byte) TlsError unit :=
  match payloads with
  | [] => mret tt
  | p :: ps => read_data p (decoded (stored r p));; read_stream (stored r p) ps
  end.

Definition fits (r : RecordReader) (payload : list byte) : Prop :=
  length payload <= length (rr_buf r) /\ (Z.of_nat (length payload) <= 65535)%Z.

Lemma read_data_run r (s : T) digest payload rest :
  reader_ready r -> fits r payload -> incoming s = data_record payload ++ rest ->
  exists s', read_data payload (decoded (stored r payload)) (r, s, digest)
    = (Ok tt, (stored r payload, s', digest)) /\ incoming s' = rest.
Proof.
  intros Hr [Hcap Hp] Hin. pose proof (read_wp r s digest Hr) as Hwp. cbv zeta in Hwp.
  assert (frame (length (rr_buf r)) (incoming s) = inr (record_header (length payload), payload, rest)) as Hf.
  { rewrite Hin. unfold data_record. rewrite <-(assoc_L (++)).
    eapply (frame_inr _ _ _ _ x17 CT_ApplicationData); [done|done|done| |]; rewrite payload_length_header; lia. }
  rewrite Hf in Hwp. unfold wp in Hwp.
  destruct (read (r, s, digest)) as [[rec|e| |] [[r' s'] d']] eqn:Hread; [|exfalso|done|done].
  - destruct Hwp as (_ & hdr & body & [= <- <- Hs'] & Hd & -> & _). rewrite decode_app_record in Hd by done.
    injection Hd as <- <-. exists s'. split; [|done]. unfold read_data.
    rewrite (bind_Ok _ _ _ _ _ (expect_Ok _ _ _ _ Hread)), bind_get. cbn [ad_start ad_len fst].
    destruct (stored_split r payload Hr Hcap) as (pre & post & Hbuf & Hpre & _).
    rewrite Hbuf, <-Hpre, sub_Some by len. rewrite drop_app_length, take_app_length' by lia.
    cbv beta iota delta [unwrap mbind M_bind mret M_ret assert_eq].
    by rewrite !bool_decide_true by done.
  - destruct Hwp as (_ & [He|[?|(? & ? & [= <- <- _] & Hd & _)]]);
      [by eapply reliable_no_error|done|]. by rewrite decode_app_record in Hd.
Qed.

Theorem read_stream_passes payloads r (s : T) digest rest :
  reader_ready r -> Forall (fits r) payloads ->
  incoming s = mjoin (data_record <$> payloads) ++ rest ->
  exists r' s', read_stream r payloads (r, s, digest) = (Ok tt, (r', s', digest)) /\ incoming s' = rest.
Proof.
  revert r s. induction payloads as [|p ps IH]; intros r s Hr Hfit Hin; [by eauto|].
  apply Forall_cons in Hfit as [Hp Hps]. cbn [fmap list_fmap mjoin list_join] in Hin.
  rewrite <-(assoc_L (++)) in Hin.
  destruct (read_data_run r s digest p _ Hr Hp Hin) as (s' & Hrun & Hin').
  destruct (stored_ready r p Hr (proj1 Hp)) as [Hr' Hlen].
  simpl. rewrite (bind_Ok _ _ _ _ _ Hrun). apply IH; [done| |done].
  eapply Forall_impl; [done|]. intros q [Hq1 Hq2]. split; [lia|done].
Qed.
End ReaderProps.

(** The stream of the tests, cut in any way: [can_read_blocking_case] at every size. *)
Corollary can_read_blocking_every_size `{CS : TlsCipherSuite} chunk_size :
  can_read_blocking_case chunk_size tt = (Ok tt, tt).
Proof.
  destruct (read_stream_passes [[xde; xad; xbe; xef]; [xaa; xbb]] (RecordReader_new (zeros 32))
    (mkChunked two_records [] (chunk_size - 1)) (transcript_hash KeySchedule_new) []) as (r' & s' & Hrun & _).
  - split; vm_compute; lia.
  - repeat constructor; vm_compute; (lia || discriminate).
  - reflexivity.
  - unfold can_read_blocking_case, run_on, can_read, zoom.
    cbn [read_stream] in Hrun. change (decoded (stored (RecordReader_new _) _)) with 4 in Hrun.
    change (decoded _) with 6 in Hrun. revert Hrun. unfold mbind, M_bind, mret, M_ret.
    destruct (read_data _ 4 _) as [[[]|?| |] st]; try done.
    destruct (read_data _ 6 st) as [[[]|?| |] st']; try done.
Qed.
