(* ===== verification/MessageTests.v ===== *)
(** The unit tests of the messages, the key schedule and the host names: client_hello.rs,
    server_hello.rs, encrypted_extensions.rs, key_share.rs, pre_shared_key.rs,
    key_schedule.rs and pki.rs.

    Each test is translated as a computation that panics where an assertion fails, and
    evaluated.  The tests of the key schedule have their keys and transcripts as
    parameters: what they accept, and the flipped bit they reject, is proved for all of
    them and every cipher suite. *)

From S2P Require Import Prelude Errors CryptoBuffer ParseBuffer Wire ExtensionData Extensions.
From S2P Require Import CryptoSuite KeySchedule KeyScheduleProps ClientHello Handshake Hostname.
From S2P Require Import Server TestClient TestSteps SelfLoop BufferTests.
From Stdlib Require Import ZArith Lia.
From Stdlib Require Import Strings.Byte.
From Stdlib Require Strings.String.
From stdpp Require Import base list option numbers tactics sets.

Import Stdlib.Strings.String.StringSyntax.

Abbreviation Test := (M unit TlsError unit).

(** [assert_eq!(a, b)] *)
Definition assert_same {S A} `{!EqDecision A} (a b : A) : M S TlsError unit :=
  assert_ (bool_decide (a = b)).

(** ** key_share.rs *)

Definition test_parse_empty : Test :=
  result ← run_on (pb_new [x00; x17; x00; x00]) (expect KeyShareEntry_parse);
  assert_same Secp256r1 (ks_group result);;
  assert_same 0 (length (ks_opaque result)).

Definition test_parse : Test :=
  result ← run_on (pb_new [x00; x17; x00; x02; xaa; xbb]) (expect KeyShareEntry_parse);
  assert_same Secp256r1 (ks_group result);;
  assert_same 2 (length (ks_opaque result));;
  assert_eq [xaa; xbb] (ks_opaque result).

(** ** pre_shared_key.rs *)

(** An identity entry: its length, the bytes and the ticket age 0. *)
Definition identity_entry (identity : list byte) : M (list byte) TlsError unit :=
  extend (be_bytes 2 5);; extend identity;; extend (be_bytes 4 0).

(** The vector a test builds. *)
Definition built (m : M (list byte) TlsError unit) : list byte := snd (m []).

Definition parse_single_identity_and_binder : Test :=
  let identity := b_ "vader" in
  let binder := replicate 32 xab in
  let wire := built (
    extend (be_bytes 2 11);; identity_entry identity;;
    extend (be_bytes 2 33);; extend [u8 32];; extend binder) in
  '(psk, buf) ← with_local (pb_new wire) (expect (PreSharedKeyClientHello_parse 4));
  assert_same (length (identities psk)) 1;;
  id ← unwrap (identities psk !! 0); assert_eq id identity;;
  assert_same (length (binders psk)) 1;;
  b ← unwrap (binders psk !! 0); assert_eq b binder;;
  assert_same (hash_size psk) 32;;
  assert_ (is_empty buf).

Definition reject_undersized_binder : Test :=
  let wire := built (
    extend (be_bytes 2 11);; identity_entry (b_ "vader");;
    extend (be_bytes 2 17);; extend [u8 16];; extend (zeros 16)) in
  result ← run_on (pb_new wire) (try_ (PreSharedKeyClientHello_parse 4));
  assert_ (match result with inr InvalidData => true | _ => false end).

Definition reject_binder_count_mismatch : Test :=
  let wire := built (
    extend (be_bytes 2 22);; identity_entry (b_ "vader");; identity_entry (b_ "luke!");;
    extend (be_bytes 2 33);; extend [u8 32];; extend (zeros 32)) in
  result ← run_on (pb_new wire) (try_ (PreSharedKeyClientHello_parse 4));
  assert_ (match result with inr InvalidData => true | _ => false end).

Example extension_tests_pass :
  forallb (fun t => Loop.passes (t tt))
    [test_parse_empty; test_parse; parse_single_identity_and_binder; reject_undersized_binder;
     reject_binder_count_mismatch] = true.
Proof. vm_compute. reflexivity. Qed.

(** ** client_hello.rs *)

(** [c.is_ascii_hexdigit()] and the value of a digit in [from_str_radix(.., 16)] *)
Definition hex_digit (c : byte) : option Z :=
  if in_range x30 x39 c then Some (byte_val c - 0x30)%Z
  else if in_range x61 x66 c then Some (byte_val c - 0x61 + 10)%Z
  else if in_range x41 x46 c then Some (byte_val c - 0x41 + 10)%Z
  else None.

(** Digits two by two; an odd digit at the end slices out of range. *)
Fixpoint hex_pairs (digits : list Z) : option (list byte) :=
  match digits with
  | [] => Some []
  | hi :: lo :: digits' => bs ← hex_pairs digits'; Some (u8 (16 * hi + lo) :: bs)
  | [_] => None
  end.

Definition unhex {S} (s : list byte) : M S TlsError (list byte) := unwrap (hex_pairs (omap hex_digit s)).

(** The file test_data/rfc8448_client_hello.hex, one line there. *)
Definition RFC8448_CLIENT_HELLO_HEX : list byte :=
  b_ "010001fc03031bc3ceb6bbe39cff938355b5a50adb6db21b7a6af649d7b4bc419d7876487d9500000613011303130201
      0001cd0000000b0009000006736572766572ff01000100000a00140012001d0017001800190100010101020103010400
      3300260024001d0020e4ffb68ac05f8d96c99da26698346c6be16482badddafe051a66b4f18d668f0b002a0000002b00
      03020304000d0020001e040305030603020308040805080604010501060102010402050206020202002d00020101001c
      000240010015005700000000000000000000000000000000000000000000000000000000000000000000000000000000
      000000000000000000000000000000000000000000000000000000000000000000000000000000000000000000000000
      2900dd00b800b22c035d829359ee5ff7af4ec900000000262a6494dc486d2c8a34cb33fa90bf1b0070ad3c498883c936
      7c09a2be785abc55cd226097a3a982117283f82a03a143efd3ff5dd36d64e861be7fd61d2827db279cce145077d454a3
      664d4e6da4d29ee03725a6a4dafcd0fc67d2aea70529513e3da2677fa5906c5b3f7d8f92f228bda40dda721470f9fbf2
      97b5aea617646fac5c03272e970727c621a79141ef5f7de6505e5bfbc388e93343694093934ae4d357fad6aacb002120
      3add4fb2d8fdf822a0ca3cf7678ef5e88dae990141c5924d57bb6fa31b9e5f9d".

(** What the loop of the test records of the extensions. *)
Record Seen : Type := mkSeen {
  saw_supported_versions : bool;
  saw_psk_modes : bool;
  saw_pre_shared_key : bool;
  psk_identity_len : nat;
  binder_bytes : list byte;
}.

Definition see (ext : ClientHelloExtension) : M Seen TlsError unit :=
  s ← get;
  match ext with
  | CH_SupportedVersions _ =>
      put (mkSeen true (saw_psk_modes s) (saw_pre_shared_key s) (psk_identity_len s) (binder_bytes s))
  | CH_PskKeyExchangeModes ms =>
      put (mkSeen (saw_supported_versions s) true (saw_pre_shared_key s) (psk_identity_len s) (binder_bytes s));;
      assert_ (bool_decide (PskDheKe ∈ modes ms))
  | CH_PreSharedKey psk =>
      assert_same (length (identities psk)) 1;;
      assert_same (length (binders psk)) 1;;
      id ← unwrap (identities psk !! 0);
      b ← unwrap (binders psk !! 0);
      put (mkSeen (saw_supported_versions s) (saw_psk_modes s) true (length id) b)
  | _ => mret tt
  end.

Definition parse_rfc8448_client_hello : Test :=
  bytes ← unhex RFC8448_CLIENT_HELLO_HEX;
  assert_same (length bytes) 512;;
  hello ← run_on (pb_new bytes) (expect (ClientHelloRef_parse 16));
  assert_same (legacy_version hello) 0x0303%Z;;
  expected ← unhex (b_ "1bc3ceb6bbe39cff938355b5a50adb6db21b7a6af649d7b4bc419d7876487d95");
  assert_eq (random hello) expected;;
  assert_eq (legacy_session_id hello) [];;
  assert_eq (cipher_suites hello) [x13; x01; x13; x03; x13; x02];;
  assert_eq (legacy_compression_methods hello) [x00];;
  assert_same (binders_start_offset hello) 477;;
  '(_, seen) ← with_local (mkSeen false false false 0 []) (for_each (extensions hello) see);
  assert_ (saw_supported_versions seen);;
  assert_ (saw_psk_modes seen);;
  assert_ (saw_pre_shared_key seen);;
  assert_same (psk_identity_len seen) 178;;
  expected ← unhex (b_ "3add4fb2d8fdf822a0ca3cf7678ef5e88dae990141c5924d57bb6fa31b9e5f9d");
  assert_eq (binder_bytes seen) expected.

Example rfc8448_bytes : unhex RFC8448_CLIENT_HELLO_HEX tt = (Ok rfc8448_client_hello, tt).
Proof. vm_compute. reflexivity. Qed.

(** ** server_hello.rs *)

Definition find_selected_identity (e : ServerHelloExtension) : option Z :=
  match e with SH_PreSharedKey p => Some (selected_identity p) | _ => None end.
Definition find_selected_version (e : ServerHelloExtension) : option ProtocolVersion :=
  match e with SH_SupportedVersions v => Some (selected_version v) | _ => None end.

(** [assert_eq!(&written[a..b], xs)] *)
Definition slice_is {S} (l : list byte) (a b : nat) (xs : list byte) : M S TlsError unit :=
  ys ← unwrap (sub l a b); assert_eq ys xs.

Definition server_hello_emit_round_trip : Test :=
  let random := replicate 32 x42 in
  let session_id := [x01; x02; x03; x04] in
  let emit := mkEmit random session_id 0x1301
    [SH_SupportedVersions (mkVersionsSH TLS13); SH_PreSharedKey (mkPskSH 0)] in
  '(_, crypto) ← with_local (wrap (zeros 256)) (expect (ServerHelloEmit_encode emit));
  let written_len := cb_len crypto in
  written ← unwrap (sub (cb_buf crypto) 0 written_len);
  let expected_min := 2 + 32 + 1 + 4 + 2 + 1 + 2 + 6 + 6 in
  assert_same written_len expected_min;;
  slice_is written 0 2 [x03; x03];;
  slice_is written 2 34 random;;
  b ← unwrap (written !! 34); assert_same b x04;;
  slice_is written 35 39 session_id;;
  slice_is written 39 41 [x13; x01];;
  b ← unwrap (written !! 41); assert_same b x00;;
  parsed ← run_on (pb_new written) (expect ServerHello_parse);
  let psk_id := find_map find_selected_identity (sh_extensions parsed) in
  assert_same psk_id (Some 0%Z);;
  let sv := find_map find_selected_version (sh_extensions parsed) in
  assert_same sv (Some TLS13).

Definition server_hello_emit_rejects_oversized_session_id : Test :=
  let oversized := zeros 33 in
  let emit := mkEmit (zeros 32) oversized 0x1301 [] in
  result ← run_on (wrap (zeros 256)) (try_ (ServerHelloEmit_encode emit));
  assert_ (match result with inr EncodeError => true | _ => false end).

(** ** encrypted_extensions.rs *)

Definition encrypted_extensions_empty_round_trip : Test :=
  '(_, buf) ← with_local (wrap (zeros 16)) (expect (EncryptedExtensionsEmit_encode []));
  assert_same (cb_len buf) 2;;
  slice_is (cb_buf buf) 0 2 [x00; x00];;
  bytes ← unwrap (sub (cb_buf buf) 0 2);
  run_on (pb_new bytes) (expect EncryptedExtensions_parse).

Example hello_tests_pass :
  forallb (fun t => Loop.passes (t tt))
    [parse_rfc8448_client_hello; server_hello_emit_round_trip;
     server_hello_emit_rejects_oversized_session_id; encrypted_extensions_empty_round_trip] = true.
Proof. vm_compute. reflexivity. Qed.

(** ** pki.rs *)

(** [assert!(tls_hostname_match_impl(cn, host))] and its negation *)
Definition name_accepted (cn host : list byte) : Test :=
  b ← tls_hostname_match_impl cn host; assert_ b.
Definition name_rejected (cn host : list byte) : Test :=
  b ← tls_hostname_match_impl cn host; assert_ (negb b).

Definition exact_match : Test :=
  name_accepted (b_ "example.com") (b_ "example.com");;
  name_accepted (b_ "EXAMPLE.COM") (b_ "example.com");;
  name_accepted (b_ "example.com") (b_ "EXAMPLE.COM").

Definition exact_mismatch : Test :=
  name_rejected (b_ "example.com") (b_ "example.org");;
  name_rejected (b_ "example.com") (b_ "sub.example.com").

Definition valid_wildcard_match : Test :=
  name_accepted (b_ "*.example.com") (b_ "api.example.com");;
  name_accepted (b_ "*.example.com") (b_ "WWW.example.com").

Definition wildcard_single_label_only : Test :=
  name_rejected (b_ "*.example.com") (b_ "a.b.example.com").

Definition wildcard_requires_same_label_count : Test :=
  name_rejected (b_ "*.example.com") (b_ "example.com");;
  name_rejected (b_ "*.example.com") (b_ "deep.api.example.com").

Definition wildcard_must_be_leftmost_label : Test :=
  name_rejected (b_ "api.*.example.com") (b_ "api.test.example.com");;
  name_rejected (b_ "foo*.example.xx") (b_ "foobar.example.xx").

Definition wildcard_requires_minimum_three_labels : Test :=
  name_rejected (b_ "*.com") (b_ "example.com");;
  name_rejected (b_ "*.org") (b_ "test.org").

Definition multiple_wildcards_rejected : Test :=
  name_rejected (b_ "*.*.example.com") (b_ "a.b.example.com");;
  name_rejected (b_ "**.example.com") (b_ "api.example.com").

Definition idna_a_label_supported : Test :=
  name_accepted (b_ "xn--bcher-kva.example") (b_ "xn--bcher-kva.example");;
  name_accepted (b_ "*.xn--bcher-kva.example") (b_ "api.xn--bcher-kva.example").

(** "bücher" in UTF-8 *)
Definition bucher : list byte := [x62; xc3; xbc; x63; x68; x65; x72].

Definition unicode_rejected : Test :=
  name_rejected (bucher ++ b_ ".example") (bucher ++ b_ ".example");;
  name_rejected (b_ "*." ++ bucher ++ b_ ".example") (b_ "api." ++ bucher ++ b_ ".example").

Definition invalid_characters_rejected : Test :=
  name_rejected (b_ "example!.com") (b_ "example!.com");;
  name_rejected (b_ "example.com") (b_ "exa mple.com").

Example hostname_tests_pass :
  forallb (fun t => Loop.passes (t tt))
    [exact_match; exact_mismatch; valid_wildcard_match; wildcard_single_label_only;
     wildcard_requires_same_label_count; wildcard_must_be_leftmost_label;
     wildcard_requires_minimum_three_labels; multiple_wildcards_rejected; idna_a_label_supported;
     unicode_rejected; invalid_characters_rejected] = true.
Proof. vm_compute. reflexivity. Qed.

(** ** key_schedule.rs *)

Section ScheduleTests.
Context `{CS : TlsCipherSuite}.

(** [v[0] ^= 0x01] *)
Definition flip_first {S} (v : list byte) : M S TlsError (list byte) :=
  b ← unwrap (v !! 0); mret (<[0 := u8 (Z.lxor (byte_val b) 1)]> v).

(** [ks.initialize_early_secret(Some(&psk)).unwrap()] and, for the Finished messages,
    [ks.initialize_handshake_secret(&[0; 32]).unwrap()] and the transcript. *)
Definition early_schedule (psk : list byte) : M KeySchedule TlsError unit :=
  expect (initialize_early_secret (Some psk)).
Definition handshake_schedule (psk transcript : list byte) : M KeySchedule TlsError unit :=
  early_schedule psk;;
  expect (initialize_handshake_secret (zeros 32));;
  transcript_update transcript.

Definition psk_binder_create_then_verify (psk transcript other_transcript : list byte) :
    M KeySchedule TlsError unit :=
  early_schedule psk;;
  ks ← get;
  binder ← expect (create_psk_binder (client_state ks) transcript);
  ok ← expect (verify_psk_binder ks transcript (binder_verify binder));
  assert_ ok;;
  tampered ← flip_first (binder_verify binder);
  ok ← expect (verify_psk_binder ks transcript tampered);
  assert_ (negb ok);;
  ok ← expect (verify_psk_binder ks other_transcript (binder_verify binder));
  assert_ (negb ok).

Definition server_finished_round_trip (psk transcript : list byte) : M KeySchedule TlsError unit :=
  handshake_schedule psk transcript;;
  ks ← get;
  finished ← expect (create_server_finished ks);
  let hash := Some (digest_out (transcript_hash ks)) in
  ok ← expect (verify_server_finished (server_state ks) (mkFinished (verify finished) hash));
  assert_ ok;;
  tampered ← flip_first (verify finished);
  ok ← expect (verify_server_finished (server_state ks) (mkFinished tampered hash));
  assert_ (negb ok).

Definition client_finished_round_trip (psk other_psk transcript : list byte) : M KeySchedule TlsError unit :=
  handshake_schedule psk transcript;;
  ks ← get;
  finished ← expect (create_client_finished ks);
  let finished := mkFinished (verify finished) (Some (digest_out (transcript_hash ks))) in
  ok ← expect (verify_client_finished ks finished);
  assert_ ok;;
  '(_, ks_other) ← with_local KeySchedule_new (handshake_schedule other_psk transcript);
  ok ← expect (verify_client_finished ks_other finished);
  assert_ (negb ok).

Definition psk_binder_wrong_length_rejected (psk transcript too_short too_long : list byte) :
    M KeySchedule TlsError unit :=
  early_schedule psk;;
  ks ← get;
  ok ← expect (verify_psk_binder ks transcript too_short);
  assert_ (negb ok);;
  ok ← expect (verify_psk_binder ks transcript too_long);
  assert_ (negb ok).
End ScheduleTests.

Example key_schedule_tests_pass :
  forallb (fun t => Loop.passes (t (KeySchedule_new (CS := Toy.suite))))
    [psk_binder_create_then_verify (replicate 32 x42)
       ([x01; x00; x01; xfc] ++ b_ "the rest of a partial ClientHello prefix")
       (b_ "this is a different transcript entirely");
     server_finished_round_trip (replicate 32 xa5) (b_ "ClientHello||ServerHello");
     client_finished_round_trip (replicate 32 x33) (replicate 32 x77) (b_ "transcript through server Finished");
     psk_binder_wrong_length_rejected (replicate 32 x77) (b_ "prefix") (zeros 16) (zeros 64)] = true.
Proof. vm_compute. reflexivity. Qed.

(** One asserted call of a test. *)
Tactic Notation "expects" uconstr(H) := rewrite (bind_Ok _ _ _ _ _ (expect_Ok _ _ _ _ H)).

Section ScheduleProps.
Context `{CS : TlsCipherSuite, !TlsCipherSuiteLaws CS}.

(** The base keys the tests reach. *)
Definition binder_base (psk : list byte) : list byte :=
  Derive_Secret (Extract (zeros HashLen) psk) (b_ "ext binder") [].
Definition handshake_prk (psk : list byte) : list byte :=
  Extract (Derive_Secret (Extract (zeros HashLen) psk) (b_ "derived") []) (zeros 32).
Definition finished_base (label psk : list byte) : list byte :=
  Derive_Secret (handshake_prk psk) label [].

Lemma flip_first_run {S} mac (s : S) :
  length mac = HashLen -> exists v, flip_first mac s = (Ok v, s) /\ v <> mac.
Proof.
  intros Hl. pose proof hash_len as H32. destruct mac as [|b mac]; [simpl in Hl; lia|].
  eexists. split; [reflexivity|]. simpl. intros [= Hb]. by destruct b.
Qed.

Lemma early_schedule_run psk :
  exists ks, early_schedule psk KeySchedule_new = (Ok tt, ks) /\
    binder_key (client_state ks) = secret_of (binder_base psk).
Proof.
  eexists. split; [apply expect_Ok, initialize_early_secret_spec|]. reflexivity.
Qed.

Lemma handshake_schedule_run psk t :
  exists ks, handshake_schedule psk t KeySchedule_new = (Ok tt, ks) /\ transcript_hash ks = t /\
    traffic_secret (w_state (client_state ks)) = secret_of (finished_base (b_ "c hs traffic") psk) /\
    traffic_secret (r_state (server_state ks)) = secret_of (finished_base (b_ "s hs traffic") psk).
Proof.
  eexists. split.
  - unfold handshake_schedule, early_schedule. expects (initialize_early_secret_spec (Some psk) KeySchedule_new).
    expects (initialize_handshake_secret_spec (zeros 32) _). reflexivity.
  - split_and!; reflexivity.
Qed.

Lemma length_binder_base psk : HashLen <= length (binder_base psk).
Proof. unfold binder_base. rewrite length_Derive_Secret; [done|]. by rewrite length_Extract. Qed.
Lemma length_finished_base l psk : HashLen <= length (finished_base l psk).
Proof. unfold finished_base, handshake_prk. rewrite length_Derive_Secret; [done|]. by rewrite length_Extract. Qed.

Lemma psk_binder_test psk t other :
  Finished_Mac (binder_base psk) t <> Finished_Mac (binder_base psk) other ->
  exists ks, psk_binder_create_then_verify psk t other KeySchedule_new = (Ok tt, ks).
Proof.
  intros Hother.
  destruct (early_schedule_run psk) as (ks & Hks & Hb). exists ks.
  pose proof (length_binder_base psk) as Hlen. unfold psk_binder_create_then_verify.
  rewrite (bind_Ok _ _ _ _ _ Hks), bind_get.
  expects (create_psk_binder_spec _ _ t ks Hlen Hb).
  cbn [binder_verify].
  expects (verify_psk_binder_spec _ ks t _ ks Hlen Hb).
  rewrite bind_assert by (by apply bool_decide_true).
  destruct (flip_first_run (Finished_Mac (binder_base psk) t) ks) as (v & Hv & Hne); [apply length_Finished_Mac|].
  rewrite (bind_Ok _ _ _ _ _ Hv).
  expects (verify_psk_binder_spec _ ks t _ ks Hlen Hb).
  rewrite bind_assert by (by rewrite bool_decide_false).
  expects (verify_psk_binder_spec _ ks other _ ks Hlen Hb).
  by rewrite bool_decide_false.
Qed.

Lemma server_finished_test psk t :
  exists ks, server_finished_round_trip psk t KeySchedule_new = (Ok tt, ks).
Proof.
  destruct (handshake_schedule_run psk t) as (ks & Hks & <- & _ & Hf). exists ks.
  pose proof (length_finished_base (b_ "s hs traffic") psk) as Hlen. unfold server_finished_round_trip.
  rewrite (bind_Ok _ _ _ _ _ Hks), bind_get.
  expects (create_server_finished_spec _ ks ks Hlen Hf).
  cbn [verify].
  expects (verify_server_finished_spec _ (server_state ks) _ _ ks Hlen Hf).
  rewrite bind_assert by (by apply bool_decide_true).
  edestruct (flip_first_run (Finished_Mac (finished_base (b_ "s hs traffic") psk) (transcript_hash ks)) ks)
    as (v & Hv & Hne); [apply length_Finished_Mac|]. rewrite (bind_Ok _ _ _ _ _ Hv).
  expects (verify_server_finished_spec _ (server_state ks) _ _ ks Hlen Hf).
  by rewrite bool_decide_false.
Qed.

Lemma client_finished_test psk other_psk t :
  Finished_Mac (finished_base (b_ "c hs traffic") psk) t <> Finished_Mac (finished_base (b_ "c hs traffic") other_psk) t ->
  exists ks, client_finished_round_trip psk other_psk t KeySchedule_new = (Ok tt, ks).
Proof.
  intros Hpsk.
  destruct (handshake_schedule_run psk t) as (ks & Hks & Ht & Hf & _). exists ks.
  destruct (handshake_schedule_run other_psk t) as (ko & Hko & Hto & Hfo & _).
  pose proof (length_finished_base (b_ "c hs traffic") psk) as Hlen.
  pose proof (length_finished_base (b_ "c hs traffic") other_psk) as Hleno. unfold client_finished_round_trip.
  rewrite (bind_Ok _ _ _ _ _ Hks), bind_get.
  expects (create_client_finished_spec _ ks ks Hlen Hf).
  cbn [verify]. rewrite Ht.
  expects (verify_client_finished_spec _ ks t _ ks Hlen Hf).
  rewrite bind_assert by (by apply bool_decide_true).
  rewrite (bind_Ok _ _ _ (tt, ko) ks) by (unfold with_local; by rewrite Hko).
  expects (verify_client_finished_spec _ ko t _ ks Hleno Hfo).
  by rewrite bool_decide_false.
Qed.

Lemma wrong_length_test psk t too_short too_long :
  length too_short <> HashLen -> length too_long <> HashLen ->
  exists ks, psk_binder_wrong_length_rejected psk t too_short too_long KeySchedule_new = (Ok tt, ks).
Proof.
  intros Hs Hl.
  destruct (early_schedule_run psk) as (ks & Hks & Hb). exists ks.
  pose proof (length_binder_base psk) as Hlen. unfold psk_binder_wrong_length_rejected.
  assert (forall v, length v <> HashLen -> v <> Finished_Mac (binder_base psk) t) as Hne.
  { intros v Hv ->. by rewrite length_Finished_Mac in Hv. }
  rewrite (bind_Ok _ _ _ _ _ Hks), bind_get.
  expects (verify_psk_binder_spec _ ks t _ ks Hlen Hb).
  rewrite bind_assert by (rewrite bool_decide_false; [done|by apply Hne]).
  expects (verify_psk_binder_spec _ ks t _ ks Hlen Hb).
  rewrite bool_decide_false; [done|by apply Hne].
Qed.

(** The four tests pass for all keys and transcripts.  What they reject besides a
    flipped bit and a wrong length is what the MAC separates: another transcript, and
    another PSK. *)
Theorem key_schedule_tests psk other_psk t other too_short too_long :
  Finished_Mac (binder_base psk) t <> Finished_Mac (binder_base psk) other ->
  Finished_Mac (finished_base (b_ "c hs traffic") psk) t <> Finished_Mac (finished_base (b_ "c hs traffic") other_psk) t ->
  length too_short <> HashLen -> length too_long <> HashLen ->
  Forall (fun test => exists ks, test KeySchedule_new = (Ok tt, ks))
    [psk_binder_create_then_verify psk t other; server_finished_round_trip psk t;
     client_finished_round_trip psk other_psk t;
     psk_binder_wrong_length_rejected psk t too_short too_long].
Proof.
  intros Hother Hpsk Hs Hl. repeat apply Forall_cons_2; [| | | |apply Forall_nil_2].
  - by apply psk_binder_test.
  - apply server_finished_test.
  - by apply client_finished_test.
  - by apply wrong_length_test.
Qed.
End ScheduleProps.
